(* ===== verification/_CoqProject ===== *)
-Q . S2P
Prelude.v
JsNumber.v
JsBuffer.v
JsString.v
Json.v
JsonRoundtrip.v
Objects.v
Msg.v
Utils.v
Browser.v
Api.v
ApiProps.v
App.v
AppProps.v
File.v
Config.v
Callbacks.v
CallbacksProps.v
Deferred.v
DeferredInv.v
DeferredProps.v
DeferredReady.v
JsMath.v
Mouse.v
MouseProps.v
Slider.v
SliderProps.v
ClassNames.v
Widget.v
WidgetProps.v
Bridge.v
BridgeProps.v
JsDate.v
DateFormat.v
DateFormatProps.v
Datepicker.v
DatepickerProps.v
DataCache.v
Position.v
PositionProps.v
Events.v
EventNames.v
EventsInv.v
EventsProps.v
EventsDispatch.v
SizzleText.v
SizzleTokens.v
SizzleDom.v
SizzleFilters.v
SizzleChild.v
SizzleMatch.v
SizzleMatchProps.v
SizzleLex.v
SizzleRunProps.v
SizzleSelect.v
SizzleDocument.v
SizzleSelectProps.v
SizzlePage.v
SizzleDemo.v
Suggestions.v
Menu.v
MenuProps.v
Autocomplete.v
AutocompleteFrame.v
AutocompleteProps.v
AutocompleteDemo.v
Spinner.v
SpinnerProps.v
Collections.v
Tabs.v
TabsInv.v
TabsProps.v
Selectmenu.v
SelectmenuProps.v
