(* ===== verification/Prelude.v ===== *)
(** * The VILLASnode web client

    VILLASnode is a gateway for real-time simulation data.  Its JavaScript is the
    web client under src/web/socket, with the libraries it is shipped with
    (jQuery 3.2.0 and jQuery UI 1.12.1), and the scripted configuration under
    src/etc/js.  This library models that code and proves what the client
    relies on.  The gateway itself (C++) is not part of it.

    ** How the program works

    A page asks the gateway for its nodes over one WebSocket (api.js, JSON text),
    picks a node, and opens a second WebSocket to it (app.js).  Samples arrive
    there as binary messages (msg.js), are cut to a time window and plotted; a
    slider and check boxes produce samples that are sent back.  A second slider
    sets the rate of the redraw timer.  The sliders are jQuery UI widgets: they
    sit on the widget base (options, classes, handlers), on the bridge that
    makes widgets methods of collections, and on the mouse interaction.  The page
    starts from the document's ready event, a deferred on callback lists.

    ** Conventions

    - A JavaScript number is a binary64 of [SpecFloat]; the few quantities the
      code keeps below 2^53 by construction (indices, sequence numbers, time
      values) are [Z], with the wrap-around of bit operations written out.
    - A string is a list of UTF-16 code units, an ArrayBuffer a list of bytes.
    - Fallible code returns [result]; code that changes state is in the monad
      [eff], whose state survives an exception as it does in JavaScript; code
      that calls back without a bound is in [proc] (Callbacks.v), where [None]
      is an execution that has not finished within its fuel.
    - Objects with identity (sockets, timers, deferreds, caches) live in stores.
    - Code outside src/ is an argument: the browser's clock, layout and byte
      order, [Math.random], the plotting library, the time zone.

    ** The files

    Foundations: Prelude.v (errors, monads, record update), JsNumber.v and
    JsMath.v (numbers), JsBuffer.v (ArrayBuffer, DataView, Float32Array),
    JsString.v, JsDate.v (calendar, time zones, Date), Json.v and
    JsonRoundtrip.v (JSON.stringify and JSON.parse), Objects.v (property keys and
    the members every object inherits), Browser.v (sockets, timers, page address).

    The client, src/web/socket:
    - Msg.v: msg.js.  A message is the record [msg]; [fromArrayBuffer],
      [fromArrayBufferVector] and [toArrayBuffer] are the methods of that name.
    - Utils.v: utils.js.  File.v: file.js.
    - Api.v, ApiProps.v: api.js over the class [ApiHost], what the object needs
      from its page; App.v implements it.
    - App.v, AppProps.v: app.js.  [app] is the record of its global variables,
      [handle] dispatches the events of the page to the handlers, [enabled] says
      when an event can happen; properties of all runs are by induction on the
      list of events.
    - Config.v: src/etc/js.

    jQuery, src/web/socket/jquery/jquery-3.2.0.js:
    - Callbacks.v, CallbacksProps.v: [jQuery.Callbacks] over the class [CbHost],
      which says where a list is kept, so that one definition serves a list on
      its own and the six lists of every deferred.
    - Deferred.v, DeferredInv.v, DeferredProps.v, DeferredReady.v: [Deferred],
      [then], [when] and ready; all deferreds in one world with the queue of timeouts, user
      functions as scripts that may do anything to any deferred.
    - ClassNames.v: addClass, removeClass, toggleClass, hasClass.
    - DataCache.v: the caches behind [jQuery.data].
    - Events.v, EventNames.v, EventsInv.v, EventsProps.v, EventsDispatch.v:
      [jQuery.event] (add, remove, dispatch, trigger, special events) and [on],
      [one], [off], [trigger]; the handlers of all elements in one world, user
      handlers as an argument that may do anything to it.
    - SizzleText.v (identifiers and escapes), SizzleTokens.v and SizzleLex.v
      (tokenize), SizzleDom.v (the classes [Tree] and [TreeLaws], what is read of
      the browser), SizzleFilters.v and SizzleChild.v (the tests of Expr.filter),
      SizzleMatch.v, SizzleMatchProps.v and SizzleRunProps.v (compiled matchers
      and their caches), SizzleSelect.v, SizzleDocument.v and
      SizzleSelectProps.v ([select] and its shortcuts), SizzlePage.v (documents
      as an instance of the classes), SizzleDemo.v (examples).

    jQuery UI, src/web/socket/jquery-ui-1.12.1/jquery-ui.js:
    - Widget.v, WidgetProps.v: $.widget.extend and $.Widget.prototype.
    - Bridge.v, BridgeProps.v: $.widget.bridge over the class [BridgeHost]; the
      base widget implements it.
    - Mouse.v, MouseProps.v: $.ui.mouse over the class [MouseClient]; Slider.v
      implements it.
    - Slider.v, SliderProps.v: $.ui.slider.
    - DateFormat.v, DateFormatProps.v: formatDate, parseDate, iso8601Week.
    - Datepicker.v, DatepickerProps.v: the dates a date picker keeps.
    - Position.v, PositionProps.v: $.fn.position and $.ui.position.
    - Suggestions.v: the regular expression and the filter of $.ui.autocomplete.
      Menu.v, MenuProps.v: $.ui.menu with one level, over the class [MenuClient],
      which Autocomplete.v implements.  Autocomplete.v, AutocompleteFrame.v,
      AutocompleteProps.v: $.ui.autocomplete, whose [ac_step] is one event of the
      user, of a timer or of the source; AutocompleteDemo.v: examples.
    - Selectmenu.v, SelectmenuProps.v: $.ui.selectmenu, the other client of
      [MenuClient]; [select_step] is one event of the user or of a timer, a method,
      or a change of the element by the page.
    - Spinner.v, SpinnerProps.v: $.ui.spinner, whose [sp_step] is one event of the
      user or of a timer, or a method.
    - Tabs.v, TabsInv.v, TabsProps.v: $.ui.tabs, whose [tab_step] is one event of
      the user, of a timer, of the server or of an animation, or a method.
    - Collections.v: [eq] and [index] of jQuery's collections, for tabs and select
      menus.

    ** What is shown

    - Samples: a vector of messages survives the wire with its values rounded to
      binary32; a message that is cut is refused; the parser terminates; what is
      sent is what the controls show; what arrives is plotted, old samples go.
    - Remote calls: a request is read back by the server as it was meant (the
      JSON round trip), and a response reaches the handler of its request once;
      ids are property keys, and name inherited members as well.
    - The page: at most one redraw timer, sockets only advance, samples between
      two connections are dropped, the node of the URL or the first is chosen.
    - Callbacks and deferreds: callback lists refine a list of registered
      functions; a deferred settles once, whatever its callbacks do; ready runs
      every function once and in order, whenever it was registered; [then] and
      [when] are evaluated for arbitrary values and outcomes.
    - Events: what an event runs is settled when its dispatch begins and runs in
      the order of the document and of binding; [off] removes exactly what it
      names; the registry of handlers and the native listeners agree.
    - Selectors: [select] returns exactly the elements a selector without
      :nth-last-child means, in document order, whatever the shortcuts and the
      caches of results do (with :nth-last-child a cache can be wrong:
      [wrong_from_the_end]); the tokenizer ends; escaped identifiers are read back.
    - Widgets: a destroyed instance leaves no class and no handler behind; the
      class attribute implements a list of names; options are set and read back,
      through the bridge as well; the mouse keeps its protocol; a slider is drawn
      where its values are, and its values are the closest steps.
    - Suggestions: answers in any order are counted, and shown only in the order
      of the requests; what is closed stays closed until a new search; escape
      gives back the typed text; change is triggered when the text has changed;
      a term means itself.  Menus: the arrow keys go round the items, and only
      the active item is highlighted.
    - Select menus: the button shows the selected option; select and change tell of
      every change; keys, clicks and methods do not select what is disabled.
    - Spinners: what is written lies between the bounds; on integers a step is
      exact; spins happen between a start and a stop, and none after the stop.
    - Tabs: exactly the panel of the active tab is shown, whatever is opened,
      disabled, added or removed; a disabled tab is never opened; the search for
      the next tab ends, with the closest one that can be opened.
    - Dates: formats round-trip; the selected date stays between the bounds of
      the time at which it was selected, or is NaN beyond the range of Dates;
      months are navigated exactly; week numbers agree with ISO 8601.
    - Positions: the named points meet; [fit] is the closest position inside;
      [flip] moves only to a better one.  The data caches implement a map behind
      which lie the members every object inherits.

    ** Interfaces and their laws

    [TreeLaws] and [DocumentLaws] (the documented behaviour of the DOM),
    [BridgeLaws], [MouseClientLaws] and the laws of [CbHost] are
    hypotheses of the theorems that mention the class; each has an instance in
    the library, and each theorem with a hypothesis an example that applies it.
    Nothing is assumed of time zones in general: a theorem about dates says of the
    days it is about what the clock shows there ([on_clock], [day_begins],
    [regular_year]).

    ** Fuel and bounds

    - [fromArrayBufferVector] has fuel for every byte; every message consumes
      some.  [remove_token], [remove_loop], [split_lines] and the parsers of
      texts take the length of their argument; each step shortens it.
    - [shortest_digits] tries 21 digits and [digits_of] 17, which determine a
      binary64; [climb] corrects an estimate that is off by less than three.  [pad_left] has the width as fuel.
    - [month_loop] has 36 months: the loop takes the days of a month from a day
      of the year, which is at most three digits long.
    - The walks of matchers over ancestors and preceding siblings take the number
      of the node in document order; [unescape] and the tokenizer take the
      length of the text ([tokenize_total]).
    - The search for the next tab has a round for every tab and one more; a loop
      that has not ended by then repeats itself for ever ([next_tab]).
    - Callback lists and deferreds have fuel for nested calls; the theorems state
      a fuel that is enough, or hold for every fuel.
    - The numeric theorems assume integers far below 2^53, as pixels, dates and
      time values are.

    ** Not modelled

    The C++ core, its plug-ins and clients (another language); drawing of plots
    (flot) and logging; of jQuery the DOM, CSS, animation and ajax, of its selector
    engine the matchers of positions and of nested selectors, of its event
    objects the fields taken from the native event; of jQuery UI the factory of constructors, effects, and
    most widgets the client does not use; of the date picker its HTML, its
    keyboard and changes of its settings; of menus the submenus; of select menus
    widths, positions and ARIA attributes; of spinners the buttons' elements; of tabs the heights
    of panels; external/jquery/jquery.js, an older copy
    of jQuery. *)

From Stdlib Require Export ZArith Lia.
From stdpp Require Export base list gmap strings.

#[export] Set Default Goal Selector "!".
#[global] Open Scope Z_scope.

(** ** Exceptions

    A JavaScript operation either completes with a value or throws. *)

Inductive js_error : Type :=
  | TypeError
  | RangeError
  | URIError
  | SyntaxError
  | ReferenceError
  | UserError (message : string).

Inductive result (A : Type) : Type :=
  | Ok (a : A)
  | Throw (e : js_error).

Arguments Ok {A} a.
Arguments Throw {A} e.

#[export] Instance result_ret : MRet result := fun A a => Ok a.
#[export] Instance result_bind : MBind result :=
  fun A B f m => match m with Ok a => f a | Throw e => Throw e end.
#[export] Instance result_fmap : FMap result :=
  fun A B f m => match m with Ok a => Ok (f a) | Throw e => Throw e end.

#[export] Instance js_error_eq_dec : EqDecision js_error.
Proof. solve_decision. Defined.

(** ** Deciding a property of the first natural numbers by evaluation *)

Definition below (n : nat) : list Z := Z.of_nat <$> seq 0 n.

Lemma forall_below (n : nat) (f : Z -> bool) :
  forallb f (below n) = true -> forall z, 0 <= z < Z.of_nat n -> f z = true.
Proof.
  intros Hf z Hz. rewrite forallb_forall in Hf. apply Hf.
  apply list_elem_of_In, list_elem_of_fmap. exists (Z.to_nat z).
  split; [lia|]. apply elem_of_seq. lia.
Qed.

(** Step through a monadic [result]. *)
Lemma result_bind_ok {A B} (m : result A) (f : A -> result B) a :
  m = Ok a -> m ≫= f = f a.
Proof. by intros ->. Qed.

Lemma result_bind_inv {A B} (m : result A) (f : A -> result B) b :
  m ≫= f = Ok b -> exists a, m = Ok a /\ f a = Ok b.
Proof. destruct m; [eauto|done]. Qed.

Lemma Ok_inj {A} (a b : A) : Ok a = Ok b -> a = b.
Proof. congruence. Qed.

(** ** Stateful code that can throw

    An exception does not undo the assignments made before it, so a
    computation returns a state in either case. *)

Definition eff (S A : Type) : Type := S -> result A * S.

#[export] Instance eff_ret {S} : MRet (eff S) := fun A a s => (Ok a, s).
#[export] Instance eff_bind {S} : MBind (eff S) :=
  fun A B f m s => match m s with
                   | (Ok a, s') => f a s'
                   | (Throw e, s') => (Throw e, s')
                   end.

Definition get {S} : eff S S := fun s => (Ok s, s).
Definition modify {S} (f : S -> S) : eff S unit := fun s => (Ok tt, f s).
Definition lift {S A} (r : result A) : eff S A := fun s => (r, s).
Definition throw {S A} (e : js_error) : eff S A := fun s => (Throw e, s).

(** Run a statement for every element, in order; an exception ends the loop. *)
Fixpoint for_each {S A} (f : A -> eff S unit) (l : list A) : eff S unit :=
  match l with
  | [] => mret tt
  | a :: l => f a ;; for_each f l
  end.

(** Run the primitive steps at the head of a computation. *)
Ltac eff_cbn :=
  repeat (progress (unfold mbind, eff_bind, mret, eff_ret, get, modify, lift, throw; cbn)).

Lemma eff_bind_ok {S A B} (m : eff S A) (f : A -> eff S B) s a s' :
  m s = (Ok a, s') -> (m ≫= f) s = f a s'.
Proof. intros H. unfold mbind, eff_bind. by rewrite H. Qed.

Lemma eff_bind_throw {S A B} (m : eff S A) (f : A -> eff S B) s e s' :
  m s = (Throw e, s') -> (m ≫= f) s = (Throw e, s').
Proof. intros H. unfold mbind, eff_bind. by rewrite H. Qed.

Lemma eff_bind_modify {S B} (g : S -> S) (f : unit -> eff S B) s : (modify g ≫= f) s = f tt (g s).
Proof. done. Qed.
Lemma eff_bind_get {S B} (f : S -> eff S B) s : (get ≫= f) s = f s s.
Proof. done. Qed.

(** A state predicate (or a reflexive and transitive relation to the first
    state) kept by both parts of a sequence is kept by the sequence. *)
Definition keeps {S A} (R : S -> S -> Prop) (m : eff S A) : Prop := forall s, R s (snd (m s)).

Lemma keeps_use {S A} (R : S -> S -> Prop) (m : eff S A) s : keeps R m -> R s (snd (m s)).
Proof. intros H. apply H. Qed.

Section Keeps.
Context {S : Type} (R : S -> S -> Prop) `{!PreOrder R}.

Lemma keeps_ret {A} (a : A) : keeps R (mret a : eff S A).
Proof. intros s. reflexivity. Qed.
Lemma keeps_lift {A} (r : result A) : keeps R (lift r : eff S A).
Proof. intros s. reflexivity. Qed.
Lemma keeps_throw {A} e : keeps R (throw e : eff S A).
Proof. intros s. reflexivity. Qed.
Lemma keeps_get : keeps R get.
Proof. intros s. reflexivity. Qed.
Lemma keeps_modify f : (forall s, R s (f s)) -> keeps R (modify f).
Proof. intros Hf s. apply Hf. Qed.

Lemma keeps_bind {A B} (m : eff S A) (f : A -> eff S B) :
  keeps R m -> (forall a, keeps R (f a)) -> keeps R (m ≫= f).
Proof.
  intros Hm Hf s. unfold mbind, eff_bind. specialize (Hm s).
  destruct (m s) as [[a|e] s']; [|done]. etrans; [exact Hm|apply Hf].
Qed.

Lemma keeps_for_each {A} (f : A -> eff S unit) l :
  (forall a, keeps R (f a)) -> keeps R (for_each f l).
Proof.
  intros Hf. induction l as [|a l IH]; [apply keeps_ret|]. by apply keeps_bind.
Qed.
End Keeps.

Create HintDb keeps.
#[export] Hint Resolve keeps_ret keeps_lift keeps_throw keeps_get keeps_bind keeps_for_each : keeps.

(** Decompose a computation to the primitive steps and the calls it makes;
    [modify] steps are closed by evaluation. *)
Ltac keeps_step R :=
  match goal with
  | |- forall _, _ => intro
  | |- keeps _ (let _ := _ in _) => cbv zeta
  | |- keeps _ (_ ≫= _) => apply (keeps_bind R)
  | |- keeps _ (mret _) => apply keeps_ret, _
  | |- keeps _ (lift _) => apply keeps_lift, _
  | |- keeps _ (throw _) => apply keeps_throw, _
  | |- keeps _ get => apply keeps_get, _
  | |- keeps _ (for_each _ _) => apply (keeps_for_each R)
  | |- keeps _ (match ?x with _ => _ end) => destruct x
  | |- keeps _ (modify _) => apply keeps_modify; intros ?; reflexivity
  end.
Ltac keeps_auto R := repeat keeps_step R; auto.

(** ** Postconditions

    [post m s Q]: run in [s], [m] ends with a result and a state related by [Q]. *)
Definition post {S A} (m : eff S A) (s : S) (Q : result A -> S -> Prop) : Prop :=
  Q (fst (m s)) (snd (m s)).

Section Post.
Context {S : Type}.

Lemma post_mono {A} (m : eff S A) s (P Q : result A -> S -> Prop) :
  post m s P -> (forall r s', P r s' -> Q r s') -> post m s Q.
Proof. intros H HPQ. apply HPQ, H. Qed.

Lemma post_bind {A B} (m : eff S A) (f : A -> eff S B) s (P : result A -> S -> Prop) Q :
  post m s P ->
  (forall a s', P (Ok a) s' -> post (f a) s' Q) ->
  (forall e s', P (Throw e) s' -> Q (Throw e) s') ->
  post (m ≫= f) s Q.
Proof.
  unfold post. intros Hm Hok Hth. unfold mbind, eff_bind.
  destruct (m s) as [[a|e] s']; cbn in Hm |- *; [by apply Hok|by apply Hth].
Qed.

Lemma post_bind_get {B} (f : S -> eff S B) s Q : post (f s) s Q -> post (get ≫= f) s Q.
Proof. done. Qed.

Lemma post_bind_ret {A B} (a : A) (f : A -> eff S B) s Q : post (f a) s Q -> post (mret a ≫= f) s Q.
Proof. done. Qed.

Lemma post_ret {A} (a : A) s (Q : result A -> S -> Prop) : Q (Ok a) s -> post (mret a) s Q.
Proof. done. Qed.

Lemma post_throw {A} e s (Q : result A -> S -> Prop) : Q (Throw e) s -> post (throw e) s Q.
Proof. done. Qed.

Lemma post_for_each {A} (f : A -> eff S unit) l (I : S -> Prop) s :
  (forall a s, I s -> post (f a) s (fun _ => I)) -> I s -> post (for_each f l) s (fun _ => I).
Proof.
  intros Hf. revert s. induction l as [|a l IH]; intros s Hs; [done|]. cbn [for_each].
  apply post_bind with (P := fun _ => I); [by apply Hf| |done]. intros [] s' Hs'. by apply IH.
Qed.
End Post.

(** ** Record update

    [s <| f := v |>] is the record [s] with field [f] replaced.  A record type
    provides its expansion as an instance of [Eta]; the update is built from it. *)

Class Eta (R : Type) := eta_fn : R -> R.
Class Setter {R T : Type} (proj : R -> T) := set_field : (T -> T) -> R -> R.

Ltac build_setter proj :=
  match type of proj with
  | ?R -> ?T =>
      let f := fresh "f" in let r := fresh "r" in
      change ((T -> T) -> R -> R); intros f r;
      let e := eval hnf in (eta_fn r) in
      match eval pattern (proj r) in e with
      | ?g _ => let b := eval cbv beta in (g (f (proj r))) in exact b
      end
  end.

#[export] Hint Extern 0 (Setter ?p) => build_setter p : typeclass_instances.

Declare Scope record_scope.
Notation "s <| p := v |>" := (set_field (proj := p) (fun _ => v) s)
  (at level 1, p at level 0, left associativity) : record_scope.
#[global] Open Scope record_scope.

Arguments set_field {R T} proj {Setter} / f r.
