(* ===== verification/JsNumber.v ===== *)
(** JavaScript numbers. *)
From Stdlib Require Export SpecFloat.
From S2P Require Import Prelude.

(** ** Facts about [SpecFloat] rounding, for any format *)

Lemma digits2_pos_log2 (p : positive) :
  Zpos (digits2_pos p) = Z.log2 (Zpos p) + 1.
Proof.
  induction p as [p IH|p IH|]; cbn [digits2_pos]; [..|done].
  - rewrite Pos2Z.inj_succ, IH, (Pos2Z.inj_xI p), Z.log2_succ_double by lia. lia.
  - rewrite Pos2Z.inj_succ, IH, (Pos2Z.inj_xO p), Z.log2_double by lia. lia.
Qed.

Lemma digits2_pos_spec (p : positive) :
  2 ^ (Zpos (digits2_pos p) - 1) <= Zpos p < 2 ^ Zpos (digits2_pos p).
Proof.
  rewrite digits2_pos_log2, Z.add_simpl_r.
  apply Z.log2_spec. lia.
Qed.

Lemma digits2_pos_unique (p : positive) (d : Z) :
  2 ^ (d - 1) <= Zpos p < 2 ^ d -> Zpos (digits2_pos p) = d.
Proof.
  intros H. rewrite digits2_pos_log2.
  assert (0 < d). { destruct (Z.le_gt_cases d 0); [|lia].
    assert (2 ^ d <= 2 ^ 0) by (apply Z.pow_le_mono_r; lia). lia. }
  enough (Z.log2 (Zpos p) = d - 1) by lia.
  apply Z.log2_unique; [lia|]. by replace (Z.succ (d - 1)) with d by lia.
Qed.

Lemma digits2_pos_mul_pow2 (p q : positive) (k : Z) :
  0 <= k -> Zpos q = Zpos p * 2 ^ k ->
  Zpos (digits2_pos q) = Zpos (digits2_pos p) + k.
Proof.
  intros Hk Hq. rewrite !digits2_pos_log2, Hq, Z.log2_mul_pow2 by lia. lia.
Qed.

Lemma iter_xO_pow2 (p d : positive) :
  Zpos (Pos.iter xO p d) = Zpos p * 2 ^ Zpos d.
Proof.
  rewrite Pos2Nat.inj_iter, <- (positive_nat_Z d).
  induction (Pos.to_nat d) as [|n IH]; [cbn; lia|].
  rewrite Nat2Z.inj_succ, Z.pow_succ_r by lia. cbn [Nat.iter].
  change (nat_rect _ p (fun _ => xO) (S n)) with (xO (nat_rect (fun _ => positive) p (fun _ => xO) n)).
  rewrite (Pos2Z.inj_xO). lia.
Qed.

Lemma iter_pos_iter {A} (f : A -> A) (n : positive) (x : A) :
  SpecFloat.iter_pos f n x = Nat.iter (Pos.to_nat n) f x.
Proof.
  revert x. induction n as [n IH|n IH|]; intros x; cbn [SpecFloat.iter_pos].
  - rewrite !IH, <- Nat.iter_add, Pos2Nat.inj_xI.
    rewrite <- Nat.iter_succ_r. f_equal. lia.
  - rewrite !IH, <- Nat.iter_add, Pos2Nat.inj_xO. f_equal. lia.
  - done.
Qed.

(** [shr_1] drops the lowest bit of the significand; on a multiple of a power
    of two no information reaches the rounding and sticky bits. *)
Lemma shr_1_exact (m : Z) :
  0 <= m -> shr_1 (Build_shr_record (2 * m) false false) = Build_shr_record m false false.
Proof. intros Hm. by destruct m. Qed.

Lemma iter_shr_1_exact (n : nat) (m : Z) :
  0 <= m ->
  Nat.iter n shr_1 (Build_shr_record (m * 2 ^ Z.of_nat n) false false)
  = Build_shr_record m false false.
Proof.
  intros Hm. revert m Hm. induction n as [|n IH]; intros m Hm.
  - cbn. f_equal. lia.
  - rewrite Nat.iter_succ_r, Nat2Z.inj_succ, Z.pow_succ_r by lia.
    replace (m * (2 * 2 ^ Z.of_nat n)) with (2 * (m * 2 ^ Z.of_nat n)) by lia.
    rewrite shr_1_exact by lia. by apply IH.
Qed.

Lemma shr_exact (m e k : Z) :
  0 <= m -> 0 <= k ->
  shr (Build_shr_record (m * 2 ^ k) false false) e k
  = (Build_shr_record m false false, e + k).
Proof.
  intros Hm Hk. destruct k as [|p|p]; cbn [shr]; [|..|lia].
  - rewrite Z.pow_0_r. f_equal; [f_equal|]; lia.
  - rewrite iter_pos_iter, <- (positive_nat_Z p), iter_shr_1_exact by done.
    by rewrite positive_nat_Z.
Qed.

Section Rounding.
Context (prec emax : Z).

Lemma bounded_spec (m : positive) (e : Z) :
  bounded prec emax m e = true <->
  fexp prec emax (Zpos (digits2_pos m) + e) = e /\ e <= emax - prec.
Proof.
  unfold bounded, canonical_mantissa.
  by rewrite andb_true_iff, Z.eqb_eq, Z.leb_le.
Qed.

(** Rounding a value that the format represents returns it. *)
Lemma binary_round_aux_exact s (m M : positive) (e E : Z) :
  bounded prec emax M E = true -> e <= E ->
  Zpos m = Zpos M * 2 ^ (E - e) ->
  binary_round_aux prec emax s (Zpos m) e loc_Exact = S754_finite s M E.
Proof.
  intros [Hfexp Hemax]%bounded_spec HeE Hm.
  assert (Zpos (digits2_pos m) + e = Zpos (digits2_pos M) + E) as Hd.
  { rewrite (digits2_pos_mul_pow2 M m (E - e)) by (done || lia). lia. }
  unfold binary_round_aux, shr_fexp. cbn [shr_record_of_loc Zdigits2].
  rewrite Hd, Hfexp, Hm, shr_exact by lia.
  cbn [shr_m loc_of_shr_record round_nearest_even Zdigits2].
  replace (e + (E - e)) with E by lia.
  rewrite Hfexp, Z.sub_diag. cbn [shr shr_m].
  by rewrite (proj2 (Z.leb_le _ _) Hemax).
Qed.

Lemma binary_round_exact s (m M : positive) (e E : Z) :
  bounded prec emax M E = true ->
  (E <= e /\ Zpos M = Zpos m * 2 ^ (e - E)) \/
  (e <= E /\ Zpos m = Zpos M * 2 ^ (E - e)) ->
  binary_round prec emax s m e = S754_finite s M E.
Proof.
  intros HM Hval. pose proof HM as [Hfexp _]%bounded_spec.
  assert (Zpos (digits2_pos m) + e = Zpos (digits2_pos M) + E) as Hd.
  { destruct Hval as [[? Hval]|[? Hval]].
    - rewrite (digits2_pos_mul_pow2 m M (e - E)) by (done || lia). lia.
    - rewrite (digits2_pos_mul_pow2 M m (E - e)) by (done || lia). lia. }
  unfold binary_round, shl_align. rewrite Hd, Hfexp.
  destruct (E - e) as [|d|d] eqn:Hde.
  - apply binary_round_aux_exact; [done|lia|].
    destruct Hval as [[? Hval]|[? Hval]]; revert Hval;
      replace (e - E) with 0 by lia; rewrite ?Hde, Z.pow_0_r; lia.
  - apply binary_round_aux_exact; [done|lia|]. destruct Hval as [[??]|[??]]; [lia|].
    by rewrite Hde.
  - replace (Pos.iter xO m d) with M.
    + apply binary_round_aux_exact; [done|lia|]. rewrite Z.sub_diag, Z.pow_0_r. lia.
    + apply Pos2Z.inj. rewrite iter_xO_pow2.
      destruct Hval as [[? ->]|[??]]; [|lia]. do 2 f_equal. lia.
Qed.

Lemma binary_normalize_finite (s : bool) (m M : positive) (e E : Z) z :
  bounded prec emax M E = true ->
  (E <= e /\ Zpos M = Zpos m * 2 ^ (e - E)) \/
  (e <= E /\ Zpos m = Zpos M * 2 ^ (E - e)) ->
  binary_normalize prec emax (cond_Zopp s (Zpos m)) e z = S754_finite s M E.
Proof. intros. destruct s; cbn; by apply binary_round_exact. Qed.
End Rounding.

(** ** The Number type: IEEE 754 binary64 *)

Abbreviation number := spec_float.

Definition prec64 : Z := 53.
Definition emax64 : Z := 1024.

Definition num_of_Z (z : Z) : number := binary_normalize prec64 emax64 z 0 false.
Definition num_add : number -> number -> number := SFadd prec64 emax64.
Definition num_sub : number -> number -> number := SFsub prec64 emax64.
Definition num_mul : number -> number -> number := SFmul prec64 emax64.
Definition num_div : number -> number -> number := SFdiv prec64 emax64.
Definition num_opp : number -> number := SFopp.
Definition num_eqb : number -> number -> bool := SFeqb.
Definition num_ltb : number -> number -> bool := SFltb.
Definition num_leb : number -> number -> bool := SFleb.

(** Safe integers, as [Number.isSafeInteger] has them. *)
Definition safe (z : Z) : Prop := Z.abs z < 2 ^ 53.

#[export] Instance safe_dec z : Decision (safe z).
Proof. unfold safe. apply _. Defined.

Lemma num_of_Z_nonzero z :
  z <> 0 -> num_of_Z z = binary_round prec64 emax64 (z <? 0) (Z.to_pos (Z.abs z)) 0.
Proof. by destruct z. Qed.

(** A non-zero safe integer is the finite number with the 53-bit significand
    obtained by shifting it to the left. *)
Lemma safe_repr (z : Z) :
  safe z -> z <> 0 ->
  exists M E, num_of_Z z = S754_finite (z <? 0) M E
    /\ bounded prec64 emax64 M E = true
    /\ Zpos (digits2_pos M) = 53 /\ -52 <= E <= 0
    /\ Zpos M = Z.abs z * 2 ^ (- E).
Proof.
  intros Hs Hz. unfold safe in Hs.
  set (p := Z.to_pos (Z.abs z)).
  assert (Zpos p = Z.abs z) as Hp by (unfold p; lia).
  set (E := Zpos (digits2_pos p) - 53).
  pose proof (digits2_pos_spec p) as Hd.
  assert (-52 <= E <= 0) as HE.
  { split; [unfold E; lia|].
    enough (Zpos (digits2_pos p) - 1 < 53) by (unfold E; lia).
    apply (Z.pow_lt_mono_r_iff 2); lia. }
  set (M := Z.to_pos (Z.abs z * 2 ^ (- E))).
  assert (0 < 2 ^ (- E)) by (apply Z.pow_pos_nonneg; lia).
  assert (Zpos M = Z.abs z * 2 ^ (- E)) as HM by (unfold M; nia).
  assert (Zpos (digits2_pos M) = 53) as HdM.
  { rewrite (digits2_pos_mul_pow2 p M (- E)) by (lia || by rewrite HM, Hp).
    unfold E; lia. }
  assert (bounded prec64 emax64 M E = true) as Hb.
  { apply bounded_spec. rewrite HdM. unfold fexp, emin, prec64, emax64. lia. }
  exists M, E. split_and!; [|done|done|lia|lia|done].
  rewrite num_of_Z_nonzero by done. fold p. clearbody p M E.
  apply binary_round_exact; [done|]. left.
  split; [lia|]. by rewrite Z.sub_0_l, HM, Hp.
Qed.

(** Conversely, whatever significand and non-positive exponent denote a
    non-zero safe integer, rounding produces the Number for it. *)
Lemma binary_round_safe (z : Z) (m : positive) (e : Z) :
  safe z -> z <> 0 -> e <= 0 -> Zpos m = Z.abs z * 2 ^ (- e) ->
  binary_round prec64 emax64 (z <? 0) m e = num_of_Z z.
Proof.
  intros Hs Hz He Hm. destruct (safe_repr z Hs Hz) as (M & E & -> & Hb & _ & HE & HM).
  apply binary_round_exact; [done|].
  destruct (Z.le_gt_cases E e); [left|right]; (split; [lia|]).
  - rewrite HM, Hm, <- Z.mul_assoc, <- Z.pow_add_r by lia. do 2 f_equal. lia.
  - rewrite HM, Hm, <- Z.mul_assoc, <- Z.pow_add_r by lia. do 2 f_equal. lia.
Qed.

Lemma binary_round_aux_safe (z : Z) (m : positive) (e : Z) :
  safe z -> z <> 0 -> e <= 0 -> 2 ^ 52 <= Zpos m -> Zpos m = Z.abs z * 2 ^ (- e) ->
  binary_round_aux prec64 emax64 (z <? 0) (Zpos m) e loc_Exact = num_of_Z z.
Proof.
  intros Hs Hz He Hm52 Hm. destruct (safe_repr z Hs Hz) as (M & E & -> & Hb & Hd & HE & HM).
  pose proof (digits2_pos_spec M) as [_ HM53]. rewrite Hd in HM53.
  assert (e <= E).
  { apply Z.nlt_ge. intros HEe.
    assert (Zpos M = Zpos m * 2 ^ (e - E)) as HMm.
    { rewrite HM, Hm, <- Z.mul_assoc, <- Z.pow_add_r by lia. do 2 f_equal. lia. }
    assert (2 ^ 1 <= 2 ^ (e - E)) by (apply Z.pow_le_mono_r; lia). nia. }
  apply binary_round_aux_exact; [done|lia|].
  rewrite HM, Hm, <- Z.mul_assoc, <- Z.pow_add_r by lia. do 2 f_equal. lia.
Qed.

Lemma binary_normalize_safe (z m e : Z) :
  safe z -> e <= 0 -> m = z * 2 ^ (- e) ->
  binary_normalize prec64 emax64 m e false = num_of_Z z.
Proof.
  intros Hs He ->. assert (0 < 2 ^ (- e)) by (apply Z.pow_pos_nonneg; lia).
  destruct (Z.eq_dec z 0) as [->|Hz]; [done|].
  assert (0 < Z.abs z * 2 ^ (- e)) by nia.
  rewrite <- (binary_round_safe z (Z.to_pos (Z.abs z * 2 ^ (- e))) e)
    by (done || by rewrite Z2Pos.id).
  destruct (Z.ltb_spec z 0).
  - rewrite Z.abs_neq, Z.mul_opp_l in * by lia.
    destruct (z * 2 ^ (- e)) eqn:?; [lia|lia|done].
  - rewrite Z.abs_eq in * by lia.
    destruct (z * 2 ^ (- e)) eqn:?; [lia|done|lia].
Qed.

Lemma shl_align_spec (m : positive) (e e' : Z) :
  e' <= e -> Zpos (fst (shl_align m e e')) = Zpos m * 2 ^ (e - e').
Proof.
  intros He. unfold shl_align. destruct (e' - e) as [|d|d] eqn:Hd; cbn [fst].
  - replace (e - e') with 0 by lia. lia.
  - lia.
  - rewrite iter_xO_pow2. do 2 f_equal. lia.
Qed.

(** The aligned signed significand of a safe integer is that integer scaled. *)
Lemma aligned_safe (z : Z) (M : positive) (E e : Z) :
  e <= E -> E <= 0 -> Zpos M = Z.abs z * 2 ^ (- E) ->
  cond_Zopp (z <? 0) (Zpos (fst (shl_align M E e))) = z * 2 ^ (- e).
Proof.
  intros He HE HM.
  rewrite shl_align_spec, HM, <- Z.mul_assoc, <- Z.pow_add_r by lia.
  replace (- E + (E - e)) with (- e) by lia.
  destruct (Z.ltb_spec z 0); cbn [cond_Zopp]; [rewrite Z.abs_neq by lia|rewrite Z.abs_eq by lia]; lia.
Qed.

(** ** Arithmetic is exact on safe integers *)

Lemma cond_Zopp_negb (s : bool) (m : Z) : cond_Zopp (negb s) m = - cond_Zopp s m.
Proof. destruct s; cbn; lia. Qed.

Lemma num_opp_Z (z : Z) : safe z -> z <> 0 -> num_opp (num_of_Z z) = num_of_Z (- z).
Proof.
  intros Hs Hz. destruct (safe_repr z Hs Hz) as (M & E & -> & Hb & _ & HE & HM).
  cbn [num_opp SFopp].
  rewrite <- (binary_round_safe (- z) M E);
    [|unfold safe in *; lia|lia|lia|by rewrite Z.abs_opp].
  replace (- z <? 0) with (negb (z <? 0)) by lia.
  symmetry. apply binary_round_exact; [done|]. left. rewrite Z.sub_diag. lia.
Qed.

Lemma num_add_Z (x y : Z) :
  safe x -> safe y -> safe (x + y) ->
  num_add (num_of_Z x) (num_of_Z y) = num_of_Z (x + y).
Proof.
  intros Hx Hy Hxy.
  destruct (Z.eq_dec x 0) as [->|Hx0].
  { rewrite Z.add_0_l. destruct (Z.eq_dec y 0) as [->|Hy0]; [done|].
    by destruct (safe_repr y Hy Hy0) as (M & E & -> & _). }
  destruct (Z.eq_dec y 0) as [->|Hy0].
  { rewrite Z.add_0_r. by destruct (safe_repr x Hx Hx0) as (M & E & -> & _). }
  destruct (safe_repr x Hx Hx0) as (M1 & E1 & -> & _ & _ & HE1 & HM1).
  destruct (safe_repr y Hy Hy0) as (M2 & E2 & -> & _ & _ & HE2 & HM2).
  unfold num_add, SFadd. apply binary_normalize_safe; [done|lia|].
  rewrite !(aligned_safe _ _ _ (Z.min E1 E2)) by (done || lia). lia.
Qed.

Lemma num_sub_Z (x y : Z) :
  safe x -> safe y -> safe (x - y) ->
  num_sub (num_of_Z x) (num_of_Z y) = num_of_Z (x - y).
Proof.
  intros Hx Hy Hxy.
  destruct (Z.eq_dec y 0) as [->|Hy0].
  { rewrite Z.sub_0_r. destruct (Z.eq_dec x 0) as [->|Hx0]; [done|].
    by destruct (safe_repr x Hx Hx0) as (M & E & -> & _). }
  destruct (Z.eq_dec x 0) as [->|Hx0].
  { rewrite Z.sub_0_l, <- num_opp_Z by done.
    by destruct (safe_repr y Hy Hy0) as (M & E & -> & _). }
  destruct (safe_repr x Hx Hx0) as (M1 & E1 & -> & _ & _ & HE1 & HM1).
  destruct (safe_repr y Hy Hy0) as (M2 & E2 & -> & _ & _ & HE2 & HM2).
  unfold num_sub, SFsub. apply binary_normalize_safe; [done|lia|].
  rewrite !(aligned_safe _ _ _ (Z.min E1 E2)) by (done || lia). lia.
Qed.

Lemma num_mul_Z (x y : Z) :
  safe x -> safe y -> safe (x * y) -> x * y <> 0 \/ (0 <= x /\ 0 <= y) ->
  num_mul (num_of_Z x) (num_of_Z y) = num_of_Z (x * y).
Proof.
  intros Hx Hy Hxy Hsign.
  destruct (Z.eq_dec x 0) as [->|Hx0].
  { destruct (Z.eq_dec y 0) as [->|Hy0]; [done|].
    destruct (safe_repr y Hy Hy0) as (M & E & -> & _). cbn.
    by replace (y <? 0) with false by lia. }
  destruct (Z.eq_dec y 0) as [->|Hy0].
  { destruct (safe_repr x Hx Hx0) as (M & E & -> & _). rewrite Z.mul_0_r. cbn.
    by replace (x <? 0) with false by lia. }
  destruct (safe_repr x Hx Hx0) as (M1 & E1 & -> & Hb1 & Hd1 & HE1 & HM1).
  destruct (safe_repr y Hy Hy0) as (M2 & E2 & -> & Hb2 & Hd2 & HE2 & HM2).
  cbn [num_mul SFmul]. unfold num_mul, SFmul.
  replace (xorb (x <? 0) (y <? 0)) with (x * y <? 0)
    by (destruct (Z.ltb_spec x 0), (Z.ltb_spec y 0); cbn; nia).
  assert (Zpos (M1 * M2) = Z.abs (x * y) * 2 ^ (- (E1 + E2))) as HM.
  { rewrite Pos2Z.inj_mul, HM1, HM2, Z.opp_add_distr, Z.pow_add_r, Z.abs_mul by lia. lia. }
  pose proof (digits2_pos_spec M1) as [H1 _]. pose proof (digits2_pos_spec M2) as [H2 _].
  rewrite Hd1 in H1. rewrite Hd2 in H2.
  apply binary_round_aux_safe; [done|lia|lia|lia|done].
Qed.

(** Comparison of safe integers. *)
Lemma canonical_lt (M1 M2 : positive) (E1 E2 : Z) :
  Zpos (digits2_pos M1) = 53 -> Zpos (digits2_pos M2) = 53 -> E1 < E2 -> E2 <= 0 ->
  Zpos M1 * 2 ^ (E1 - E1) < Zpos M2 * 2 ^ (E2 - E1).
Proof.
  intros Hd1 Hd2 HE HE2. rewrite Z.sub_diag.
  pose proof (digits2_pos_spec M1) as [_ H1]. pose proof (digits2_pos_spec M2) as [H2 _].
  rewrite Hd1 in H1. rewrite Hd2 in H2.
  assert (2 ^ 1 <= 2 ^ (E2 - E1)) by (apply Z.pow_le_mono_r; lia). nia.
Qed.

Lemma num_compare_pos (x y : Z) (M1 M2 : positive) (E1 E2 : Z) :
  Zpos M1 = x * 2 ^ (- E1) -> Zpos M2 = y * 2 ^ (- E2) -> E1 <= 0 -> E2 <= 0 ->
  Zpos (digits2_pos M1) = 53 -> Zpos (digits2_pos M2) = 53 ->
  match Z.compare E1 E2 with
  | Lt => Lt | Gt => Gt | Eq => Pos.compare_cont Eq M1 M2
  end = Z.compare x y.
Proof.
  intros HM1 HM2 HE1 HE2 Hd1 Hd2.
  assert (0 < 2 ^ (- E1)) by (apply Z.pow_pos_nonneg; lia).
  assert (0 < 2 ^ (- E2)) by (apply Z.pow_pos_nonneg; lia).
  destruct (Z.compare_spec E1 E2) as [HE|HE|HE].
  - subst E2. change (Pos.compare_cont Eq M1 M2) with (Z.compare (Zpos M1) (Zpos M2)).
    rewrite HM1, HM2. destruct (Z.compare_spec x y);
      [apply Z.compare_eq_iff|apply Z.compare_lt_iff|apply Z.compare_gt_iff]; nia.
  - symmetry. apply Z.compare_lt_iff.
    pose proof (canonical_lt M1 M2 E1 E2 Hd1 Hd2 HE HE2) as Hlt.
    rewrite HM1, HM2, Z.sub_diag, Z.mul_1_r, <- Z.mul_assoc, <- Z.pow_add_r in Hlt by lia.
    replace (- E2 + (E2 - E1)) with (- E1) in Hlt by lia. nia.
  - symmetry. apply Z.compare_gt_iff.
    pose proof (canonical_lt M2 M1 E2 E1 Hd2 Hd1 HE HE1) as Hlt.
    rewrite HM1, HM2, Z.sub_diag, Z.mul_1_r, <- Z.mul_assoc, <- Z.pow_add_r in Hlt by lia.
    replace (- E1 + (E1 - E2)) with (- E2) in Hlt by lia. nia.
Qed.

Lemma num_compare_Z (x y : Z) :
  safe x -> safe y -> SFcompare (num_of_Z x) (num_of_Z y) = Some (Z.compare x y).
Proof.
  intros Hx Hy.
  destruct (Z.eq_dec x 0) as [->|Hx0]; destruct (Z.eq_dec y 0) as [->|Hy0].
  - done.
  - destruct (safe_repr y Hy Hy0) as (M & E & -> & _). by destruct y.
  - destruct (safe_repr x Hx Hx0) as (M & E & -> & _). by destruct x.
  - destruct (safe_repr x Hx Hx0) as (M1 & E1 & -> & _ & Hd1 & HE1 & HM1).
    destruct (safe_repr y Hy Hy0) as (M2 & E2 & -> & _ & Hd2 & HE2 & HM2).
    cbn [SFcompare]. f_equal.
    destruct (Z.ltb_spec x 0), (Z.ltb_spec y 0).
    + rewrite Z.abs_neq in HM1, HM2 by lia.
      pose proof (num_compare_pos (- x) (- y) M1 M2 E1 E2) as Hc.
      replace (x ?= y) with (CompOpp (- x ?= - y)) by (by rewrite Z.compare_opp, <- Z.compare_antisym).
      rewrite <- Hc by lia. by destruct (E1 ?= E2).
    + symmetry. apply Z.compare_lt_iff. lia.
    + symmetry. apply Z.compare_gt_iff. lia.
    + rewrite Z.abs_eq in HM1, HM2 by lia. apply num_compare_pos; lia.
Qed.

Lemma num_eqb_Z x y : safe x -> safe y -> num_eqb (num_of_Z x) (num_of_Z y) = (x =? y).
Proof.
  intros. unfold num_eqb, SFeqb. rewrite num_compare_Z by done.
  destruct (Z.compare_spec x y); lia.
Qed.
Lemma num_ltb_Z x y : safe x -> safe y -> num_ltb (num_of_Z x) (num_of_Z y) = (x <? y).
Proof. intros. unfold num_ltb, SFltb. by rewrite num_compare_Z by done. Qed.
Lemma num_leb_Z x y : safe x -> safe y -> num_leb (num_of_Z x) (num_of_Z y) = (x <=? y).
Proof. intros. unfold num_leb, SFleb. rewrite num_compare_Z by done. by unfold Z.leb; destruct (x ?= y). Qed.

Lemma num_of_Z_inj x y : safe x -> safe y -> num_of_Z x = num_of_Z y -> x = y.
Proof.
  intros Hx Hy Heq. pose proof (num_compare_Z x y Hx Hy) as Hc. rewrite Heq in Hc.
  rewrite num_compare_Z in Hc by done. injection Hc as Hc.
  rewrite Z.compare_refl in Hc. by apply Z.compare_eq.
Qed.

(** ** Conversions *)

(** The integral part, the fraction discarded ([Math.trunc]); 0 for the
    values that have none. *)
Definition num_trunc (x : number) : Z :=
  match x with
  | S754_finite s m e => cond_Zopp s (if 0 <=? e then Zpos m * 2 ^ e else Zpos m / 2 ^ (- e))
  | _ => 0
  end.

(** [Math.floor]: rounds towards minus infinity and keeps -0, infinities and NaN. *)
Definition num_floor (x : number) : number :=
  match x with
  | S754_finite s m e =>
      if 0 <=? e then x
      else binary_normalize prec64 emax64 (cond_Zopp s (Zpos m) / 2 ^ (- e)) 0 s
  | _ => x
  end.

(** [ToUint8], [ToUint16] and [ToUint32]: the integral part modulo 2^w. *)
Definition to_uint (w : Z) (x : number) : Z := num_trunc x mod 2 ^ w.

(** [ToInt32]. *)
Definition to_int32 (x : number) : Z :=
  let u := to_uint 32 x in if u <? 2 ^ 31 then u else u - 2 ^ 32.

Lemma num_trunc_Z z : safe z -> num_trunc (num_of_Z z) = z.
Proof.
  intros Hs. destruct (Z.eq_dec z 0) as [->|Hz]; [done|].
  destruct (safe_repr z Hs Hz) as (M & E & -> & _ & _ & HE & HM).
  assert (0 < 2 ^ (- E)) by (apply Z.pow_pos_nonneg; lia). cbn [num_trunc].
  replace (if 0 <=? E then Zpos M * 2 ^ E else Zpos M / 2 ^ (- E)) with (Z.abs z).
  { destruct (Z.ltb_spec z 0); cbn [cond_Zopp]; lia. }
  destruct (Z.leb_spec 0 E).
  - assert (E = 0) as -> by lia. rewrite HM. rewrite Z.pow_0_r. cbn. lia.
  - by rewrite HM, Z.div_mul by lia.
Qed.

Lemma num_floor_Z z : safe z -> num_floor (num_of_Z z) = num_of_Z z.
Proof.
  intros Hs. destruct (Z.eq_dec z 0) as [->|Hz]; [done|].
  destruct (safe_repr z Hs Hz) as (M & E & HzE & _ & _ & HE & HM).
  rewrite HzE. cbn [num_floor]. rewrite <- HzE.
  destruct (Z.leb_spec 0 E); [done|].
  assert (0 < 2 ^ (- E)) by (apply Z.pow_pos_nonneg; lia).
  replace (cond_Zopp (z <? 0) (Zpos M)) with (z * 2 ^ (- E)).
  - rewrite Z.div_mul by lia. by destruct z.
  - rewrite HM. destruct (Z.ltb_spec z 0); cbn [cond_Zopp]; lia.
Qed.

Lemma to_uint_Z w z : safe z -> to_uint w (num_of_Z z) = z mod 2 ^ w.
Proof. intros. unfold to_uint. by rewrite num_trunc_Z. Qed.

(** ** Rounding to nearest, in general

    [record_ok mrs N D] says that the record of a right shift stands for the
    rational N/D: its significand is the integral part, and the rounding and
    sticky bits place the remainder with respect to one half. *)

Definition record_ok (mrs : shr_record) (N D : Z) : Prop :=
  let '(Build_shr_record m r s) := mrs in
  let rho := N - m * D in
  0 <= m /\ 0 < D /\
  match r, s with
  | false, false => rho = 0
  | false, true => 0 < 2 * rho < D
  | true, false => 2 * rho = D
  | true, true => D < 2 * rho < 2 * D
  end.

Lemma shr_1_record_ok mrs N D : record_ok mrs N D -> record_ok (shr_1 mrs) N (2 * D).
Proof.
  destruct mrs as [m r s]. unfold record_ok.
  intros (Hm & HD & Hrs). destruct m as [|p|p]; [..|lia].
  - destruct r, s; cbn [shr_1 orb]; lia.
  - destruct p as [p|p|]; cbn [shr_1].
    + rewrite (Pos2Z.inj_xI p) in Hrs. assert (0 <= Zpos p) as Hp by lia.
      generalize dependent (Zpos p). intros z.
      replace (N - (2 * z + 1) * D) with (N - z * (2 * D) - D) by lia.
      generalize (N - z * (2 * D)). intros; destruct r, s; cbn [orb]; lia.
    + rewrite (Pos2Z.inj_xO p) in Hrs. assert (0 <= Zpos p) as Hp by lia.
      generalize dependent (Zpos p). intros z.
      replace (N - 2 * z * D) with (N - z * (2 * D)) by lia.
      generalize (N - z * (2 * D)). intros; destruct r, s; cbn [orb]; lia.
    + destruct r, s; cbn [orb]; lia.
Qed.

Lemma round_nearest_even_ok mrs N D :
  record_ok mrs N D ->
  - D <= 2 * (round_nearest_even (shr_m mrs) (loc_of_shr_record mrs) * D - N) <= D.
Proof.
  destruct mrs as [m r s]. unfold record_ok. intros (Hm & HD & Hrs).
  destruct r, s; cbn [shr_m loc_of_shr_record round_nearest_even]; [lia| |lia|lia].
  destruct (Z.even m); lia.
Qed.

Lemma new_location_record_ok (q r d : Z) :
  0 <= q -> 0 <= r < d -> record_ok (shr_record_of_loc q (new_location d r)) (q * d + r) d.
Proof.
  intros Hq Hr. unfold new_location, new_location_even, new_location_odd.
  destruct (Z.even d) eqn:Hd.
  - destruct (Z.eqb_spec r 0); cbn [shr_record_of_loc record_ok]; [lia|].
    destruct (Z.compare_spec (2 * r) d); cbn [shr_record_of_loc record_ok]; lia.
  - assert (exists k, d = 2 * k + 1) as [k Hk] by (apply Z.odd_spec; by rewrite <- Z.negb_even, Hd).
    destruct (Z.eqb_spec r 0); cbn [shr_record_of_loc record_ok]; [lia|].
    destruct (Z.compare_spec (2 * r + 1) d); cbn [shr_record_of_loc record_ok]; lia.
Qed.

Lemma iter_shr_1_record_ok (k : nat) mrs N D :
  record_ok mrs N D -> record_ok (Nat.iter k shr_1 mrs) N (D * 2 ^ Z.of_nat k).
Proof.
  intros H. induction k as [|k IH]; cbn [Nat.iter].
  - by rewrite Z.pow_0_r, Z.mul_1_r.
  - apply shr_1_record_ok in IH. rewrite Nat2Z.inj_succ, Z.pow_succ_r by lia.
    by replace (D * (2 * 2 ^ Z.of_nat k)) with (2 * (D * 2 ^ Z.of_nat k)) by lia.
Qed.

Lemma shr_record_ok mrs N D e k :
  0 <= k -> record_ok mrs N D ->
  record_ok (fst (shr mrs e k)) N (D * 2 ^ k) /\ snd (shr mrs e k) = e + k.
Proof.
  intros Hk H. destruct k as [|p|p]; [|..|lia]; cbn [shr fst snd].
  - split; [by rewrite Z.pow_0_r, Z.mul_1_r|lia].
  - split; [|done]. rewrite iter_pos_iter, <- (positive_nat_Z p).
    by apply iter_shr_1_record_ok.
Qed.

Lemma record_ok_floor q loc N D :
  record_ok (shr_record_of_loc q loc) N D -> 0 < D /\ q * D <= N < (q + 1) * D.
Proof.
  destruct loc as [|[]]; cbn [shr_record_of_loc record_ok]; lia.
Qed.

Lemma round_range (q N D P r : Z) :
  0 < D /\ q * D <= N < (q + 1) * D -> 2 ^ 52 * P <= q < 2 ^ 53 * P ->
  - (D * P) <= 2 * (r * (D * P) - N) <= D * P ->
  2 ^ 52 <= r <= 2 ^ 53.
Proof.
  intros (HD & HN) Hq Hr.
  assert (0 < D * P) by nia.
  assert (2 ^ 52 * (D * P) <= N) by nia.
  assert (N < 2 ^ 53 * (D * P)) by nia.
  generalize dependent (D * P). intros D' ????. nia.
Qed.

(** The significand that rounding q + loc produces, when the exponent does
    not change format limits: [sh] is 0 or 1 extra bits, and the result
    stands within half a unit in the last place. *)
Lemma binary_round_aux_near (q : positive) (e N D : Z) (loc : location) (sh : Z) :
  record_ok (shr_record_of_loc (Zpos q) loc) N D ->
  Zpos (digits2_pos q) = 53 + sh -> 0 <= sh -> - 1000 <= e -> e + sh <= 900 ->
  exists (M : positive) (E k : Z),
    binary_round_aux prec64 emax64 false (Zpos q) e loc = S754_finite false M E
    /\ Zpos (digits2_pos M) = 53 /\ 0 <= k /\ E = e + sh + k /\
    - (D * 2 ^ sh) <= 2 * (Zpos M * 2 ^ k * (D * 2 ^ sh) - N) <= D * 2 ^ sh.
Proof.
  intros Hrec Hq Hsh He He'. unfold binary_round_aux, shr_fexp.
  assert (fexp prec64 emax64 (Zdigits2 (Zpos q) + e) - e = sh) as Hf.
  { cbn [Zdigits2]. rewrite Hq. unfold fexp, emin, prec64, emax64. lia. }
  rewrite Hf. destruct (shr_record_ok _ _ _ e sh Hsh Hrec) as [H1 H2].
  destruct (shr _ e sh) as [mrs1 e1]; cbn [fst snd] in H1, H2.
  pose proof (round_nearest_even_ok _ _ _ H1) as Hr.
  set (r := round_nearest_even _ _) in *. clearbody r.
  assert (0 < 2 ^ sh) by (apply Z.pow_pos_nonneg; lia).
  assert (2 ^ 52 <= r <= 2 ^ 53) as Hr53.
  { apply (round_range (Zpos q) N D (2 ^ sh)); [..|done].
    - by apply record_ok_floor in Hrec.
    - pose proof (digits2_pos_spec q) as Hd. rewrite Hq in Hd.
      replace (53 + sh - 1) with (52 + sh) in Hd by lia.
      rewrite !Z.pow_add_r in Hd by lia. lia. }
  destruct (Z.eq_dec r (2 ^ 53)) as [->|Hne].
  - exists (2 ^ 52)%positive, (e1 + 1), 1.
    change (Zdigits2 (2 ^ 53)) with 54.
    replace (fexp prec64 emax64 (54 + e1) - e1) with 1
      by (unfold fexp, emin, prec64, emax64; lia).
    cbn -[Z.add Z.mul Z.pow Z.leb]. unfold prec64, emax64.
    rewrite (proj2 (Z.leb_le _ _)) by lia.
    split_and!; [done|done|lia|lia| |]; lia.
  - destruct r as [|p|p]; [lia| |lia].
    assert (Zpos (digits2_pos p) = 53) as Hp by (apply digits2_pos_unique; lia).
    exists p, e1, 0. cbn [Zdigits2]. rewrite Hp.
    replace (fexp prec64 emax64 (53 + e1) - e1) with 0
      by (unfold fexp, emin, prec64, emax64; lia).
    cbn -[Z.add Z.mul Z.pow Z.leb]. unfold prec64, emax64.
    rewrite (proj2 (Z.leb_le _ _)) by lia.
    split_and!; [done|done|lia|lia| |]; rewrite Z.pow_0_r, Z.mul_1_r; lia.
Qed.

(** The floor of the correctly rounded quotient of two safe integers is the
    integer quotient: rounding never reaches the next integer. *)
Lemma quotient_floor (x y V P : Z) :
  0 <= x -> 0 < y -> 0 < P -> y < 2 * P ->
  - y <= 2 * (V * y - x * P) <= y -> V / P = x / y.
Proof.
  intros Hx Hy HP HyP HV.
  set (n := x / y). set (r := x mod y).
  assert (x = y * n + r) as Hxn by (apply Z.div_mod; lia).
  assert (0 <= r < y) as Hr by (apply Z.mod_pos_bound; lia).
  clearbody n r. subst x.
  assert (n * P <= V) by nia.
  assert (V < (n + 1) * P) by nia.
  symmetry. apply Z.div_unique with (V - n * P); lia.
Qed.

Lemma canonical_num_of_Z (M : positive) :
  Zpos (digits2_pos M) = 53 -> S754_finite false M 0 = num_of_Z (Zpos M).
Proof.
  intros Hd. symmetry. apply binary_round_exact; [|lia].
  apply bounded_spec. rewrite Hd. unfold fexp, emin, prec64, emax64. lia.
Qed.

Lemma SFdiv_core_safe (m1 m2 : positive) (e1 e2 : Z) :
  Zpos (digits2_pos m1) = 53 -> Zpos (digits2_pos m2) = 53 ->
  -52 <= e1 <= 0 -> -52 <= e2 <= 0 ->
  exists (q : positive) (loc : location) (sh : Z),
    SFdiv_core_binary prec64 emax64 (Zpos m1) e1 (Zpos m2) e2 = (Zpos q, e1 - e2 - 53, loc)
    /\ record_ok (shr_record_of_loc (Zpos q) loc) (Zpos m1 * 2 ^ 53) (Zpos m2)
    /\ Zpos (digits2_pos q) = 53 + sh /\ 0 <= sh <= 1.
Proof.
  intros Hd1 Hd2 He1 He2. unfold SFdiv_core_binary. cbn [Zdigits2].
  rewrite Hd1, Hd2.
  replace (Z.min _ _) with (e1 - e2 - 53) by (unfold fexp, emin, prec64, emax64; lia).
  replace (e1 - e2 - (e1 - e2 - 53)) with 53 by lia.
  rewrite Z.shiftl_mul_pow2 by lia.
  pose proof (Z_div_mod (Zpos m1 * 2 ^ 53) (Zpos m2) ltac:(lia)) as Hdiv.
  destruct (Z.div_eucl _ _) as [q r]. destruct Hdiv as [Hm' Hr].
  pose proof (digits2_pos_spec m1) as H1. rewrite Hd1 in H1.
  pose proof (digits2_pos_spec m2) as H2. rewrite Hd2 in H2.
  assert (2 ^ 52 <= q < 2 ^ 54) as Hq by nia.
  destruct q as [|q|q]; [lia| |lia].
  exists q, (new_location (Zpos m2) r), (if Zpos q <? 2 ^ 53 then 0 else 1).
  split_and!; [done| | |case_match; lia|case_match; lia].
  - rewrite Hm', (Z.mul_comm (Zpos m2)). apply new_location_record_ok; lia.
  - destruct (Z.ltb_spec (Zpos q) (2 ^ 53)); apply digits2_pos_unique; lia.
Qed.

(** The quotient of two safe integers is rounded to 53 bits, its integer part is
    the integer quotient, and it is off by half a unit in the last place. *)
Lemma num_div_repr (x y : Z) :
  0 < x -> 0 < y -> safe x -> safe y ->
  exists M E, num_div (num_of_Z x) (num_of_Z y) = S754_finite false M E /\ E <= 0 /\
    Zpos (digits2_pos M) = 53 /\ Zpos M / 2 ^ (- E) = x / y /\
    - y <= 2 * (Zpos M * y - x * 2 ^ (- E)) <= y.
Proof.
  intros Hx0 Hy Hsx Hsy. assert (0 <= x) as Hx by lia.
  destruct (safe_repr y Hsy ltac:(lia)) as (m2 & e2 & Hy2 & _ & Hd2 & He2 & Hm2).
  rewrite Hy2. replace (y <? 0) with false by lia.
  destruct (safe_repr x Hsx ltac:(lia)) as (m1 & e1 & Hx1 & _ & Hd1 & He1 & Hm1).
  rewrite Hx1. replace (x <? 0) with false by lia.
  cbn [num_div SFdiv]. unfold num_div, SFdiv. cbn [xorb].
  destruct (SFdiv_core_safe m1 m2 e1 e2 Hd1 Hd2 He1 He2) as (q & loc & sh & -> & Hrec & Hq & Hsh).
  destruct (binary_round_aux_near q (e1 - e2 - 53) _ _ loc sh Hrec Hq)
    as (M & E & k & -> & HdM & Hk & HE & Hnear); [lia..|].
  pose proof (digits2_pos_spec q) as [Hq52 _]. rewrite Hq in Hq52.
  apply record_ok_floor in Hrec as (_ & HqN & _).
  set (K := 53 - (e1 - e2) - sh).
  assert (Zpos m2 * 2 ^ sh = y * 2 ^ (sh - e2)) as HD.
  { rewrite Hm2, Z.abs_eq, <- Z.mul_assoc, <- Z.pow_add_r by lia. do 2 f_equal. lia. }
  assert (Zpos m1 * 2 ^ 53 = x * 2 ^ K * 2 ^ (sh - e2)) as HN.
  { rewrite Hm1, Z.abs_eq, <- !Z.mul_assoc, <- !Z.pow_add_r by lia.
    do 2 f_equal. unfold K. lia. }
  assert (0 < 2 ^ (sh - e2)) by (apply Z.pow_pos_nonneg; lia).
  assert (0 < 2 ^ K) by (apply Z.pow_pos_nonneg; unfold K; lia).
  assert (- y <= 2 * (Zpos M * 2 ^ k * y - x * 2 ^ K) <= y) as Hy'.
  { rewrite HN, HD in Hnear. nia. }
  assert (Zpos M * 2 ^ k / 2 ^ K = x / y) as HV.
  { apply quotient_floor; [lia..| |done].
    replace (53 + sh - 1) with (52 + sh) in Hq52 by lia.
      rewrite Z.pow_add_r in Hq52 by lia. unfold safe in *.
    assert (2 ^ 52 * y <= x * 2 ^ K) by nia. nia. }
  assert (0 <= x / y < 2 ^ 53) as Hxy.
  { unfold safe in *. split; [apply Z.div_pos; lia|].
    apply Z.div_lt_upper_bound; nia. }
  pose proof (digits2_pos_spec M) as HM. rewrite HdM in HM.
  assert (E <= 0 -> - y <= 2 * (Zpos M * y - x * 2 ^ (- E)) <= y) as Hy0.
  { intros HE0. replace (2 ^ K) with (2 ^ (- E) * 2 ^ k) in Hy'
      by (rewrite <- Z.pow_add_r by lia; f_equal; unfold K; lia).
    assert (1 <= 2 ^ k) by (apply Z.lt_pred_le, Z.pow_pos_nonneg; lia).
    set (d := Zpos M * y - x * 2 ^ (- E)) in *.
    replace (Zpos M * 2 ^ k * y - x * (2 ^ (- E) * 2 ^ k)) with (d * 2 ^ k) in Hy' by (unfold d; ring). nia. }
  exists M, E. destruct (Z.leb_spec 0 E).
  - assert (Zpos M * 2 ^ E = x / y) as HME.
    { rewrite <- HV. replace (Zpos M * 2 ^ k) with (Zpos M * 2 ^ E * 2 ^ K).
      - by rewrite Z.div_mul by lia.
      - rewrite <- Z.mul_assoc, <- Z.pow_add_r by (unfold K; lia). do 2 f_equal. unfold K. lia. }
    assert (E = 0) as HE0.
    { destruct (Z.eq_dec E 0); [done|].
      assert (2 ^ 1 <= 2 ^ E) by (apply Z.pow_le_mono_r; lia). nia. }
    rewrite HE0 in *. split_and!; [done|done|done| |by apply Hy0..].
    rewrite <- HME, Z.pow_0_r, Z.mul_1_r. by rewrite Z.div_1_r.
  - split_and!; [done|lia|done| |apply Hy0; lia..]. rewrite <- HV.
    replace (2 ^ K) with (2 ^ (- E) * 2 ^ k)
      by (rewrite <- Z.pow_add_r by lia; f_equal; unfold K; lia).
    by rewrite Z.div_mul_cancel_r by (apply Z.pow_nonzero; lia).
Qed.

Lemma num_floor_div (x y : Z) :
  0 <= x -> 0 < y -> safe x -> safe y ->
  num_floor (num_div (num_of_Z x) (num_of_Z y)) = num_of_Z (x / y).
Proof.
  intros Hx Hy Hsx Hsy. destruct (Z.eq_dec x 0) as [->|Hx0].
  { destruct (safe_repr y Hsy ltac:(lia)) as (m2 & e2 & -> & _). by replace (y <? 0) with false by lia. }
  destruct (num_div_repr x y ltac:(lia) Hy Hsx Hsy) as (M & E & -> & HE & HdM & HV & _).
  cbn [num_floor cond_Zopp]. destruct (Z.leb_spec 0 E).
  - replace E with 0 in * by lia. rewrite canonical_num_of_Z by done.
    by rewrite <- HV, Z.div_1_r.
  - by rewrite HV.
Qed.

(** ** Rounding lands in the format *)

Section Validity.
Context (prec emax : Z) (Hprec : 1 < prec).

Lemma fexp_unfold d : fexp prec emax d = Z.max (d - prec) (emin prec emax).
Proof. done. Qed.

(** The final renormalisation of a rounded significand. *)
Lemma renormalise_valid s (r e : Z) :
  0 <= r <= 2 ^ prec -> emin prec emax <= e ->
  (e = emin prec emax \/ 2 ^ (prec - 1) <= r) ->
  valid_binary prec emax
    (let '(mrs, e'') := shr_fexp prec emax r e loc_Exact in
     match shr_m mrs with
     | Z0 => S754_zero s
     | Zpos m => if e'' <=? emax - prec then S754_finite s m e'' else S754_infinity s
     | _ => S754_nan
     end) = true.
Proof.
  intros Hr He Hsub. unfold shr_fexp. cbn [shr_record_of_loc].
  destruct r as [|p|p]; [..|lia].
  - cbn [Zdigits2]. rewrite Z.add_0_l, fexp_unfold.
    rewrite <- (Z.mul_0_l (2 ^ (Z.max (e - prec) (emin prec emax) - e))).
    destruct (Z.max (e - prec) (emin prec emax) - e) eqn:Hk; [done|lia|done].
  - cbn [Zdigits2]. pose proof (digits2_pos_spec p) as Hp.
    assert (0 < 2 ^ (prec - 1)) by (apply Z.pow_pos_nonneg; lia).
    destruct (Z.eq_dec (Zpos p) (2 ^ prec)) as [Hp2|Hp2].
    + assert (Zpos (digits2_pos p) = prec + 1) as Hd.
      { apply digits2_pos_unique. rewrite Hp2. rewrite Z.add_simpl_r.
        split; [done|]. apply Z.pow_lt_mono_r; lia. }
      replace (fexp prec emax (Zpos (digits2_pos p) + e) - e) with 1
        by (rewrite Hd, fexp_unfold; lia).
      replace (Zpos p) with (2 ^ (prec - 1) * 2 ^ 1)
        by (rewrite Hp2, <- Z.pow_add_r by lia; f_equal; lia).
      rewrite shr_exact by lia. cbn [shr_m].
      destruct (2 ^ (prec - 1)) as [|q|q] eqn:Hq; [lia| |lia].
      destruct (Z.leb_spec (e + 1) (emax - prec)); [|done].
      apply bounded_spec. split; [|lia].
      replace (Zpos (digits2_pos q)) with prec; [rewrite fexp_unfold; lia|].
      symmetry. apply digits2_pos_unique. rewrite <- Hq.
      split; [done|]. apply Z.pow_lt_mono_r; lia.
    + assert (Zpos (digits2_pos p) <= prec) as Hd.
      { apply Z.lt_succ_r. apply (Z.pow_lt_mono_r_iff 2); [lia..|].
        rewrite Z.pow_succ_r by lia.
        enough (2 ^ Zpos (digits2_pos p) <= 2 * Zpos p) by lia.
        replace (Zpos (digits2_pos p)) with (1 + (Zpos (digits2_pos p) - 1)) by lia.
        rewrite Z.pow_add_r by lia. lia. }
      assert (fexp prec emax (Zpos (digits2_pos p) + e) = e) as Hf.
      { rewrite fexp_unfold. destruct Hsub as [->|Hsub]; [lia|].
        assert (Zpos (digits2_pos p) = prec); [|lia].
        apply Z.le_antisymm; [done|]. apply Z.nlt_ge. intros Hlt.
        assert (2 ^ Zpos (digits2_pos p) <= 2 ^ (prec - 1)) by (apply Z.pow_le_mono_r; lia).
        lia. }
      rewrite Hf, Z.sub_diag. cbn [shr shr_m].
      destruct (Z.leb_spec e (emax - prec)); [|done].
      by apply bounded_spec.
Qed.

Lemma binary_round_aux_valid s (m : positive) (e : Z) :
  e <= fexp prec emax (Zpos (digits2_pos m) + e) ->
  valid_binary prec emax (binary_round_aux prec emax s (Zpos m) e loc_Exact) = true.
Proof.
  intros He. unfold binary_round_aux. unfold shr_fexp at 1. cbn [shr_record_of_loc Zdigits2].
  set (k := fexp _ _ _ - e).
  assert (record_ok (Build_shr_record (Zpos m) false false) (Zpos m) 1) as Hrec
    by (cbn [record_ok]; lia).
  destruct (shr_record_ok _ _ _ e k ltac:(lia) Hrec) as [H1 H2].
  destruct (shr _ e k) as [mrs1 e1]; cbn [fst snd] in H1, H2. rewrite Z.mul_1_l in H1.
  pose proof (round_nearest_even_ok _ _ _ H1) as Hr.
  set (r := round_nearest_even _ _) in *. clearbody r.
  pose proof (digits2_pos_spec m) as Hm.
  assert (0 < 2 ^ k) by (apply Z.pow_pos_nonneg; lia).
  assert (Zpos m < 2 ^ prec * 2 ^ k) as Hm2.
  { apply Z.lt_le_trans with (1 := proj2 Hm). rewrite <- Z.pow_add_r by lia.
    apply Z.pow_le_mono_r; [lia|]. unfold k. rewrite fexp_unfold. lia. }
  assert (0 < 2 ^ prec) by (apply Z.pow_pos_nonneg; lia).
  apply renormalise_valid; [nia|unfold k in H2; rewrite fexp_unfold in H2; lia|].
  destruct (Z.eq_dec e1 (emin prec emax)) as [|Hn]; [by left|right].
  assert (k = Zpos (digits2_pos m) - prec) as Hk
    by (unfold k in *; rewrite fexp_unfold in *; lia).
  assert (2 ^ (prec - 1) * 2 ^ k <= Zpos m).
  { rewrite <- Z.pow_add_r by lia. etrans; [|apply (proj1 Hm)].
    apply Z.pow_le_mono_r; lia. }
  nia.
Qed.

Lemma binary_round_valid s m e :
  valid_binary prec emax (binary_round prec emax s m e) = true.
Proof.
  unfold binary_round, shl_align.
  destruct (fexp _ _ _ - e) as [|d|d] eqn:Hd; apply binary_round_aux_valid; [lia..|].
  rewrite (digits2_pos_mul_pow2 m (Pos.iter xO m d) (Zpos d)) by (lia || apply iter_xO_pow2).
  replace (Zpos (digits2_pos m) + Zpos d + _) with (Zpos (digits2_pos m) + e) by lia. done.
Qed.
End Validity.

(** ** Single precision: the elements of a Float32Array *)

Definition prec32 : Z := 24.
Definition emax32 : Z := 128.

Definition valid32 (x : spec_float) : Prop := valid_binary prec32 emax32 x = true.

(** Storing a Number rounds it to binary32; reading it back is exact. *)
Definition to_f32 (x : number) : spec_float :=
  match x with S754_finite s m e => binary_round prec32 emax32 s m e | _ => x end.
Definition of_f32 (x : spec_float) : number :=
  match x with S754_finite s m e => binary_round prec64 emax64 s m e | _ => x end.

(** [Math.fround] *)
Definition num_fround (x : number) : number := of_f32 (to_f32 x).

Definition sign_bit (s : bool) : Z := if s then 2 ^ 31 else 0.

(** The interchange encoding; NaN is stored as the canonical quiet NaN. *)
Definition f32_bits (x : spec_float) : Z :=
  match x with
  | S754_zero s => sign_bit s
  | S754_infinity s => sign_bit s + 255 * 2 ^ 23
  | S754_nan => 255 * 2 ^ 23 + 2 ^ 22
  | S754_finite s m e =>
      sign_bit s +
      (if Zpos m <? 2 ^ 23 then Zpos m else (e + 150) * 2 ^ 23 + (Zpos m - 2 ^ 23))
  end.

Definition f32_of_bits (b : Z) : spec_float :=
  let s := 2 ^ 31 <=? b in
  let ex := (b / 2 ^ 23) mod 2 ^ 8 in
  let fr := b mod 2 ^ 23 in
  if ex =? 255 then if fr =? 0 then S754_infinity s else S754_nan
  else if ex =? 0 then
    match fr with Zpos p => S754_finite s p (-149) | _ => S754_zero s end
  else
    match fr + 2 ^ 23 with Zpos p => S754_finite s p (ex - 150) | _ => S754_nan end.

Lemma to_f32_valid x : valid32 (to_f32 x).
Proof. destruct x; try done. by apply binary_round_valid. Qed.

Lemma valid32_finite s m e :
  valid32 (S754_finite s m e) ->
  -149 <= e <= 104 /\ Zpos m < 2 ^ 24 /\ (2 ^ 23 <= Zpos m \/ e = -149).
Proof.
  intros [Hf He]%bounded_spec. unfold fexp, emin, prec32, emax32 in *.
  pose proof (digits2_pos_spec m) as Hm.
  assert (2 ^ Zpos (digits2_pos m) <= 2 ^ 24) by (apply Z.pow_le_mono_r; lia).
  split_and!; [lia|lia|lia|].
  destruct (Z.eq_dec e (-149)); [by right|left].
  replace (Zpos (digits2_pos m) - 1) with 23 in Hm by lia. lia.
Qed.

Lemma f32_bits_range x : valid32 x -> 0 <= f32_bits x < 2 ^ 32.
Proof.
  intros Hv. destruct x as [s|s| |s m e]; [by destruct s|by destruct s|done|].
  apply valid32_finite in Hv as (He & Hm & Hsub). cbn [f32_bits].
  assert (0 <= sign_bit s <= 2 ^ 31) by (destruct s; cbn; lia).
  destruct (Z.ltb_spec (Zpos m) (2 ^ 23)); lia.
Qed.

Lemma f32_split (s : bool) (ex fr : Z) :
  0 <= ex < 2 ^ 8 -> 0 <= fr < 2 ^ 23 ->
  let b := sign_bit s + ex * 2 ^ 23 + fr in
  (2 ^ 31 <=? b) = s /\ (b / 2 ^ 23) mod 2 ^ 8 = ex /\ b mod 2 ^ 23 = fr.
Proof.
  intros Hex Hfr b.
  assert (b = ((if s then 2 ^ 8 else 0) + ex) * 2 ^ 23 + fr) as Hb
    by (unfold b; destruct s; cbn [sign_bit]; lia).
  split_and!.
  - unfold b. destruct s; cbn [sign_bit]; lia.
  - rewrite Hb, Z.div_add_l, (Z.div_small fr), Z.add_0_r by lia.
    destruct s.
    + replace (2 ^ 8 + ex) with (ex + 1 * 2 ^ 8) by lia.
      by rewrite Z.mod_add, Z.mod_small by lia.
    + by rewrite Z.add_0_l, Z.mod_small.
  - rewrite Hb, Z.add_comm, Z.mod_add by lia. by apply Z.mod_small.
Qed.

(** Decoding the encoding of a binary32 value gives it back. *)
Lemma f32_of_bits_bits x : valid32 x -> f32_of_bits (f32_bits x) = x.
Proof.
  intros Hv. destruct x as [s|s| |s m e]; [by destruct s|by destruct s|done|].
  apply valid32_finite in Hv as (He & Hm & Hsub). cbn [f32_bits].
  destruct (Z.ltb_spec (Zpos m) (2 ^ 23)).
  - destruct (f32_split s 0 (Zpos m)) as (H1 & H2 & H3); [lia..|].
    rewrite Z.mul_0_l, Z.add_0_r in H1, H2, H3.
    unfold f32_of_bits. rewrite H1, H2, H3. cbn. destruct Hsub as [| ->]; [lia|done].
  - destruct (f32_split s (e + 150) (Zpos m - 2 ^ 23)) as (H1 & H2 & H3); [lia..|].
    rewrite <- Z.add_assoc in H1, H2, H3.
    unfold f32_of_bits. rewrite H1, H2, H3.
    replace (e + 150 =? 255) with false by lia. replace (e + 150 =? 0) with false by lia.
    replace (Zpos m - 2 ^ 23 + 2 ^ 23) with (Zpos m) by lia. f_equal. lia.
Qed.

Lemma f32_of_bits_valid b : valid32 (f32_of_bits b).
Proof.
  unfold f32_of_bits.
  assert (0 <= b mod 2 ^ 23 < 2 ^ 23) as Hfr by (apply Z.mod_pos_bound; lia).
  assert (0 <= (b / 2 ^ 23) mod 2 ^ 8 < 2 ^ 8) as Hex by (apply Z.mod_pos_bound; lia).
  destruct (Z.eqb_spec ((b / 2 ^ 23) mod 2 ^ 8) 255) as [H255|H255]; [by case_match|].
  destruct (Z.eqb_spec ((b / 2 ^ 23) mod 2 ^ 8) 0) as [H0|H0].
  - destruct (b mod 2 ^ 23) as [|p|p]; [done| |done].
    apply bounded_spec. pose proof (digits2_pos_spec p) as Hp.
    assert (Zpos (digits2_pos p) - 1 < 23) by (apply (Z.pow_lt_mono_r_iff 2); lia).
    unfold fexp, emin, prec32, emax32. lia.
  - destruct (b mod 2 ^ 23 + 2 ^ 23) as [|p|p] eqn:Hp; [done| |done].
    apply bounded_spec.
    replace (Zpos (digits2_pos p)) with 24 by (symmetry; apply digits2_pos_unique; lia).
    unfold fexp, emin, prec32, emax32. lia.
Qed.

(** Widening to binary64 is exact, so rounding back recovers the element. *)
Lemma of_f32_exact s m e :
  valid32 (S754_finite s m e) ->
  exists M E, of_f32 (S754_finite s m e) = S754_finite s M E
    /\ E <= e /\ Zpos M = Zpos m * 2 ^ (e - E).
Proof.
  intros Hv. apply valid32_finite in Hv as (He & Hm & _).
  pose proof (digits2_pos_spec m) as Hd.
  assert (Zpos (digits2_pos m) - 1 < 24) by (apply (Z.pow_lt_mono_r_iff 2); lia).
  set (k := 53 - Zpos (digits2_pos m)).
  assert (0 < 2 ^ k) by (apply Z.pow_pos_nonneg; unfold k; lia).
  set (M := Z.to_pos (Zpos m * 2 ^ k)).
  assert (Zpos M = Zpos m * 2 ^ k) as HM by (unfold M; rewrite Z2Pos.id; nia).
  assert (Zpos (digits2_pos M) = 53) as HdM
    by (rewrite (digits2_pos_mul_pow2 m M k) by (done || unfold k; lia); unfold k; lia).
  exists M, (e - k). clearbody M. cbn [of_f32].
  assert (Zpos M = Zpos m * 2 ^ (e - (e - k))) as HM'
    by (by replace (e - (e - k)) with k by lia).
  split_and!; [|unfold k; lia|done].
  apply binary_round_exact; [|left; split; [unfold k; lia|done]].
  apply bounded_spec. rewrite HdM. unfold fexp, emin, prec64, emax64, k. lia.
Qed.

Lemma to_f32_of_f32 x : valid32 x -> to_f32 (of_f32 x) = x.
Proof.
  intros Hv. destruct x as [s|s| |s m e]; [done..|].
  destruct (of_f32_exact s m e Hv) as (M & E & -> & HE & HM).
  cbn [to_f32]. apply binary_round_exact; [done|]. right. done.
Qed.

Lemma num_fround_idemp x : num_fround (num_fround x) = num_fround x.
Proof. unfold num_fround. by rewrite to_f32_of_f32 by apply to_f32_valid. Qed.

#[export] Instance spec_float_eq_dec : EqDecision spec_float.
Proof. solve_decision. Defined.

(** Rewriting with the exactness lemmas: [num_exact] evaluates arithmetic on
    safe integers, leaving the range conditions to [lia]. *)
Create HintDb js_num.
Ltac num_exact :=
  repeat first
    [ rewrite num_add_Z by (unfold safe in *; lia)
    | rewrite num_sub_Z by (unfold safe in *; lia)
    | rewrite num_mul_Z by (unfold safe in *; lia)
    | rewrite num_eqb_Z by (unfold safe in *; lia)
    | rewrite num_ltb_Z by (unfold safe in *; lia)
    | rewrite num_leb_Z by (unfold safe in *; lia)
    | rewrite num_trunc_Z by (unfold safe in *; lia)
    | rewrite to_uint_Z by (unfold safe in *; lia) ].

(** Integers below 2^24 are binary32 values. *)
Lemma num_fround_Z z : Z.abs z < 2 ^ 24 -> num_fround (num_of_Z z) = num_of_Z z.
Proof.
  intros Hz. destruct (Z.eq_dec z 0) as [->|Hz0]; [done|].
  assert (safe z) as Hs by (unfold safe; lia).
  destruct (safe_repr z Hs Hz0) as (M & E & HzE & _ & HdM & HE & HM).
  set (p := Z.to_pos (Z.abs z)). assert (Zpos p = Z.abs z) as Hp by (unfold p; lia).
  pose proof (digits2_pos_spec p) as Hd.
  assert (Zpos (digits2_pos p) - 1 < 24) by (apply (Z.pow_lt_mono_r_iff 2); lia).
  set (k := 24 - Zpos (digits2_pos p)).
  assert (0 < 2 ^ k) by (apply Z.pow_pos_nonneg; unfold k; lia).
  set (m := Z.to_pos (Z.abs z * 2 ^ k)).
  assert (Zpos m = Z.abs z * 2 ^ k) as Hm by (unfold m; rewrite Z2Pos.id; nia).
  assert (Zpos (digits2_pos m) = 24) as Hdm.
  { rewrite (digits2_pos_mul_pow2 p m k) by (rewrite ?Hp; done || unfold k; lia). unfold k. lia. }
  assert (Zpos (digits2_pos M) = Zpos (digits2_pos p) - E) as HdM'.
  { rewrite (digits2_pos_mul_pow2 p M (- E)) by (rewrite ?Hp; done || lia). lia. }
  clearbody p m. unfold num_fround. rewrite HzE. cbn [to_f32].
  rewrite (binary_round_exact prec32 emax32 _ M m E (- k)).
  - cbn [of_f32]. rewrite binary_round_safe with (z := z); [done|done|done|unfold k; lia|].
    by rewrite Z.opp_involutive.
  - apply bounded_spec. rewrite Hdm. unfold fexp, emin, prec32, emax32, k. lia.
  - right. split; [unfold k; lia|].
    rewrite HM, Hm, <- Z.mul_assoc, <- Z.pow_add_r by (unfold k; lia).
    do 2 f_equal. lia.
Qed.
