(* ===== verification/JsBuffer.v ===== *)
(** ArrayBuffer, DataView and Float32Array of the browser, as far as the
    binary sample protocol uses them.  An ArrayBuffer is its list of bytes.
    [host_le] is the byte order of the machine, which a Float32Array uses and
    a DataView does not. *)
From S2P Require Import Prelude JsNumber.

(** ** Integers as bytes *)

Fixpoint le_bytes (n : nat) (z : Z) : list Z :=
  match n with
  | O => []
  | S n => z mod 256 :: le_bytes n (z / 256)
  end.

Fixpoint le_value (bs : list Z) : Z :=
  match bs with
  | [] => 0
  | b :: bs => b + 256 * le_value bs
  end.

Definition bytes_of (little : bool) (n : nat) (z : Z) : list Z :=
  if little then le_bytes n z else reverse (le_bytes n z).

Definition value_of (little : bool) (bs : list Z) : Z :=
  le_value (if little then bs else reverse bs).

Lemma length_le_bytes n z : length (le_bytes n z) = n.
Proof. revert z. induction n; intros z; cbn; auto. Qed.

Lemma length_bytes_of l n z : length (bytes_of l n z) = n.
Proof. unfold bytes_of. destruct l; rewrite ?length_reverse; apply length_le_bytes. Qed.

Lemma le_value_bytes n z : le_value (le_bytes n z) = z mod 2 ^ (8 * Z.of_nat n).
Proof.
  revert z. induction n as [|n IH]; intros z; cbn [le_bytes le_value].
  - by rewrite Z.mul_0_r, Z.pow_0_r, Z.mod_1_r.
  - rewrite IH. replace (8 * Z.of_nat (S n)) with (8 + 8 * Z.of_nat n) by lia.
    rewrite Z.pow_add_r by lia. change (2 ^ 8) with 256.
    assert (0 < 2 ^ (8 * Z.of_nat n)) by (apply Z.pow_pos_nonneg; lia).
    by rewrite Z.rem_mul_r by lia.
Qed.

Lemma value_of_bytes_of l n z : value_of l (bytes_of l n z) = z mod 2 ^ (8 * Z.of_nat n).
Proof.
  unfold value_of, bytes_of. destruct l; rewrite ?reverse_involutive; apply le_value_bytes.
Qed.

Lemma le_bytes_range n z : Forall (fun b => 0 <= b < 256) (le_bytes n z).
Proof.
  revert z. induction n as [|n IH]; intros z; cbn; constructor; [|done].
  apply Z.mod_pos_bound. lia.
Qed.

Lemma bytes_of_range l n z : Forall (fun b => 0 <= b < 256) (bytes_of l n z).
Proof. unfold bytes_of. destruct l; [|apply Forall_reverse]; apply le_bytes_range. Qed.

(** ** Slices *)

Definition slice (off n : nat) (bs : list Z) : list Z := take n (drop off bs).
Definition splice (off : nat) (new bs : list Z) : list Z :=
  take off bs ++ new ++ drop (off + length new) bs.

Lemma length_splice off new bs :
  (off + length new <= length bs)%nat -> length (splice off new bs) = length bs.
Proof. intros. unfold splice. rewrite !length_app, length_take, length_drop. lia. Qed.

Lemma slice_app_l off n l1 l2 :
  (off + n <= length l1)%nat -> slice off n (l1 ++ l2) = slice off n l1.
Proof.
  intros. unfold slice. rewrite drop_app_le by lia.
  rewrite take_app_le by (rewrite length_drop; lia). done.
Qed.

Lemma slice_app_r off n l1 l2 :
  slice (length l1 + off) n (l1 ++ l2) = slice off n l2.
Proof. unfold slice. by rewrite drop_app_add. Qed.

Lemma slice_app_0 n l1 l2 : length l1 = n -> slice 0 n (l1 ++ l2) = l1.
Proof. intros <-. unfold slice. by rewrite drop_0, take_app_length. Qed.

Lemma length_slice off n l : (off + n <= length l)%nat -> length (slice off n l) = n.
Proof. intros. unfold slice. rewrite length_take, length_drop. lia. Qed.

(** ** DataView *)

Record data_view := { dv_buffer : list Z; dv_offset : nat; dv_length : nat }.

(** [new ArrayBuffer(n)] *)
Definition new_array_buffer (n : nat) : list Z := replicate n 0.

(** [new DataView(buffer, offset)] and [new DataView(buffer, offset, length)] *)
Definition new_data_view (buffer : list Z) (offset : nat) (len : option nat) : result data_view :=
  if (length buffer <? offset)%nat then Throw RangeError
  else match len with
       | None => Ok {| dv_buffer := buffer; dv_offset := offset; dv_length := length buffer - offset |}
       | Some n =>
           if (length buffer <? offset + n)%nat then Throw RangeError
           else Ok {| dv_buffer := buffer; dv_offset := offset; dv_length := n |}
       end.

(** [getUint8], [getUint16] and [getUint32] *)
Definition dv_get (n : nat) (v : data_view) (off : nat) (little : bool) : result Z :=
  if (dv_length v <? off + n)%nat then Throw RangeError
  else Ok (value_of little (slice (dv_offset v + off) n (dv_buffer v))).

(** [setUint8], [setUint16] and [setUint32] of an already converted integer *)
Definition dv_set (n : nat) (v : data_view) (off : nat) (z : Z) (little : bool) : result data_view :=
  if (dv_length v <? off + n)%nat then Throw RangeError
  else Ok {| dv_buffer := splice (dv_offset v + off) (bytes_of little n z) (dv_buffer v);
             dv_offset := dv_offset v; dv_length := dv_length v |}.

Section Float32Array.
Context (host_le : bool).

(** The elements of [new Float32Array(buffer, offset, n)], read in order. *)
Fixpoint f32_read (bs : list Z) (n : nat) : list number :=
  match n with
  | O => []
  | S n => of_f32 (f32_of_bits (value_of host_le (take 4 bs))) :: f32_read (drop 4 bs) n
  end.

Fixpoint f32_write (xs : list number) : list Z :=
  match xs with
  | [] => []
  | x :: xs => bytes_of host_le 4 (f32_bits (to_f32 x)) ++ f32_write xs
  end.

Definition f32_view_ok (buffer : list Z) (off n : nat) : bool :=
  (off mod 4 =? 0)%nat && (off + 4 * n <=? length buffer)%nat.

Definition float32_array (buffer : list Z) (off n : nat) : result (list number) :=
  if f32_view_ok buffer off n then Ok (f32_read (drop off buffer) n) else Throw RangeError.

(** [new Float32Array(buffer, off, n).set(xs)] *)
Definition float32_array_set (buffer : list Z) (off n : nat) (xs : list number) : result (list Z) :=
  if f32_view_ok buffer off n then
    if (n <? length xs)%nat then Throw RangeError
    else Ok (splice off (f32_write xs) buffer)
  else Throw RangeError.

Lemma length_f32_write xs : length (f32_write xs) = (4 * length xs)%nat.
Proof.
  induction xs as [|x xs IH]; [done|]. cbn [f32_write length].
  rewrite length_app, length_bytes_of, IH. lia.
Qed.

Lemma length_f32_read bs n : length (f32_read bs n) = n.
Proof. revert bs. induction n; intros; cbn; auto. Qed.

(** An element written and read back is the Number rounded to binary32. *)
Lemma f32_read_write xs bs n :
  n = length xs -> f32_read (f32_write xs ++ bs) n = num_fround <$> xs.
Proof.
  intros ->. revert bs. induction xs as [|x xs IH]; intros bs; [done|].
  cbn [f32_write length f32_read fmap list_fmap]. rewrite <- app_assoc.
  rewrite take_app_length', drop_app_length' by (by rewrite length_bytes_of).
  f_equal; [|apply IH].
  rewrite value_of_bytes_of, Z.mod_small by (apply f32_bits_range, to_f32_valid).
  by rewrite f32_of_bits_bits by apply to_f32_valid.
Qed.

Lemma f32_read_take bs n k : (4 * n <= k)%nat -> f32_read (take k bs) n = f32_read bs n.
Proof.
  revert bs k. induction n as [|n IH]; intros bs k Hk; [done|]. cbn [f32_read].
  rewrite take_take, Nat.min_l by lia. f_equal.
  replace k with (4 + (k - 4))%nat by lia. rewrite <- take_drop_commute.
  apply IH. lia.
Qed.
End Float32Array.

(** ** Reading and writing inside a concatenation *)

Lemma splice_app_l off new l1 l2 :
  (off + length new <= length l1)%nat -> splice off new (l1 ++ l2) = splice off new l1 ++ l2.
Proof.
  intros. unfold splice. rewrite take_app_le, drop_app_le by lia. by rewrite !app_assoc.
Qed.

Lemma splice_app_r_all new l1 l2 :
  length new = length l2 -> splice (length l1) new (l1 ++ l2) = l1 ++ new.
Proof.
  intros Hlen. unfold splice. rewrite take_app_length, Hlen, <- length_app, drop_all.
  by rewrite app_nil_r.
Qed.

(** A getter on a view that starts at the end of [pre] reads from what follows. *)
Lemma dv_get_app n pre l off little len :
  (off + n <= length l)%nat -> (off + n <= len)%nat ->
  dv_get n {| dv_buffer := pre ++ l; dv_offset := length pre; dv_length := len |} off little
  = Ok (value_of little (slice off n l)).
Proof.
  intros Hl Hlen. unfold dv_get. cbn [dv_length dv_offset dv_buffer].
  rewrite (proj2 (Nat.ltb_ge _ _)) by lia. by rewrite slice_app_r.
Qed.
