(* ===== verification/JsString.v ===== *)
(** JavaScript strings: sequences of UTF-16 code units, with the operations
    the web client applies to them. *)
From Stdlib Require Import Ascii String.
From S2P Require Import Prelude.

Abbreviation jstr := (list Z).

(** A string literal of the source (ASCII). *)
Fixpoint str (s : string) : jstr :=
  match s with
  | EmptyString => []
  | String a s => Z.of_nat (nat_of_ascii a) :: str s
  end.

Lemma str_app s1 s2 : str (s1 ++ s2) = str s1 ++ str s2.
Proof. induction s1 as [|a s1 IH]; [done|]. cbn. by rewrite <- IH. Qed.

(** ** Digits and Number.prototype.toString *)

Definition digit_char (d : Z) : Z := if d <? 10 then 48 + d else 87 + d.

Definition digit_value (c : Z) : option Z :=
  if (48 <=? c) && (c <=? 57) then Some (c - 48)
  else if (97 <=? c) && (c <=? 102) then Some (c - 87)
  else if (65 <=? c) && (c <=? 70) then Some (c - 55)
  else None.

(** The digits of a non-negative integer, most significant first; [fuel]
    bounds their number. *)
Fixpoint digits (fuel : nat) (radix z : Z) : jstr :=
  match fuel with
  | O => []
  | S fuel => (if z <? radix then [] else digits fuel radix (z / radix)) ++ [digit_char (z mod radix)]
  end.

(** [Number.prototype.toString(radix)] on an integer: a number below 2^n
    has at most n digits, so its bit length is enough fuel. *)
Definition int_to_string (radix z : Z) : jstr :=
  let ds := digits (S (Z.to_nat (Z.log2 (Z.abs z)))) radix (Z.abs z) in
  if z <? 0 then str "-" ++ ds else ds.

(** The value a digit string denotes. *)
Fixpoint digits_value (radix acc : Z) (s : jstr) : option Z :=
  match s with
  | [] => Some acc
  | c :: s => d ← digit_value c; digits_value radix (acc * radix + d) s
  end.

Lemma digit_value_char d : 0 <= d < 16 -> digit_value (digit_char d) = Some d.
Proof.
  intros Hd. unfold digit_char. destruct (Z.ltb_spec d 10); unfold digit_value.
  - replace ((48 <=? 48 + d) && (48 + d <=? 57)) with true by lia. f_equal. lia.
  - replace ((48 <=? 87 + d) && (87 + d <=? 57)) with false by lia.
    replace ((97 <=? 87 + d) && (87 + d <=? 102)) with true by lia. f_equal. lia.
Qed.

Lemma digits_value_app radix acc s1 s2 :
  digits_value radix acc (s1 ++ s2) = v ← digits_value radix acc s1; digits_value radix v s2.
Proof.
  revert acc. induction s1 as [|c s1 IH]; intros acc; [done|]. cbn.
  destruct (digit_value c); [|done]. apply IH.
Qed.

(** Printing and reading back an integer. *)
Lemma digits_value_digits fuel radix z :
  2 <= radix <= 16 -> 0 <= z < radix ^ Z.of_nat fuel ->
  (0 < fuel)%nat -> digits_value radix 0 (digits fuel radix z) = Some z.
Proof.
  intros Hr. revert z. induction fuel as [|fuel IH]; intros z Hz Hf; [lia|].
  cbn [digits]. rewrite digits_value_app.
  assert (0 <= z mod radix < radix) by (apply Z.mod_pos_bound; lia).
  destruct (Z.ltb_spec z radix).
  - cbn. rewrite digit_value_char by lia. cbn. f_equal. rewrite Z.mod_small; lia.
  - rewrite Nat2Z.inj_succ, Z.pow_succ_r in Hz by lia.
    destruct fuel as [|fuel']; [cbn in Hz; lia|].
    rewrite IH; [|split; [apply Z.div_pos; lia|apply Z.div_lt_upper_bound; lia]|lia].
    cbn. rewrite digit_value_char by lia. cbn. f_equal.
    pose proof (Z.div_mod z radix ltac:(lia)). lia.
Qed.

Lemma int_to_string_value radix z :
  2 <= radix <= 16 -> 0 <= z -> digits_value radix 0 (int_to_string radix z) = Some z.
Proof.
  intros Hr Hz. unfold int_to_string. rewrite Z.abs_eq by lia.
  replace (z <? 0) with false by lia.
  apply digits_value_digits; [done| |lia]. split; [done|].
  destruct (Z.eq_dec z 0) as [->|]; [apply Z.pow_pos_nonneg; lia|].
  pose proof (Z.log2_spec z ltac:(lia)) as [_ Hlog]. pose proof (Z.log2_nonneg z).
  replace (Z.of_nat (S (Z.to_nat (Z.log2 z)))) with (Z.succ (Z.log2 z)) by lia.
  apply Z.lt_le_trans with (1 := Hlog). apply Z.pow_le_mono_l. lia.
Qed.

(** A number between radix^n and radix^(n+1) has n+1 digits. *)
Lemma length_digits fuel radix z n :
  2 <= radix -> radix ^ Z.of_nat n <= z < radix ^ Z.of_nat (S n) -> (n < fuel)%nat ->
  length (digits fuel radix z) = S n.
Proof.
  intros Hr. revert fuel z. induction n as [|n IH]; intros fuel z Hz Hf;
    (destruct fuel as [|fuel]; [lia|]); cbn [digits].
  - rewrite Z.pow_1_r in Hz. by rewrite (proj2 (Z.ltb_lt _ _)) by lia.
  - rewrite Nat2Z.inj_succ, Z.pow_succ_r in Hz by lia.
    rewrite (Nat2Z.inj_succ (S n)), (Z.pow_succ_r radix (Z.of_nat (S n))) in Hz by lia.
    assert (0 < radix ^ Z.of_nat n) by (apply Z.pow_pos_nonneg; lia).
    rewrite (proj2 (Z.ltb_ge _ _)) by nia.
    rewrite length_app, (IH fuel); [cbn; lia| |lia].
    split; [apply Z.div_le_lower_bound|apply Z.div_lt_upper_bound]; lia.
Qed.

Lemma digits_are_digits fuel radix z :
  2 <= radix <= 16 -> Forall (fun c => is_Some (digit_value c)) (digits fuel radix z).
Proof.
  intros Hr. revert z. induction fuel as [|fuel IH]; intros z; cbn [digits]; [done|].
  apply Forall_app. split; [by case_match|]. constructor; [|done].
  assert (0 <= z mod radix < radix) by (apply Z.mod_pos_bound; lia).
  rewrite digit_value_char by lia. eauto.
Qed.

(** ** [decodeURIComponent] *)

(** The code units of a code point (UTF16EncodeCodePoint). *)
Definition utf16_encode (cp : Z) : jstr :=
  if cp <? 2 ^ 16 then [cp]
  else [55296 + (cp - 2 ^ 16) / 2 ^ 10; 56320 + (cp - 2 ^ 16) mod 2 ^ 10].

(** %XX *)
Definition percent_byte (s : jstr) : option (Z * jstr) :=
  match s with
  | 37 :: h :: l :: s =>
      h ← digit_value h; l ← digit_value l; Some (16 * h + l, s)
  | _ => None
  end.

(** [n] continuation bytes, each percent-encoded. *)
Fixpoint continuation (n : nat) (acc : Z) (s : jstr) : option (Z * jstr) :=
  match n with
  | O => Some (acc, s)
  | S n =>
      '(b, s) ← percent_byte s;
      if (128 <=? b) && (b <? 192) then continuation n (acc * 64 + (b - 128)) s else None
  end.

(** The length of the sequence a lead byte announces, the bits it carries and
    the least code point that needs this length. *)
Definition lead_byte (b : Z) : option (nat * Z * Z) :=
  if (192 <=? b) && (b <? 224) then Some (1%nat, b - 192, 128)
  else if (224 <=? b) && (b <? 240) then Some (2%nat, b - 224, 2048)
  else if (240 <=? b) && (b <? 248) then Some (3%nat, b - 240, 65536)
  else None.

Fixpoint decode_go (fuel : nat) (s : jstr) : option jstr :=
  match fuel with
  | O => None
  | S fuel =>
      match s with
      | [] => Some []
      | c :: s' =>
          if c =? 37 then
            '(b, rest) ← percent_byte s;
            if b <? 128 then r ← decode_go fuel rest; Some (b :: r)
            else
              '(n, bits, least) ← lead_byte b;
              '(cp, rest) ← continuation n bits rest;
              if (least <=? cp) && (cp <=? 1114111) && negb ((55296 <=? cp) && (cp <=? 57343))
              then r ← decode_go fuel rest; Some (utf16_encode cp ++ r)
              else None
          else r ← decode_go fuel s'; Some (c :: r)
      end
  end.

(** Each step consumes at least one code unit. *)
Definition decodeURIComponent (s : jstr) : result jstr :=
  match decode_go (S (length s)) s with Some r => Ok r | None => Throw URIError end.

(** ** Searching and splitting *)

Fixpoint is_prefix (p s : jstr) : bool :=
  match p, s with
  | [], _ => true
  | a :: p, b :: s => (a =? b) && is_prefix p s
  | _, _ => false
  end.

Fixpoint take_until (c : Z) (s : jstr) : jstr :=
  match s with
  | [] => []
  | x :: s => if x =? c then [] else x :: take_until c s
  end.

Lemma is_prefix_app p s : is_prefix p (p ++ s) = true.
Proof. induction p as [|a p IH]; cbn; [done|]. by rewrite Z.eqb_refl. Qed.

Lemma take_until_app c v rest :
  Forall (fun x => x <> c) v -> take_until c (v ++ c :: rest) = v.
Proof.
  induction 1 as [|x v Hx _ IH]; cbn; [by rewrite Z.eqb_refl|].
  rewrite (proj2 (Z.eqb_neq _ _)) by done. by rewrite IH.
Qed.

Lemma take_until_all c v : Forall (fun x => x <> c) v -> take_until c v = v.
Proof.
  induction 1 as [|x v Hx _ IH]; cbn; [done|].
  rewrite (proj2 (Z.eqb_neq _ _)) by done. by rewrite IH.
Qed.

(** ** Percent-encoding, the inverse of [decodeURIComponent] *)

(** A Unicode scalar value. *)
Definition scalar (cp : Z) : Prop :=
  0 <= cp <= 1114111 /\ ~ (55296 <= cp <= 57343).

#[export] Instance scalar_dec cp : Decision (scalar cp).
Proof. unfold scalar. apply _. Defined.

(** Its UTF-8 encoding. *)
Definition utf8_encode (cp : Z) : list Z :=
  if cp <? 128 then [cp]
  else if cp <? 2048 then [192 + cp / 64; 128 + cp mod 64]
  else if cp <? 65536 then [224 + cp / 64 / 64; 128 + cp / 64 mod 64; 128 + cp mod 64]
  else [240 + cp / 64 / 64 / 64; 128 + cp / 64 / 64 mod 64; 128 + cp / 64 mod 64; 128 + cp mod 64].

Definition percent (b : Z) : jstr := [37; digit_char (b / 16); digit_char (b mod 16)].

Definition percent_encode (cps : list Z) : jstr :=
  concat (map (fun cp => concat (map percent (utf8_encode cp))) cps).

Lemma percent_byte_percent b s :
  0 <= b < 256 -> percent_byte (percent b ++ s) = Some (b, s).
Proof.
  intros Hb.
  assert (0 <= b / 16 < 16) by (split; [apply Z.div_pos|apply Z.div_lt_upper_bound]; lia).
  assert (0 <= b mod 16 < 16) by (apply Z.mod_pos_bound; lia).
  unfold percent, percent_byte. cbn [app].
  rewrite !digit_value_char by lia. cbn. do 2 f_equal.
  pose proof (Z.div_mod b 16 ltac:(lia)). lia.
Qed.

Lemma continuation_step n acc b s :
  0 <= b < 64 ->
  continuation (S n) acc (percent (128 + b) ++ s) = continuation n (acc * 64 + b) s.
Proof.
  intros Hb. cbn [continuation]. rewrite percent_byte_percent by lia. cbn.
  replace ((128 <=? 128 + b) && (128 + b <? 192)) with true by lia.
  f_equal. lia.
Qed.

Lemma div_mod_64 z : 0 <= z -> z = z / 64 * 64 + z mod 64 /\ 0 <= z mod 64 < 64 /\ 0 <= z / 64.
Proof.
  intros Hz. pose proof (Z.div_mod z 64 ltac:(lia)).
  pose proof (Z.mod_pos_bound z 64 ltac:(lia)). pose proof (Z.div_pos z 64 Hz). lia.
Qed.

Lemma continuations_1 cp s :
  0 <= cp -> continuation 1 (cp / 64) (percent (128 + cp mod 64) ++ s) = Some (cp, s).
Proof.
  intros Hcp. destruct (div_mod_64 cp Hcp) as (Heq & Hm & _).
  rewrite continuation_step by done. cbn. by rewrite <- Heq.
Qed.

Lemma continuations_2 cp s :
  0 <= cp ->
  continuation 2 (cp / 64 / 64)
    (percent (128 + cp / 64 mod 64) ++ percent (128 + cp mod 64) ++ s) = Some (cp, s).
Proof.
  intros Hcp. destruct (div_mod_64 cp Hcp) as (Heq & Hm & Hd).
  destruct (div_mod_64 (cp / 64) Hd) as (Heq2 & Hm2 & _).
  rewrite continuation_step by done. rewrite <- Heq2. by apply continuations_1.
Qed.

Lemma continuations_3 cp s :
  0 <= cp ->
  continuation 3 (cp / 64 / 64 / 64)
    (percent (128 + cp / 64 / 64 mod 64) ++
     percent (128 + cp / 64 mod 64) ++ percent (128 + cp mod 64) ++ s) = Some (cp, s).
Proof.
  intros Hcp. destruct (div_mod_64 cp Hcp) as (_ & _ & Hd).
  destruct (div_mod_64 (cp / 64) Hd) as (_ & _ & Hd2).
  destruct (div_mod_64 (cp / 64 / 64) Hd2) as (Heq3 & Hm3 & _).
  rewrite continuation_step by done. rewrite <- Heq3. by apply continuations_2.
Qed.

(** One multi-byte sequence. *)
Lemma decode_multibyte fuel b n bits least cp tail rest :
  128 <= b < 256 -> lead_byte b = Some (n, bits, least) ->
  continuation n bits (tail ++ rest) = Some (cp, rest) ->
  least <= cp -> scalar cp ->
  decode_go (S fuel) (percent b ++ tail ++ rest)
  = r ← decode_go fuel rest; Some (utf16_encode cp ++ r).
Proof.
  intros Hb Hlead Hcont Hleast [Hcp Hsur].
  change (percent b ++ tail ++ rest)
    with (37 :: digit_char (b / 16) :: digit_char (b mod 16) :: tail ++ rest).
  cbn [decode_go]. rewrite Z.eqb_refl.
  change (37 :: digit_char (b / 16) :: digit_char (b mod 16) :: tail ++ rest)
    with (percent b ++ tail ++ rest).
  rewrite percent_byte_percent by lia. cbn [mbind option_bind].
  replace (b <? 128) with false by lia. rewrite Hlead. cbn [mbind option_bind].
  rewrite Hcont. cbn [mbind option_bind].
  replace ((least <=? cp) && (cp <=? 1114111) && negb ((55296 <=? cp) && (cp <=? 57343)))
    with true by lia. done.
Qed.

Lemma decode_go_char fuel cp rest :
  scalar cp ->
  decode_go (S fuel) (concat (map percent (utf8_encode cp)) ++ rest)
  = r ← decode_go fuel rest; Some (utf16_encode cp ++ r).
Proof.
  intros Hs. pose proof Hs as [Hcp _]. unfold utf8_encode.
  destruct (div_mod_64 cp) as (Heq & Hm & Hd); [lia|].
  destruct (div_mod_64 (cp / 64) Hd) as (Heq2 & Hm2 & Hd2).
  destruct (div_mod_64 (cp / 64 / 64) Hd2) as (Heq3 & Hm3 & Hd3).
  destruct (Z.ltb_spec cp 128).
  { cbn [map concat]. rewrite app_nil_r.
    change (percent cp ++ rest)
      with (37 :: digit_char (cp / 16) :: digit_char (cp mod 16) :: rest).
    cbn [decode_go]. rewrite Z.eqb_refl.
    change (37 :: digit_char (cp / 16) :: digit_char (cp mod 16) :: rest) with (percent cp ++ rest).
    rewrite percent_byte_percent by lia. cbn [mbind option_bind].
    replace (cp <? 128) with true by lia. unfold utf16_encode.
    by replace (cp <? 2 ^ 16) with true by lia. }
  destruct (Z.ltb_spec cp 2048); [|destruct (Z.ltb_spec cp 65536)];
    cbn [map concat]; rewrite <- ?app_assoc, ?app_nil_l.
  - apply (decode_multibyte _ _ 1 (cp / 64) 128); [lia| |by apply continuations_1; lia|lia|done].
    unfold lead_byte. replace ((192 <=? 192 + cp / 64) && (192 + cp / 64 <? 224)) with true by lia.
    do 3 f_equal. lia.
  - rewrite (app_assoc (percent (128 + cp / 64 mod 64))).
    apply (decode_multibyte _ _ 2 (cp / 64 / 64) 2048); [lia| | |lia|done].
    + unfold lead_byte.
      replace ((192 <=? 224 + cp / 64 / 64) && (224 + cp / 64 / 64 <? 224)) with false by lia.
      replace ((224 <=? 224 + cp / 64 / 64) && (224 + cp / 64 / 64 <? 240)) with true by lia.
      do 3 f_equal. lia.
    + rewrite <- app_assoc. apply continuations_2. lia.
  - rewrite (app_assoc (percent (128 + cp / 64 mod 64))),
      (app_assoc (percent (128 + cp / 64 / 64 mod 64))).
    apply (decode_multibyte _ _ 3 (cp / 64 / 64 / 64) 65536); [lia| | |lia|done].
    + unfold lead_byte.
      replace ((192 <=? 240 + cp / 64 / 64 / 64) && (240 + cp / 64 / 64 / 64 <? 224)) with false by lia.
      replace ((224 <=? 240 + cp / 64 / 64 / 64) && (240 + cp / 64 / 64 / 64 <? 240)) with false by lia.
      replace ((240 <=? 240 + cp / 64 / 64 / 64) && (240 + cp / 64 / 64 / 64 <? 248)) with true by lia.
      do 3 f_equal. lia.
    + rewrite <- !app_assoc. apply continuations_3. lia.
Qed.

(** Decoding a percent-encoded text gives its UTF-16 form. *)
Lemma decode_percent_encode cps :
  Forall scalar cps ->
  decodeURIComponent (percent_encode cps) = Ok (concat (map utf16_encode cps)).
Proof.
  intros Hs. unfold decodeURIComponent.
  enough (forall fuel, (length cps < fuel)%nat ->
    decode_go fuel (percent_encode cps) = Some (concat (map utf16_encode cps))) as He.
  { rewrite He; [done|]. unfold percent_encode. clear Hs He.
    induction cps as [|cp cps IH]; cbn [map concat length]; [lia|].
    rewrite length_app. enough (1 <= length (concat (map percent (utf8_encode cp))))%nat by lia.
    unfold utf8_encode. repeat case_match; cbn; lia. }
  induction Hs as [|cp cps Hcp _ IH]; intros [|fuel] Hf; cbn [length] in Hf; [lia|done|lia|].
  unfold percent_encode in *. cbn [map concat].
  rewrite decode_go_char by done. rewrite IH by lia. done.
Qed.

(** No '+' and no '&' occurs in a percent-encoded text. *)
Lemma percent_encode_safe cps :
  Forall scalar cps -> Forall (fun c => c <> 38 /\ c <> 43) (percent_encode cps).
Proof.
  assert (forall d, 0 <= d < 16 -> digit_char d <> 38 /\ digit_char d <> 43) as Hdig.
  { intros d Hd. unfold digit_char. destruct (d <? 10) eqn:?; lia. }
  assert (forall b, 0 <= b < 256 -> Forall (fun c => c <> 38 /\ c <> 43) (percent b)) as Hp.
  { intros b Hb. unfold percent. repeat constructor; try lia; apply Hdig;
      first [apply Z.mod_pos_bound; lia | split; [apply Z.div_pos|apply Z.div_lt_upper_bound]; lia]. }
  intros Hs. unfold percent_encode. apply Forall_concat, Forall_map.
  apply (Forall_impl _ _ _ Hs). intros cp [Hcp _]. apply Forall_concat, Forall_map.
  destruct (div_mod_64 cp) as (Heq & Hm & Hd); [lia|].
  destruct (div_mod_64 (cp / 64) Hd) as (Heq2 & Hm2 & Hd2).
  destruct (div_mod_64 (cp / 64 / 64) Hd2) as (Heq3 & Hm3 & Hd3).
  unfold utf8_encode. repeat case_match; repeat (constructor; [apply Hp; lia|]); done.
Qed.
