(* ===== verification/Json.v ===== *)
(** [JSON.stringify] and [JSON.parse], as the remote API and the generated
    configuration use them. *)
From S2P Require Import Prelude JsNumber JsString.

Inductive json : Type :=
  | JNull
  | JBool (b : bool)
  | JNum (x : number)
  | JStr (s : jstr)
  | JArr (l : list json)
  | JObj (l : list (jstr * json)).

(** ** Serialisation *)

Definition hex4 (c : Z) : jstr :=
  [digit_char (c / 4096); digit_char (c / 256 mod 16); digit_char (c / 16 mod 16); digit_char (c mod 16)].

Definition unicode_escape (c : Z) : jstr := str "\u" ++ hex4 c.

Definition is_lead (c : Z) : bool := (55296 <=? c) && (c <=? 56319).
Definition is_trail (c : Z) : bool := (56320 <=? c) && (c <=? 57343).

Definition quote_char (c : Z) : jstr :=
  if c =? 8 then str "\b" else if c =? 9 then str "\t" else if c =? 10 then str "\n"
  else if c =? 12 then str "\f" else if c =? 13 then str "\r"
  else if c =? 34 then [92; 34] else if c =? 92 then [92; 92]
  else if c <? 32 then unicode_escape c else [c].

(** QuoteJSONString: unpaired surrogates are escaped, pairs are kept. *)
Fixpoint quote_body (s : jstr) : jstr :=
  match s with
  | [] => []
  | c :: s' =>
      if is_lead c then
        match s' with
        | d :: s'' =>
            if is_trail d then c :: d :: quote_body s'' else unicode_escape c ++ quote_body s'
        | [] => unicode_escape c
        end
      else if is_trail c then unicode_escape c ++ quote_body s'
      else quote_char c ++ quote_body s'
  end.

Definition quote (s : jstr) : jstr := 34 :: quote_body s ++ [34].

(** Numbers are printed when they are safe integers; the shortest decimal of
    other Numbers is not modelled. *)
Definition num_to_string (x : number) : option jstr :=
  let z := num_trunc x in
  if bool_decide (x = num_of_Z z) && bool_decide (safe z) then Some (int_to_string 10 z) else None.

Fixpoint join (sep : jstr) (l : list jstr) : jstr :=
  match l with
  | [] => []
  | [s] => s
  | s :: l => s ++ sep ++ join sep l
  end.

Fixpoint all_some {A} (l : list (option A)) : option (list A) :=
  match l with
  | [] => Some []
  | o :: l => a ← o; r ← all_some l; Some (a :: r)
  end.

(** The separators of one nesting level: nothing for a gap of 0, else a line
    feed and the indentation. *)
Definition newline (gap ind : nat) : jstr :=
  if (gap =? 0)%nat then [] else 10 :: replicate ind 32.

Definition colon (gap : nat) : jstr := if (gap =? 0)%nat then str ":" else str ": ".

Definition bracket (open close : Z) (gap ind : nat) (items : list jstr) : jstr :=
  match items with
  | [] => [open; close]
  | _ => [open] ++ newline gap (ind + gap) ++
         join (str "," ++ newline gap (ind + gap)) items ++ newline gap ind ++ [close]
  end.

(** [JSON.stringify(v, null, gap)] at indentation [ind]. *)
Fixpoint serialize (gap ind : nat) (v : json) : option jstr :=
  match v with
  | JNull => Some (str "null")
  | JBool b => Some (if b then str "true" else str "false")
  | JNum x => num_to_string x
  | JStr s => Some (quote s)
  | JArr l =>
      items ← all_some (map (serialize gap (ind + gap)) l);
      Some (bracket 91 93 gap ind items)
  | JObj l =>
      items ← all_some (map (fun '(k, v) =>
        s ← serialize gap (ind + gap) v; Some (quote k ++ colon gap ++ s)) l);
      Some (bracket 123 125 gap ind items)
  end.

Definition stringify (gap : nat) (v : json) : option jstr := serialize gap 0 v.

(** ** Parsing *)

Definition is_ws (c : Z) : bool := (c =? 32) || (c =? 9) || (c =? 10) || (c =? 13).

Fixpoint skip_ws (s : jstr) : jstr :=
  match s with
  | c :: s' => if is_ws c then skip_ws s' else s
  | [] => []
  end.

Definition is_digit (c : Z) : bool := (48 <=? c) && (c <=? 57).

(** The longest run of decimal digits: its value, its length and the rest. *)
Fixpoint take_digits (acc : Z) (n : nat) (s : jstr) : Z * nat * jstr :=
  match s with
  | c :: s' => if is_digit c then take_digits (acc * 10 + (c - 48)) (S n) s' else (acc, n, s)
  | [] => (acc, n, [])
  end.

(** The Number closest to a decimal m * 10^e. *)
Definition decimal (neg : bool) (m e : Z) : number :=
  match m with
  | Zpos p =>
      if 0 <=? e then binary_normalize prec64 emax64 (cond_Zopp neg (m * 10 ^ e)) 0 neg
      else
        let '(q, ex, loc) := SFdiv_core_binary prec64 emax64 m 0 (10 ^ (- e)) 0 in
        binary_round_aux prec64 emax64 neg q ex loc
  | _ => S754_zero neg
  end.

Definition parse_fraction (m : Z) (s : jstr) : option (Z * Z * jstr) :=
  match s with
  | 46 :: s' =>
      let '(m, n, s'') := take_digits m 0 s' in
      if (n =? 0)%nat then None else Some (m, - Z.of_nat n, s'')
  | _ => Some (m, 0, s)
  end.

Definition parse_exponent (s : jstr) : option (Z * jstr) :=
  match s with
  | c :: s' =>
      if (c =? 101) || (c =? 69) then
        let '(neg, s') := match s' with
                          | 45 :: t => (true, t) | 43 :: t => (false, t) | _ => (false, s') end in
        let '(e, n, s'') := take_digits 0 0 s' in
        if (n =? 0)%nat then None else Some (cond_Zopp neg e, s'')
      else Some (0, s)
  | [] => Some (0, s)
  end.

Definition parse_number (s : jstr) : option (number * jstr) :=
  let '(neg, s) := match s with 45 :: t => (true, t) | _ => (false, s) end in
  '(m, s) ← match s with
            | 48 :: t => Some (0, t)
            | _ => let '(m, n, t) := take_digits 0 0 s in if (n =? 0)%nat then None else Some (m, t)
            end;
  '(m, e, s) ← parse_fraction m s;
  '(e', s) ← parse_exponent s;
  Some (decimal neg m (e + e'), s).

Definition unescape (c : Z) : option Z :=
  if c =? 98 then Some 8 else if c =? 116 then Some 9 else if c =? 110 then Some 10
  else if c =? 102 then Some 12 else if c =? 114 then Some 13
  else if (c =? 34) || (c =? 92) || (c =? 47) then Some c else None.

Definition parse_hex4 (s : jstr) : option (Z * jstr) :=
  match s with
  | a :: b :: c :: d :: s =>
      a ← digit_value a; b ← digit_value b; c ← digit_value c; d ← digit_value d;
      Some (((a * 16 + b) * 16 + c) * 16 + d, s)
  | _ => None
  end.

(** The characters of a string literal after its opening quote. *)
Fixpoint parse_string (fuel : nat) (s : jstr) : option (jstr * jstr) :=
  match fuel with
  | O => None
  | S fuel =>
      match s with
      | [] => None
      | c :: s' =>
          if c =? 34 then Some ([], s')
          else if c =? 92 then
            match s' with
            | 117 :: s'' =>
                '(u, s'') ← parse_hex4 s''; '(r, t) ← parse_string fuel s''; Some (u :: r, t)
            | e :: s'' => u ← unescape e; '(r, t) ← parse_string fuel s''; Some (u :: r, t)
            | [] => None
            end
          else if c <? 32 then None
          else '(r, t) ← parse_string fuel s'; Some (c :: r, t)
      end
  end.

(** A later property of the same name replaces the value of the earlier one. *)
Fixpoint set_property (k : jstr) (v : json) (l : list (jstr * json)) : list (jstr * json) :=
  match l with
  | [] => [(k, v)]
  | (k', v') :: l => if decide (k = k') then (k, v) :: l else (k', v') :: set_property k v l
  end.

Fixpoint strip (p s : jstr) : option jstr :=
  match p, s with
  | [], _ => Some s
  | a :: p, b :: s => if a =? b then strip p s else None
  | _, _ => None
  end.

Fixpoint parse_value (fuel : nat) (s : jstr) : option (json * jstr) :=
  match fuel with
  | O => None
  | S fuel =>
      match skip_ws s with
      | [] => None
      | c :: s' =>
          if c =? 110 then t ← strip (str "ull") s'; Some (JNull, t)
          else if c =? 116 then t ← strip (str "rue") s'; Some (JBool true, t)
          else if c =? 102 then t ← strip (str "alse") s'; Some (JBool false, t)
          else if c =? 34 then '(r, t) ← parse_string (S (length s')) s'; Some (JStr r, t)
          else if c =? 91 then
            match skip_ws s' with
            | 93 :: t => Some (JArr [], t)
            | t => '(l, t) ← parse_elements fuel t; Some (JArr l, t)
            end
          else if c =? 123 then
            match skip_ws s' with
            | 125 :: t => Some (JObj [], t)
            | t => '(l, t) ← parse_members fuel [] t; Some (JObj l, t)
            end
          else '(x, t) ← parse_number (c :: s'); Some (JNum x, t)
      end
  end
with parse_elements (fuel : nat) (s : jstr) : option (list json * jstr) :=
  match fuel with
  | O => None
  | S fuel =>
      '(v, t) ← parse_value fuel s;
      match skip_ws t with
      | 44 :: t => '(l, t) ← parse_elements fuel t; Some (v :: l, t)
      | 93 :: t => Some ([v], t)
      | _ => None
      end
  end
with parse_members (fuel : nat) (acc : list (jstr * json)) (s : jstr) :
    option (list (jstr * json) * jstr) :=
  match fuel with
  | O => None
  | S fuel =>
      match skip_ws s with
      | 34 :: s' =>
          '(k, t) ← parse_string (S (length s')) s';
          match skip_ws t with
          | 58 :: t =>
              '(v, t) ← parse_value fuel t;
              let acc := set_property k v acc in
              match skip_ws t with
              | 44 :: t => parse_members fuel acc t
              | 125 :: t => Some (acc, t)
              | _ => None
              end
          | _ => None
          end
      | _ => None
      end
  end.

(** [JSON.parse]: every step of the parser but those between brackets consumes
    a character, so twice the length bounds the depth of the calls. *)
Definition parse (s : jstr) : result json :=
  match parse_value (2 * length s + 2) s with
  | Some (v, t) => match skip_ws t with [] => Ok v | _ => Throw SyntaxError end
  | None => Throw SyntaxError
  end.

Fixpoint property (k : jstr) (l : list (jstr * json)) : option json :=
  match l with
  | [] => None
  | (k', v) :: l => if decide (k = k') then Some v else property k l
  end.

#[global] Arguments stringify : simpl never.
#[global] Arguments parse : simpl never.
