(* ===== verification/JsonRoundtrip.v ===== *)
(** What [JSON.stringify] prints, [JSON.parse] reads back, for every
    indentation: the lemmas that lead to the round trip of whole documents. *)
From S2P Require Import Prelude JsNumber JsString Json.

(** ** Strings *)

Definition code_unit (c : Z) : bool := (0 <=? c) && (c <? 65536).

Lemma parse_hex4_hex4 c s :
  0 <= c < 65536 -> parse_hex4 (hex4 c ++ s) = Some (c, s).
Proof.
  intros Hc. unfold hex4. cbn [app parse_hex4].
  assert (0 <= c / 4096 < 16) by (split; [apply Z.div_pos|apply Z.div_lt_upper_bound]; lia).
  assert (forall x, 0 <= x mod 16 < 16) as Hm by (intros; apply Z.mod_pos_bound; lia).
  rewrite !digit_value_char by auto. cbn. do 2 f_equal.
  replace (c / 4096) with (c / 16 / 16 / 16) by (rewrite !Z.div_div by lia; done).
  replace (c / 256) with (c / 16 / 16) by (rewrite Z.div_div by lia; done).
  pose proof (Z.div_mod c 16 ltac:(lia)). pose proof (Z.div_mod (c / 16) 16 ltac:(lia)).
  pose proof (Z.div_mod (c / 16 / 16) 16 ltac:(lia)). lia.
Qed.

(** How many characters an encoded code unit takes, and that the parser reads
    it back in one step. *)
Definition reads (c : Z) (enc : jstr) : Prop :=
  (1 <= length enc)%nat /\
  forall fuel s, parse_string (S fuel) (enc ++ s)
    = '(r, t) ← parse_string fuel s; Some (c :: r, t).

Lemma reads_escape c : 0 <= c < 65536 -> reads c (unicode_escape c).
Proof.
  intros Hc. split; [cbn; lia|]. intros fuel s. unfold unicode_escape. rewrite <- app_assoc.
  cbn -[hex4]. by rewrite parse_hex4_hex4.
Qed.

Lemma reads_plain c : 32 <= c -> c <> 34 -> c <> 92 -> reads c [c].
Proof.
  intros Hc H34 H92. split; [cbn; lia|]. intros fuel s. cbn.
  by replace (c =? 34) with false by lia; replace (c =? 92) with false by lia;
    replace (c <? 32) with false by lia.
Qed.

Lemma reads_quote_char c : 0 <= c < 65536 -> reads c (quote_char c).
Proof.
  intros Hc. unfold quote_char.
  repeat match goal with
  | |- context [c =? ?k] => destruct (Z.eqb_spec c k) as [->|]; [split; [cbn; lia|done]|]
  end.
  destruct (Z.ltb_spec c 32); [by apply reads_escape|by apply reads_plain].
Qed.

Lemma quote_body_pair c d s :
  is_lead c = true -> is_trail d = true -> quote_body (c :: d :: s) = c :: d :: quote_body s.
Proof. intros Hc Hd. cbn. by rewrite Hc, Hd. Qed.

Lemma surrogate_plain c : is_lead c = true \/ is_trail c = true -> reads c [c].
Proof. unfold is_lead, is_trail. intros Hc. apply reads_plain; lia. Qed.

(** Outside a surrogate pair one code unit is encoded on its own. *)
Lemma quote_body_cons c s :
  0 <= c < 65536 ->
  (exists enc, reads c enc /\ quote_body (c :: s) = enc ++ quote_body s) \/
  (exists d s', s = d :: s' /\ is_lead c = true /\ is_trail d = true).
Proof.
  intros Hc. cbn [quote_body]. destruct (is_lead c) eqn:Hl.
  - destruct s as [|d s']; [left; exists (unicode_escape c)|
      destruct (is_trail d) eqn:Hd; [right; eauto|left; exists (unicode_escape c)]].
    + by split; [apply reads_escape|rewrite app_nil_r].
    + by split; [apply reads_escape|].
  - left. destruct (is_trail c); [exists (unicode_escape c)|exists (quote_char c)];
      auto using reads_escape, reads_quote_char.
Qed.

Lemma parse_string_quote n s fuel rest :
  (length s <= n)%nat -> forallb code_unit s = true ->
  (length (quote_body s) < fuel)%nat ->
  parse_string fuel (quote_body s ++ 34 :: rest) = Some (s, rest).
Proof.
  unfold code_unit. revert s fuel. induction n as [|n IH]; intros s fuel Hn Hs Hf.
  { destruct s; [|cbn in Hn; lia]. by destruct fuel; [cbn in Hf; lia|]. }
  destruct s as [|c s]; [by destruct fuel; [cbn in Hf; lia|]|].
  cbn [forallb] in Hs. apply andb_true_iff in Hs as [Hc Hs]. cbn [length] in Hn.
  destruct (quote_body_cons c s) as [(enc & [Hlen Henc] & Heq)|(d & s' & -> & Hl & Hd)]; [lia| |].
  - rewrite Heq in *. rewrite length_app in Hf. destruct fuel as [|fuel]; [lia|].
    rewrite <- app_assoc, Henc, IH by (done || lia). done.
  - rewrite quote_body_pair in * by done. cbn [length] in Hf, Hn.
    cbn [forallb] in Hs. apply andb_true_iff in Hs as [Hd' Hs].
    destruct fuel as [|[|fuel]]; [lia..|].
    destruct (surrogate_plain c) as [_ Hrc]; [auto|].
    destruct (surrogate_plain d) as [_ Hrd]; [auto|].
    change ((c :: d :: quote_body s') ++ 34 :: rest)
      with ([c] ++ [d] ++ quote_body s' ++ 34 :: rest).
    by rewrite Hrc, Hrd, IH by (done || lia).
Qed.

(** ** Numbers *)

(** The text after a number: it cannot be read as part of it. *)
Definition stops (s : jstr) : Prop :=
  match s with
  | [] => True
  | c :: _ => is_digit c = false /\ c <> 46 /\ c <> 101 /\ c <> 69
  end.

Lemma take_digits_stops acc n s : stops s -> take_digits acc n s = (acc, n, s).
Proof. destruct s as [|c s]; [done|]. cbn. by intros [-> _]. Qed.

Lemma take_digits_app l acc n s :
  Forall (fun d => 0 <= d < 10) l ->
  take_digits acc n (map digit_char l ++ s)
  = take_digits (fold_left (fun a d => a * 10 + d) l acc) (n + length l) s.
Proof.
  intros Hl. revert acc n. induction Hl as [|d l Hd _ IH]; intros acc n; cbn [map app fold_left length].
  { by rewrite Nat.add_0_r. }
  cbn [take_digits]. unfold digit_char at 1 2, is_digit.
  replace (d <? 10) with true by lia. replace ((48 <=? 48 + d) && (48 + d <=? 57)) with true by lia.
  rewrite IH. f_equal; [f_equal; lia|lia].
Qed.

(** The digits of a positive number: the first is not 0 and they denote it. *)
Lemma digits_decompose fuel z :
  0 < z < 10 ^ Z.of_nat fuel ->
  exists d l, digits fuel 10 z = map digit_char (d :: l) /\ 0 < d < 10 /\
    Forall (fun d => 0 <= d < 10) l /\ fold_left (fun a d => a * 10 + d) (d :: l) 0 = z.
Proof.
  revert z. induction fuel as [|fuel IH]; intros z Hz; [cbn in Hz; lia|]. cbn [digits].
  assert (0 <= z mod 10 < 10) by (apply Z.mod_pos_bound; lia).
  pose proof (Z.div_mod z 10 ltac:(lia)).
  destruct (Z.ltb_spec z 10).
  - exists (z mod 10), []. rewrite Z.mod_small by lia. split_and!; [done|lia|lia|done|done].
  - rewrite Nat2Z.inj_succ, Z.pow_succ_r in Hz by lia.
    destruct (IH (z / 10)) as (d & l & Heq & Hd & Hl & Hv).
    { split; [|apply Z.div_lt_upper_bound; lia].
      apply Z.lt_le_trans with 1; [lia|]. apply Z.div_le_lower_bound; lia. }
    exists d, (l ++ [z mod 10]). rewrite Heq. split_and!; [|lia|lia| |].
    + by rewrite app_comm_cons, map_app.
    + apply Forall_app. split; [done|]. repeat constructor; lia.
    + rewrite app_comm_cons, fold_left_app, Hv. cbn. lia.
Qed.

Lemma digits_zero fuel : (0 < fuel)%nat -> digits fuel 10 0 = [48].
Proof. by destruct fuel; [lia|]. Qed.

Lemma log2_fuel z : 0 < z -> z < 10 ^ Z.of_nat (S (Z.to_nat (Z.log2 z))).
Proof.
  intros Hz. pose proof (Z.log2_spec z Hz) as [_ Hlog]. pose proof (Z.log2_nonneg z).
  replace (Z.of_nat (S (Z.to_nat (Z.log2 z)))) with (Z.succ (Z.log2 z)) by lia.
  apply Z.lt_le_trans with (1 := Hlog). apply Z.pow_le_mono_l. lia.
Qed.

Lemma decimal_pos neg m : 0 < m -> decimal neg m 0 = num_of_Z (cond_Zopp neg m).
Proof.
  intros Hm. destruct m as [|p|p]; [lia| |lia]. unfold decimal. cbn [Z.leb Z.compare].
  rewrite Z.pow_0_r, Z.mul_1_r. by destruct neg.
Qed.

Lemma parse_fraction_stops m s : stops s -> parse_fraction m s = Some (m, 0, s).
Proof.
  destruct s as [|c s]; [done|]. intros (_ & Hc & _). unfold parse_fraction.
  repeat (case_match; try done).
Qed.

Lemma parse_exponent_stops s : stops s -> parse_exponent s = Some (0, s).
Proof.
  destruct s as [|c s]; [done|]. intros (_ & _ & H1 & H2). unfold parse_exponent.
  by replace ((c =? 101) || (c =? 69)) with false by lia.
Qed.

Lemma parse_number_digits neg m s :
  0 < m -> stops s ->
  forall d l, map digit_char (d :: l) = digits (S (Z.to_nat (Z.log2 m))) 10 m ->
  0 < d < 10 -> Forall (fun d => 0 <= d < 10) l ->
  fold_left (fun a d => a * 10 + d) (d :: l) 0 = m ->
  parse_number ((if neg : bool then [45] else []) ++ map digit_char (d :: l) ++ s)
  = Some (num_of_Z (cond_Zopp neg m), s).
Proof.
  intros Hm Hs d l _ Hd Hl Hv.
  assert (forall t, take_digits 0 0 (map digit_char (d :: l) ++ s) = t ->
            t = (m, S (length l), s)) as Htake.
  { intros t <-. rewrite take_digits_app, Hv by (constructor; [lia|done]).
    by rewrite take_digits_stops. }
  assert (digit_char d <> 45 /\ digit_char d <> 48) as [H45 H48].
  { unfold digit_char. destruct (Z.ltb_spec d 10); lia. }
  unfold parse_number.
  assert ((match (if neg : bool then [45] else []) ++ map digit_char (d :: l) ++ s with
           | 45 :: t => (true, t) | _ => (false, (if neg : bool then [45] else []) ++ map digit_char (d :: l) ++ s)
           end) = (neg, map digit_char (d :: l) ++ s)) as ->.
  { destruct neg; [done|]. cbn. repeat (case_match; try done). }
  assert ((match map digit_char (d :: l) ++ s with
           | 48 :: t => Some (0, t)
           | _ => let '(m, n, t) := take_digits 0 0 (map digit_char (d :: l) ++ s) in
                  if (n =? 0)%nat then None else Some (m, t)
           end) = Some (m, s)) as ->.
  { rewrite (Htake _ eq_refl). cbn. repeat (case_match; try done). }
  cbn [mbind option_bind]. rewrite parse_fraction_stops by done. cbn [mbind option_bind].
  rewrite parse_exponent_stops by done. cbn [mbind option_bind]. by rewrite decimal_pos.
Qed.

Lemma parse_number_int z s :
  stops s -> parse_number (int_to_string 10 z ++ s) = Some (num_of_Z z, s).
Proof.
  intros Hs. unfold int_to_string. destruct (Z.eq_dec z 0) as [->|Hz].
  { change (parse_number (_ ++ s)) with
      ('(m, e, s) ← parse_fraction 0 s; '(e', s) ← parse_exponent s; Some (decimal false m (e + e'), s)).
    rewrite parse_fraction_stops by done. cbn [mbind option_bind].
    by rewrite parse_exponent_stops by done. }
  assert (0 < Z.abs z) as Ha by lia.
  destruct (digits_decompose _ _ (conj Ha (log2_fuel _ Ha))) as (d & l & Heq & Hd & Hl & Hv).
  rewrite Heq. pose proof (parse_number_digits (z <? 0) _ s Ha Hs d l (eq_sym Heq) Hd Hl Hv) as H.
  replace (cond_Zopp (z <? 0) (Z.abs z)) with z in H by (destruct (Z.ltb_spec z 0); cbn; lia).
  destruct (z <? 0); exact H.
Qed.

(** ** Values *)

(** Values that the round trip covers: code units are 16 bits wide and an
    object has no two properties of the same name.  (A value that [stringify]
    prints holds integers only, so numbers need no condition.) *)
Fixpoint plain (v : json) : bool :=
  match v with
  | JNull | JBool _ | JNum _ => true
  | JStr s => forallb code_unit s
  | JArr l => forallb plain l
  | JObj l => forallb (fun '(k, v) => forallb code_unit k && plain v) l &&
              bool_decide (NoDup (map fst l))
  end.

Section JsonInd.
Variable P : json -> Prop.
Hypothesis Hnull : P JNull.
Hypothesis Hbool : forall b, P (JBool b).
Hypothesis Hnum : forall x, P (JNum x).
Hypothesis Hstr : forall s, P (JStr s).
Hypothesis Harr : forall l, Forall P l -> P (JArr l).
Hypothesis Hobj : forall l, Forall (fun kv => P (snd kv)) l -> P (JObj l).

Fixpoint json_nested_ind (v : json) : P v :=
  match v with
  | JNull => Hnull
  | JBool b => Hbool b
  | JNum x => Hnum x
  | JStr s => Hstr s
  | JArr l => Harr l ((fix go l : Forall P l := match l return Forall P l with
                         | [] => Forall_nil_2 P
                         | v :: l => Forall_cons_2 P v l (json_nested_ind v) (go l) end) l)
  | JObj l => Hobj l ((fix go l : Forall (fun kv => P (snd kv)) l :=
                         match l return Forall (fun kv => P (snd kv)) l with
                         | [] => Forall_nil_2 _
                         | kv :: l => Forall_cons_2 (fun kv => P (snd kv)) kv l
                                        (json_nested_ind (snd kv)) (go l) end) l)
  end.
End JsonInd.

(** Values all of whose numbers are safe integers are printed. *)
Fixpoint integral (v : json) : bool :=
  match v with
  | JNull | JBool _ | JStr _ => true
  | JNum x => bool_decide (is_Some (num_to_string x))
  | JArr l => forallb integral l
  | JObj l => forallb (fun '(_, v) => integral v) l
  end.

Lemma all_some_total {A B} (f : A -> option B) l :
  Forall (fun a => exists b, f a = Some b) l -> exists r, all_some (map f l) = Some r.
Proof.
  induction 1 as [|a l [b Hb] _ [r Hr]]; [by eexists|]. cbn. rewrite Hb. cbn. rewrite Hr. by eexists.
Qed.

Lemma serialize_total gap v : integral v = true -> forall ind, exists s, serialize gap ind v = Some s.
Proof.
  induction v as [|b|x|t|l IH|l IH] using json_nested_ind; cbn [integral serialize]; intros Hv ind;
    try by eexists.
  - apply bool_decide_eq_true in Hv as [s Hs]. eauto.
  - rewrite forallb_forall in Hv.
    destruct (all_some_total (serialize gap (ind + gap)) l) as [r ->]; [|by eexists].
    rewrite !Forall_forall in *. intros v Hin%list_elem_of_In. apply IH; [by apply list_elem_of_In|auto].
  - rewrite forallb_forall in Hv.
    destruct (all_some_total (fun '(k, v) =>
      s ← serialize gap (ind + gap) v; Some (quote k ++ colon gap ++ s)) l) as [r Hr];
      [|by rewrite Hr; eexists].
    rewrite !Forall_forall in *. intros [k v] Hin.
    destruct (IH (k, v) Hin (Hv (k, v) ltac:(by apply list_elem_of_In)) (ind + gap)%nat) as [s Hs].
    cbn [snd] in Hs. rewrite Hs. by eexists.
Qed.

(** ** Whitespace *)

Lemma skip_ws_app w s : Forall (fun c => is_ws c = true) w -> skip_ws (w ++ s) = skip_ws s.
Proof. induction 1 as [|c w Hc _ IH]; cbn; [done|]. by rewrite Hc. Qed.

Lemma newline_ws gap ind : Forall (fun c => is_ws c = true) (newline gap ind).
Proof. unfold newline. destruct (gap =? 0)%nat; [done|]. constructor; [done|]. by apply Forall_replicate. Qed.

Lemma parse_value_ws fuel w s :
  Forall (fun c => is_ws c = true) w -> parse_value fuel (w ++ s) = parse_value fuel s.
Proof. intros Hw. destruct fuel; [done|]. cbn [parse_value]. by rewrite skip_ws_app. Qed.

(** The first character of a printed value. *)
Definition begins (s : jstr) : Prop :=
  match s with c :: _ => is_ws c = false /\ c <> 93 /\ c <> 125 | [] => False end.

Lemma begins_int z : begins (int_to_string 10 z).
Proof.
  unfold int_to_string. destruct (Z.eq_dec z 0) as [->|Hz]; [done|].
  destruct (Z.ltb_spec z 0); [done|]. assert (0 < Z.abs z) as Ha by lia.
  destruct (digits_decompose _ _ (conj Ha (log2_fuel _ Ha))) as (d & l & -> & Hd & _).
  cbn. unfold digit_char, is_ws. destruct (Z.ltb_spec d 10); [|lia]. lia.
Qed.

Lemma begins_bracket open close gap ind l :
  is_ws open = false -> open <> 93 -> open <> 125 -> begins (bracket open close gap ind l).
Proof. intros. unfold bracket. by destruct l. Qed.

Lemma num_to_string_inv x s :
  num_to_string x = Some s -> exists z, x = num_of_Z z /\ s = int_to_string 10 z.
Proof.
  unfold num_to_string. case_bool_decide as Hx; [|done]. case_bool_decide; [|done].
  intros [= <-]. eauto.
Qed.

Lemma serialize_begins gap ind v s : serialize gap ind v = Some s -> begins s.
Proof.
  destruct v; cbn [serialize].
  - by intros [= <-].
  - intros [= <-]. by destruct b.
  - intros (z & _ & ->)%num_to_string_inv. apply begins_int.
  - by intros [= <-].
  - destruct (all_some _); [|done]. intros [= <-]. by apply begins_bracket.
  - destruct (all_some _); [|done]. intros [= <-]. by apply begins_bracket.
Qed.

Lemma begins_skip s t : begins s -> skip_ws (s ++ t) = s ++ t.
Proof. destruct s as [|c s]; [done|]. cbn. by intros [-> _]. Qed.

Lemma stops_ws w c s :
  Forall (fun c => is_ws c = true) w -> stops (c :: s) -> stops (w ++ c :: s).
Proof.
  intros Hw Hc. destruct Hw as [|x w Hx _]; [done|]. cbn. unfold is_ws, is_digit in *.
  split_and!; lia.
Qed.

(** ** Lists of values *)

Section Roundtrip.
Context (gap : nat).

Definition reads_back (v : json) : Prop :=
  forall ind s fuel rest,
    serialize gap ind v = Some s -> plain v = true -> stops rest -> (2 * length s <= fuel)%nat ->
    parse_value fuel (s ++ rest) = Some (v, rest).

Lemma all_some_cons {A} (o : option A) l r :
  all_some (o :: l) = Some r -> exists a r', o = Some a /\ all_some l = Some r' /\ r = a :: r'.
Proof.
  cbn. destruct o as [a|]; [|done]. cbn. destruct (all_some l) as [r'|]; [|done].
  cbn. intros [= <-]. eauto.
Qed.

Lemma join_cons sep s x l : join sep (s :: x :: l) = s ++ sep ++ join sep (x :: l).
Proof. reflexivity. Qed.

Lemma parse_elements_join ind w1 w2 l items fuel rest :
  Forall (fun c => is_ws c = true) w1 -> Forall (fun c => is_ws c = true) w2 ->
  l <> [] -> Forall reads_back l -> forallb plain l = true ->
  all_some (map (serialize gap ind) l) = Some items ->
  (2 * length (join (44%Z :: w1) items) + 1 <= fuel)%nat ->
  parse_elements fuel (w1 ++ join (44 :: w1) items ++ w2 ++ 93 :: rest) = Some (l, rest).
Proof.
  intros Hw1 Hw2 Hne Hl. revert items fuel. induction Hl as [|v l Hv Hl IH]; [done|].
  clear Hne. intros items fuel [Hpv Hpl]%andb_true_iff Hser Hf.
  apply all_some_cons in Hser as (s & items' & Hs & Hser & ->).
  destruct fuel as [|fuel]; [lia|]. cbn [parse_elements]. rewrite parse_value_ws by done.
  destruct l as [|v' l].
  - cbn in Hser. injection Hser as <-. cbn [join] in *.
    erewrite Hv by (done || lia || by apply stops_ws). cbn [mbind option_bind].
    by rewrite skip_ws_app.
  - cbn [map] in Hser. pose proof Hser as Hser'.
    apply all_some_cons in Hser' as (s' & items'' & _ & _ & ->).
    rewrite join_cons in *. rewrite !length_app in Hf. cbn [length] in Hf.
    rewrite <- !app_assoc. cbn [app].
    erewrite Hv by (done || lia). cbn [mbind option_bind skip_ws is_ws].
    cbn -[join parse_elements]. rewrite IH by (done || lia). done.
Qed.

Lemma skip_begins w s t :
  Forall (fun c => is_ws c = true) w -> begins s -> skip_ws (w ++ s ++ t) = s ++ t.
Proof. intros Hw Hs. by rewrite skip_ws_app, begins_skip. Qed.

Lemma set_property_new k v acc : k ∉ map fst acc -> set_property k v acc = acc ++ [(k, v)].
Proof.
  induction acc as [|[k' v'] acc IH]; intros Hk; [done|].
  cbn [map fst] in Hk. apply not_elem_of_cons in Hk as [Hne Hk].
  cbn [set_property]. rewrite decide_False by done. cbn [app]. by rewrite IH.
Qed.

Lemma parse_key k t :
  forallb code_unit k = true ->
  parse_string (S (length ((quote_body k ++ [34]) ++ t))) ((quote_body k ++ [34]) ++ t) = Some (k, t).
Proof.
  intros Hk. rewrite <- app_assoc. apply (parse_string_quote (length k)); [done|done|].
  rewrite length_app. lia.
Qed.

Lemma colon_value fuel s : forall t, skip_ws (colon gap ++ s ++ t) = 58 :: tail (colon gap) ++ s ++ t /\
  parse_value fuel (tail (colon gap) ++ s ++ t) = parse_value fuel (s ++ t).
Proof.
  intros t. unfold colon. destruct (gap =? 0)%nat; [done|]. split; [done|].
  by apply (parse_value_ws fuel [32]); repeat constructor.
Qed.

Definition print_member (ind : nat) (kv : jstr * json) : option jstr :=
  s ← serialize gap ind (snd kv); Some (quote (fst kv) ++ colon gap ++ s).

(** One member, up to the comma or the brace after it. *)
Lemma parse_member fuel acc ind k v s w rest :
  Forall (fun c => is_ws c = true) w ->
  reads_back v -> plain v = true -> forallb code_unit k = true -> k ∉ map fst acc ->
  serialize gap ind v = Some s -> stops rest -> (2 * length s <= fuel)%nat ->
  parse_members (S fuel) acc (w ++ (quote k ++ colon gap ++ s) ++ rest)
  = match skip_ws rest with
    | 44 :: t => parse_members fuel (acc ++ [(k, v)]) t
    | 125 :: t => Some (acc ++ [(k, v)], t)
    | _ => None
    end.
Proof.
  intros Hw Hv Hpv Hk Hnew Hs Hrest Hf. cbn [parse_members]. rewrite skip_ws_app by done.
  rewrite <- !app_assoc. unfold quote. cbn [app skip_ws is_ws].
  replace (is_ws 34) with false by done.
  rewrite parse_key by done. cbn [mbind option_bind].
  destruct (colon_value fuel s rest) as [-> Hpc]. rewrite Hpc.
  erewrite Hv by (done || lia). cbn [mbind option_bind]. by rewrite set_property_new.
Qed.

Lemma parse_members_join ind w1 w2 l acc items fuel rest :
  Forall (fun c => is_ws c = true) w1 -> Forall (fun c => is_ws c = true) w2 ->
  l <> [] -> Forall (fun kv => reads_back (snd kv)) l ->
  forallb (fun '(k, v) => forallb code_unit k && plain v) l = true ->
  NoDup (map fst (acc ++ l)) ->
  all_some (map (print_member ind) l) = Some items ->
  (2 * length (join (44%Z :: w1) items) + 1 <= fuel)%nat ->
  parse_members fuel acc (w1 ++ join (44 :: w1) items ++ w2 ++ 125 :: rest) = Some (acc ++ l, rest).
Proof.
  intros Hw1 Hw2 Hne Hl. revert acc items fuel. induction Hl as [|[k v] l Hv Hl IH]; [done|].
  clear Hne. intros acc items fuel [[Hk Hpv]%andb_true_iff Hpl]%andb_true_iff Hnd Hser Hf.
  apply all_some_cons in Hser as (m & items' & Hm & Hser & ->).
  unfold print_member in Hm. cbn [snd fst] in *.
  destruct (serialize gap ind v) as [s|] eqn:Hs; [|done]. cbn [mbind option_bind] in Hm. apply Some_inj in Hm as <-.
  assert (k ∉ map fst acc) as Hnew.
  { rewrite map_app in Hnd. apply NoDup_app in Hnd as (_ & Hd & _). intros Hin.
    by apply (Hd k Hin); left. }
  destruct fuel as [|fuel]; [lia|]. destruct l as [|kv' l].
  - cbn in Hser. injection Hser as <-. cbn [join] in Hf |- *. rewrite !length_app in Hf.
    erewrite parse_member; [|exact Hw1|exact Hv|done|done|done|exact Hs|by apply stops_ws|lia].
    by rewrite skip_ws_app.
  - pose proof Hser as Hser'. cbn [map] in Hser'.
    apply all_some_cons in Hser' as (s' & items'' & _ & _ & ->).
    rewrite join_cons in *. rewrite !length_app in Hf. cbn [length] in Hf.
    rewrite <- !(app_assoc (quote k ++ colon gap ++ s)).
    erewrite parse_member; [|exact Hw1|exact Hv|done|done|done|exact Hs|done|lia].
    rewrite <- !app_assoc. cbn [app]. cbn -[join parse_members].
    rewrite IH; [by rewrite <- app_assoc|done|done| |done|lia].
    by rewrite <- app_assoc.
Qed.

(** ** Whole values *)

Lemma bracket_length open close ind items :
  items <> [] ->
  (length (join (44%Z :: newline gap (ind + gap)) items) + 2
   <= length (bracket open close gap ind items))%nat.
Proof.
  intros Hne. unfold bracket. destruct items; [done|]. rewrite !length_app. cbn [length app]. 
  change (str "," ++ newline gap (ind + gap)) with (44%Z :: newline gap (ind + gap)). lia.
Qed.

Lemma bracket_text open close ind items rest :
  items <> [] ->
  bracket open close gap ind items ++ rest
  = open :: newline gap (ind + gap) ++ join (44 :: newline gap (ind + gap)) items ++
    newline gap ind ++ close :: rest.
Proof. intros Hne. unfold bracket. destruct items; [done|]. by rewrite <- !app_assoc. Qed.

Lemma all_some_nil {A B} (f : A -> option B) l items :
  all_some (map f l) = Some items -> (l = [] <-> items = []).
Proof.
  destruct l as [|a l]; [by intros [= <-]|].
  intros (b & r & _ & _ & ->)%all_some_cons. done.
Qed.

(** The text between the brackets begins with a value or a member. *)
Lemma join_begins sep items : items <> [] -> Forall begins items -> begins (join sep items).
Proof.
  intros Hne Hb. destruct Hb as [|s items Hs _]; [done|]. destruct items; [done|].
  rewrite join_cons. by destruct s.
Qed.

Lemma items_begin {A} (f : A -> option jstr) l items :
  (forall a s, f a = Some s -> begins s) -> all_some (map f l) = Some items -> Forall begins items.
Proof.
  intros Hf. revert items. induction l as [|a l IH]; intros items Hs.
  { injection Hs as <-. done. }
  apply all_some_cons in Hs as (s & r & Hs & Hr & ->). constructor; [by eapply Hf|by apply IH].
Qed.

Lemma parse_value_array fuel t :
  match skip_ws t with 93 :: _ => False | _ => True end ->
  parse_value (S fuel) (91 :: t) = '(l, r) ← parse_elements fuel (skip_ws t); Some (JArr l, r).
Proof.
  intros Ht.
  change (parse_value (S fuel) (91 :: t)) with
    (match skip_ws t with
     | 93 :: t => Some (JArr [], t)
     | t => '(l, t) ← parse_elements fuel t; Some (JArr l, t)
     end).
  destruct (skip_ws t) as [|c r]; [done|]. repeat (case_match; try done).
Qed.

Lemma parse_value_object fuel t :
  match skip_ws t with 125 :: _ => False | _ => True end ->
  parse_value (S fuel) (123 :: t) = '(l, r) ← parse_members fuel [] (skip_ws t); Some (JObj l, r).
Proof.
  intros Ht.
  change (parse_value (S fuel) (123 :: t)) with
    (match skip_ws t with
     | 125 :: t => Some (JObj [], t)
     | t => '(l, t) ← parse_members fuel [] t; Some (JObj l, t)
     end).
  destruct (skip_ws t) as [|c r]; [done|]. repeat (case_match; try done).
Qed.

Lemma reads_back_array l : Forall reads_back l -> reads_back (JArr l).
Proof.
  intros Hl ind s fuel rest Hs Hp Hrest Hf. cbn [serialize] in Hs.
  destruct (all_some (map (serialize gap (ind + gap)) l)) as [items|] eqn:Hi; [|done].
  cbn [mbind option_bind] in Hs. apply Some_inj in Hs as <-.
  destruct (decide (l = [])) as [->|Hne].
  { injection Hi as <-. cbn in Hf. destruct fuel; [lia|]. done. }
  assert (items <> []) as Hni by (intros ->; by apply Hne, (all_some_nil _ _ _ Hi)).
  pose proof (bracket_length 91 93 ind items Hni) as Hlen.
  rewrite bracket_text by done. destruct fuel as [|fuel]; [lia|].
  assert (begins (join (44 :: newline gap (ind + gap)) items)) as Hb.
  { apply join_begins; [done|]. eapply items_begin; [|exact Hi]. intros a s'. apply serialize_begins. }
  pose proof (newline_ws gap (ind + gap)) as Hw.
  assert (skip_ws (newline gap (ind + gap) ++ join (44 :: newline gap (ind + gap)) items ++
                   newline gap ind ++ 93 :: rest)
          = join (44 :: newline gap (ind + gap)) items ++ newline gap ind ++ 93 :: rest) as Hskip
    by (by apply skip_begins).
  rewrite parse_value_array; rewrite Hskip.
  - change (join _ items ++ newline gap ind ++ 93 :: rest) with
      ([] ++ join (44 :: newline gap (ind + gap)) items ++ newline gap ind ++ 93 :: rest).
    pose proof (parse_elements_join (ind + gap) (newline gap (ind + gap)) (newline gap ind)
      l items fuel rest Hw (newline_ws gap ind) Hne Hl Hp Hi ltac:(lia)) as Hparse.
    destruct fuel as [|fuel]; [lia|]. cbn [parse_elements] in Hparse |- *.
    rewrite parse_value_ws in Hparse by done. cbn [app]. by rewrite Hparse.
  - destruct (join _ items) as [|c r]; [done|]. cbn in *. repeat (case_match; try done). lia.
Qed.

Lemma reads_back_object l : Forall (fun kv => reads_back (snd kv)) l -> reads_back (JObj l).
Proof.
  intros Hl ind s fuel rest Hs Hp Hrest Hf. cbn [serialize] in Hs.
  cbn [plain] in Hp. apply andb_true_iff in Hp as [Hp Hnd%bool_decide_eq_true].
  assert (map (fun '(k, v) => s ← serialize gap (ind + gap) v; Some (quote k ++ colon gap ++ s)) l
          = map (print_member (ind + gap)) l) as Hmap
    by (apply map_ext; by intros [k v]).
  rewrite Hmap in Hs.
  destruct (all_some (map (print_member (ind + gap)) l)) as [items|] eqn:Hi; [|done].
  cbn [mbind option_bind] in Hs. apply Some_inj in Hs as <-.
  destruct (decide (l = [])) as [->|Hne].
  { injection Hi as <-. cbn in Hf. destruct fuel; [lia|]. done. }
  assert (items <> []) as Hni by (intros ->; by apply Hne, (all_some_nil _ _ _ Hi)).
  pose proof (bracket_length 123 125 ind items Hni) as Hlen.
  rewrite bracket_text by done. destruct fuel as [|fuel]; [lia|].
  assert (begins (join (44 :: newline gap (ind + gap)) items)) as Hb.
  { apply join_begins; [done|]. eapply items_begin; [|exact Hi]. intros [k v] s'. unfold print_member.
    destruct (serialize _ _ _); [|done]. cbn [mbind option_bind]. by intros <-%Some_inj. }
  pose proof (newline_ws gap (ind + gap)) as Hw.
  assert (skip_ws (newline gap (ind + gap) ++ join (44 :: newline gap (ind + gap)) items ++
                   newline gap ind ++ 125 :: rest)
          = join (44 :: newline gap (ind + gap)) items ++ newline gap ind ++ 125 :: rest) as Hskip
    by (by apply skip_begins).
  rewrite parse_value_object; rewrite Hskip.
  - pose proof (parse_members_join (ind + gap) (newline gap (ind + gap)) (newline gap ind)
      l [] items fuel rest Hw (newline_ws gap ind) Hne Hl Hp Hnd Hi ltac:(lia)) as Hparse.
    destruct fuel as [|fuel]; [lia|]. cbn [parse_members] in Hparse |- *.
    rewrite skip_begins in Hparse by done. rewrite (begins_skip _ _ Hb). by rewrite Hparse.
  - destruct (join _ items) as [|c r]; [done|]. cbn in *. repeat (case_match; try done). lia.
Qed.

Lemma parse_value_number fuel c s :
  is_ws c = false -> is_digit c = true \/ c = 45 ->
  parse_value (S fuel) (c :: s) = '(x, t) ← parse_number (c :: s); Some (JNum x, t).
Proof.
  intros Hws Hc. cbn -[parse_number]. rewrite Hws. unfold is_digit in Hc.
  repeat match goal with
  | |- context [c =? ?k] => replace (c =? k) with false by lia
  end. done.
Qed.

Lemma int_to_string_head z :
  exists c s, int_to_string 10 z = c :: s /\ is_ws c = false /\ (is_digit c = true \/ c = 45).
Proof.
  unfold int_to_string. destruct (Z.eq_dec z 0) as [->|Hz]; [do 2 eexists; split_and!; [done|done|by left]|].
  destruct (Z.ltb_spec z 0); [do 2 eexists; split_and!; [done|done|by right]|].
  assert (0 < Z.abs z) as Ha by lia.
  destruct (digits_decompose _ _ (conj Ha (log2_fuel _ Ha))) as (d & l & -> & Hd & _).
  do 2 eexists. split; [done|]. unfold digit_char, is_ws, is_digit.
  destruct (Z.ltb_spec d 10); [|lia]. lia.
Qed.

Lemma parse_value_serialize v : reads_back v.
Proof.
  induction v as [|b|x|t|l IH|l IH] using json_nested_ind.
  - intros ind s fuel rest [= <-] _ _ Hf. cbn in Hf. destruct fuel; [lia|]. done.
  - intros ind s fuel rest [= <-] _ _ Hf. destruct b; cbn in Hf; destruct fuel; (lia || done).
  - intros ind s fuel rest (z & -> & ->)%num_to_string_inv _ Hrest Hf.
    pose proof (parse_number_int z rest Hrest) as Hn.
    destruct (int_to_string_head z) as (c & s & Heq & Hws & Hc). rewrite Heq in *.
    cbn in Hf. destruct fuel as [|fuel]; [lia|]. cbn [app] in Hn |- *.
    rewrite parse_value_number by done. by rewrite Hn.
  - intros ind s fuel rest Hs Hp _ Hf. cbn [serialize] in Hs. apply Some_inj in Hs as <-.
    unfold quote in *. cbn [length] in Hf. destruct fuel as [|fuel]; [lia|].
    cbn [app parse_value skip_ws is_ws]. cbn -[parse_string app].
    by rewrite parse_key.
  - by apply reads_back_array.
  - by apply reads_back_object.
Qed.
End Roundtrip.

(** Every printed value is read back, the fuel of [parse] being enough. *)
Lemma parse_printed gap v s :
  plain v = true -> stringify gap v = Some s -> parse s = Ok v.
Proof.
  intros Hp Hs. unfold parse.
  pose proof (parse_value_serialize gap v 0%nat s (2 * length s + 2)%nat [] Hs Hp I ltac:(lia)) as Hparse.
  rewrite app_nil_r in Hparse. by rewrite Hparse.
Qed.
