(* ===== verification/Objects.v ===== *)
(** Objects used as tables: property keys, and the properties every plain object
    inherits from [Object.prototype]. *)
From Stdlib Require Import String.
From S2P Require Import Prelude JsNumber JsString Json.

(** ** [Number.prototype.toString()] *)

(** Whether [10 ^ p <= num / den]. *)
Definition reaches (num den p : Z) : bool :=
  if 0 <=? p then 10 ^ p * den <=? num else den <=? num * 10 ^ (- p).
Fixpoint climb (fuel : nat) (num den p : Z) : Z :=
  match fuel with
  | O => p
  | S fuel => if reaches num den (p + 1) then climb fuel num den (p + 1) else p
  end.
(** The decimal exponent of a positive quotient: its logarithm is estimated from
    below, by less than three. *)
Definition exponent10 (num den : Z) : Z :=
  climb 5 num den ((Z.log2 num - Z.log2 den - 1) * 30103 / 100000 - 1).

(** The shortest digits [s] with [s * 10 ^ (n - k)] rounding to [x], the closest
    ones among them; 17 digits are always enough. *)
Fixpoint digits_of (fuel : nat) (x : number) (num den n k : Z) : Z * Z :=
  let scaled := if 0 <=? k - n then num * 10 ^ (k - n) / den else num / (den * 10 ^ (n - k)) in
  let rest s := Z.abs (s * den * 10 ^ Z.max 0 (n - k) - num * 10 ^ Z.max 0 (k - n)) in
  let good s := bool_decide (decimal false s (n - k) = x) in
  let s := if good scaled && (negb (good (scaled + 1)) || (rest scaled <=? rest (scaled + 1))) then scaled else scaled + 1 in
  match fuel with
  | O => (s, k)
  | S fuel => if good s then (s, k) else digits_of fuel x num den n (k + 1)
  end.

(** The digits with the point at [n] of [k] places. *)
Definition zeros (n : Z) : jstr := repeat 48 (Z.to_nat n).
Definition place (ds : jstr) (k n : Z) : jstr :=
  if (k <=? n) && (n <=? 21) then ds ++ zeros (n - k)
  else if (0 <? n) && (n <=? 21) then take (Z.to_nat n) ds ++ 46 :: drop (Z.to_nat n) ds
  else if (-6 <? n) && (n <=? 0) then str "0." ++ zeros (- n) ++ ds
  else
    let e := n - 1 in
    take 1 ds ++ (if k =? 1 then [] else 46 :: drop 1 ds) ++ str "e" ++
      (if e <? 0 then str "-" else str "+") ++ int_to_string 10 (Z.abs e).
Definition number_to_string (x : number) : jstr :=
  match x with
  | S754_nan => str "NaN"
  | S754_zero _ => str "0"
  | S754_infinity neg => (if neg : bool then str "-" else []) ++ str "Infinity"
  | S754_finite neg m e =>
      let num := if 0 <=? e then Zpos m * 2 ^ e else Zpos m in
      let den := if 0 <=? e then 1 else 2 ^ (- e) in
      let n := exponent10 num den + 1 in
      let '(s, k) := digits_of 16 (S754_finite false m e) num den n 1 in
      (if neg : bool then str "-" else []) ++ place (int_to_string 10 s) k n
  end.

(** ** Property keys *)

(** ToPropertyKey of a value that [JSON.parse] has made: the conversion of an object
    calls its method [toString], and fails if the object has a property of this
    name, because a parsed value is never a function. *)
Fixpoint to_key (v : json) : result jstr :=
  match v with
  | JNull => Ok (str "null")
  | JBool b => Ok (if b then str "true" else str "false")
  | JNum x => Ok (number_to_string x)
  | JStr s => Ok s
  | JArr l =>
      (fix texts (l : list json) : result (list jstr) :=
         match l with
         | [] => Ok []
         | v :: l => t ← (match v with JNull => Ok [] | v => to_key v end); ts ← texts l; Ok (t :: ts)
         end) l ≫= fun ts => Ok (join (str ",") ts)
  | JObj l => match property (str "toString") l with Some _ => Throw TypeError | None => Ok (str "[object Object]") end
  end.
Definition key_of (v : option json) : result jstr := match v with Some v => to_key v | None => Ok (str "undefined") end.

(** ** [Object.prototype] *)

Inductive builtin :=
  | B_constructor | B_toString | B_toLocaleString | B_valueOf | B_hasOwnProperty | B_isPrototypeOf
  | B_propertyIsEnumerable | B_defineGetter | B_defineSetter | B_lookupGetter | B_lookupSetter
  | B_proto.                          (* not a function: [Object.prototype] itself *)

Definition prototype_members : list (jstr * builtin) := [
  (str "constructor", B_constructor); (str "toString", B_toString); (str "toLocaleString", B_toLocaleString);
  (str "valueOf", B_valueOf); (str "hasOwnProperty", B_hasOwnProperty); (str "isPrototypeOf", B_isPrototypeOf);
  (str "propertyIsEnumerable", B_propertyIsEnumerable); (str "__defineGetter__", B_defineGetter);
  (str "__defineSetter__", B_defineSetter); (str "__lookupGetter__", B_lookupGetter);
  (str "__lookupSetter__", B_lookupSetter); (str "__proto__", B_proto)].

(** The member of [Object.prototype] that a plain object without an own property
    of the name [k] finds. *)
Definition inherited (k : jstr) : option builtin :=
  snd <$> List.find (fun p => bool_decide (p.1 = k)) prototype_members.

(** A member called as a plain function, so that [this] is undefined, on one
    value: most of them convert [this] to an object and throw. *)
Definition call_builtin (b : builtin) (arg : option json) : result unit :=
  match b with
  | B_constructor | B_toString => Ok tt
  | B_isPrototypeOf => match arg with Some (JObj _ | JArr _) => Throw TypeError | _ => Ok tt end
  | _ => Throw TypeError
  end.

Example number_texts :
  map (fun t => number_to_string (decimal t.1.1 t.1.2 t.2)) [(false, 1, -1); (true, 15, -1); (false, 1, 21); (false, 123456789012345680000, 0);
    (false, 15, -8); (false, 5, -324); (false, 17976931348623157, 292); (false, 0, 0); (false, 3333333333333333, -16)]
  = map str ["0.1"; "-1.5"; "1e+21"; "123456789012345680000"; "1.5e-7"; "5e-324"; "1.7976931348623157e+308"; "0"; "0.3333333333333333"]%string.
Proof. vm_compute. reflexivity. Qed.
Example keys : map to_key [JArr [JStr (str "a"); JNull; JArr [JNum (num_of_Z 7)]]; JObj []; JObj [(str "toString", JNull)]]
  = [Ok (str "a,,7"); Ok (str "[object Object]"); Throw TypeError].
Proof. vm_compute. reflexivity. Qed.
