(* ===== verification/Msg.v ===== *)
(** [web/socket/msg.js]: the binary sample message of the WebSocket protocol. *)
From S2P Require Import Prelude JsNumber JsBuffer.

(** ** The message object *)

(** The literal passed to [new Msg(c)]; an absent property is [undefined]. *)
Record msg_init := {
  c_sequence  : option Z;
  c_length    : option nat;
  c_version   : option Z;
  c_type      : option Z;
  c_id        : option Z;
  c_timestamp : option number;
  c_data      : option (list number);
}.

(** A [Msg] object.  [m_data] is [undefined] ([None]) until an array is given;
    [m_blob] is the byte range of the buffer the message was parsed from. *)
Record msg := {
  m_sequence  : Z;
  m_length    : nat;
  m_version   : Z;
  m_type      : Z;
  m_timestamp : number;
  m_data      : option (list number);
  m_blob      : option (nat * nat);
}.

Definition VERSION : Z := 2.
Definition TYPE_DATA : Z := 0.
Definition OFFSET_TYPE : Z := 2.
Definition OFFSET_VERSION : Z := 4.

(** [function Msg(c)]; [now] is the value of [Date.now()].  Reading a property
    of an absent argument is a TypeError. *)
Definition Msg (now : Z) (c : option msg_init) : result msg :=
  match c with
  | None => Throw TypeError
  | Some c =>
      let self := {|
        m_sequence  := default 0 (c_sequence c);
        m_length    := default 0%nat (c_length c);
        m_version   := default VERSION (c_version c);
        m_type      := default TYPE_DATA (c_type c);
        m_timestamp := default (num_of_Z now) (c_timestamp c);
        m_data      := None;
        m_blob      := None |} in
      Ok match c_data c with
         | Some data => {|
             m_sequence := m_sequence self; m_length := length data;
             m_version := m_version self; m_type := m_type self;
             m_timestamp := m_timestamp self; m_data := Some data; m_blob := None |}
         | None => self
         end
  end.

(** [Msg.bytes] *)
Definition bytes (len : nat) : nat := (len * 4 + 16)%nat.

(** The Number literals of the file. *)
Definition num_1e3 : number := num_of_Z 1000.
Definition num_1e6 : number := num_of_Z 1000000.
Definition num_1em6 : number := num_div (num_of_Z 1) (num_of_Z 1000000).

Section Wire.
Context (host_le : bool).

(** [Msg.fromArrayBuffer]; the DataView getters are called in the order of
    the object literal, so that an out-of-range read throws where it does in
    the code. *)
Definition fromArrayBuffer (now : Z) (data : data_view) : result msg :=
  bits ← dv_get 1 data 0 true;
  id ← dv_get 1 data 1 true;
  len ← dv_get 2 data 2 true;
  seq ← dv_get 4 data 4 true;
  sec ← dv_get 4 data 8 true;
  nsec ← dv_get 4 data 12 true;
  m ← Msg now (Some {|
    c_version := Some (Z.land (Z.shiftr bits OFFSET_VERSION) 15);
    c_type := Some (Z.land (Z.shiftr bits OFFSET_TYPE) 3);
    c_id := Some id;
    c_length := Some (Z.to_nat len);
    c_sequence := Some seq;
    c_timestamp := Some (num_add (num_mul (num_of_Z sec) num_1e3)
                                 (num_mul (num_of_Z nsec) num_1em6));
    c_data := None |});
  blob ← new_data_view (dv_buffer data) (dv_offset data) (Some (bytes (m_length m)));
  values ← float32_array host_le (dv_buffer data) (dv_offset data + 16) (m_length m);
  Ok {| m_sequence := m_sequence m; m_length := m_length m; m_version := m_version m;
        m_type := m_type m; m_timestamp := m_timestamp m;
        m_data := Some values; m_blob := Some (dv_offset blob, dv_length blob) |}.

(** The [while] loop of [Msg.fromArrayBufferVector]; [None] when the fuel
    does not suffice.  [fromArrayBuffer] returns an object or throws, so the
    test against [undefined] always succeeds. *)
Fixpoint fromArrayBufferVector_loop (fuel : nat) (now : Z) (blob : list Z)
    (offset : nat) (msgs : list msg) : option (result (list msg)) :=
  match fuel with
  | O => None
  | S fuel =>
      if (offset <? length blob)%nat then
        match (v ← new_data_view blob offset None; fromArrayBuffer now v) with
        | Throw e => Some (Throw e)
        | Ok m =>
            fromArrayBufferVector_loop fuel now blob
              (offset + from_option snd 0%nat (m_blob m)) (msgs ++ [m])
        end
      else Some (Ok msgs)
  end.

(** [Msg.fromArrayBufferVector]: one iteration per byte is more than enough,
    since every message takes at least its 16 bytes of header. *)
Definition fromArrayBufferVector (now : Z) (blob : list Z) : option (result (list msg)) :=
  fromArrayBufferVector_loop (S (length blob)) now blob 0 [].

(** [Msg.prototype.toArrayBuffer] *)
Definition toArrayBuffer (m : msg) : result (list Z) :=
  let buffer := new_array_buffer (bytes (m_length m)) in
  view ← new_data_view buffer 0 None;
  let bits := Z.lor (Z.shiftl (Z.land (m_version m) 15) OFFSET_VERSION)
                    (Z.shiftl (Z.land (m_type m) 3) OFFSET_TYPE) in
  let sec := num_floor (num_div (m_timestamp m) num_1e3) in
  let nsec := num_mul (num_sub (m_timestamp m) (num_mul sec num_1e3)) num_1e6 in
  view ← dv_set 1 view 0 bits true;
  view ← dv_set 2 view 2 (Z.of_nat (m_length m)) true;
  view ← dv_set 4 view 4 (m_sequence m) true;
  view ← dv_set 4 view 8 (to_uint 32 sec) true;
  view ← dv_set 4 view 12 (to_uint 32 nsec) true;
  match m_data m with
  | Some data => float32_array_set host_le (dv_buffer view) 16 (m_length m) data
  | None => Throw TypeError
  end.
End Wire.

(** ** The layout of a message on the wire *)

(** The 16 bytes of header, in the order of the offsets the code uses. *)
Definition header (bits id len seq sec nsec : Z) : list Z :=
  bytes_of true 1 bits ++ bytes_of true 1 id ++ bytes_of true 2 len ++
  bytes_of true 4 seq ++ bytes_of true 4 sec ++ bytes_of true 4 nsec.

Lemma length_header bits id len seq sec nsec : length (header bits id len seq sec nsec) = 16%nat.
Proof. done. Qed.

Definition type_bits (version type : Z) : Z :=
  Z.lor (Z.shiftl (Z.land version 15) OFFSET_VERSION) (Z.shiftl (Z.land type 3) OFFSET_TYPE).

Definition ts_sec (ts : number) : number := num_floor (num_div ts num_1e3).
Definition ts_nsec (ts : number) : number :=
  num_mul (num_sub ts (num_mul (ts_sec ts) num_1e3)) num_1e6.

(** Writing the five header fields into a zeroed buffer. *)
Lemma header_splices n bits len seq sec nsec :
  (splice 12 (bytes_of true 4 nsec) (splice 8 (bytes_of true 4 sec)
    (splice 4 (bytes_of true 4 seq) (splice 2 (bytes_of true 2 len)
      (splice 0 (bytes_of true 1 bits) (new_array_buffer (n * 4 + 16)))))))
  = header bits 0 len seq sec nsec ++ replicate (n * 4) 0.
Proof.
  unfold new_array_buffer. rewrite Nat.add_comm, replicate_add.
  rewrite !splice_app_l by (rewrite ?length_splice; cbn; lia).
  by rewrite app_inv_tail_iff.
Qed.

(** The header as [toArrayBuffer] writes it. *)
Definition sent_header (m : msg) : list Z :=
  header (type_bits (m_version m) (m_type m)) 0 (Z.of_nat (m_length m)) (m_sequence m)
    (to_uint 32 (ts_sec (m_timestamp m))) (to_uint 32 (ts_nsec (m_timestamp m))).

Lemma dv_set_whole l f z b n :
  (f + l <= n)%nat -> length b = n ->
  dv_set l {| dv_buffer := b; dv_offset := 0; dv_length := n |} f z true
  = Ok {| dv_buffer := splice f (bytes_of true l z) b; dv_offset := 0; dv_length := n |}
  /\ length (splice f (bytes_of true l z) b) = n.
Proof.
  intros Hf Hb. unfold dv_set. cbn [dv_length dv_offset dv_buffer].
  rewrite (proj2 (Nat.ltb_ge _ _)) by lia. split; [done|].
  by rewrite length_splice by (rewrite length_bytes_of; lia).
Qed.

(** Writing the header never fails; only the payload can. *)
Lemma toArrayBuffer_header host_le m :
  toArrayBuffer host_le m =
  match m_data m with
  | Some data =>
      float32_array_set host_le (sent_header m ++ replicate (m_length m * 4) 0) 16 (m_length m) data
  | None => Throw TypeError
  end.
Proof.
  unfold toArrayBuffer, bytes, sent_header. set (n := m_length m).
  assert (length (new_array_buffer (n * 4 + 16)) = (n * 4 + 16)%nat) as Hb0
    by apply length_replicate.
  unfold new_data_view. rewrite (proj2 (Nat.ltb_ge _ _)), Hb0, Nat.sub_0_r by lia.
  destruct (dv_set_whole 1 0 (type_bits (m_version m) (m_type m)) _ (n * 4 + 16)%nat ltac:(lia) Hb0) as [H1 Hb1].
  destruct (dv_set_whole 2 2 (Z.of_nat n) _ (n * 4 + 16)%nat ltac:(lia) Hb1) as [H2 Hb2].
  destruct (dv_set_whole 4 4 (m_sequence m) _ (n * 4 + 16)%nat ltac:(lia) Hb2) as [H3 Hb3].
  destruct (dv_set_whole 4 8 (to_uint 32 (ts_sec (m_timestamp m))) _ (n * 4 + 16)%nat ltac:(lia) Hb3) as [H4 Hb4].
  destruct (dv_set_whole 4 12 (to_uint 32 (ts_nsec (m_timestamp m))) _ (n * 4 + 16)%nat ltac:(lia) Hb4) as [H5 Hb5].
  unfold type_bits, ts_nsec, ts_sec in *.
  rewrite (result_bind_ok _ _ _ eq_refl).
  rewrite (result_bind_ok _ _ _ H1), (result_bind_ok _ _ _ H2), (result_bind_ok _ _ _ H3),
    (result_bind_ok _ _ _ H4), (result_bind_ok _ _ _ H5).
  cbn [dv_buffer]. by rewrite header_splices.
Qed.

Lemma length_sent n m : length (sent_header m ++ replicate (n * 4) 0) = (n * 4 + 16)%nat.
Proof. rewrite length_app, length_replicate. unfold sent_header. rewrite length_header. lia. Qed.

Lemma toArrayBuffer_layout host_le m data :
  m_data m = Some data -> m_length m = length data ->
  toArrayBuffer host_le m = Ok (sent_header m ++ f32_write host_le data).
Proof.
  intros Hdata Hlen. rewrite toArrayBuffer_header, Hdata, Hlen.
  unfold float32_array_set, f32_view_ok. rewrite length_sent.
  rewrite (proj2 (Nat.leb_le _ _)), (proj2 (Nat.ltb_ge _ _)) by lia.
  change ((16 mod 4 =? 0)%nat && true) with true. cbv iota. f_equal.
  change 16%nat with (length (sent_header m)).
  apply splice_app_r_all. rewrite length_f32_write, length_replicate. lia.
Qed.

Definition parsed_timestamp (sec nsec : Z) : number :=
  num_add (num_mul (num_of_Z sec) num_1e3) (num_mul (num_of_Z nsec) num_1em6).

(** Reading a message back from the middle of a buffer. *)
Lemma fromArrayBuffer_layout host_le now bits id seq sec nsec n pre body post :
  (length pre mod 4 = 0)%nat -> length body = (4 * n)%nat -> Z.of_nat n < 2 ^ 16 ->
  let buffer := pre ++ header bits id (Z.of_nat n) seq sec nsec ++ body ++ post in
  fromArrayBuffer host_le now
    {| dv_buffer := buffer; dv_offset := length pre; dv_length := length buffer - length pre |}
  = Ok {| m_sequence := seq mod 2 ^ 32; m_length := n;
          m_version := Z.land (Z.shiftr (bits mod 2 ^ 8) OFFSET_VERSION) 15;
          m_type := Z.land (Z.shiftr (bits mod 2 ^ 8) OFFSET_TYPE) 3;
          m_timestamp := parsed_timestamp (sec mod 2 ^ 32) (nsec mod 2 ^ 32);
          m_data := Some (f32_read host_le body n);
          m_blob := Some (length pre, bytes n) |}.
Proof.
  intros Hpre Hbody Hn buffer.
  set (h := header bits id (Z.of_nat n) seq sec nsec) in *.
  assert (length buffer = length pre + 16 + 4 * n + length post)%nat as Hlen.
  { unfold buffer. rewrite !length_app, Hbody. unfold h. rewrite length_header. lia. }
  unfold fromArrayBuffer, buffer.
  rewrite !dv_get_app by (rewrite !length_app; unfold h; rewrite length_header; lia).
  cbn [mbind result_bind].
  change (slice 0 1 (h ++ body ++ post)) with (bytes_of true 1 bits).
  change (slice 1 1 (h ++ body ++ post)) with (bytes_of true 1 id).
  change (slice 2 2 (h ++ body ++ post)) with (bytes_of true 2 (Z.of_nat n)).
  change (slice 4 4 (h ++ body ++ post)) with (bytes_of true 4 seq).
  change (slice 8 4 (h ++ body ++ post)) with (bytes_of true 4 sec).
  change (slice 12 4 (h ++ body ++ post)) with (bytes_of true 4 nsec).
  rewrite !value_of_bytes_of.
  change (8 * Z.of_nat 1) with 8. change (8 * Z.of_nat 2) with 16.
  change (8 * Z.of_nat 4) with 32.
  rewrite (Z.mod_small (Z.of_nat n)), Nat2Z.id by lia.
  cbn [Msg c_data c_sequence c_length c_version c_type c_timestamp default
    from_option mbind result_bind m_length dv_buffer dv_offset]. unfold Datatypes.id.
  fold buffer. unfold new_data_view, bytes.
  rewrite (proj2 (Nat.ltb_ge _ _)), (proj2 (Nat.ltb_ge _ _)) by lia.
  cbn [mbind result_bind]. unfold float32_array, f32_view_ok.
  rewrite (proj2 (Nat.leb_le _ _)), andb_true_r by lia.
  rewrite Nat.Div0.add_mod, Hpre. cbn [Nat.add Nat.modulo Nat.divmod Nat.eqb].
  cbn [mbind result_bind m_sequence m_version m_type m_timestamp dv_offset dv_length].
  do 3 f_equal. f_equal. unfold buffer.
  rewrite drop_app_add, (drop_app_length' h) by done.
  rewrite <- (f32_read_take _ _ _ (4 * n)) by lia.
  by rewrite take_app_length'.
Qed.

(** The first header byte carries the low bits of version and type. *)
Lemma type_bits_unpack version type :
  Z.land (Z.shiftr (type_bits version type mod 2 ^ 8) OFFSET_VERSION) 15 = Z.land version 15 /\
  Z.land (Z.shiftr (type_bits version type mod 2 ^ 8) OFFSET_TYPE) 3 = Z.land type 3.
Proof.
  unfold type_bits.
  assert (0 <= Z.land version 15 < Z.of_nat 16) as Hv
    by (change 15 with (Z.ones 4); rewrite Z.land_ones by lia; apply Z.mod_pos_bound; lia).
  assert (0 <= Z.land type 3 < Z.of_nat 4) as Ht
    by (change 3 with (Z.ones 2); rewrite Z.land_ones by lia; apply Z.mod_pos_bound; lia).
  generalize dependent (Z.land version 15). generalize dependent (Z.land type 3).
  intros t Ht v Hv.
  pose (check := fun v => forallb (fun t =>
    let b := Z.lor (Z.shiftl v OFFSET_VERSION) (Z.shiftl t OFFSET_TYPE) mod 2 ^ 8 in
    (Z.land (Z.shiftr b OFFSET_VERSION) 15 =? v) && (Z.land (Z.shiftr b OFFSET_TYPE) 3 =? t))
    (below 4)).
  assert (check v = true) as Hc by (apply (forall_below 16 check); [by vm_compute|done]).
  apply (forall_below 4 _ Hc) in Ht. cbv beta zeta in Ht.
  apply andb_true_iff in Ht as [H1 H2]. by rewrite !Z.eqb_eq in *.
Qed.

(** A millisecond count survives the split into seconds and nanoseconds and
    the recombination in binary64. *)
Definition millis_ok (t : Z) : Prop := 0 <= t < 1000 * 2 ^ 32.

#[export] Instance millis_ok_dec t : Decision (millis_ok t).
Proof. unfold millis_ok. apply _. Defined.

Lemma num_1em6_millis k :
  0 <= k < 1000 -> num_mul (num_of_Z (k * 1000000)) num_1em6 = num_of_Z k.
Proof.
  intros Hk.
  pose (check := fun k => bool_decide (num_mul (num_of_Z (k * 1000000)) num_1em6 = num_of_Z k)).
  assert (check k = true) as Hc by (apply (forall_below 1000 check); [by vm_compute|done]).
  by apply bool_decide_eq_true in Hc.
Qed.

Lemma ts_sec_millis t : millis_ok t -> ts_sec (num_of_Z t) = num_of_Z (t / 1000).
Proof. intros []. unfold ts_sec, num_1e3. apply num_floor_div; unfold safe; lia. Qed.

Lemma ts_nsec_millis t : millis_ok t -> ts_nsec (num_of_Z t) = num_of_Z (t mod 1000 * 1000000).
Proof.
  intros Ht. unfold ts_nsec. rewrite ts_sec_millis by done. destruct Ht.
  unfold num_1e3, num_1e6.
  pose proof (Z.div_mod t 1000 ltac:(lia)). pose proof (Z.mod_pos_bound t 1000 ltac:(lia)).
  assert (0 <= t / 1000) by (apply Z.div_pos; lia).
  num_exact. f_equal. lia.
Qed.

Lemma timestamp_roundtrip t :
  millis_ok t ->
  parsed_timestamp (to_uint 32 (ts_sec (num_of_Z t)) mod 2 ^ 32)
                   (to_uint 32 (ts_nsec (num_of_Z t)) mod 2 ^ 32) = num_of_Z t.
Proof.
  intros Ht. rewrite ts_sec_millis, ts_nsec_millis by done. destruct Ht.
  pose proof (Z.div_mod t 1000 ltac:(lia)). pose proof (Z.mod_pos_bound t 1000 ltac:(lia)).
  assert (0 <= t / 1000 < 2 ^ 32) by (split; [apply Z.div_pos|apply Z.div_lt_upper_bound]; lia).
  num_exact. rewrite !Z.mod_mod, !Z.mod_small by lia.
  unfold parsed_timestamp, num_1e3. rewrite num_1em6_millis by lia.
  num_exact. f_equal. lia.
Qed.

(** ** Sending and receiving *)

(** A message [toArrayBuffer] can transmit: the data array matches the length
    field, which has 16 bits, and the timestamp is a millisecond count. *)
Definition sendable (m : msg) : Prop :=
  exists data t, m_data m = Some data /\ m_length m = length data
    /\ Z.of_nat (length data) < 2 ^ 16 /\ m_timestamp m = num_of_Z t /\ millis_ok t.

(** What the receiver sees of a message. *)
Definition received_as (m m' : msg) : Prop :=
  m_sequence m' = m_sequence m mod 2 ^ 32 /\ m_length m' = m_length m /\
  m_version m' = Z.land (m_version m) 15 /\ m_type m' = Z.land (m_type m) 3 /\
  m_timestamp m' = m_timestamp m /\
  m_data m' = map num_fround <$> m_data m.

Lemma sendable_wire host_le m :
  sendable m -> exists w, toArrayBuffer host_le m = Ok w /\ length w = bytes (m_length m).
Proof.
  intros (data & t & Hd & Hl & Hn & Hts & Ht). eexists. split.
  - by apply toArrayBuffer_layout.
  - rewrite length_app, length_f32_write, Hl. unfold bytes, sent_header. rewrite length_header. lia.
Qed.

(** One message parsed from the middle of a vector. *)
Lemma roundtrip_at host_le now m w pre post :
  sendable m -> toArrayBuffer host_le m = Ok w -> (length pre mod 4 = 0)%nat ->
  exists m',
    fromArrayBuffer host_le now
      {| dv_buffer := pre ++ w ++ post; dv_offset := length pre;
         dv_length := length (pre ++ w ++ post) - length pre |} = Ok m'
    /\ received_as m m' /\ m_blob m' = Some (length pre, length w).
Proof.
  intros (data & t & Hd & Hl & Hn & Hts & Ht) Hw Hpre.
  rewrite (toArrayBuffer_layout _ _ _ Hd Hl) in Hw. apply Ok_inj in Hw as <-.
  unfold sent_header. rewrite Hl, <- !app_assoc.
  rewrite (fromArrayBuffer_layout _ now _ 0 _ _ _ (length data) pre (f32_write host_le data) post)
    by (done || apply length_f32_write).
  eexists. split; [done|]. split.
  - destruct (type_bits_unpack (m_version m) (m_type m)) as [Hv Hty].
    unfold received_as. cbn [m_sequence m_length m_version m_type m_timestamp m_data].
    rewrite Hd, Hv, Hty, Hts, timestamp_roundtrip by done.
    split_and!; try done.
    cbn. f_equal. rewrite <- (app_nil_r (f32_write host_le data)). by apply f32_read_write.
  - cbn [m_blob]. rewrite length_app, length_header, length_f32_write. unfold bytes.
    do 2 f_equal. lia.
Qed.

(** The loop over a run of complete messages, whatever bytes follow. *)
Lemma vector_loop_prefix host_le now ms ws post :
  Forall sendable ms ->
  Forall2 (fun m w => toArrayBuffer host_le m = Ok w) ms ws ->
  forall pre acc fuel, (length pre mod 4 = 0)%nat ->
  exists ms',
    fromArrayBufferVector_loop host_le (length ms + fuel) now
      (pre ++ concat ws ++ post) (length pre) acc
    = fromArrayBufferVector_loop host_le fuel now
        ((pre ++ concat ws) ++ post) (length (pre ++ concat ws)) (acc ++ ms')
    /\ Forall2 received_as ms ms'.
Proof.
  intros Hs Hw. induction Hw as [|m w ms ws Hmw Hw IH]; intros pre acc fuel Hpre;
    cbn [concat length Nat.add].
  - exists []. by rewrite !app_nil_r.
  - cbn [fromArrayBufferVector_loop]. inversion Hs as [|?? Hm Hs']; subst.
    destruct (sendable_wire host_le m Hm) as (w' & Hw' & Hlen).
    rewrite Hmw in Hw'. apply Ok_inj in Hw' as <-.
    destruct (roundtrip_at host_le now m w pre (concat ws ++ post) Hm Hmw Hpre)
      as (m' & Hp & Hr & Hb).
    unfold bytes in Hlen. rewrite <- (app_assoc w).
    rewrite (proj2 (Nat.ltb_lt _ _)) by (rewrite !length_app; lia).
    unfold new_data_view. rewrite (proj2 (Nat.ltb_ge _ _)) by (rewrite !length_app; lia).
    cbn [mbind result_bind]. rewrite Hp, Hb. cbn [from_option snd].
    rewrite <- length_app, app_assoc.
    destruct (IH Hs' (pre ++ w) (acc ++ [m']) fuel) as (ms' & -> & Hms').
    + rewrite length_app, Nat.Div0.add_mod, Hpre, Hlen.
      replace (m_length m * 4 + 16)%nat with ((m_length m + 4) * 4)%nat by lia.
      by rewrite Nat.Div0.mod_mul.
    + exists (m' :: ms'). rewrite <- !app_assoc. split; [done|by constructor].
Qed.

Lemma wires_length host_le ms ws :
  Forall sendable ms -> Forall2 (fun m w => toArrayBuffer host_le m = Ok w) ms ws ->
  (length ms <= length (concat ws))%nat.
Proof.
  intros Hs Hw. induction Hw as [|m w ms ws Hmw _ IH]; [done|].
  inversion Hs as [|?? Hm Hs']; subst.
  destruct (sendable_wire host_le m Hm) as (w' & Hw' & Hlen).
  rewrite Hmw in Hw'. apply Ok_inj in Hw' as <-.
  cbn [concat length]. rewrite length_app, Hlen. unfold bytes. specialize (IH Hs'). lia.
Qed.

Lemma sendable_wires host_le ms :
  Forall sendable ms ->
  exists ws, Forall2 (fun m w => toArrayBuffer host_le m = Ok w) ms ws
    /\ (length ms <= length (concat ws))%nat.
Proof.
  intros Hs. enough (exists ws, Forall2 (fun m w => toArrayBuffer host_le m = Ok w) ms ws)
    as [ws Hws] by (exists ws; eauto using wires_length).
  induction Hs as [|m ms Hm _ (ws & Hws)]; [by exists []|].
  destruct (sendable_wire host_le m Hm) as (w & Hw & _). exists (w :: ws). by constructor.
Qed.

(** ** Totality of the parser *)

(** A parsed message spans at least its header, so the loop makes progress. *)
Lemma fromArrayBuffer_progress host_le now v m :
  fromArrayBuffer host_le now v = Ok m ->
  exists off n, m_blob m = Some (off, n) /\ (16 <= n)%nat.
Proof.
  unfold fromArrayBuffer. intros H.
  repeat (apply result_bind_inv in H as (? & ? & H)).
  apply Ok_inj in H as <-. cbn [m_blob]. do 2 eexists. split; [done|].
  match goal with H : new_data_view _ _ (Some _) = Ok ?d |- _ => revert H end.
  unfold new_data_view. repeat case_match; try done.
  intros [= <-]. cbn [dv_length]. unfold bytes. lia.
Qed.

(** Every DataView access of the parser fails with a RangeError. *)
Lemma dv_get_throws n v off l e : dv_get n v off l = Throw e -> e = RangeError.
Proof. unfold dv_get. case_match; congruence. Qed.
Lemma new_data_view_throws b off n e : new_data_view b off n = Throw e -> e = RangeError.
Proof. unfold new_data_view. repeat case_match; congruence. Qed.
Lemma float32_array_throws h b off n e : float32_array h b off n = Throw e -> e = RangeError.
Proof. unfold float32_array. case_match; congruence. Qed.

Lemma result_bind_throws {A B} (m : result A) (f : A -> result B) (P : js_error -> Prop) e :
  (forall e, m = Throw e -> P e) -> (forall a, m = Ok a -> forall e, f a = Throw e -> P e) ->
  m ≫= f = Throw e -> P e.
Proof. destruct m as [a|e']; intros Hm Hf H; [by eapply Hf|]. apply Hm. cbn in H. congruence. Qed.

Lemma fromArrayBuffer_throws host_le now v e :
  fromArrayBuffer host_le now v = Throw e -> e = RangeError.
Proof.
  revert e. unfold fromArrayBuffer.
  repeat (match goal with |- forall e, _ ≫= _ = Throw e -> _ =>
    intros ?e; apply result_bind_throws with (P := fun e => e = RangeError);
    [ eauto using dv_get_throws, new_data_view_throws, float32_array_throws | intros ? ? ]
  end).
  all: cbn; intros; congruence.
Qed.

Lemma vector_loop_total host_le now blob offset acc fuel :
  (length blob - offset < fuel)%nat ->
  (exists ms, fromArrayBufferVector_loop host_le fuel now blob offset acc = Some (Ok ms)) \/
  fromArrayBufferVector_loop host_le fuel now blob offset acc = Some (Throw RangeError).
Proof.
  revert offset acc. induction fuel as [|fuel IH]; intros offset acc Hf;
    cbn [fromArrayBufferVector_loop].
  - lia.
  - destruct (Nat.ltb_spec offset (length blob)); [|eauto].
    destruct (new_data_view blob offset None ≫= _) as [m|e] eqn:Hm; [|].
    + apply result_bind_inv in Hm as (v & _ & Hm).
      apply fromArrayBuffer_progress in Hm as (off & n & -> & Hn).
      apply IH. cbn. lia.
    + right. do 2 f_equal. revert Hm.
      apply (result_bind_throws _ _ (fun e => e = RangeError));
        eauto using new_data_view_throws, fromArrayBuffer_throws.
Qed.

(** ** Truncated frames *)

Lemma dv_get_inv n v off l z :
  dv_get n v off l = Ok z ->
  z = value_of l (slice (dv_offset v + off) n (dv_buffer v)) /\ (off + n <= dv_length v)%nat.
Proof.
  unfold dv_get. destruct (Nat.ltb_spec (dv_length v) (off + n)); [done|].
  intros Hz%Ok_inj. split; [done|lia].
Qed.

Lemma new_data_view_inv b off n v :
  new_data_view b off (Some n) = Ok v -> v = {| dv_buffer := b; dv_offset := off; dv_length := n |}
    /\ (off + n <= length b)%nat.
Proof.
  unfold new_data_view.
  destruct (Nat.ltb_spec (length b) off), (Nat.ltb_spec (length b) (off + n)); try done.
  intros <-%Ok_inj. split; [done|lia].
Qed.

(** A message that parses lies within the buffer as far as its length field says. *)
Lemma fromArrayBuffer_span host_le now v m :
  fromArrayBuffer host_le now v = Ok m ->
  (16 <= dv_length v)%nat /\
  m_length m = Z.to_nat (value_of true (slice (dv_offset v + 2) 2 (dv_buffer v))) /\
  (dv_offset v + bytes (m_length m) <= length (dv_buffer v))%nat.
Proof.
  unfold fromArrayBuffer. intros H.
  apply result_bind_inv in H as (bits & _ & H). apply result_bind_inv in H as (id & _ & H).
  apply result_bind_inv in H as (len & Hlen & H). apply result_bind_inv in H as (sq & _ & H).
  apply result_bind_inv in H as (sec & _ & H). apply result_bind_inv in H as (nsec & Hnsec & H).
  apply result_bind_inv in H as (m' & Hm' & H).
  apply result_bind_inv in H as (blob & Hblob & H).
  apply result_bind_inv in H as (values & _ & H).
  apply Ok_inj in H as <-. apply Ok_inj in Hm' as <-.
  apply dv_get_inv in Hlen as [-> _]. apply dv_get_inv in Hnsec as [_ Hn].
  apply new_data_view_inv in Hblob as [_ Hb].
  cbn [m_length c_length c_data default from_option] in *. unfold Datatypes.id in *.
  split_and!; [lia|done|done].
Qed.

Lemma truncated_rejected host_le now m w k pre :
  sendable m -> toArrayBuffer host_le m = Ok w -> (k < length w)%nat ->
  fromArrayBuffer host_le now
    {| dv_buffer := pre ++ take k w; dv_offset := length pre; dv_length := k |}
  = Throw RangeError.
Proof.
  intros (data & t & Hd & Hl & Hn & _) Hw Hk.
  destruct (fromArrayBuffer _ _ _) as [m'|e] eqn:Hp; [exfalso|by apply fromArrayBuffer_throws in Hp as ->].
  apply fromArrayBuffer_span in Hp as (H16 & Hlen & Hspan). cbn [dv_length dv_offset dv_buffer] in *.
  rewrite length_app, length_take in Hspan.
  rewrite (toArrayBuffer_layout _ _ _ Hd Hl) in Hw. apply Ok_inj in Hw as <-.
  rewrite length_app, length_f32_write in Hk. unfold sent_header in Hk, Hlen.
  rewrite length_header in Hk.
  rewrite slice_app_r, take_app_ge in Hlen by (rewrite length_header; lia).
  rewrite slice_app_l in Hlen by (rewrite length_header; lia).
  change (slice 2 2 _) with (bytes_of true 2 (Z.of_nat (m_length m))) in Hlen.
  rewrite value_of_bytes_of, Z.mod_small, Nat2Z.id in Hlen by (change (8 * Z.of_nat 2) with 16; lia).
  unfold bytes in Hspan. lia.
Qed.

(** The parser on a concatenation of serialised messages. *)
Lemma parse_wires host_le now ms ws :
  Forall sendable ms -> Forall2 (fun m w => toArrayBuffer host_le m = Ok w) ms ws ->
  exists ms', fromArrayBufferVector host_le now (concat ws) = Some (Ok ms')
    /\ Forall2 received_as ms ms'.
Proof.
  intros Hs Hws. pose proof (wires_length host_le ms ws Hs Hws) as Hlen.
  set (f := (S (length (concat ws)) - length ms)%nat).
  destruct (vector_loop_prefix host_le now ms ws [] Hs Hws [] [] f) as (ms' & Hp & Hr); [done|].
  exists ms'. split; [|done].
  rewrite !app_nil_r in Hp. cbn [app] in Hp. unfold fromArrayBufferVector.
  replace (S (length (concat ws))) with (length ms + f)%nat by (unfold f; lia). cbn [length] in Hp.
  rewrite Hp. destruct f as [|f'] eqn:Hf; [lia|].
  cbn [fromArrayBufferVector_loop]. by rewrite Nat.ltb_irrefl.
Qed.

(** ** Properties *)

(** C1. Sending any sequence of samples over the WebSocket and parsing the
    received vector yields one message per sample, in order, with the
    sequence number modulo 2^32, the length, the version and type, the exact
    millisecond timestamp, and the values rounded to single precision. *)
Theorem vector_roundtrip host_le now ms :
  Forall sendable ms ->
  exists ws ms',
    Forall2 (fun m w => toArrayBuffer host_le m = Ok w) ms ws /\
    fromArrayBufferVector host_le now (concat ws) = Some (Ok ms') /\
    Forall2 received_as ms ms'.
Proof.
  intros Hs. destruct (sendable_wires host_le ms Hs) as (ws & Hws & _).
  destruct (parse_wires host_le now ms ws Hs Hws) as (ms' & Hp & Hr).
  by exists ws, ms'.
Qed.

Definition sample_msg (t seq : Z) (data : list number) : msg := {|
  m_sequence := seq; m_length := length data; m_version := VERSION; m_type := TYPE_DATA;
  m_timestamp := num_of_Z t; m_data := Some data; m_blob := None |}.

Lemma vector_roundtrip_witness :
  exists ws ms',
    Forall2 (fun m w => toArrayBuffer true m = Ok w)
      [sample_msg 1600000000123 5 [num_of_Z 3; num_1em6]; sample_msg 12 (2 ^ 32 + 1) []] ws /\
    fromArrayBufferVector true 0 (concat ws) = Some (Ok ms') /\
    Forall2 received_as
      [sample_msg 1600000000123 5 [num_of_Z 3; num_1em6]; sample_msg 12 (2 ^ 32 + 1) []] ms'.
Proof.
  apply (vector_roundtrip true 0). repeat constructor.
  - exists [num_of_Z 3; num_1em6], 1600000000123. split_and!; try done; by vm_compute.
  - exists [], 12. split_and!; try done; by vm_compute.
Defined.

(** Parsing terminates on every input: whatever bytes arrive, the loop
    ends within one step per byte, with the messages or with a RangeError. *)
Theorem fromArrayBufferVector_total host_le now blob :
  (exists ms, fromArrayBufferVector host_le now blob = Some (Ok ms)) \/
  fromArrayBufferVector host_le now blob = Some (Throw RangeError).
Proof. apply vector_loop_total. lia. Qed.

(** C31. A vector whose last message is cut short anywhere is rejected as a
    whole with a RangeError: no sample of a damaged frame reaches the plot. *)
Theorem truncated_vector_rejected host_le now ms ws m w k :
  Forall sendable ms -> Forall2 (fun m w => toArrayBuffer host_le m = Ok w) ms ws ->
  sendable m -> toArrayBuffer host_le m = Ok w -> (0 < k < length w)%nat ->
  fromArrayBufferVector host_le now (concat ws ++ take k w) = Some (Throw RangeError).
Proof.
  intros Hs Hws Hm Hw Hk. pose proof (wires_length host_le ms ws Hs Hws) as Hlen.
  set (f := (length (concat ws ++ take k w) - length ms)%nat).
  destruct (vector_loop_prefix host_le now ms ws (take k w) Hs Hws [] [] (S f))
    as (ms' & Hp & _); [done|].
  assert (length (take k w) = k) as Hkw by (rewrite length_take; lia).
  unfold fromArrayBufferVector.
  replace (S (length (concat ws ++ take k w))) with (length ms + S f)%nat
    by (unfold f; rewrite length_app; lia).
  cbn [length app] in Hp. rewrite Hp. cbn [fromArrayBufferVector_loop].
  rewrite length_app, (proj2 (Nat.ltb_lt _ _)) by lia.
  unfold new_data_view. rewrite length_app, (proj2 (Nat.ltb_ge _ _)) by lia.
  cbn [mbind result_bind]. replace (length (concat ws) + _ - _)%nat with k by lia.
  by rewrite (truncated_rejected host_le now m w k) by (done || lia).
Qed.

Lemma truncated_vector_rejected_witness :
  exists w w', toArrayBuffer true (sample_msg 7 1 [num_1e3]) = Ok w /\
    toArrayBuffer true (sample_msg 9 2 [num_1e3; num_1e6]) = Ok w' /\
    fromArrayBufferVector true 0 (concat [w] ++ take 21 w') = Some (Throw RangeError).
Proof.
  eexists _, _. split; [by vm_compute|]. split; [by vm_compute|].
  apply (truncated_vector_rejected true 0 [sample_msg 7 1 [num_1e3]] _
    (sample_msg 9 2 [num_1e3; num_1e6]) _ 21).
  - repeat constructor. exists [num_1e3], 7. split_and!; try done; by vm_compute.
  - repeat constructor.
  - exists [num_1e3; num_1e6], 9. split_and!; try done; by vm_compute.
  - by vm_compute.
  - cbn. lia.
Defined.

(** The outcomes of [toArrayBuffer] for every message: a message without
    data is a TypeError, more values than the length field announces is a
    RangeError, and otherwise the result has exactly [Msg.bytes] bytes. *)
Theorem toArrayBuffer_outcome host_le m :
  match m_data m with
  | None => toArrayBuffer host_le m = Throw TypeError
  | Some data =>
      if (m_length m <? length data)%nat then toArrayBuffer host_le m = Throw RangeError
      else exists w, toArrayBuffer host_le m = Ok w /\ length w = bytes (m_length m)
  end.
Proof.
  rewrite toArrayBuffer_header. destruct (m_data m) as [data|]; [|done].
  unfold float32_array_set, f32_view_ok. rewrite length_sent.
  rewrite (proj2 (Nat.leb_le _ _)) by lia.
  change ((16 mod 4 =? 0)%nat && true) with true. cbv iota.
  destruct (Nat.ltb_spec (m_length m) (length data)); [done|].
  eexists. split; [done|].
  rewrite length_splice; rewrite length_sent; [done|]. rewrite length_f32_write. lia.
Qed.
