(* ===== verification/Utils.v ===== *)
(** [web/socket/utils.js]: the URL parameter of the page and unique ids. *)
From S2P Require Import Prelude JsNumber JsString.

(** ** [getParameterByName] *)

(** The leftmost match of the regular expression of the code (one of ? and &,
    the name, =, then the longest run without &) and its group, for a name without regular expression operators (the client asks
    for "node"). *)
Fixpoint match_parameter (name search : jstr) : option jstr :=
  match search with
  | [] => None
  | c :: rest =>
      if ((c =? 63) || (c =? 38)) && is_prefix (name ++ str "=") rest
      then Some (take_until 38 (drop (length name + 1) rest))
      else match_parameter name rest
  end.

Definition plus_to_space (s : jstr) : jstr := map (fun c => if c =? 43 then 32 else c) s.

(** [search] is [window.location.search]; the result is null ([None]) when the
    parameter is absent. *)
Definition getParameterByName (search name : jstr) : result (option jstr) :=
  match match_parameter name search with
  | None => Ok None
  | Some group => v ← decodeURIComponent (plus_to_space group); Ok (Some v)
  end.

(** ** [guid] *)

(** Four hexadecimal digits; [random] is what [Math.random()] returned. *)
Definition s4 (random : number) : jstr :=
  let n := num_floor (num_mul (num_add (num_of_Z 1) random) (num_of_Z 65536)) in
  drop 1 (int_to_string 16 (num_trunc n)).

(** The eight calls draw from the stream of random numbers in order. *)
Definition guid (random : nat -> number) : jstr :=
  s4 (random 0%nat) ++ s4 (random 1%nat) ++ str "-" ++ s4 (random 2%nat) ++ str "-" ++
  s4 (random 3%nat) ++ str "-" ++ s4 (random 4%nat) ++ str "-" ++
  s4 (random 5%nat) ++ s4 (random 6%nat) ++ s4 (random 7%nat).

(** ** Facts *)

(** A Number that [Math.random] can return: a multiple of 2^-53 in [0,1). *)
Definition random_value (r : number) : Prop :=
  exists j, 0 <= j < 2 ^ 53 /\ r = binary_normalize prec64 emax64 j (-53) false.

Lemma random_repr j :
  0 < j < 2 ^ 53 ->
  exists M E, binary_normalize prec64 emax64 j (-53) false = S754_finite false M E
    /\ Zpos (digits2_pos M) = 53 /\ -105 <= E <= -53 /\ Zpos M = j * 2 ^ (-53 - E).
Proof.
  intros Hj. destruct j as [|p|p]; [lia| |lia].
  pose proof (digits2_pos_spec p) as Hd.
  assert (Zpos (digits2_pos p) - 1 < 53) by (apply (Z.pow_lt_mono_r_iff 2); lia).
  set (E := Zpos (digits2_pos p) - 106).
  assert (0 < 2 ^ (-53 - E)) by (apply Z.pow_pos_nonneg; unfold E; lia).
  set (M := Z.to_pos (Zpos p * 2 ^ (-53 - E))).
  assert (Zpos M = Zpos p * 2 ^ (-53 - E)) as HM by (unfold M; rewrite Z2Pos.id; nia).
  assert (Zpos (digits2_pos M) = 53) as HdM.
  { rewrite (digits2_pos_mul_pow2 p M (-53 - E)) by (done || unfold E; lia). unfold E. lia. }
  exists M, E. clearbody M. split_and!; [|done|unfold E; lia|unfold E; lia|done].
  cbn [binary_normalize]. apply binary_round_exact.
  - apply bounded_spec. rewrite HdM. unfold fexp, emin, prec64, emax64, E. lia.
  - left. split; [unfold E; lia|done].
Qed.

(** 1 + random lies in [1,2], the upper bound included by rounding. *)
Lemma one_plus_random r :
  random_value r ->
  exists M k, num_add (num_of_Z 1) r = S754_finite false M (-52 + k)
    /\ Zpos (digits2_pos M) = 53 /\ 0 <= k <= 1 /\ 2 ^ 52 <= Zpos M * 2 ^ k <= 2 ^ 53.
Proof.
  intros (j & Hj & ->). destruct (Z.eq_dec j 0) as [->|Hj0].
  { exists (2 ^ 52)%positive, 0. split_and!; by vm_compute. }
  destruct (random_repr j ltac:(lia)) as (M & E & -> & Hd & HE & HM).
  change (num_of_Z 1) with (S754_finite false (2 ^ 52) (-52)).
  unfold num_add, SFadd. rewrite Z.min_r by lia. cbn [cond_Zopp].
  rewrite !shl_align_spec, Z.sub_diag by lia.
  replace (Zpos (2 ^ 52)) with (2 ^ 52) by done.
  rewrite <- Z.pow_add_r by lia. replace (52 + (-52 - E)) with (- E) by lia.
  assert (0 < 2 ^ (-53 - E)) by (apply Z.pow_pos_nonneg; lia).
  assert (2 ^ (- E) = 2 ^ 53 * 2 ^ (-53 - E)) as HpE
    by (rewrite <- Z.pow_add_r by lia; f_equal; lia).
  set (S := 2 ^ (- E) + Zpos M * 2 ^ 0).
  assert (2 ^ (- E) <= S < 2 * 2 ^ (- E)) as HS by (unfold S; nia).
  clearbody S. destruct S as [|q|q]; [lia| |lia].
  cbn [binary_normalize binary_round]. unfold binary_round.
  assert (Zpos (digits2_pos q) = 1 - E) as Hq.
  { apply digits2_pos_unique. replace (1 - E - 1) with (- E) by lia.
    replace (1 - E) with (Z.succ (- E)) by lia. rewrite Z.pow_succ_r by lia. done. }
  unfold shl_align. rewrite Hq.
  replace (fexp prec64 emax64 (1 - E + E) - E) with (-52 - E)
    by (unfold fexp, emin, prec64, emax64; lia).
  replace (match -52 - E with Zneg d => (Pos.iter xO q d, _) | _ => (q, E) end) with (q, E)
    by (destruct (-52 - E) eqn:?; [done..|lia]).
  destruct (binary_round_aux_near q E (Zpos q) 1 loc_Exact (-52 - E))
    as (M' & E' & k & -> & HdM' & Hk & -> & Hnear); [cbn; lia|lia..|].
  exists M', k. replace (E + (-52 - E) + k) with (-52 + k) by lia.
  rewrite Z.mul_1_l in Hnear.
  assert (2 ^ (- E) = 2 ^ 52 * 2 ^ (-52 - E)) as HpE2
    by (rewrite <- Z.pow_add_r by lia; f_equal; lia).
  assert (2 ^ 52 <= Zpos M' * 2 ^ k <= 2 ^ 53) as Hrange by nia.
  split_and!; try done; try lia.
  pose proof (digits2_pos_spec M') as HM'. rewrite HdM' in HM'.
  apply Z.le_ngt. intros Hk2.
  assert (2 ^ 2 <= 2 ^ k) by (apply Z.pow_le_mono_r; lia). nia.
Qed.

Lemma s4_value r :
  random_value r ->
  exists n, s4 r = drop 1 (int_to_string 16 n) /\ 16 ^ 4 <= n <= 2 * 16 ^ 4.
Proof.
  intros Hr. destruct (one_plus_random r Hr) as (M & k & Hadd & Hd & Hk & Hrange).
  unfold s4. rewrite Hadd. exists (Zpos M * 2 ^ k / 2 ^ 36). split.
  2: { split; [apply Z.div_le_lower_bound; lia|].
       apply Z.div_le_upper_bound; lia. }
  change (num_of_Z 65536) with (S754_finite false (2 ^ 52) (-36)).
  unfold num_mul, SFmul. cbn [xorb].
  rewrite (binary_round_aux_exact prec64 emax64 false _ M _ (-36 + k)).
  - cbn [num_floor]. rewrite (proj2 (Z.leb_gt _ _)) by lia. cbn [cond_Zopp].
    fold (num_of_Z (Zpos M / 2 ^ (- (-36 + k)))).
    assert (2 ^ 36 = 2 ^ (- (-36 + k)) * 2 ^ k) as Hp
      by (rewrite <- Z.pow_add_r by lia; f_equal; lia).
    rewrite Hp, Z.div_mul_cancel_r by (apply Z.pow_nonzero; lia).
    rewrite num_trunc_Z; [done|].
    pose proof (digits2_pos_spec M) as HM. rewrite Hd in HM.
    unfold safe. rewrite Z.abs_eq by (apply Z.div_pos; [lia|apply Z.pow_pos_nonneg; lia]).
    apply Z.le_lt_trans with (Zpos M); [|lia].
    apply Z.div_le_upper_bound; [apply Z.pow_pos_nonneg; lia|].
    assert (0 < 2 ^ (- (-36 + k))) by (apply Z.pow_pos_nonneg; lia). nia.
  - apply bounded_spec. rewrite Hd. unfold fexp, emin, prec64, emax64. lia.
  - lia.
  - rewrite Pos2Z.inj_mul. replace (-36 + k - _) with 52 by lia. done.
Qed.

Lemma s4_format r :
  random_value r -> length (s4 r) = 4%nat /\ Forall (fun c => is_Some (digit_value c)) (s4 r).
Proof.
  intros Hr. destruct (s4_value r Hr) as (n & -> & Hn).
  unfold int_to_string. replace (n <? 0) with false by lia. rewrite Z.abs_eq by lia.
  split; [|apply Forall_drop, digits_are_digits; lia].
  rewrite length_drop, (length_digits _ 16 n 4); [done|lia|lia|].
  assert (Z.log2 (16 ^ 4) <= Z.log2 n) by (apply Z.log2_le_mono; lia).
  change (Z.log2 (16 ^ 4)) with 16 in *. lia.
Qed.

Lemma match_parameter_first name v tail :
  Forall (fun c => c <> 38) v -> tail = [] \/ (exists t, tail = 38 :: t) ->
  match_parameter name (str "?" ++ name ++ str "=" ++ v ++ tail) = Some v.
Proof.
  intros Hv Htail. change (str "?" ++ ?l) with (63 :: l). cbn [match_parameter].
  change ((63 =? 63) || (63 =? 38)) with true.
  rewrite app_assoc, is_prefix_app, drop_app_length' by (rewrite length_app; done).
  cbn [andb]. f_equal. destruct Htail as [->|[t ->]].
  - rewrite app_nil_r. by apply take_until_all.
  - by apply take_until_app.
Qed.

Lemma plus_to_space_id s : Forall (fun c => c <> 43) s -> plus_to_space s = s.
Proof.
  induction 1 as [|c s Hc _ IH]; cbn; [done|].
  rewrite (proj2 (Z.eqb_neq _ _)) by done. by f_equal.
Qed.

(** ** Properties *)

(** A percent-encoded parameter of the page address, whatever Unicode text
    it stands for and whatever parameters follow, is returned as the UTF-16
    string of that text. *)
Theorem getParameterByName_encoded name cps tail :
  Forall scalar cps -> tail = [] \/ (exists t, tail = 38 :: t) ->
  getParameterByName (str "?" ++ name ++ str "=" ++ percent_encode cps ++ tail) name
  = Ok (Some (concat (map utf16_encode cps))).
Proof.
  intros Hs Htail. pose proof (percent_encode_safe cps Hs) as Hsafe.
  unfold getParameterByName. rewrite match_parameter_first; [|eapply Forall_impl; [done|]; by intros ? []|done].
  rewrite plus_to_space_id by (eapply Forall_impl; [done|]; by intros ? []).
  by rewrite decode_percent_encode.
Qed.

Lemma getParameterByName_encoded_witness :
  getParameterByName (str "?node=%c3%bc%f0%9f%98%80&x=1") (str "node")
  = Ok (Some [252; 55357; 56832]).
Proof.
  apply (getParameterByName_encoded (str "node") [252; 128512] (str "&x=1")).
  - apply (bool_decide_unpack (Forall scalar [252; 128512])). by vm_compute.
  - right. by eexists.
Defined.

(** Whatever values [Math.random] returns, 1 - 2^-53 included, [guid] has
    the 36 characters of a UUID: groups of 8, 4, 4, 4 and 12 hexadecimal
    digits separated by dashes. *)
Theorem guid_format random :
  (forall i, random_value (random i)) ->
  exists g1 g2 g3 g4 g5,
    guid random = g1 ++ str "-" ++ g2 ++ str "-" ++ g3 ++ str "-" ++ g4 ++ str "-" ++ g5 /\
    length g1 = 8%nat /\ length g2 = 4%nat /\ length g3 = 4%nat /\ length g4 = 4%nat /\
    length g5 = 12%nat /\
    Forall (fun c => is_Some (digit_value c)) (g1 ++ g2 ++ g3 ++ g4 ++ g5).
Proof.
  intros Hr. unfold guid.
  exists (s4 (random 0%nat) ++ s4 (random 1%nat)), (s4 (random 2%nat)), (s4 (random 3%nat)),
    (s4 (random 4%nat)), (s4 (random 5%nat) ++ s4 (random 6%nat) ++ s4 (random 7%nat)).
  split; [by rewrite <- !app_assoc|].
  rewrite !length_app, !Forall_app.
  repeat match goal with |- context [s4 (random ?i)] =>
    let H1 := fresh in let H2 := fresh in
    destruct (s4_format (random i) (Hr i)) as [H1 H2]; revert H1 H2;
    generalize (s4 (random i)); intros ? ?H1 ?H2 end.
  by split_and!; try lia.
Qed.

(** A stream of eight extreme values, repeated. *)
Definition extreme_random (i : nat) : number :=
  binary_normalize prec64 emax64 (2 ^ 53 - 1 - Z.of_nat (i mod 8)) (-53) false.

Lemma guid_format_witness :
  exists g1 g2 g3 g4 g5,
    guid extreme_random = g1 ++ str "-" ++ g2 ++ str "-" ++ g3 ++ str "-" ++ g4 ++ str "-" ++ g5 /\
    length g1 = 8%nat /\ length g2 = 4%nat /\ length g3 = 4%nat /\ length g4 = 4%nat /\
    length g5 = 12%nat /\
    Forall (fun c => is_Some (digit_value c)) (g1 ++ g2 ++ g3 ++ g4 ++ g5).
Proof.
  apply (guid_format extreme_random). intros i.
  pose proof (Nat.mod_upper_bound i 8 ltac:(lia)).
  eexists. split; [|done]. lia.
Defined.

#[global] Arguments guid : simpl never.
#[global] Arguments getParameterByName : simpl never.
