(* ===== verification/Browser.v ===== *)
(** The browser objects the client works with: WebSockets, timers and the page
    address.  Sockets and timers are shared objects with identity, so they
    live in a store and are referred to by index. *)
From S2P Require Import Prelude JsNumber JsString.

Inductive ready_state := CONNECTING | OPEN | CLOSING | CLOSED.

#[export] Instance ready_state_eq_dec : EqDecision ready_state.
Proof. solve_decision. Defined.

Inductive frame := Text (s : jstr) | Binary (b : list Z).

Record socket := {
  sock_url : jstr;
  sock_protocol : jstr;
  sock_state : ready_state;
  sock_sent : list frame;        (* frames handed to the network, oldest first *)
}.

(** [window.location] *)
Record location := {
  loc_protocol : jstr;
  loc_hostname : jstr;
  loc_port : jstr;
  loc_search : jstr;
}.

Definition set_state (st : ready_state) (s : socket) : socket :=
  {| sock_url := sock_url s; sock_protocol := sock_protocol s; sock_state := st;
     sock_sent := sock_sent s |}.

Definition add_sent (f : frame) (s : socket) : socket :=
  {| sock_url := sock_url s; sock_protocol := sock_protocol s; sock_state := sock_state s;
     sock_sent := sock_sent s ++ [f] |}.

(** [new WebSocket(url, protocol)]: the store with the new socket last. *)
Definition ws_new (url protocol : jstr) (store : list socket) : nat * list socket :=
  (length store, store ++ [{| sock_url := url; sock_protocol := protocol;
                              sock_state := CONNECTING; sock_sent := [] |}]).

(** [send]: an exception while connecting, silently dropped once closing. *)
Definition ws_send (i : nat) (f : frame) (store : list socket) : result (list socket) :=
  match store !! i with
  | None => Throw TypeError
  | Some s =>
      match sock_state s with
      | CONNECTING => Throw (UserError "InvalidStateError")
      | OPEN => Ok (<[i := add_sent f s]> store)
      | CLOSING | CLOSED => Ok store
      end
  end.

(** [close] *)
Definition ws_close (i : nat) (store : list socket) : list socket :=
  alter (fun s => match sock_state s with
                  | CONNECTING | OPEN => set_state CLOSING s
                  | CLOSING | CLOSED => s
                  end) i store.

Definition state_of (i : nat) (store : list socket) : option ready_state := sock_state <$> store !! i.

(** ** The socket's life cycle

    The network moves a socket; a closed socket never changes again. *)

Definition advances (s t : ready_state) : Prop :=
  match s, t with
  | CONNECTING, _ => True
  | OPEN, (OPEN | CLOSING | CLOSED) => True
  | CLOSING, (CLOSING | CLOSED) => True
  | CLOSED, CLOSED => True
  | _, _ => False
  end.

#[export] Instance advances_preorder : PreOrder advances.
Proof. split; [by intros []|]. by intros [] [] []. Qed.

(** [le_store s1 s2]: every socket of [s1] is still there in [s2], under its
    index, with its address, no earlier in its life cycle and with no frame
    taken back. *)
Definition le_store (s1 s2 : list socket) : Prop :=
  forall i a, s1 !! i = Some a ->
  exists b, s2 !! i = Some b /\ sock_url b = sock_url a /\ sock_protocol b = sock_protocol a
    /\ advances (sock_state a) (sock_state b) /\ sock_sent a `prefix_of` sock_sent b.

#[export] Instance le_store_preorder : PreOrder le_store.
Proof.
  split.
  - intros s i a Ha. exists a. split_and!; by try reflexivity.
  - intros s1 s2 s3 H12 H23 i a Ha.
    destruct (H12 i a Ha) as (b & Hb & Hu & Hp & Hs & Hf).
    destruct (H23 i b Hb) as (c & Hc & Hu' & Hp' & Hs' & Hf').
    exists c. split_and!; [done|congruence|congruence| |]; by etrans.
Qed.

Lemma le_store_new url protocol store : le_store store (snd (ws_new url protocol store)).
Proof.
  intros i a Ha. cbn. exists a. split_and!; try reflexivity.
  by apply lookup_app_l_Some.
Qed.

(** An update of one socket that keeps its address, advances its state and
    appends frames. *)
Lemma le_store_alter (f : socket -> socket) i store :
  (forall s, sock_url (f s) = sock_url s /\ sock_protocol (f s) = sock_protocol s /\
    advances (sock_state s) (sock_state (f s)) /\ sock_sent s `prefix_of` sock_sent (f s)) ->
  le_store store (alter f i store).
Proof.
  intros Hf j a Ha. destruct (decide (i = j)) as [->|Hij].
  - exists (f a). rewrite list_lookup_alter_eq, Ha. destruct (Hf a) as (?&?&?&?). by split_and!.
  - exists a. rewrite list_lookup_alter_ne by done. by split_and!; try reflexivity.
Qed.

Lemma le_store_close i store : le_store store (ws_close i store).
Proof.
  apply le_store_alter. intros s.
  destruct (sock_state s) eqn:Hs; cbn; rewrite ?Hs; by split_and!.
Qed.

Lemma ws_send_alter i f store store' :
  ws_send i f store = Ok store' -> store' = store \/ store' = alter (add_sent f) i store.
Proof.
  unfold ws_send. destruct (store !! i) as [s|] eqn:Hs; [|done].
  destruct (sock_state s); [done|..]; intros <-%Ok_inj; [right|by left..].
  apply list_eq. intros j. destruct (decide (i = j)) as [->|Hij].
  - rewrite list_lookup_alter_eq, Hs, list_lookup_insert_eq; [done|]. by eapply lookup_lt_Some.
  - by rewrite list_lookup_alter_ne, list_lookup_insert_ne.
Qed.

Lemma le_store_send i f store store' : ws_send i f store = Ok store' -> le_store store store'.
Proof.
  intros [->| ->]%ws_send_alter; [done|]. apply le_store_alter. intros s.
  split_and!; try done. apply prefix_app_r. reflexivity.
Qed.

#[global] Arguments ws_send : simpl never.
#[global] Arguments ws_close : simpl never.
