(* ===== verification/Api.v ===== *)
(** [web/socket/api.js]: remote procedure calls over a WebSocket.  A response
    is routed by the id of its request to the handler stored under that id. *)
From S2P Require Import Prelude JsNumber JsString Json Objects Utils Browser.

(** An [Api] object whose handlers are named by [H]. *)
Record api (H : Type) := {
  api_version : jstr;
  api_ids : gmap jstr H;        (* the own properties of this.ids *)
  api_connection : nat;         (* this.connection *)
  api_has_error : bool;         (* whether the third argument was given *)
}.
Arguments api_version {H}. Arguments api_ids {H}.
Arguments api_connection {H}. Arguments api_has_error {H}.

Definition set_ids {H} (ids : gmap jstr H) (a : api H) : api H :=
  {| api_version := api_version a; api_ids := ids;
     api_connection := api_connection a; api_has_error := api_has_error a |}.

(** What the API object needs from the page that owns it: where it is stored,
    the sockets, and how a handler runs.  The page owes the laws of
    two independent fields; running
    a handler is arbitrary code. *)
Class ApiHost (H St : Type) := {
  host_api : St -> option (api H);
  host_set_api : option (api H) -> St -> St;
  host_sockets : St -> list socket;
  host_set_sockets : list socket -> St -> St;
  host_run : H -> option json -> eff St unit;
  host_get_set : forall a s, host_api (host_set_api a s) = a;
  host_get_sockets : forall l s, host_api (host_set_sockets l s) = host_api s;
  host_sockets_api : forall a s, host_sockets (host_set_api a s) = host_sockets s;
  host_sockets_set : forall l s, host_sockets (host_set_sockets l s) = l;
}.

(** A property of a value: reading it from null or undefined throws; other
    values that are not objects have none. *)
Definition get_property (k : string) (v : option json) : result (option json) :=
  match v with
  | None | Some JNull => Throw TypeError
  | Some (JObj l) => Ok (property (str k) l)
  | Some _ => Ok None
  end.

Section Api.
Context {H St : Type} `{!ApiHost H St}.

(** [function Api(v, connected, error)]; [url] is [wsUrl('v1')]. *)
Definition Api (v url : jstr) (has_error : bool) : eff St unit :=
  s ← get;
  let '(i, socks) := ws_new url (str "api") (host_sockets s) in
  modify (host_set_sockets socks) ;;
  modify (host_set_api (Some {| api_version := v; api_ids := ∅;
                                api_connection := i; api_has_error := has_error |})).

(** [this.connection.onerror] *)
Definition api_onerror (a : api H) (error : eff St unit) : eff St unit :=
  if api_has_error a then error else throw TypeError.

Definition with_api (f : api H -> eff St unit) : eff St unit :=
  s ← get; match host_api s with Some a => f a | None => throw TypeError end.

(** [this.connection.onmessage].  The table is a plain object: an id that is the
    name of a member of [Object.prototype] finds that member, which is called like
    a handler.  The entry is deleted after the handler has returned, from the
    table as the handler left it. *)
Definition api_onmessage (data : jstr) : eff St unit :=
  resp ← lift (parse data);
  id ← lift (get_property "id" (Some resp));
  with_api (fun a =>
    key ← lift (key_of id);
    match api_ids a !! key with
    | Some handler =>
        response ← lift (get_property "response" (Some resp));
        host_run handler response ;;
        with_api (fun a => modify (host_set_api (Some (set_ids (delete key (api_ids a)) a))))
    | None =>
        match inherited key with
        | Some b => response ← lift (get_property "response" (Some resp)); lift (call_builtin b response)
        | None => mret tt
        end
    end).

(** The request object; [stringify] is total on it because it holds no
    numbers of its own. *)
Definition request_object (action : jstr) (request : json) (id : jstr) : json :=
  JObj [(str "action", JStr action); (str "request", request); (str "id", JStr id)].

(** [Api.prototype.request] *)
Definition api_request (action : jstr) (request : json) (handler : H) (random : nat -> number) :
    eff St unit :=
  let id := guid random in
  with_api (fun a =>
    modify (host_set_api (Some (set_ids (<[id := handler]> (api_ids a)) a))) ;;
    match stringify 0 (request_object action request id) with
    | Some text =>
        s ← get;
        socks ← lift (ws_send (api_connection a) (Text text) (host_sockets s));
        modify (host_set_sockets socks)
    | None => throw TypeError
    end).

(** [Api.prototype.close] *)
Definition api_close : eff St unit :=
  with_api (fun a => modify (fun s => host_set_sockets (ws_close (api_connection a) (host_sockets s)) s)).
End Api.
