(* ===== verification/ApiProps.v ===== *)
(** What the remote API promises the page: a request goes out as the text the
    server can read back, and a response reaches the handler of its request,
    once. *)
From S2P Require Import Prelude JsNumber JsString Json JsonRoundtrip Objects Utils Browser Api.

Lemma digit_code_unit c : is_Some (digit_value c) -> code_unit c = true.
Proof.
  unfold digit_value, code_unit. intros [d Hd].
  repeat case_match; try done; lia.
Qed.

Lemma digits_code_units s :
  Forall (fun c => is_Some (digit_value c)) s -> forallb code_unit s = true.
Proof.
  intros Hs. apply forallb_forall. intros c Hc. apply digit_code_unit.
  rewrite Forall_forall in Hs. apply Hs. by apply list_elem_of_In.
Qed.

Lemma guid_code_units random :
  (forall i, random_value (random i)) -> forallb code_unit (guid random) = true.
Proof.
  intros Hr. unfold guid. rewrite !forallb_app.
  rewrite !(fun i => digits_code_units _ (proj2 (s4_format (random i) (Hr i)))). done.
Qed.

Lemma request_object_plain action request id :
  forallb code_unit action = true -> plain request = true -> forallb code_unit id = true ->
  plain (request_object action request id) = true.
Proof.
  intros Ha Hr Hi. cbn [request_object plain forallb].
  rewrite Ha, Hr, Hi. by vm_compute.
Qed.

Lemma request_object_printed action request id :
  stringify 0 request <> None -> exists text, stringify 0 (request_object action request id) = Some text.
Proof.
  unfold stringify. destruct (serialize 0 0 request) as [s|] eqn:Hs; [|done]. intros _.
  cbn [request_object serialize map all_some Nat.add mbind option_bind]. rewrite Hs. by eexists.
Qed.

Section Laws.
Context {H St : Type} `{!ApiHost H St}.

(** C6. Over an open connection [request] registers the handler under a fresh
    id and sends exactly one text frame, which the server's JSON parser reads as
    the action, the request and that id. *)
Theorem request_reaches_server action request (handler : H) random s a sock :
  (forall i, random_value (random i)) ->
  forallb code_unit action = true -> plain request = true -> stringify 0 request <> None ->
  host_api s = Some a -> host_sockets s !! api_connection a = Some sock -> sock_state sock = OPEN ->
  exists s' text,
    api_request action request handler random s = (Ok tt, s') /\
    parse text = Ok (request_object action request (guid random)) /\
    host_sockets s' = <[api_connection a := add_sent (Text text) sock]> (host_sockets s) /\
    host_api s' = Some (set_ids (<[guid random := handler]> (api_ids a)) a).
Proof.
  intros Hr Ha Hp Hs Hapi Hsock Hopen.
  destruct (request_object_printed action request (guid random) Hs) as [text Htext].
  unfold api_request, with_api. erewrite eff_bind_ok by done. rewrite Hapi. cbv beta.
  erewrite eff_bind_ok by done. rewrite Htext. erewrite eff_bind_ok by done. cbv beta.
  erewrite eff_bind_ok.
  2: { unfold lift. rewrite host_sockets_api. unfold ws_send. by rewrite Hsock, Hopen. }
  do 2 eexists. split; [done|]. split.
  { eapply parse_printed; [|exact Htext]. apply request_object_plain; auto using guid_code_units. }
  by rewrite host_sockets_set, host_get_sockets, host_get_set.
Qed.

Definition response_of (l : list (jstr * json)) : option json := property (str "response") l.

(** C5. A response is routed by the text of its id, whatever JSON value the id is.
    If a request is pending under this text, its handler runs, once, on the
    response carried: afterwards the id is no longer pending; an exception in the
    handler is passed on.  If none is pending nothing changes: a text that is not
    the name of a member of [Object.prototype] is ignored without an exception,
    and for such a name the member is called, which may throw.  An id that cannot
    be converted to a text throws a TypeError. *)
Theorem response_routed data l s a :
  parse data = Ok (JObj l) -> host_api s = Some a ->
  match key_of (property (str "id") l) with
  | Throw e => api_onmessage data s = (Throw e, s)
  | Ok k =>
      match api_ids a !! k with
      | None => api_onmessage data s =
          (match inherited k with Some b => call_builtin b (response_of l) | None => Ok tt end, s)
      | Some handler =>
          match host_run handler (response_of l) s with
          | (Throw e, s') => api_onmessage data s = (Throw e, s')
          | (Ok _, s') =>
              forall a', host_api s' = Some a' ->
              exists s'', api_onmessage data s = (Ok tt, s'') /\
                host_api s'' = Some (set_ids (delete k (api_ids a')) a') /\
                snd (api_onmessage data s'') = s''
          end
      end
  end.
Proof.
  intros Hparse Hapi.
  assert (forall t a, host_api t = Some a -> api_onmessage data t =
    (key ← lift (key_of (property (str "id") l));
     match api_ids a !! key with
     | Some handler => host_run handler (response_of l) ;; with_api (fun a => modify (host_set_api (Some (set_ids (delete key (api_ids a)) a))))
     | None => match inherited key with Some b => lift (call_builtin b (response_of l)) | None => mret tt end
     end) t) as Hrun.
  { intros t a0 Ha0. unfold api_onmessage. erewrite eff_bind_ok by (unfold lift; by rewrite Hparse).
    cbn [get_property]. erewrite eff_bind_ok by done. unfold with_api at 1. erewrite eff_bind_ok by done. by rewrite Ha0. }
  rewrite (Hrun s a Hapi). destruct (key_of (property (str "id") l)) as [k|e]; [|by apply eff_bind_throw].
  erewrite eff_bind_ok by done. destruct (api_ids a !! k) as [handler|] eqn:Hk; [|by destruct (inherited k)].
  destruct (host_run handler (response_of l) s) as [[[]|e] s'] eqn:Hh; [|by apply eff_bind_throw].
  intros a' Ha'. erewrite eff_bind_ok by done. unfold with_api. erewrite eff_bind_ok by done.
  rewrite Ha'. eexists. split; [done|]. rewrite host_get_set. split; [done|].
  rewrite (Hrun _ _ (host_get_set _ _)). erewrite eff_bind_ok by done. cbn [api_ids set_ids].
  rewrite lookup_delete_eq. by destruct (inherited k).
Qed.
End Laws.

(** ** A page that does nothing but use the API *)

Record page_state := { ps_api : option (api nat); ps_sockets : list socket; ps_log : list nat }.

#[export] Instance page_host : ApiHost nat page_state := {|
  host_api := ps_api;
  host_set_api a s := {| ps_api := a; ps_sockets := ps_sockets s; ps_log := ps_log s |};
  host_sockets := ps_sockets;
  host_set_sockets l s := {| ps_api := ps_api s; ps_sockets := l; ps_log := ps_log s |};
  host_run h _ := modify (fun s =>
    {| ps_api := ps_api s; ps_sockets := ps_sockets s; ps_log := ps_log s ++ [h] |});
  host_get_set _ _ := eq_refl; host_get_sockets _ _ := eq_refl;
  host_sockets_api _ _ := eq_refl; host_sockets_set _ _ := eq_refl |}.

Definition demo_api (ids : gmap jstr nat) : api nat :=
  {| api_version := str "v1"; api_ids := ids; api_connection := 0; api_has_error := false |}.
Definition demo_page_state (ids : gmap jstr nat) : page_state :=
  {| ps_api := Some (demo_api ids); ps_log := [];
     ps_sockets := [{| sock_url := str "ws://h/v1"; sock_protocol := str "api"; sock_state := OPEN;
                       sock_sent := [] |}] |}.

Lemma request_reaches_server_witness :
  exists s' text,
    api_request (str "nodes") (JObj []) 7%nat extreme_random (demo_page_state ∅) = (Ok tt, s') /\
    parse text = Ok (request_object (str "nodes") (JObj []) (guid extreme_random)) /\
    option_map (fun k => sock_sent k) (ps_sockets s' !! 0%nat) = Some [Text text].
Proof.
  destruct (request_reaches_server (str "nodes") (JObj []) 7%nat extreme_random (demo_page_state ∅)
    (demo_api ∅) {| sock_url := str "ws://h/v1"; sock_protocol := str "api"; sock_state := OPEN;
                    sock_sent := [] |}) as (s' & text & H1 & H2 & H3 & _); [|done..|].
  - intros i. pose proof (Nat.mod_upper_bound i 8 ltac:(lia)). eexists. split; [|done]. lia.
  - exists s', text. split_and!; [done|done|]. change (ps_sockets s') with (host_sockets s').
    by rewrite H3.
Defined.

Definition demo_response : jstr := [123;34;105;100;34;58;34;120;34;125].

Lemma response_routed_witness :
  exists s'', api_onmessage demo_response (demo_page_state {[ str "x" := 7%nat ]}) = (Ok tt, s'') /\
    ps_log s'' = [7%nat] /\ snd (api_onmessage demo_response s'') = s''.
Proof.
  pose proof (response_routed demo_response [(str "id", JStr (str "x"))]
    (demo_page_state {[ str "x" := 7%nat ]}) (demo_api {[ str "x" := 7%nat ]})
    ltac:(vm_compute; reflexivity) eq_refl) as Hr.
  destruct (Hr (demo_api {[ str "x" := 7%nat ]}) eq_refl) as (s'' & H1 & H2 & H3).
  exists s''. split; [exact H1|]. split; [|exact H3].
  change s'' with (snd (Ok tt, s'')). rewrite <- H1. by vm_compute.
Defined.

(** A response whose id is the name of an inherited method throws. *)
Example inherited_id_throws :
  exists data, parse data = Ok (JObj [(str "id", JStr (str "valueOf"))]) /\
    api_onmessage data (demo_page_state ∅) = (Throw TypeError, demo_page_state ∅).
Proof. exists ([123;34;105;100;34;58;34] ++ str "valueOf" ++ [34;125]). split; by vm_compute. Qed.
