(* ===== verification/App.v ===== *)
(** [web/socket/app.js]: the web client.  Every function and event handler of
    the file is an operation on the record of its global variables and of the
    page it runs in. *)
From Stdlib Require Import String.
From S2P Require Import Prelude JsNumber JsBuffer JsString Json Msg Utils Browser Api.

(** ** State *)

Abbreviation point := (number * number)%type.

(** What [updatePlot] hands to the plotting library. *)
Record plot_call := {
  plot_series : list (list point * json);    (* data and label of each series *)
  plot_min : number;
  plot_max : number;
  plot_marking : number;
  plot_mode : jstr;
}.

Record button := { btn_text : json; btn_active : bool; btn_link : jstr }.

(** The response handlers the client registers: there is one. *)
Inductive handler := HNodes.

Record app := {
  (* global variables *)
  g_api : option (api handler);
  connection : option nat;
  timer : option nat;
  nodes : option json;
  currentNode : option json;
  paused : bool;
  sequence : Z;
  plotData : list (list point);
  updateRate : number;
  redrawPlot : bool;
  xDelta : number;
  xPast : number;
  xFuture : number;
  (* the page *)
  plot : option plot_call;
  plot_handlers : nat;                  (* plotselected handlers bound so far *)
  status : jstr;
  status_color : jstr;
  selector : list button;
  sockets : list socket;
  intervals : gmap nat number;          (* running intervals and their periods *)
  next_timer : nat;
  reconnects : nat;                     (* pending reconnect timeouts *)
}.

(** The environment of one event: the clock, the random numbers, the address. *)
Record env := {
  now : Z;
  random : nat -> number;
  page : location;
}.

(** The Number literals of the file. *)
Definition num_09 : number := num_div (num_of_Z 9) (num_of_Z 10).
Definition num_01 : number := num_div (num_of_Z 1) (num_of_Z 10).

Definition initial : app := {|
  g_api := None; connection := None; timer := None; nodes := Some (JArr []);
  currentNode := None; paused := false; sequence := 0; plotData := [];
  updateRate := num_of_Z 25; redrawPlot := true;
  xDelta := num_of_Z 5000; xPast := num_mul (num_of_Z 5000) num_09;
  xFuture := num_mul (num_of_Z 5000) num_01;
  plot := None; plot_handlers := 0; status := []; status_color := []; selector := [];
  sockets := []; intervals := ∅; next_timer := 0; reconnects := 0 |}.

#[export] Instance eta_app : Eta app := fun s => {|
  g_api := g_api s; connection := connection s; timer := timer s; nodes := nodes s;
  currentNode := currentNode s; paused := paused s; sequence := sequence s;
  plotData := plotData s; updateRate := updateRate s; redrawPlot := redrawPlot s;
  xDelta := xDelta s; xPast := xPast s; xFuture := xFuture s; plot := plot s;
  plot_handlers := plot_handlers s; status := status s; status_color := status_color s;
  selector := selector s; sockets := sockets s; intervals := intervals s;
  next_timer := next_timer s; reconnects := reconnects s |}.

Example set_get s v : nodes (s <| connection := v |>) = nodes s.
Proof. reflexivity. Qed.

(** ** Helpers *)

(** The text of a property that the REST interface documents as a string. *)
Definition text_of (v : option json) : jstr :=
  match v with
  | Some (JStr s) => s
  | Some JNull => str "null"
  | Some (JBool b) => if b then str "true" else str "false"
  | Some (JNum x) => default [] (num_to_string x)
  | Some _ => []
  | None => str "undefined"
  end.

(** [v == s] for a property and a string or null. *)
Definition loose_eqb (v : option json) (s : option jstr) : bool :=
  match v, s with
  | Some (JStr a), Some b => bool_decide (a = b)
  | (None | Some JNull), None => true
  | _, _ => false
  end.

Definition is_websocket (node : json) : result bool :=
  type ← get_property "type" (Some node);
  Ok (loose_eqb type (Some (str "websocket"))).

(** [wsUrl] *)
Definition wsUrl (l : location) (endpoint : jstr) : jstr :=
  let url :=
    if bool_decide (loc_protocol l = str "file:") then str "ws://localhost"
    else (if bool_decide (loc_protocol l = str "https:") then str "wss://" else str "ws://")
         ++ loc_hostname l in
  let port := digits_value 10 0 (loc_port l) in
  let url :=
    if negb (bool_decide (loc_port l = [])) &&
       negb (bool_decide (port = Some 80)) && negb (bool_decide (port = Some 443))
    then url ++ str ":" ++ loc_port l else url in
  url ++ str "/" ++ endpoint.

(** [updatePlotWindow] *)
Definition updatePlotWindow (delta : number) : eff app unit :=
  modify (fun s => s <| xDelta := delta |>) ;;
  modify (fun s => s <| xPast := num_mul (xDelta s) num_09 |>) ;;
  modify (fun s => s <| xFuture := num_mul (xDelta s) num_01 |>).

(** ** Connections *)

(** [wsConnect]: the handlers of the new socket are the operations below,
    dispatched by the socket's index. *)
Definition wsConnect (e : env) (node : option json) : eff app nat :=
  name ← lift (get_property "name" node);
  s ← get;
  let '(i, socks) := ws_new (wsUrl (page e) (text_of name)) (str "live") (sockets s) in
  modify (fun s => s <| sockets := socks |>) ;;
  mret i.

Definition conn_onopen : eff app unit :=
  modify (fun s => s <| status := str "Connected" |> <| status_color := str "green" |>).

Definition conn_onclose (reason : jstr) : eff app unit :=
  modify (fun s =>
    s <| status := str "Disconnected" ++
           (if bool_decide (reason = []) then [] else str " (" ++ reason ++ str ")") |>
      <| status_color := str "red" |>) ;;
  modify (fun s => s <| reconnects := S (reconnects s) |>).

(** The callback of the timeout set by [conn_onclose]: the new connection is
    not assigned to the global variable. *)
Definition reconnect (e : env) : eff app unit :=
  s ← get; wsConnect e (currentNode s) ;; mret tt.

Definition conn_onerror (message : jstr) : eff app unit :=
  modify (fun s => s <| status := str "Status: Error: " ++ message |>).

(** The [while] loop that removes the points of one series that lie before the
    plotted window. *)
Fixpoint remove_old (limit : number) (series : list point) : list point :=
  match series with
  | p :: rest => if num_ltb (fst p) limit then remove_old limit rest else series
  | [] => []
  end.

(** [while (plotData.length < n) plotData.push([])] *)
Definition grow (n : nat) (data : list (list point)) : list (list point) :=
  data ++ replicate (n - length data) [].

(** The body of the loop over the received messages. *)
Definition add_message (data : list (list point)) (m : msg) : list (list point) :=
  let values := default [] (m_data m) in
  imap (fun i series =>
    if (i <? m_length m)%nat
    then series ++ [(m_timestamp m, default S754_nan (values !! i))] else series)
    (grow (m_length m) data).

Definition conn_onmessage (host_le : bool) (e : env) (data : list Z) : eff app unit :=
  match fromArrayBufferVector host_le (now e) data with
  | None | Some (Throw _) => throw RangeError
  | Some (Ok msgs) =>
      modify (fun s =>
        let limit := num_sub (num_of_Z (now e)) (xPast s) in
        s <| plotData := map (remove_old limit) (plotData s) |>) ;;
      modify (fun s => s <| plotData := fold_left add_message msgs (plotData s) |>) ;;
      modify (fun s => s <| redrawPlot := true |>)
  end.

(** ** Sending *)

(** [x << i] on an integer: the shift count modulo 32, the result as Int32. *)
Definition shift_left (x : Z) (i : nat) : Z :=
  let u := Z.shiftl x (Z.of_nat i mod 32) mod 2 ^ 32 in
  if u <? 2 ^ 31 then u else u - 2 ^ 32.

(** The loop over the checkboxes. *)
Fixpoint checkbox_sum (i : nat) (acc : number) (boxes : list bool) : number :=
  match boxes with
  | [] => acc
  | b :: boxes =>
      checkbox_sum (S i) (num_add acc (num_of_Z (shift_left (if b then 1 else 0) i))) boxes
  end.

(** [connection.send], a TypeError while [connection] is undefined. *)
Definition connection_send (f : frame) : eff app unit :=
  s ← get;
  match connection s with
  | None => throw TypeError
  | Some i => socks ← lift (ws_send i f (sockets s)); modify (fun s => s <| sockets := socks |>)
  end.

(** [sendData]; [slider] is the value the slider widget returns and [boxes]
    are the checked states. *)
Definition sendData (host_le : bool) (e : env) (slider : number) (boxes : list bool) : eff app unit :=
  let data := [num_div slider (num_of_Z 100); checkbox_sum 0 (num_of_Z 0) boxes] in
  s ← get;
  modify (fun s => s <| sequence := sequence s + 1 |>) ;;
  m ← lift (Msg (now e) (Some {|
    c_sequence := Some (sequence s); c_length := None; c_version := None; c_type := None;
    c_id := None; c_timestamp := Some (num_of_Z (now e)); c_data := Some data |}));
  w ← lift (toArrayBuffer host_le m);
  connection_send (Binary w).

(** ** Node list *)

Definition truthy (v : option json) : bool :=
  match v with
  | None | Some JNull => false
  | Some (JBool b) => b
  | Some (JNum x) => negb (num_eqb x (num_of_Z 0)) && num_eqb x x
  | Some (JStr s) => negb (bool_decide (s = []))
  | Some _ => true
  end.

(** [a == b] for two properties documented as strings. *)
Definition same_name (a b : option json) : bool :=
  match a, b with
  | Some (JStr a), Some (JStr b) => bool_decide (a = b)
  | (None | Some JNull), (None | Some JNull) => true
  | _, _ => false
  end.

(** The elements [nodes.forEach] visits; other values have no such method. *)
Definition array_elements (v : option json) : result (list json) :=
  match v with Some (JArr l) => Ok l | _ => Throw TypeError end.

(** The body of the loop in [updateNodeList]. *)
Definition add_button (node : json) : eff app unit :=
  ws ← lift (is_websocket node);
  if (ws : bool) then
    s ← get;
    name ← lift (get_property "name" (Some node));
    current ← lift (get_property "name" (currentNode s));
    description ← lift (get_property "description" (Some node));
    let b := {| btn_text := default JNull (if truthy description then description else name);
                btn_active := same_name name current;
                btn_link := str "?node=" ++ text_of name |} in
    modify (fun s => s <| selector := selector s ++ [b] |>)
  else mret tt.

Definition updateNodeList : eff app unit :=
  modify (fun s => s <| selector := [] |>) ;;
  s ← get;
  l ← lift (array_elements (nodes s));
  for_each add_button l.

(** The first loop of the response handler: the node the address names. *)
Definition select_by_name (e : env) (node : json) : eff app unit :=
  ws ← lift (is_websocket node);
  if (ws : bool) then
    name ← lift (get_property "name" (Some node));
    wanted ← lift (getParameterByName (loc_search (page e)) (str "node"));
    if loose_eqb name wanted then modify (fun s => s <| currentNode := Some node |>) else mret tt
  else mret tt.

(** The second loop: any WebSocket node. *)
Definition select_any (node : json) : eff app unit :=
  ws ← lift (is_websocket node);
  if (ws : bool) then modify (fun s => s <| currentNode := Some node |>) else mret tt.

(** The handler [apiConnected] registers for the list of nodes. *)
Definition nodes_response (e : env) (response : option json) : eff app unit :=
  modify (fun s => s <| nodes := response |>) ;;
  l ← lift (array_elements response);
  for_each (select_by_name e) l ;;
  s ← get;
  match currentNode s with
  | None => for_each select_any l
  | Some _ => mret tt
  end ;;
  s ← get;
  match currentNode s with
  | None => mret tt
  | Some _ =>
      updateNodeList ;;
      i ← wsConnect e (currentNode s);
      modify (fun s => s <| connection := Some i |>)
  end.

Definition run_handler (e : env) (h : handler) (response : option json) : eff app unit :=
  match h with HNodes => nodes_response e response end.

#[export] Instance app_host (e : env) : ApiHost handler app := {|
  host_api := g_api;
  host_set_api a s := s <| g_api := a |>;
  host_sockets := sockets;
  host_set_sockets l s := s <| sockets := l |>;
  host_run := run_handler e;
  host_get_set _ _ := eq_refl;
  host_get_sockets _ _ := eq_refl;
  host_sockets_api _ _ := eq_refl;
  host_sockets_set _ _ := eq_refl;
|}.

(** [apiConnected] *)
Definition apiConnected (e : env) : eff app unit :=
  @api_request handler app (app_host e) (str "nodes") (JObj []) HNodes (random e).

(** ** Plotting *)

Definition plotOptions_mode : jstr := str "time".

(** The label of series [i]: the default, or the name of the signal when the
    node describes one. *)
Definition series_label (current : option json) (i : nat) : result json :=
  let dflt := JStr (str "Index " ++ int_to_string 10 (Z.of_nat i)) in
  out ← get_property "out" current;
  signals ← get_property "signals" out;
  match signals with
  | Some (JArr l) =>
      match l !! i with
      | Some signal => name ← get_property "name" (Some signal); Ok (default dflt name)
      | None => Ok dflt
      end
  | Some (JObj l) =>
      match property (int_to_string 10 (Z.of_nat i)) l with
      | Some signal => name ← get_property "name" (Some signal); Ok (default dflt name)
      | None => Ok dflt
      end
  | Some JNull => Throw TypeError
  | _ => Ok dflt                       (* the characters of a text have no names *)
  end.

Fixpoint build_series (current : option json) (i : nat) (data : list (list point)) :
    result (list (list point * json)) :=
  match data with
  | [] => Ok []
  | series :: data =>
      label ← series_label current i;
      rest ← build_series current (S i) data;
      Ok ((series, label) :: rest)
  end.

(** [updatePlot] *)
Definition updatePlot (e : env) : eff app unit :=
  s ← get;
  if negb (redrawPlot s) then mret tt
  else
    data ← lift (build_series (currentNode s) 0 (plotData s));
    let call := {|
      plot_series := data;
      plot_min := num_sub (num_of_Z (now e)) (xPast s);
      plot_max := num_add (num_of_Z (now e)) (xFuture s);
      plot_marking := num_of_Z (now e);
      plot_mode := plotOptions_mode |} in
    modify (fun s => s <| plot := Some call |>) ;;
    modify (fun s => s <| plot_handlers := S (plot_handlers s) |>) ;;
    modify (fun s => s <| redrawPlot := false |>).

(** ** Timers *)

Definition setInterval (period : number) : eff app nat :=
  s ← get;
  modify (fun s => s <| intervals := <[next_timer s := period]> (intervals s) |>
                     <| next_timer := S (next_timer s) |>) ;;
  mret (next_timer s).

Definition clearInterval (id : option nat) : eff app unit :=
  match id with
  | Some id => modify (fun s => s <| intervals := delete id (intervals s) |>)
  | None => mret tt
  end.

Definition period_of (rate : number) : number := num_div (num_of_Z 1000) rate.

(** The slide callback of the update rate slider; [value] is [ui.value]. *)
Definition updaterate_slide (value : number) : eff app unit :=
  s ← get;
  clearInterval (timer s) ;;
  id ← setInterval (period_of (updateRate s));
  modify (fun s => s <| timer := Some id |>) ;;
  modify (fun s => s <| updateRate := value |>).

(** The document's ready callback; the widgets it creates are modelled
    with their own state in the slider component. *)
Definition ready (e : env) : eff app unit :=
  @Api handler app (app_host e) (str "v1") (wsUrl (page e) (str "v1")) false ;;
  s ← get;
  id ← setInterval (period_of (updateRate s));
  modify (fun s => s <| timer := Some id |>).

(** ** Buttons *)

Definition play_click (e : env) : eff app unit :=
  s ← get;
  i ← wsConnect e (currentNode s);
  modify (fun s => s <| connection := Some i |>) ;;
  modify (fun s => s <| paused := false |>).

Definition connection_close : eff app unit :=
  s ← get;
  match connection s with
  | None => throw TypeError
  | Some i => modify (fun s => s <| sockets := ws_close i (sockets s) |>)
  end.

Definition pause_click : eff app unit :=
  connection_close ;;
  modify (fun s => s <| paused := true |>).

Definition beforeunload (e : env) : eff app unit :=
  connection_close ;; @api_close handler app (app_host e).

(** ** Events *)

Inductive event :=
  | EReady
  | EPlay
  | EPause
  | ETimespan (value : number)
  | EUpdateRate (value : number)
  | ESendData (slider : number) (boxes : list bool)
  | EInterval (id : nat)
  | EReconnect
  | EOpen (i : nat)
  | EClose (i : nat) (reason : jstr)
  | EError (i : nat) (message : jstr)
  | EMessage (i : nat) (data : frame)
  | EUnload.

Definition is_api (i : nat) (s : app) : bool :=
  match g_api s with Some a => (api_connection a =? i)%nat | None => false end.

(** Whether the document is ready and the widgets exist. *)
Definition started (s : app) : bool := match g_api s with Some _ => true | None => false end.

(** What may happen next: widgets that exist, timers that run, sockets in the
    right state. *)
Definition enabled (ev : event) (s : app) : bool :=
  match ev with
  | EReady => negb (started s)
  | EPlay | EPause | ETimespan _ | EUpdateRate _ | ESendData _ _ => started s
  | EInterval id => bool_decide (is_Some (intervals s !! id))
  | EReconnect => (0 <? reconnects s)%nat
  | EOpen i => bool_decide (state_of i (sockets s) = Some CONNECTING)
  | EClose i _ =>
      match state_of i (sockets s) with Some CLOSED | None => false | Some _ => true end
  | EError i _ => bool_decide (is_Some (state_of i (sockets s)))
  | EMessage i (Binary _) => bool_decide (state_of i (sockets s) = Some OPEN) && negb (is_api i s)
  | EMessage i (Text _) => bool_decide (state_of i (sockets s) = Some OPEN) && is_api i s
  | EUnload => true
  end.

Definition network (st : ready_state) (i : nat) : eff app unit :=
  modify (fun s => s <| sockets := alter (set_state st) i (sockets s) |>).

(** One event: the browser's own change of state, then the handler. *)
Definition handle (host_le : bool) (e : env) (ev : event) : eff app unit :=
  match ev with
  | EReady => ready e
  | EPlay => play_click e
  | EPause => pause_click
  | ETimespan v => updatePlotWindow v
  | EUpdateRate v => updaterate_slide v
  | ESendData v boxes => sendData host_le e v boxes
  | EInterval _ => updatePlot e
  | EReconnect => modify (fun s => s <| reconnects := pred (reconnects s) |>) ;; reconnect e
  | EOpen i => network OPEN i ;; s ← get; if is_api i s then apiConnected e else conn_onopen
  | EClose i reason =>
      network CLOSED i ;; s ← get; if is_api i s then mret tt else conn_onclose reason
  | EError i message =>
      s ← get;
      if is_api i s then
        @with_api handler app (app_host e) (fun a => api_onerror a (throw TypeError))
      else conn_onerror message
  | EMessage i (Binary b) => conn_onmessage host_le e b
  | EMessage i (Text t) => @api_onmessage handler app (app_host e) t
  | EUnload => beforeunload e
  end.

(** ** Reachable states *)

Section Reachable.
Context (host_le : bool).

Inductive reachable : app -> Prop :=
  | reach_initial : reachable initial
  | reach_step e ev s :
      reachable s -> enabled ev s = true -> reachable (snd (handle host_le e ev s)).
End Reachable.

(** ** Frames: what an operation leaves alone

    [frame f] is the relation between the states before and after an operation
    that does not change [f]; [keeps (frame f)] is proved by structure. *)

Definition frame_of {A} (f : app -> A) (s s' : app) : Prop := f s' = f s.

#[export] Instance frame_of_preorder {A} (f : app -> A) : PreOrder (frame_of f).
Proof. split; [by intros ?|]. intros a b c. unfold frame_of. congruence. Qed.

Definition socks_advance (s s' : app) : Prop := le_store (sockets s) (sockets s').

#[export] Instance socks_advance_preorder : PreOrder socks_advance.
Proof.
  split; [intros ?; unfold socks_advance; reflexivity|].
  intros a b c Hab Hbc. unfold socks_advance in *. by etrans.
Qed.

(** Unfold an operation into its primitive steps and keep a relation through
    each of them. *)
Ltac keeps_step :=
  match goal with
  | |- keeps _ (_ ≫= _) => apply keeps_bind; [apply _| |intros ?]
  | |- keeps _ (mret _) => apply keeps_ret, _
  | |- keeps _ (lift _) => apply keeps_lift, _
  | |- keeps _ (throw _) => apply keeps_throw, _
  | |- keeps _ get => apply keeps_get, _
  | |- keeps _ (for_each _ _) => apply keeps_for_each; [apply _|intros ?]
  | |- keeps _ (modify _) => apply keeps_modify; intros ?
  | |- keeps _ (match ?x with _ => _ end) => destruct x
  | |- keeps _ (let '(_, _) := ?x in _) => destruct x
  | |- keeps _ (if ?x then _ else _) => destruct x
  end.
Ltac keeps_all := repeat keeps_step; try (unfold frame_of; reflexivity).

(** The interval table and the timer variable. *)
Definition timers (s : app) := (timer s, intervals s, next_timer s).

(** Steps that neither touch the timers nor create the API object, and steps
    that at least do not drop it. *)
Definition quiet : app -> app -> Prop := frame_of (fun s => (timers s, started s)).
Definition quietly (s s' : app) : Prop :=
  timers s' = timers s /\ (started s = true -> started s' = true).

#[export] Instance quietly_preorder : PreOrder quietly.
Proof.
  split; [by intros ?|]. intros a b c [Hab1 Hab2] [Hbc1 Hbc2].
  split; [congruence|auto].
Qed.

Lemma quiet_quietly {A} (m : eff app A) : keeps quiet m -> keeps quietly m.
Proof.
  intros Hm s. specialize (Hm s). unfold quiet, frame_of in Hm.
  injection Hm as Ht Hs. split; [|congruence]. unfold timers. congruence.
Qed.

Lemma wsConnect_quiet e node : keeps quiet (wsConnect e node).
Proof. unfold wsConnect, quiet. keeps_all. Qed.

Lemma updateNodeList_quiet : keeps quiet updateNodeList.
Proof. unfold updateNodeList, add_button, quiet. keeps_all. Qed.

Lemma nodes_response_quiet e r : keeps quiet (nodes_response e r).
Proof.
  unfold nodes_response, select_by_name, select_any, quiet.
  keeps_all; first [apply updateNodeList_quiet|apply wsConnect_quiet].
Qed.

Lemma updatePlot_quiet e : keeps quiet (updatePlot e).
Proof. unfold updatePlot, quiet. keeps_all. Qed.

Lemma conn_onmessage_quiet h e b : keeps quiet (conn_onmessage h e b).
Proof. unfold conn_onmessage, quiet. keeps_all. Qed.

Lemma connection_quiet f : keeps quiet (connection_send f) /\ keeps quiet connection_close.
Proof. unfold connection_send, connection_close, quiet. split; keeps_all. Qed.

Lemma sendData_quiet h e v b : keeps quiet (sendData h e v b).
Proof. unfold sendData, quiet. keeps_all. apply connection_quiet. Qed.

(** Operations of the API object. *)
Lemma with_api_quietly e f :
  (forall a, keeps quietly (f a)) -> keeps quietly (@with_api handler app (app_host e) f).
Proof. intros Hf. unfold with_api. keeps_all. apply Hf. Qed.

Lemma api_request_quietly e a r h g :
  keeps quietly (@api_request handler app (app_host e) a r h g).
Proof. unfold api_request. apply with_api_quietly. intros ?. keeps_all; by split. Qed.

Lemma api_onmessage_quietly e t : keeps quietly (@api_onmessage handler app (app_host e) t).
Proof.
  unfold api_onmessage. keeps_all; try by split. apply with_api_quietly. intros ?.
  keeps_all; try by split.
  - destruct h. apply quiet_quietly, nodes_response_quiet.
  - apply with_api_quietly. intros ?. keeps_all; by split.
Qed.

Definition timer_inv (s : app) : Prop :=
  if started s
  then exists id period, timer s = Some id /\ intervals s = {[ id := period ]}
  else timer s = None /\ intervals s = ∅.

Lemma timer_inv_timers s s' :
  timers s' = timers s -> started s' = started s -> timer_inv s -> timer_inv s'.
Proof.
  unfold timers, timer_inv. intros [= Ht Hi _] Hs. by rewrite Ht, Hi, Hs.
Qed.

Lemma timer_inv_quiet {A} (m : eff app A) s : keeps quiet m -> timer_inv s -> timer_inv (snd (m s)).
Proof.
  intros Hm. specialize (Hm s). unfold quiet, frame_of in Hm.
  apply timer_inv_timers; unfold timers in *; congruence.
Qed.

Lemma timer_inv_quietly {A} (m : eff app A) s :
  keeps quietly m -> started s = true -> timer_inv s -> timer_inv (snd (m s)).
Proof.
  intros Hm Hs. destruct (Hm s) as [Ht Hs']. apply timer_inv_timers; [done|].
  rewrite Hs. auto.
Qed.

Lemma timer_inv_ready e s :
  started s = false -> timer_inv s -> timer_inv (snd (ready e s)).
Proof.
  unfold timer_inv. intros ->. intros [_ Hi]. unfold ready, Api, setInterval. eff_cbn.
  rewrite Hi. eauto.
Qed.

Lemma timer_inv_updaterate v s :
  started s = true -> timer_inv s -> timer_inv (snd (updaterate_slide v s)).
Proof.
  unfold timer_inv. intros Hs. rewrite Hs. intros (id & p & Ht & Hi).
  unfold updaterate_slide, setInterval, clearInterval.
  eff_cbn. rewrite Ht. eff_cbn. unfold started in *. cbn. rewrite Hs, Hi.
  do 2 eexists. split; [done|]. by rewrite delete_singleton_eq.
Qed.

Lemma is_api_started i s : is_api i s = true -> started s = true.
Proof. unfold is_api, started. by destruct (g_api s). Qed.

Definition networked (st : ready_state) (i : nat) (s : app) : app :=
  s <| sockets := alter (set_state st) i (sockets s) |>.

Lemma handle_open h e i s :
  handle h e (EOpen i) s
  = (if is_api i s then apiConnected e else conn_onopen) (networked OPEN i s).
Proof. reflexivity. Qed.

Lemma handle_close h e i r s :
  handle h e (EClose i r) s
  = (if is_api i s then mret tt else conn_onclose r) (networked CLOSED i s).
Proof. reflexivity. Qed.

Lemma timer_inv_handle host_le e ev s :
  enabled ev s = true -> timer_inv s -> timer_inv (snd (handle host_le e ev s)).
Proof.
  intros Hen Hinv. destruct ev; cbn [enabled] in Hen; cbn [handle].
  - apply timer_inv_ready; [by destruct (started s)|done].
  - apply timer_inv_quiet; [|done]. unfold play_click, quiet. keeps_all. apply wsConnect_quiet.
  - apply timer_inv_quiet; [|done]. unfold pause_click, quiet. keeps_all.
    by apply (connection_quiet (Text [])).
  - apply timer_inv_quiet; [|done]. unfold updatePlotWindow, quiet. keeps_all.
  - by apply timer_inv_updaterate.
  - apply timer_inv_quiet; [|done]. apply sendData_quiet.
  - apply timer_inv_quiet; [|done]. apply updatePlot_quiet.
  - apply timer_inv_quiet; [|done]. unfold reconnect, quiet. keeps_all. apply wsConnect_quiet.
  - change (timer_inv (snd (handle host_le e (EOpen i) s))). rewrite handle_open.
    destruct (is_api i s) eqn:Hapi.
    + apply timer_inv_quietly.
      * unfold apiConnected. apply api_request_quietly.
      * by apply is_api_started in Hapi.
      * by apply (timer_inv_timers s).
    + apply timer_inv_quiet; [|by apply (timer_inv_timers s)]. unfold conn_onopen, quiet. keeps_all.
  - change (timer_inv (snd (handle host_le e (EClose i reason) s))). rewrite handle_close.
    destruct (is_api i s) eqn:Hapi.
    + by apply (timer_inv_timers s).
    + apply timer_inv_quiet; [|by apply (timer_inv_timers s)]. unfold conn_onclose, quiet. keeps_all.
  - rewrite (eff_bind_ok get _ s s s) by done. destruct (is_api i s) eqn:Hapi.
    + apply timer_inv_quiet; [|done]. unfold with_api, api_onerror, quiet. keeps_all.
    + apply timer_inv_quiet; [|done]. unfold conn_onerror, quiet. keeps_all.
  - destruct data as [t|b].
    + apply andb_true_iff in Hen as [_ Hapi%is_api_started].
      apply timer_inv_quietly; [apply api_onmessage_quietly|done|done].
    + apply timer_inv_quiet; [|done]. apply conn_onmessage_quiet.
  - apply timer_inv_quiet; [|done]. unfold beforeunload, api_close, with_api, quiet. keeps_all.
    by apply (connection_quiet (Text [])).
Qed.

(** ** The sockets only advance *)

Lemma keeps_sockets_new e node : keeps socks_advance (wsConnect e node).
Proof.
  unfold wsConnect. intros s. eff_cbn.
  destruct (get_property "name" node) as [name|]; eff_cbn; [|unfold socks_advance; reflexivity].
  apply le_store_new.
Qed.

Ltac same_sockets := unfold socks_advance; cbn; reflexivity.

Lemma updateNodeList_sockets : keeps socks_advance updateNodeList.
Proof. unfold updateNodeList, add_button. keeps_all; same_sockets. Qed.

Lemma nodes_response_sockets e r : keeps socks_advance (nodes_response e r).
Proof.
  unfold nodes_response, select_by_name, select_any.
  keeps_all; first [apply updateNodeList_sockets|apply keeps_sockets_new|same_sockets].
Qed.

(** Sending and closing change the sockets through the state they read first. *)
Lemma send_sockets (sel : app -> option nat) f (upd : list socket -> app -> app) :
  (forall l s, sockets (upd l s) = l) ->
  keeps socks_advance (s ← get;
    match sel s with
    | None => throw TypeError
    | Some i => socks ← lift (ws_send i f (sockets s)); modify (upd socks)
    end).
Proof.
  intros Hupd s. eff_cbn. destruct (sel s) as [i|]; [|same_sockets]. eff_cbn.
  destruct (ws_send i f (sockets s)) as [l|] eqn:Hsend; eff_cbn; [|same_sockets].
  unfold socks_advance. rewrite Hupd. by eapply le_store_send.
Qed.

Lemma connection_send_sockets f : keeps socks_advance (connection_send f).
Proof. by apply (send_sockets connection f (fun l s => s <| sockets := l |>)). Qed.

Lemma connection_close_sockets : keeps socks_advance connection_close.
Proof.
  intros s. unfold connection_close. eff_cbn. destruct (connection s); eff_cbn; [|same_sockets].
  apply le_store_close.
Qed.

Lemma with_api_sockets e f :
  (forall a, keeps socks_advance (f a)) ->
  keeps socks_advance (@with_api handler app (app_host e) f).
Proof. intros Hf. unfold with_api. keeps_all. apply Hf. Qed.

Lemma api_request_sockets e a r h g :
  keeps socks_advance (@api_request handler app (app_host e) a r h g).
Proof.
  unfold api_request. apply with_api_sockets. intros api s. eff_cbn.
  destruct (stringify _ _) as [text|]; eff_cbn; [|same_sockets].
  destruct (ws_send _ _ _) as [l|] eqn:Hsend; eff_cbn; [|same_sockets].
  by eapply le_store_send.
Qed.

Lemma api_onmessage_sockets e t : keeps socks_advance (@api_onmessage handler app (app_host e) t).
Proof.
  unfold api_onmessage. keeps_all; try same_sockets. apply with_api_sockets. intros ?.
  keeps_all; try same_sockets.
  - destruct h. apply nodes_response_sockets.
  - apply with_api_sockets. intros ?. keeps_all; same_sockets.
Qed.

Lemma networked_sockets st i s :
  (forall a, sockets s !! i = Some a -> advances (sock_state a) st) ->
  socks_advance s (networked st i s).
Proof.
  intros Hst j a Ha. cbn. destruct (decide (i = j)) as [<-|Hij].
  - exists (set_state st a). rewrite list_lookup_alter_eq, Ha. split_and!; try done. by apply Hst.
  - exists a. rewrite list_lookup_alter_ne by done. split_and!; done.
Qed.

Lemma handle_sockets host_le e ev s :
  enabled ev s = true -> socks_advance s (snd (handle host_le e ev s)).
Proof.
  intros Hen. destruct ev; cbn [enabled] in Hen; cbn [handle].
  - apply le_store_new.
  - apply keeps_use. unfold play_click. keeps_all; first [apply keeps_sockets_new|same_sockets].
  - apply keeps_use. unfold pause_click. keeps_all; [apply connection_close_sockets|same_sockets].
  - same_sockets.
  - apply keeps_use. unfold updaterate_slide, clearInterval, setInterval. keeps_all; same_sockets.
  - apply keeps_use. unfold sendData. keeps_all; first [apply connection_send_sockets|same_sockets].
  - apply keeps_use. unfold updatePlot. keeps_all; same_sockets.
  - apply keeps_use. unfold reconnect. keeps_all; first [apply keeps_sockets_new|same_sockets].
  - change (socks_advance s (snd (handle host_le e (EOpen i) s))). rewrite handle_open.
    apply bool_decide_eq_true in Hen. trans (networked OPEN i s).
    + apply networked_sockets. intros a Ha. unfold state_of in Hen. rewrite Ha in Hen.
      cbn in Hen. injection Hen as ->. done.
    + destruct (is_api i s); [unfold apiConnected; apply api_request_sockets|same_sockets].
  - change (socks_advance s (snd (handle host_le e (EClose i reason) s))). rewrite handle_close.
    trans (networked CLOSED i s).
    + apply networked_sockets. intros a _. by destruct (sock_state a).
    + destruct (is_api i s); same_sockets.
  - apply keeps_use. unfold with_api, api_onerror, conn_onerror. keeps_all; same_sockets.
  - apply keeps_use. destruct data as [t|b].
    + apply api_onmessage_sockets.
    + unfold conn_onmessage. keeps_all; same_sockets.
  - apply keeps_use. unfold beforeunload, api_close, with_api.
    keeps_all; first [apply connection_close_sockets|same_sockets|apply le_store_close].
Qed.
