(* ===== verification/AppProps.v ===== *)
(** Properties of the web client: what is transmitted, what is plotted, which
    node is chosen, and how timers and connections evolve. *)
From Stdlib Require Import String.
From S2P Require Import Prelude JsNumber JsBuffer JsString Json Msg Utils Browser Api App.

(** ** Sending *)

(** The integer whose bit i is the state of checkbox i. *)
Fixpoint bits_value (boxes : list bool) : Z :=
  match boxes with
  | [] => 0
  | b :: boxes => (if b then 1 else 0) + 2 * bits_value boxes
  end.

Lemma bits_value_range boxes : 0 <= bits_value boxes < 2 ^ Z.of_nat (length boxes).
Proof.
  induction boxes as [|b boxes IH]; [done|]. cbn [bits_value length].
  rewrite Nat2Z.inj_succ, Z.pow_succ_r by lia. destruct b; lia.
Qed.

Lemma bits_value_testbit boxes i :
  Z.testbit (bits_value boxes) (Z.of_nat i) = default false (boxes !! i).
Proof.
  revert i. induction boxes as [|b boxes IH]; intros i; cbn [bits_value].
  - by rewrite Z.testbit_0_l.
  - replace ((if b then 1 else 0) + 2 * bits_value boxes)
      with (Z.b2z b + 2 * bits_value boxes) by (destruct b; cbn; lia).
    destruct i as [|i].
    + by rewrite Z.add_b2z_double_bit0.
    + rewrite Nat2Z.inj_succ, Z.add_comm, Z.testbit_succ_r by lia. apply IH.
Qed.

Lemma shift_left_small (b : bool) i :
  (i < 31)%nat -> shift_left (if b then 1 else 0) i = (if b then 1 else 0) * 2 ^ Z.of_nat i.
Proof.
  intros Hi. unfold shift_left. rewrite (Z.mod_small (Z.of_nat i)), Z.shiftl_mul_pow2 by lia.
  assert (2 ^ Z.of_nat i <= 2 ^ 30) by (apply Z.pow_le_mono_r; lia).
  assert (0 < 2 ^ Z.of_nat i) by (apply Z.pow_pos_nonneg; lia).
  rewrite Z.mod_small by (destruct b; lia).
  rewrite (proj2 (Z.ltb_lt _ _)) by (destruct b; lia). done.
Qed.

Lemma checkbox_sum_value boxes i acc :
  (i + length boxes <= 31)%nat -> 0 <= acc < 2 ^ Z.of_nat i ->
  checkbox_sum i (num_of_Z acc) boxes = num_of_Z (acc + 2 ^ Z.of_nat i * bits_value boxes).
Proof.
  revert i acc. induction boxes as [|b boxes IH]; intros i acc Hi Hacc;
    cbn [checkbox_sum bits_value]; [f_equal; lia|]. cbn [length] in Hi.
  rewrite shift_left_small by lia.
  assert (2 ^ Z.of_nat i <= 2 ^ 30) by (apply Z.pow_le_mono_r; lia).
  assert (0 < 2 ^ Z.of_nat i) by (apply Z.pow_pos_nonneg; lia).
  assert (2 ^ Z.of_nat (S i) = 2 * 2 ^ Z.of_nat i) as Hp
    by (rewrite Nat2Z.inj_succ, Z.pow_succ_r; lia).
  rewrite num_add_Z by (unfold safe; destruct b; lia).
  rewrite IH by (destruct b; lia). f_equal. rewrite Hp. destruct b; lia.
Qed.

(** The message [sendData] builds. *)
Definition sent_msg (e : env) (seq : Z) (slider : number) (boxes : list bool) : msg :=
  sample_msg (now e) seq [num_div slider (num_of_Z 100); checkbox_sum 0 (num_of_Z 0) boxes].

Lemma sendData_open host_le e slider boxes s i sock :
  millis_ok (now e) -> connection s = Some i -> sockets s !! i = Some sock ->
  sock_state sock = OPEN ->
  exists w,
    toArrayBuffer host_le (sent_msg e (sequence s) slider boxes) = Ok w /\
    sendData host_le e slider boxes s
    = (Ok tt, s <| sequence := sequence s + 1 |>
                <| sockets := <[i := add_sent (Binary w) sock]> (sockets s) |>).
Proof.
  intros Hnow Hc Hs Ho.
  destruct (sendable_wire host_le (sent_msg e (sequence s) slider boxes)) as (w & Hw & _).
  { do 2 eexists. split_and!; try done. }
  exists w. split; [done|].
  assert (forall T (k : list Z -> eff app T) s', (lift (toArrayBuffer host_le
    (sent_msg e (sequence s) slider boxes)) ≫= k) s' = k w s') as Hlift
    by (intros; apply eff_bind_ok; unfold lift; by rewrite Hw).
  unfold sendData. erewrite eff_bind_ok by done. erewrite eff_bind_ok by done.
  erewrite eff_bind_ok by done. cbv beta. unfold sent_msg, sample_msg in Hlift.
  rewrite Hlift. unfold connection_send. erewrite eff_bind_ok by done.
  cbn. rewrite Hc. unfold ws_send, lift, mbind, eff_bind. by rewrite Hs, Ho.
Qed.

(** ** Receiving *)

(** What one message adds to series [i]. *)
Definition points_for (i : nat) (m : msg) : list point :=
  if (i <? m_length m)%nat
  then [(m_timestamp m, default S754_nan (default [] (m_data m) !! i))] else [].

Lemma length_grow n data : length (grow n data) = max (length data) n.
Proof. unfold grow. rewrite length_app, length_replicate. lia. Qed.

Lemma lookup_grow n data i :
  default [] (grow n data !! i) = default [] (data !! i).
Proof.
  unfold grow. destruct (decide (i < length data)%nat).
  - by rewrite lookup_app_l by done.
  - rewrite lookup_app_r by lia. rewrite (lookup_ge_None_2 data i) by lia.
    destruct (replicate _ _ !! _) as [l|] eqn:Hl; [|done].
    by apply lookup_replicate in Hl as [-> _].
Qed.

Lemma length_add_message data m : length (add_message data m) = max (length data) (m_length m).
Proof. unfold add_message. by rewrite length_imap, length_grow. Qed.

Lemma lookup_add_message data m i :
  default [] (add_message data m !! i) = default [] (data !! i) ++ points_for i m.
Proof.
  unfold add_message, points_for. rewrite list_lookup_imap.
  rewrite <- (lookup_grow (m_length m)).
  destruct (Nat.ltb_spec i (m_length m)) as [Hlt|Hge];
    destruct (grow (m_length m) data !! i) as [series|] eqn:Hi; cbn; try done.
  - apply lookup_ge_None in Hi. rewrite length_grow in Hi. lia.
  - by rewrite app_nil_r.
Qed.

Lemma lookup_add_messages msgs data i :
  default [] (fold_left add_message msgs data !! i)
  = default [] (data !! i) ++ concat (map (points_for i) msgs).
Proof.
  revert data. induction msgs as [|m msgs IH]; intros data; cbn [fold_left map concat].
  - by rewrite app_nil_r.
  - by rewrite IH, lookup_add_message, <- app_assoc.
Qed.

Lemma length_add_messages msgs data :
  length (fold_left add_message msgs data)
  = fold_left (fun n m => max n (m_length m)) msgs (length data).
Proof.
  revert data. induction msgs as [|m msgs IH]; intros data; cbn [fold_left]; [done|].
  by rewrite IH, length_add_message.
Qed.

Lemma conn_onmessage_ok host_le e b msgs s :
  fromArrayBufferVector host_le (now e) b = Some (Ok msgs) ->
  conn_onmessage host_le e b s =
  (Ok tt, s <| plotData := fold_left add_message msgs
                 (map (remove_old (num_sub (num_of_Z (now e)) (xPast s))) (plotData s)) |>
            <| redrawPlot := true |>).
Proof. intros Hp. unfold conn_onmessage. rewrite Hp. reflexivity. Qed.

(** *** The window *)

(** Series whose timestamps are millisecond counts in order. *)
Inductive in_order : Z -> list point -> Prop :=
  | in_order_nil lo : in_order lo []
  | in_order_cons lo t v l : safe t -> lo <= t -> in_order t l -> in_order lo ((num_of_Z t, v) :: l).

Lemma in_order_weaken lo lo' l : lo' <= lo -> in_order lo l -> in_order lo' l.
Proof. intros Hle H. destruct H; constructor; [done|lia|done]. Qed.

Definition point_kept (limit : Z) (p : point) : bool := negb (num_ltb (fst p) (num_of_Z limit)).

Lemma in_order_kept limit lo l :
  safe limit -> limit <= lo -> in_order lo l -> filter (point_kept limit) l = l.
Proof.
  intros Hl Hle H. revert Hle. induction H as [|lo t v l Ht Hlt _ IH]; intros Hle; [done|].
  rewrite filter_cons_True; [by rewrite IH by lia|].
  unfold point_kept. cbn [fst]. rewrite num_ltb_Z by done.
  by replace (t <? limit) with false by lia.
Qed.

Lemma remove_old_filter limit lo l :
  safe limit -> in_order lo l ->
  remove_old (num_of_Z limit) l = filter (point_kept limit) l.
Proof.
  intros Hl H. induction H as [|lo t v l Ht Hlt H IH]; [done|].
  cbn [remove_old fst]. rewrite num_ltb_Z by done.
  destruct (Z.ltb_spec t limit) as [Hlim|Hlim].
  - rewrite filter_cons_False; [done|]. unfold point_kept. cbn [fst].
    rewrite num_ltb_Z by done. rewrite (proj2 (Z.ltb_lt _ _)) by lia. by intros [].
  - rewrite (in_order_kept limit t); [done|done|done|by constructor].
Qed.

(** ** Choosing a node *)

(** A node as the REST interface describes it: an object. *)
Definition node_object (n : json) : Prop := exists l, n = JObj l.

Definition prop_of (k : string) (n : json) : option json :=
  match n with JObj l => property (str k) l | _ => None end.

Lemma get_property_object k n : node_object n -> get_property k (Some n) = Ok (prop_of k n).
Proof. by intros [l ->]. Qed.

Definition websocket_node (n : json) : bool := loose_eqb (prop_of "type" n) (Some (str "websocket")).

Lemma is_websocket_object n : node_object n -> is_websocket n = Ok (websocket_node n).
Proof. intros [l ->]. reflexivity. Qed.

Definition named (wanted : option jstr) (n : json) : bool :=
  websocket_node n && loose_eqb (prop_of "name" n) wanted.

Lemma select_by_name_value e wanted l s :
  Forall node_object l ->
  getParameterByName (loc_search (page e)) (str "node") = Ok wanted ->
  for_each (select_by_name e) l s =
  (Ok tt, s <| currentNode := match last (filter (named wanted) l) with
                              | Some n => Some n | None => currentNode s end |>).
Proof.
  intros Hl Hw. revert s. induction Hl as [|n l Hn Hl IH]; intros s; [by destruct s|].
  cbn [for_each]. 
  assert (select_by_name e n s =
    (Ok tt, if named wanted n then s <| currentNode := Some n |> else s)) as Hstep.
  { unfold select_by_name. rewrite (is_websocket_object n Hn), Hw.
    rewrite (get_property_object "name" n Hn). unfold named.
    unfold mbind, eff_bind, lift, modify, mret, eff_ret.
    destruct (websocket_node n); cbn; [|done].
    by destruct (loose_eqb (prop_of "name" n) wanted). }
  rewrite (eff_bind_ok _ _ _ _ _ Hstep), IH.
  destruct (named wanted n) eqn:Hnm.
  - rewrite filter_cons_True by (by rewrite Hnm). rewrite last_cons.
    by destruct (last (filter (named wanted) l)).
  - by rewrite filter_cons_False by (rewrite Hnm; by intros []).
Qed.

Lemma select_any_value l s :
  Forall node_object l ->
  for_each select_any l s =
  (Ok tt, s <| currentNode := match last (filter websocket_node l) with
                              | Some n => Some n | None => currentNode s end |>).
Proof.
  intros Hl. revert s. induction Hl as [|n l Hn Hl IH]; intros s; [by destruct s|].
  cbn [for_each].
  assert (select_any n s =
    (Ok tt, if websocket_node n then s <| currentNode := Some n |> else s)) as Hstep.
  { unfold select_any. rewrite (is_websocket_object n Hn).
    unfold mbind, eff_bind, lift, modify, mret, eff_ret. by destruct (websocket_node n). }
  rewrite (eff_bind_ok _ _ _ _ _ Hstep), IH.
  destruct (websocket_node n) eqn:Hnm.
  - rewrite filter_cons_True by (by rewrite Hnm). rewrite last_cons.
    by destruct (last (filter websocket_node l)).
  - by rewrite filter_cons_False by (rewrite Hnm; by intros []).
Qed.

(** The button list: one per WebSocket node, in order. *)
Definition button_of (current n : json) : button := {|
  btn_text := default JNull (if truthy (prop_of "description" n)
                             then prop_of "description" n else prop_of "name" n);
  btn_active := same_name (prop_of "name" n) (prop_of "name" current);
  btn_link := str "?node=" ++ text_of (prop_of "name" n) |}.

Lemma add_buttons_value l c s :
  Forall node_object l -> node_object c -> currentNode s = Some c ->
  for_each add_button l s =
  (Ok tt, s <| selector := selector s ++ map (button_of c) (filter websocket_node l) |>).
Proof.
  intros Hl Hc. revert s. induction Hl as [|n l Hn Hl IH]; intros s Hs; cbn [for_each].
  { rewrite app_nil_r. by destruct s. }
  assert (add_button n s =
    (Ok tt, if websocket_node n then s <| selector := selector s ++ [button_of c n] |> else s)) as Hstep.
  { unfold add_button. rewrite (is_websocket_object n Hn).
    rewrite !(get_property_object _ n Hn).
    unfold mbind, eff_bind, lift, modify, mret, eff_ret, get.
    destruct (websocket_node n); [|done]. rewrite Hs, (get_property_object "name" c Hc). done. }
  rewrite (eff_bind_ok _ _ _ _ _ Hstep), IH by (by destruct (websocket_node n)).
  destruct (websocket_node n) eqn:Hnm.
  - rewrite filter_cons_True by (by rewrite Hnm). cbn. by rewrite <- app_assoc.
  - by rewrite filter_cons_False by (rewrite Hnm; by intros []).
Qed.

(** The node the handler settles on. *)
Definition chosen (wanted : option jstr) (l : list json) (before : option json) : option json :=
  match last (filter (named wanted) l) with
  | Some n => Some n
  | None => match before with
            | Some n => Some n
            | None => last (filter websocket_node l)
            end
  end.

Lemma updateNodeList_value l c s :
  Forall node_object l -> node_object c -> currentNode s = Some c -> nodes s = Some (JArr l) ->
  updateNodeList s = (Ok tt, s <| selector := map (button_of c) (filter websocket_node l) |>).
Proof.
  intros Hl Hc Hs Hn. unfold updateNodeList.
  erewrite eff_bind_ok by done. erewrite eff_bind_ok by done. cbv beta.
  erewrite eff_bind_ok by (cbn; by rewrite Hn). cbv beta.
  rewrite (add_buttons_value l c) by done. destruct s; cbn in *; by subst.
Qed.

(** The page after the node [n] has been chosen. *)
Definition connected_to (e : env) (n : json) (l : list json) (s : app) : app :=
  s <| selector := map (button_of n) (filter websocket_node l) |>
    <| sockets := sockets s ++ [{|
         sock_url := wsUrl (page e) (text_of (prop_of "name" n));
         sock_protocol := str "live"; sock_state := CONNECTING; sock_sent := [] |}] |>
    <| connection := Some (length (sockets s)) |>.

Lemma connect_value e n l s :
  Forall node_object l -> node_object n -> currentNode s = Some n -> nodes s = Some (JArr l) ->
  (updateNodeList ;; i ← wsConnect e (currentNode s); modify (fun s => s <| connection := Some i |>)) s
  = (Ok tt, connected_to e n l s).
Proof.
  intros Hl Hn Hc Hns.
  erewrite eff_bind_ok by (by apply (updateNodeList_value l n)). cbv beta.
  unfold wsConnect. rewrite Hc, (get_property_object "name" n Hn). reflexivity.
Qed.

Lemma chosen_object wanted l n :
  Forall node_object l -> chosen wanted l None = Some n -> node_object n.
Proof.
  intros Hl Hn. rewrite Forall_forall in Hl. apply Hl. unfold chosen in Hn.
  destruct (last (filter (named wanted) l)) eqn:H1.
  - injection Hn as ->. apply last_Some_elem_of in H1. by apply list_elem_of_filter in H1 as [_ ?].
  - apply last_Some_elem_of in Hn. by apply list_elem_of_filter in Hn as [_ ?].
Qed.

Lemma nodes_response_value e wanted l s :
  Forall node_object l -> currentNode s = None ->
  getParameterByName (loc_search (page e)) (str "node") = Ok wanted ->
  nodes_response e (Some (JArr l)) s =
  (Ok tt,
   match chosen wanted l None with
   | None => s <| nodes := Some (JArr l) |>
   | Some n =>
       connected_to e n l (s <| nodes := Some (JArr l) |> <| currentNode := Some n |>)
   end).
Proof.
  intros Hl Hc Hw. pose proof (chosen_object wanted l) as Hobj.
  unfold nodes_response. erewrite eff_bind_ok by done. erewrite eff_bind_ok by done.
  cbv beta. erewrite eff_bind_ok by (by apply select_by_name_value).
  erewrite eff_bind_ok by done. cbv beta. unfold chosen in *.
  destruct (last (filter (named wanted) l)) as [n|] eqn:H1; cbn [currentNode set_field].
  - erewrite eff_bind_ok by done. erewrite eff_bind_ok by done. cbv beta.
    cbn [currentNode set_field]. apply (connect_value e n l); try done. by apply Hobj.
  - rewrite Hc. erewrite eff_bind_ok by (by apply select_any_value).
    erewrite eff_bind_ok by done. cbv beta. cbn [currentNode set_field].
    destruct (last (filter websocket_node l)) as [n|] eqn:H2.
    + apply (connect_value e n l); try done. by apply Hobj.
    + destruct s. cbn in *. by subst.
Qed.

(** ** Reconnecting *)

(** A socket that no longer accepts frames. *)
Definition dead (i : nat) (s : app) : Prop :=
  exists st, state_of i (sockets s) = Some st /\ (st = CLOSING \/ st = CLOSED).

Lemma send_on_dead i f s :
  dead i s -> ws_send i f (sockets s) = Ok (sockets s).
Proof.
  intros (st & Hst & Hd). unfold ws_send, state_of in *.
  destruct (sockets s !! i) as [k|]; [|done]. cbn in Hst. injection Hst as ->.
  by destruct Hd as [-> | ->].
Qed.

Lemma sendData_dead host_le e v boxes s i :
  millis_ok (now e) -> connection s = Some i -> dead i s ->
  sendData host_le e v boxes s = (Ok tt, s <| sequence := sequence s + 1 |>).
Proof.
  intros Hnow Hc Hd.
  destruct (sendable_wire host_le (sent_msg e (sequence s) v boxes)) as (w & Hw & _).
  { do 2 eexists. split_and!; try done. }
  unfold sendData. erewrite eff_bind_ok by done. erewrite eff_bind_ok by done.
  erewrite eff_bind_ok by done. cbv beta.
  erewrite eff_bind_ok by (unfold lift; f_equal; exact Hw). cbv beta.
  unfold connection_send. erewrite eff_bind_ok by done.
  cbn. rewrite Hc. unfold lift, mbind, eff_bind.
  rewrite (send_on_dead i) by done. by destruct s.
Qed.

Lemma reconnect_value host_le e l s :
  currentNode s = Some (JObj l) ->
  snd (handle host_le e EReconnect s)
  = s <| reconnects := pred (reconnects s) |>
      <| sockets := snd (ws_new (wsUrl (page e) (text_of (property (str "name") l)))
                           (str "live") (sockets s)) |>.
Proof. intros Hn. cbn [handle]. unfold reconnect, wsConnect. eff_cbn. by rewrite Hn. Qed.

(** ** Properties *)

(** C2. End to end: a sample sent by [sendData] over an open connection is one
    more binary frame on that socket, and whoever parses the frame obtains one
    message with the sequence number modulo 2^32, the current time, the slider
    value over 100 in single precision, and a number whose bit i is checkbox i. *)
Theorem sendData_delivers host_le e now' slider boxes s i sock :
  millis_ok (now e) -> connection s = Some i -> sockets s !! i = Some sock ->
  sock_state sock = OPEN -> (length boxes <= 24)%nat ->
  exists w m',
    sendData host_le e slider boxes s
    = (Ok tt, s <| sequence := sequence s + 1 |>
                <| sockets := <[i := add_sent (Binary w) sock]> (sockets s) |>) /\
    fromArrayBufferVector host_le now' w = Some (Ok [m']) /\
    m_sequence m' = sequence s mod 2 ^ 32 /\ m_timestamp m' = num_of_Z (now e) /\
    exists z,
      m_data m' = Some [num_fround (num_div slider (num_of_Z 100)); num_of_Z z] /\
      forall k, Z.testbit z (Z.of_nat k) = default false (boxes !! k).
Proof.
  intros Hnow Hc Hs Ho Hb.
  destruct (sendData_open host_le e slider boxes s i sock Hnow Hc Hs Ho) as (w & Hw & Hsend).
  set (m := sent_msg e (sequence s) slider boxes) in *.
  assert (sendable m) as Hm by (do 2 eexists; by split_and!).
  destruct (parse_wires host_le now' [m] [w]) as (ms' & Hp & Hr); [by repeat constructor..|].
  apply Forall2_cons_inv_l in Hr as (m' & ms & Hr & Hnil & ->). apply Forall2_nil_inv_l in Hnil as ->.
  exists w, m'. cbn [concat] in Hp. rewrite app_nil_r in Hp.
  destruct Hr as (Hseq & _ & _ & _ & Hts & Hdata).
  split_and!; [done..|].
  exists (bits_value boxes). split; [|apply bits_value_testbit].
  rewrite Hdata. pose proof (bits_value_range boxes).
  assert (2 ^ Z.of_nat (length boxes) <= 2 ^ 24) by (apply Z.pow_le_mono_r; lia).
  assert (checkbox_sum 0 (num_of_Z 0) boxes = num_of_Z (bits_value boxes)) as Hsum.
  { rewrite checkbox_sum_value by (cbn; lia).
    by rewrite Z.add_0_l, Z.pow_0_r, Z.mul_1_l. }
  unfold m, sent_msg, sample_msg. cbn [m_data]. rewrite Hsum.
  cbn [fmap option_fmap option_map map list_fmap].
  by rewrite num_fround_Z by lia.
Qed.

Definition demo_page : location := {|
  loc_protocol := str "http:"; loc_hostname := str "localhost"; loc_port := str "8080";
  loc_search := str "?node=n2" |}.
Definition demo_env : env :=
  {| now := 1600000000123; random := extreme_random; page := demo_page |}.
Definition demo_socket (st : ready_state) : socket :=
  {| sock_url := str "ws://localhost:8080/n2"; sock_protocol := str "live";
     sock_state := st; sock_sent := [] |}.
Definition demo_connected : app :=
  initial <| connection := Some 0%nat |> <| sockets := [demo_socket OPEN] |>.

Lemma sendData_delivers_witness :
  exists w m',
    sendData true demo_env (num_of_Z 500) [true; false; true] demo_connected
    = (Ok tt, demo_connected <| sequence := sequence demo_connected + 1 |>
                <| sockets := <[0%nat := add_sent (Binary w) (demo_socket OPEN)]>
                     (sockets demo_connected) |>) /\
    fromArrayBufferVector true 0 w = Some (Ok [m']) /\
    m_sequence m' = sequence demo_connected mod 2 ^ 32 /\
    m_timestamp m' = num_of_Z (now demo_env) /\
    exists z,
      m_data m' = Some [num_fround (num_div (num_of_Z 500) (num_of_Z 100)); num_of_Z z] /\
      forall k, Z.testbit z (Z.of_nat k) = default false ([true; false; true] !! k).
Proof.
  apply (sendData_delivers true demo_env 0 (num_of_Z 500) [true; false; true] demo_connected 0
    (demo_socket OPEN)); [by vm_compute|done|done|done|cbn; lia].
Defined.

(** C3. Receiving a vector appends to every series exactly the values the
    messages carry for it, in order, after dropping the leading points older
    than the plotted window, grows the series to the longest message, and asks
    for a redraw. *)
Theorem onmessage_plots host_le e b msgs s :
  fromArrayBufferVector host_le (now e) b = Some (Ok msgs) ->
  exists s', conn_onmessage host_le e b s = (Ok tt, s') /\
    redrawPlot s' = true /\
    length (plotData s') = fold_left (fun n m => max n (m_length m)) msgs (length (plotData s)) /\
    forall i, default [] (plotData s' !! i)
      = remove_old (num_sub (num_of_Z (now e)) (xPast s)) (default [] (plotData s !! i))
        ++ concat (map (points_for i) msgs).
Proof.
  intros Hp. eexists. split; [by apply conn_onmessage_ok|]. cbn [redrawPlot plotData set_field].
  split_and!; [done|by rewrite length_add_messages, length_map|].
  intros i. rewrite lookup_add_messages. f_equal.
  rewrite list_lookup_fmap. by destruct (plotData s !! i).
Qed.

Lemma onmessage_plots_witness :
  let s := demo_connected <| plotData := [[(num_of_Z 12, num_of_Z 1)]; []] |> in
  exists s', conn_onmessage true demo_env [32;0;1;0; 7;0;0;0; 1;0;0;0; 0;0;0;0; 0;0;64;64] s = (Ok tt, s') /\
    redrawPlot s' = true /\ length (plotData s') = 2%nat /\
    default [] (plotData s' !! 0%nat) = [(num_of_Z 1000, num_of_Z 3)].
Proof.
  intros s. destruct (onmessage_plots true demo_env
    [32;0;1;0; 7;0;0;0; 1;0;0;0; 0;0;0;0; 0;0;64;64] _ s ltac:(vm_compute; reflexivity))
    as (s' & Hs' & Hr & Hl & Hd).
  exists s'. split_and!; [done|done|by rewrite Hl; vm_compute|by rewrite Hd; vm_compute].
Defined.

(** For a series whose timestamps are milliseconds in non-decreasing order
    the pruning loop keeps exactly the points that are not older than the
    limit: none is lost and none is left behind. *)
Theorem remove_old_exact limit lo series p :
  safe limit -> in_order lo series ->
  p ∈ remove_old (num_of_Z limit) series <->
  p ∈ series /\ num_ltb (fst p) (num_of_Z limit) = false.
Proof.
  intros Hl Hs. rewrite (remove_old_filter limit lo) by done.
  rewrite list_elem_of_filter. unfold point_kept.
  destruct (num_ltb p.1 (num_of_Z limit)); cbn; intuition discriminate.
Qed.

Lemma remove_old_exact_witness :
  (num_of_Z 9, num_of_Z 5) ∈ remove_old (num_of_Z 7) [(num_of_Z 5, num_of_Z 4); (num_of_Z 9, num_of_Z 5)].
Proof.
  apply (remove_old_exact 7 0 [(num_of_Z 5, num_of_Z 4); (num_of_Z 9, num_of_Z 5)] (num_of_Z 9, num_of_Z 5)).
  - by vm_compute.
  - repeat constructor; by vm_compute.
  - split; [by right; left|by vm_compute].
Defined.

(** In every reachable state there is exactly one running interval once the
    document is ready, it is the one the global variable [timer] refers to, and
    there is none before: changing the update rate never leaks a timer. *)
Theorem one_timer host_le s :
  reachable host_le s -> timer_inv s.
Proof.
  induction 1 as [|e ev s _ IH Hen]; [done|]. by apply timer_inv_handle.
Qed.

Lemma one_timer_witness :
  timer_inv (snd (handle true demo_env (EUpdateRate (num_of_Z 50)) (snd (ready demo_env initial)))).
Proof.
  apply (one_timer true). apply reach_step; [|done].
  apply (reach_step true demo_env EReady initial); [apply reach_initial|done].
Defined.

(** No event takes a frame back, loses a socket, changes its address or
    moves it backwards in its life cycle. *)
Theorem sockets_only_advance host_le e ev s :
  enabled ev s = true -> le_store (sockets s) (sockets (snd (handle host_le e ev s))).
Proof. apply handle_sockets. Qed.

Lemma sockets_only_advance_witness :
  enabled (EClose 0 []) demo_connected = true /\
  le_store (sockets demo_connected) (sockets (snd (handle true demo_env (EClose 0 []) demo_connected))).
Proof. split; [done|]. by apply (sockets_only_advance true demo_env (EClose 0 [])). Defined.

(** C4. When the list of nodes arrives for the first time the client shows one
    button per WebSocket node, chooses the last WebSocket node the address
    names, or the last WebSocket node when there is none, and opens a live
    connection to it; without WebSocket nodes it only stores the list. *)
Theorem first_nodes_response e wanted l s :
  Forall node_object l -> currentNode s = None ->
  getParameterByName (loc_search (page e)) (str "node") = Ok wanted ->
  exists s', nodes_response e (Some (JArr l)) s = (Ok tt, s') /\
    nodes s' = Some (JArr l) /\ currentNode s' = chosen wanted l None /\
    match chosen wanted l None with
    | None => connection s' = connection s /\ sockets s' = sockets s
    | Some n =>
        websocket_node n = true /\
        selector s' = map (button_of n) (filter websocket_node l) /\
        exists i k, connection s' = Some i /\ sockets s' !! i = Some k /\
          sock_url k = wsUrl (page e) (text_of (prop_of "name" n)) /\ sock_state k = CONNECTING
    end.
Proof.
  intros Hl Hc Hw. eexists. split; [by apply nodes_response_value|].
  destruct (chosen wanted l None) as [n|] eqn:Hn; [|by split_and!].
  split_and!; [done|done| |done|].
  - unfold chosen in Hn. destruct (last (filter (named wanted) l)) eqn:H1.
    + injection Hn as ->. apply last_Some_elem_of, list_elem_of_filter in H1 as [H1 _].
      unfold named in H1. by destruct (websocket_node n).
    + apply last_Some_elem_of, list_elem_of_filter in Hn as [H2 _]. by destruct (websocket_node n).
  - eexists _, _. split_and!; [done|apply list_lookup_middle; done|done|done].
Qed.

Definition demo_node (name : string) : json :=
  JObj [(str "name", JStr (str name)); (str "type", JStr (str "websocket"))].

Lemma first_nodes_response_witness :
  exists s', nodes_response demo_env (Some (JArr [demo_node "n1"; demo_node "n2"; demo_node "n3"])) initial
    = (Ok tt, s') /\
    nodes s' = Some (JArr [demo_node "n1"; demo_node "n2"; demo_node "n3"]) /\
    currentNode s' = Some (demo_node "n2").
Proof.
  destruct (first_nodes_response demo_env (Some (str "n2"))
    [demo_node "n1"; demo_node "n2"; demo_node "n3"] initial) as (s' & H1 & H2 & H3 & _).
  - repeat constructor; by eexists.
  - done.
  - by vm_compute.
  - exists s'. split_and!; [done|done|by rewrite H3; vm_compute].
Defined.

(** C32. A client whose connection closed and came back looks connected, yet
    nothing it sends arrives: the reconnect callback opens a new socket but the
    global variable still holds the closed one, on which [send] drops its
    frames without an error. *)
Theorem reconnect_drops_samples host_le e reason l s i slider boxes :
  millis_ok (now e) -> connection s = Some i ->
  state_of i (sockets s) = Some OPEN -> is_api i s = false ->
  is_api (length (sockets s)) s = false -> currentNode s = Some (JObj l) ->
  let s1 := snd (handle host_le e (EClose i reason) s) in
  let s2 := snd (handle host_le e EReconnect s1) in
  let s3 := snd (handle host_le e (EOpen (length (sockets s))) s2) in
  status s3 = str "Connected" /\ state_of (length (sockets s)) (sockets s3) = Some OPEN /\
  connection s3 = Some i /\
  fst (sendData host_le e slider boxes s3) = Ok tt /\
  sockets (snd (sendData host_le e slider boxes s3)) = sockets s3.
Proof.
  intros Hnow Hc Ho Hi Hn Hnode s1 s2 s3.
  assert (s1 = snd (conn_onclose reason (networked CLOSED i s))) as Hs1.
  { unfold s1. rewrite handle_close. by rewrite Hi. }
  set (k := length (sockets s)) in *.
  assert (s2 = s1 <| reconnects := pred (reconnects s1) |>
                  <| sockets := snd (ws_new (wsUrl (page e) (text_of (property (str "name") l)))
                                       (str "live") (sockets s1)) |>) as Hs2.
  { apply reconnect_value. by rewrite Hs1. }
  assert (s3 = snd (conn_onopen (networked OPEN k s2))) as Hs3.
  { unfold s3. rewrite handle_open. replace (is_api k s2) with (is_api k s); [by rewrite Hn|].
    by rewrite Hs2, Hs1. }
  assert (sockets s1 = alter (set_state CLOSED) i (sockets s)) as Hk1 by (by rewrite Hs1).
  assert (length (sockets s1) = k) as Hk by (rewrite Hk1; apply length_alter).
  assert (exists new, sock_state new = CONNECTING /\
            sockets s3 = alter (set_state OPEN) k (sockets s1 ++ [new])) as (new & Hnew & Hk3).
  { rewrite Hs3, Hs2. eexists. split; [|reflexivity]. done. }
  assert (state_of i (sockets s3) = Some CLOSED) as Hdead.
  { unfold state_of in *. destruct (sockets s !! i) as [a|] eqn:Ha; [|done].
    assert (i < k)%nat by (by apply lookup_lt_Some in Ha).
    rewrite Hk3, list_lookup_alter_ne by lia.
    rewrite lookup_app_l by lia. by rewrite Hk1, list_lookup_alter_eq, Ha. }
  assert (connection s3 = Some i) as Hcon by (by rewrite Hs3, Hs2, Hs1).
  rewrite (sendData_dead _ _ _ _ _ i); [|done|done|exists CLOSED; auto].
  split_and!; [by rewrite Hs3| |done|done|done].
  unfold state_of. rewrite Hk3, list_lookup_alter_eq, lookup_app_r by lia.
  by rewrite Hk, Nat.sub_diag.
Qed.

Lemma reconnect_drops_samples_witness :
  let s := demo_connected <| currentNode := Some (JObj [(str "name", JStr (str "n2"))]) |> in
  let s3 := snd (handle true demo_env (EOpen 1)
              (snd (handle true demo_env EReconnect (snd (handle true demo_env (EClose 0 []) s))))) in
  status s3 = str "Connected" /\ connection s3 = Some 0%nat /\
  sockets (snd (sendData true demo_env (num_of_Z 500) [true] s3)) = sockets s3.
Proof.
  intros s s3.
  destruct (reconnect_drops_samples true demo_env [] [(str "name", JStr (str "n2"))] s 0
    (num_of_Z 500) [true]) as (H1 & _ & H2 & _ & H3); [by vm_compute|done..|]. done.
Defined.

(** The plot is redrawn at the rate the slider had before its last move:
    the slide callback computes the period of the new interval from the old
    value of [updateRate] and assigns the new value afterwards. *)
Theorem updaterate_lags v1 v2 s :
  started s = true -> timer_inv s ->
  let s' := snd (updaterate_slide v2 (snd (updaterate_slide v1 s))) in
  exists id, timer s' = Some id /\ intervals s' = {[ id := period_of v1 ]} /\ updateRate s' = v2.
Proof.
  intros Hs Hinv. pose proof (timer_inv_updaterate v1 s Hs Hinv) as H1.
  unfold timer_inv in H1.
  assert (started (snd (updaterate_slide v1 s)) = true) as Hs1.
  { unfold updaterate_slide, setInterval, clearInterval. eff_cbn. by destruct (timer s). }
  rewrite Hs1 in H1. destruct H1 as (id & p & Ht & Hi).
  assert (updateRate (snd (updaterate_slide v1 s)) = v1) as Hr.
  { unfold updaterate_slide, setInterval, clearInterval. eff_cbn. by destruct (timer s). }
  revert Ht Hi Hr. generalize (snd (updaterate_slide v1 s)). intros s1 Ht Hi Hr.
  cbv zeta. unfold updaterate_slide, setInterval, clearInterval. eff_cbn. rewrite Ht. eff_cbn.
  rewrite Hi, Hr, delete_singleton_eq. eexists. split_and!; done.
Qed.

Lemma updaterate_lags_witness :
  let s' := snd (updaterate_slide (num_of_Z 10) (snd (updaterate_slide (num_of_Z 50) (snd (ready demo_env initial))))) in
  exists id, timer s' = Some id /\ intervals s' = {[ id := num_of_Z 20 ]} /\ updateRate s' = num_of_Z 10.
Proof.
  destruct (updaterate_lags (num_of_Z 50) (num_of_Z 10) (snd (ready demo_env initial))) as (id & H1 & H2 & H3).
  - done.
  - by apply timer_inv_ready.
  - exists id. split; [exact H1|]. split; [|exact H3]. by rewrite H2.
Defined.
