(* ===== verification/File.v ===== *)
(** [web/socket/file.js]: reading samples from a local file. *)
From S2P Require Import Prelude JsNumber JsString Msg.

(** [text.split(/[\r\n]+/g)] *)
Fixpoint skip_breaks (s : jstr) : jstr :=
  match s with
  | c :: s' => if (c =? 13) || (c =? 10) then skip_breaks s' else s
  | [] => []
  end.

Fixpoint split_lines_go (fuel : nat) (line s : jstr) : list jstr :=
  match fuel, s with
  | S fuel, c :: s =>
      if (c =? 13) || (c =? 10) then line :: split_lines_go fuel [] (skip_breaks s)
      else split_lines_go fuel (line ++ [c]) s
  | _, _ => [line]
  end.

Definition split_lines (s : jstr) : list jstr := split_lines_go (length s) [] s.

(** What the handler reads of a parsed message. *)
Record file_msg := { ts : number; values : list number }.

(** The loop over the lines.  [msg.parse] is not defined by [Msg]: [parse_line]
    is the method the call finds, if any. *)
Fixpoint read_lines (now : Z) (parse_line : option (msg -> jstr -> file_msg)) (lines : list jstr) :
    result (list file_msg) :=
  match lines with
  | [] => Ok []
  | line :: lines =>
      m ← Msg now None;
      match parse_line with
      | None => Throw TypeError
      | Some p => ms ← read_lines now parse_line lines; Ok (p m line :: ms)
      end
  end.

(** The series pushed to [plotData]: time stamps and first values, flat.  The
    first sample is moved to the present. *)
Definition file_series (now : Z) (msgs : list file_msg) : option (list number) :=
  match msgs with
  | [] => None
  | m0 :: _ =>
      let offset := num_sub (num_of_Z now) (ts m0) in
      Some (flat_map (fun m => [num_add (ts m) offset; default S754_nan (values m !! 0%nat)]) msgs)
  end.

(** [reader.onload] *)
Definition fileStart_onload (now : Z) (parse_line : option (msg -> jstr -> file_msg)) (text : jstr) :
    result (option (list number)) :=
  msgs ← read_lines now parse_line (split_lines text);
  Ok (file_series now msgs).

(** [Msg] takes its fields from an argument that [fileStart] does not pass, so
    the handler throws on every file, the empty one included. *)
Lemma fileStart_throws now parse_line text :
  fileStart_onload now parse_line text = Throw TypeError.
Proof.
  unfold fileStart_onload, split_lines.
  enough (exists l ls, split_lines_go (length text) [] text = l :: ls) as (l & ls & ->) by done.
  generalize (length text) as fuel, (@nil Z) as line. intros fuel. revert text.
  induction fuel as [|fuel IH]; intros s line; [by do 2 eexists|].
  destruct s as [|c s]; cbn [split_lines_go]; [by do 2 eexists|].
  destruct ((c =? 13) || (c =? 10)); [by do 2 eexists|apply IH].
Qed.

Lemma file_series_lookup now msgs series k m m0 :
  file_series now msgs = Some series -> msgs !! k = Some m -> msgs !! 0%nat = Some m0 ->
  series !! (2 * k)%nat = Some (num_add (ts m) (num_sub (num_of_Z now) (ts m0))) /\
  series !! (2 * k + 1)%nat = Some (default S754_nan (values m !! 0%nat)).
Proof.
  destruct msgs as [|m' msgs]; [done|]. cbn [file_series lookup list_lookup].
  intros <-%Some_inj Hk [= ->].
  generalize (num_sub (num_of_Z now) (ts m0)) as off. intros off.
  revert k Hk. generalize (m0 :: msgs) as l. induction l as [|a l IH]; intros [|k] Hk; try done.
  - by injection Hk as ->.
  - replace (2 * S k)%nat with (S (S (2 * k))) by lia. apply (IH k Hk).
Qed.

(** Were the messages read, the plotted time axis keeps the spacing of the
    file and starts at the present: the k-th time stamp is the current time
    plus the distance of the k-th from the first message, followed by the first
    value of the message. *)
Theorem file_series_aligned now msgs series k t t0 m m0 :
  safe now -> safe t -> safe t0 -> safe (now - t0) -> safe (now + (t - t0)) ->
  file_series now msgs = Some series ->
  msgs !! k = Some m -> msgs !! 0%nat = Some m0 -> ts m = num_of_Z t -> ts m0 = num_of_Z t0 ->
  series !! (2 * k)%nat = Some (num_of_Z (now + (t - t0))) /\
  series !! (2 * k + 1)%nat = Some (default S754_nan (values m !! 0%nat)).
Proof.
  intros Hn Ht Ht0 Hd Hr Hs Hk H0 Hm Hm0.
  destruct (file_series_lookup _ _ _ _ _ _ Hs Hk H0) as [-> ->]. split; [|done].
  rewrite Hm, Hm0, num_sub_Z, num_add_Z by (done || by replace (t + (now - t0)) with (now + (t - t0)) by lia).
  do 2 f_equal. lia.
Qed.

Definition demo_first : file_msg := {| ts := num_of_Z 5000; values := [num_of_Z 1] |}.
Definition demo_second : file_msg := {| ts := num_of_Z 5100; values := [num_of_Z 2] |}.

Lemma file_series_aligned_witness :
  exists series, file_series 9000 [demo_first; demo_second] = Some series /\
    series !! 2%nat = Some (num_of_Z 9100) /\ series !! 3%nat = Some (num_of_Z 2).
Proof.
  eexists. split; [reflexivity|].
  apply (file_series_aligned 9000 [demo_first; demo_second] _ 1 5100 5000 demo_second demo_first);
    try reflexivity; by vm_compute.
Defined.
