(* ===== verification/Config.v ===== *)
(** [etc/js/global.js] and [etc/js/config.js]: the scripted configuration.  The
    host name, the time stamp of the log file and the plugins found on disk are
    arguments; the program writes [JSON.stringify(global, null, 4)]. *)
From Stdlib Require Import String.
From S2P Require Import Prelude JsNumber JsString Json JsonRoundtrip.

Definition JInt (z : Z) : json := JNum (num_of_Z z).
Definition JText (s : string) : json := JStr (str s).

(** [module.exports] of global.js *)
Definition global (hostname iso_date : jstr) : list (jstr * json) := [
  (str "affinity", JInt 1);
  (str "priority", JInt 50);
  (str "stats", JInt 3);
  (str "name", JStr hostname);
  (str "log", JObj [
    (str "level", JInt 5);
    (str "faciltities", JArr [JText "path"; JText "socket"]);
    (str "file", JStr (str "/var/log/villas-node_" ++ iso_date ++ str ".log"))]);
  (str "http", JObj [
    (str "enabled", JBool true);
    (str "htdocs", JText "/villas/web/socket/");
    (str "port", JInt 80)])].

Definition config_nodes : json := JObj [
  (str "loopback_node", JObj [
    (str "vectorize", JInt 1); (str "type", JText "loopback"); (str "queuelen", JInt 10240)]);
  (str "socket_node", JObj [
    (str "type", JText "socket"); (str "local", JText "*:12000");
    (str "remote", JText "127.0.0.1:12000")])].

Definition config_paths : list json := [
  JObj [(str "in", JText "test_node"); (str "out", JText "socket_node");
        (str "queuelen", JInt 10000)];
  JObj [(str "in", JText "socket_node"); (str "out", JText "test_node");
        (str "queuelen", JInt 10000);
        (str "hooks", JArr [
          JObj [(str "type", JText "stats"); (str "warmup", JInt 100);
                (str "verbose", JBool true); (str "format", JText "human");
                (str "output", JText "./stats.log")];
          JObj [(str "type", JText "convert")]])]].

(** The object after the assignments of config.js; assigning a new property
    appends it. *)
Definition config (hostname iso_date : jstr) (plugins : list jstr) : json :=
  JObj (global hostname iso_date ++
        [(str "plugins", JArr (map JStr plugins)); (str "nodes", config_nodes);
         (str "paths", JArr config_paths)]).

(** What the script writes to its standard output. *)
Definition config_output (hostname iso_date : jstr) (plugins : list jstr) : option jstr :=
  stringify 4 (config hostname iso_date plugins).

(** The nodes a list of paths names. *)
Definition endpoints (path : json) : list jstr :=
  match path with
  | JObj l => flat_map (fun k => match property (str k) l with Some (JStr s) => [s] | _ => [] end)
                ["in"; "out"]%string
  | _ => []
  end.

Definition node_names (nodes : json) : list jstr :=
  match nodes with JObj l => map fst l | _ => [] end.

Lemma config_output_total hostname iso plugins :
  exists text, config_output hostname iso plugins = Some text.
Proof.
  apply serialize_total. unfold config, global. cbn -[config_nodes config_paths JInt].
  assert (forallb integral (map JStr plugins) = true) as ->.
  { by induction plugins. }
  by vm_compute.
Qed.

Lemma config_plain hostname iso plugins :
  forallb code_unit hostname = true -> forallb code_unit iso = true ->
  forallb (forallb code_unit) plugins = true ->
  plain (config hostname iso plugins) = true.
Proof.
  intros Hh Hi Hp. unfold config, global. cbn -[config_nodes config_paths].
  rewrite Hh, forallb_app, Hi.
  assert (forallb plain (map JStr plugins) = true) as ->.
  { rewrite forallb_forall in Hp |- *. intros v (s & <- & Hs)%in_map_iff. by apply Hp. }
  by vm_compute.
Qed.

(** The script always produces a document, and [JSON.parse]
    obtains from it exactly the object the script built, whatever the host
    name, the date and the plugins found. *)
Theorem config_output_parses hostname iso plugins :
  forallb code_unit hostname = true -> forallb code_unit iso = true ->
  forallb (forallb code_unit) plugins = true ->
  exists text, config_output hostname iso plugins = Some text /\
    parse text = Ok (config hostname iso plugins).
Proof.
  intros Hh Hi Hp. destruct (config_output_total hostname iso plugins) as [text Htext].
  exists text. split; [done|]. eapply parse_printed; [|exact Htext]. by apply config_plain.
Qed.

Lemma config_output_parses_witness :
  exists text, config_output (str "host") (str "2020-01-01T00:00:00.000Z") [str "/usr/share/a.so"] = Some text /\
    parse text = Ok (config (str "host") (str "2020-01-01T00:00:00.000Z") [str "/usr/share/a.so"]).
Proof. apply config_output_parses; by vm_compute. Defined.

(** The example refers to a node it does not define. *)
Lemma config_dangling_node :
  flat_map endpoints config_paths = [str "test_node"; str "socket_node"; str "socket_node"; str "test_node"] /\
  node_names config_nodes = [str "loopback_node"; str "socket_node"].
Proof. split; reflexivity. Qed.
