(* ===== verification/Callbacks.v ===== *)
(** [jQuery.Callbacks] (jquery-3.2.0.js), the callback lists that carry the
    document's ready event and every deferred.

    A list belongs to a larger state: the callbacks it runs may change the list
    they are called from, and others.  The component is therefore written over
    an interface that says where the list is kept, and [call], the behaviour of
    the callbacks, is an argument. *)
From Stdlib Require Import String.
From S2P Require Import Prelude.

(** ** Computations that may run out of fuel

    A callback can fire its own list again, so firing need not terminate;
    [None] is an execution that has not finished within the fuel. *)

(** A completed call has returned a value or thrown an exception of type [E]. *)
Inductive outcome (E A : Type) : Type := Ret (a : A) | Raise (e : E).
Arguments Ret {E A} a.
Arguments Raise {E A} e.

Definition proc (E S A : Type) : Type := S -> option (outcome E A * S).

#[export] Instance proc_ret {E S} : MRet (proc E S) := fun A a s => Some (Ret a, s).
#[export] Instance proc_bind {E S} : MBind (proc E S) := fun A B f m s =>
  match m s with
  | Some (Ret a, s') => f a s'
  | Some (Raise e, s') => Some (Raise e, s')
  | None => None
  end.
Definition p_get {E S} : proc E S S := fun s => Some (Ret s, s).
Definition p_modify {E S} (f : S -> S) : proc E S unit := fun s => Some (Ret tt, f s).
Definition p_throw {E S A} (e : E) : proc E S A := fun s => Some (Raise e, s).
Definition p_diverge {E S A} : proc E S A := fun _ => None.
(** [try] m [catch] h *)
Definition p_catch {E S A} (m : proc E S A) (h : E -> proc E S A) : proc E S A := fun s =>
  match m s with
  | Some (Raise e, s') => h e s'
  | r => r
  end.

Lemma proc_bind_ok {E S A B} (m : proc E S A) (f : A -> proc E S B) s a s' :
  m s = Some (Ret a, s') -> (m ≫= f) s = f a s'.
Proof. intros H. unfold mbind, proc_bind. by rewrite H. Qed.

Lemma proc_bind_throw {E S A B} (m : proc E S A) (f : A -> proc E S B) s e s' :
  m s = Some (Raise e, s') -> (m ≫= f) s = Some (Raise e, s').
Proof. intros H. unfold mbind, proc_bind. by rewrite H. Qed.

(** ** Options *)

Record options := { once : bool; o_memory : bool; unique : bool; stopOnFalse : bool }.

(** The words of an option string, split at the blanks of [rnothtmlwhite]. *)
Definition is_blank (c : Ascii.ascii) : bool :=
  match Ascii.nat_of_ascii c with 32%nat | 9%nat | 13%nat | 10%nat | 12%nat => true | _ => false end.

Fixpoint words_go (word s : string) : list string :=
  match s with
  | EmptyString => if String.eqb word EmptyString then [] else [word]
  | String c s =>
      if is_blank c then (if String.eqb word EmptyString then [] else [word]) ++ words_go EmptyString s
      else words_go (String.append word (String c EmptyString)) s
  end.

Definition has_word (w : string) (ws : list string) : bool := existsb (String.eqb w) ws.

(** [createOptions]; flags other than these four are never read. *)
Definition createOptions (s : string) : options :=
  let ws := words_go EmptyString s in
  {| once := has_word "once" ws; o_memory := has_word "memory" ws;
     unique := has_word "unique" ws; stopOnFalse := has_word "stopOnFalse" ws |}.

(** ** State *)

(** The variables of one list; [K] names its callbacks and [A] is the pair of
    context and arguments.  A spent list, an empty
    string in the source, is [None]. *)
Record callbacks (K A : Type) := {
  opts : options;
  firing : bool;
  memory : option A;
  fired : bool;
  locked : bool;
  cb_list : option (list K);
  queue : list A;
  firingIndex : Z;
}.
Arguments opts {K A}. Arguments firing {K A}. Arguments memory {K A}. Arguments fired {K A}.
Arguments locked {K A}. Arguments cb_list {K A}. Arguments queue {K A}. Arguments firingIndex {K A}.

#[export] Instance eta_callbacks {K A} : Eta (callbacks K A) := fun c => {|
  opts := opts c; firing := firing c; memory := memory c; fired := fired c; locked := locked c;
  cb_list := cb_list c; queue := queue c; firingIndex := firingIndex c |}.

(** [jQuery.Callbacks(options)] *)
Definition Callbacks {K A} (o : options) : callbacks K A := {|
  opts := o; firing := false; memory := None; fired := false; locked := false;
  cb_list := Some []; queue := []; firingIndex := -1 |}.

(** An argument of [add]: a function, an array-like value, or anything else. *)
Inductive arg (K : Type) := AFn (k : K) | AList (l : list (arg K)) | AOther.
Arguments AFn {K}. Arguments AList {K}. Arguments AOther {K}.

Section Pure.
Context {K A : Type} `{!EqDecision K}.
Implicit Types c : callbacks K A.

(** [jQuery.inArray(arg, list, i)] on a list of callbacks. *)
Fixpoint inArray_from (k : K) (l : list K) (pos i : nat) : Z :=
  match l with
  | [] => -1
  | x :: l => if (i <=? pos)%nat && bool_decide (x = k) then Z.of_nat pos else inArray_from k l (S pos) i
  end.
Definition inArray (k : K) (l : list K) (i : nat) : Z := inArray_from k l 0 i.

Definition list_of c : list K := default [] (cb_list c).

Definition has (k : K) c : bool := 0 <=? inArray k (list_of c) 0.
(** [has()] without an argument *)
Definition has_any c : bool := (0 <? length (list_of c))%nat.

(** The recursive function inside [add]. *)
Fixpoint add_arg (a : arg K) c : callbacks K A :=
  match a with
  | AFn k =>
      if negb (unique (opts c)) || negb (has k c)
      then c <| cb_list := option_map (fun l => l ++ [k]) (cb_list c) |> else c
  | AList l => (fix go l c := match l with [] => c | a :: l => go l (add_arg a c) end) l c
  | AOther => c
  end.
Definition add_args (l : list (arg K)) c : callbacks K A := fold_left (fun c a => add_arg a c) l c.

(** The loop of [remove] for one argument: [index] is where the search resumes.
    Every round removes an element, so the length of the list bounds them. *)
Fixpoint remove_loop (fuel : nat) (k : K) (index : nat) c : callbacks K A :=
  match fuel with
  | O => c
  | S fuel =>
      let i := inArray k (list_of c) index in
      if i <? 0 then c
      else
        let c := c <| cb_list := option_map (fun l => delete (Z.to_nat i) l) (cb_list c) |> in
        let c := if i <=? firingIndex c then c <| firingIndex := firingIndex c - 1 |> else c in
        remove_loop fuel k (Z.to_nat i) c
  end.
Definition remove (ks : list K) c : callbacks K A :=
  fold_left (fun c k => remove_loop (S (length (list_of c))) k 0 c) ks c.

Definition empty c : callbacks K A :=
  c <| cb_list := option_map (fun _ => []) (cb_list c) |>.

Definition disable c : callbacks K A :=
  c <| queue := [] |> <| locked := true |> <| memory := None |> <| cb_list := None |>.
Definition disabled c : bool := match cb_list c with None => true | Some _ => false end.

Definition lock c : callbacks K A :=
  let c := c <| queue := [] |> <| locked := true |> in
  match memory c with
  | None => if firing c then c else c <| memory := None |> <| cb_list := None |>
  | Some _ => c
  end.

(** What [fire] does after its loops. *)
Definition fire_end c : callbacks K A :=
  let c := if o_memory (opts c) then c else c <| memory := None |> in
  let c := c <| firing := false |> in
  if locked c then
    match memory c with
    | Some _ => c <| cb_list := Some [] |>
    | None => c <| cb_list := None |>
    end
  else c.
End Pure.

(** ** Firing *)

(** Where a list of a larger state is kept. *)
Class CbHost (K A St I : Type) := {
  cb_get : I -> St -> callbacks K A;
  cb_set : I -> callbacks K A -> St -> St;
  cb_get_set : forall i c s, cb_get i (cb_set i c s) = c;
}.

Section Firing.
Context {E K A St I : Type} `{!EqDecision K, !CbHost K A St I}.
(** A callback returns whether its value is [false]. *)
Context (call : K -> A -> proc E St bool).

Definition upd (i : I) (f : callbacks K A -> callbacks K A) : proc E St unit :=
  p_modify (fun s => cb_set i (f (cb_get i s)) s).

(** The inner loop: [while ( ++firingIndex < list.length )]. *)
Fixpoint fire_list (fuel : nat) (i : I) (mem : A) : proc E St unit :=
  match fuel with
  | O => p_diverge
  | S fuel =>
      upd i (fun c => c <| firingIndex := firingIndex c + 1 |>) ;;
      s ← p_get;
      let c := cb_get i s in
      match list_of c !! Z.to_nat (firingIndex c) with
      | None => mret tt
      | Some k =>
          is_false ← call k mem;
          (if (is_false : bool) && stopOnFalse (opts c) then
             upd i (fun c => c <| firingIndex := Z.of_nat (length (list_of c)) |> <| memory := None |>)
           else mret tt) ;;
          fire_list fuel i mem
      end
  end.

(** The outer loop: [for ( ; queue.length; firingIndex = -1 )]. *)
Fixpoint fire_queue (fuel : nat) (i : I) : proc E St unit :=
  match fuel with
  | O => p_diverge
  | S fuel =>
      s ← p_get;
      match queue (cb_get i s) with
      | [] => mret tt
      | m :: q =>
          upd i (fun c => c <| memory := Some m |> <| queue := q |>) ;;
          fire_list fuel i m ;;
          upd i (fun c => c <| firingIndex := -1 |>) ;;
          fire_queue fuel i
      end
  end.

(** The private function [fire]. *)
Definition fire (fuel : nat) (i : I) : proc E St unit :=
  upd i (fun c => c <| locked := locked c || once (opts c) |> <| fired := true |> <| firing := true |>) ;;
  fire_queue fuel i ;;
  upd i fire_end.

Definition has_memory (c : callbacks K A) : bool :=
  match memory c with Some _ => true | None => false end.

(** [self.add] *)
Definition add (fuel : nat) (i : I) (args : list (arg K)) : proc E St unit :=
  s ← p_get;
  let c := cb_get i s in
  match cb_list c with
  | None => mret tt
  | Some l =>
      (match memory c with
       | Some m =>
           if firing c then mret tt
           else upd i (fun c => c <| firingIndex := Z.of_nat (length l) - 1 |> <| queue := queue c ++ [m] |>)
       | None => mret tt
       end) ;;
      upd i (add_args args) ;;
      s ← p_get;
      let c := cb_get i s in
      if has_memory c && negb (firing c) then fire fuel i else mret tt
  end.

(** [self.fireWith]; [self.fire] is [fireWith] on the object itself. *)
Definition fireWith (fuel : nat) (i : I) (args : A) : proc E St unit :=
  s ← p_get;
  if locked (cb_get i s) then mret tt
  else
    upd i (fun c => c <| queue := queue c ++ [args] |>) ;;
    s ← p_get;
    if firing (cb_get i s) then mret tt else fire fuel i.
End Firing.
