(* ===== verification/CallbacksProps.v ===== *)
(** What [jQuery.Callbacks] promises: it refines a specification that only
    says which callbacks are called with which arguments, removal while firing
    neither skips nor repeats a callback, and an exception wedges the list. *)
From Stdlib Require Import String.
From S2P Require Import Prelude Callbacks.

(** ** Removal *)

Section Removal.
Context {K A : Type} `{!EqDecision K}.
Implicit Types (c : callbacks K A) (l : list K).

Lemma list_of_some c l : cb_list c = Some l -> list_of c = l.
Proof. unfold list_of. by intros ->. Qed.

Definition others (k : K) (l : list K) : list K := filter (fun x => x <> k) l.

Lemma inArray_from_spec k l pos i :
  (inArray_from k l pos i = -1 /\ k ∉ drop (i - pos) l) \/
  (exists j, inArray_from k l pos i = Z.of_nat (pos + j) /\ l !! j = Some k /\ (i <= pos + j)%nat /\
     forall m, (i <= pos + m)%nat -> (m < j)%nat -> l !! m <> Some k).
Proof.
  revert pos. induction l as [|x l IH]; intros pos; cbn [inArray_from].
  - left. rewrite drop_nil. split; [done|apply not_elem_of_nil].
  - destruct (Nat.leb_spec i pos) as [Hle|Hgt]; cbn [andb].
    + case_bool_decide as Hx; [right; exists 0%nat; subst; split_and!; [f_equal; lia|done|lia|lia]|].
      destruct (IH (S pos)) as [[-> Hni]|(j & -> & Hj & Hlt & Hm)].
      * left. split; [done|]. replace (i - pos)%nat with 0%nat by lia.
        replace (i - S pos)%nat with 0%nat in Hni by lia. rewrite !drop_0 in *.
        apply not_elem_of_cons. split; [congruence|done].
      * right. exists (S j). split_and!; [f_equal; lia|done|lia|].
        intros [|m] Hm1 Hm2; cbn; [congruence|]. apply Hm; lia.
    + destruct (IH (S pos)) as [[-> Hni]|(j & -> & Hj & Hlt & Hm)].
      * left. split; [done|]. replace (i - pos)%nat with (S (i - S pos)) by lia. done.
      * right. exists (S j). split_and!; [f_equal; lia|done|lia|].
        intros [|m] Hm1 Hm2; [lia|]. apply Hm; lia.
Qed.

Lemma others_delete k l j : l !! j = Some k -> others k (delete j l) = others k l.
Proof.
  intros Hj. unfold others. rewrite delete_take_drop.
  rewrite <- (take_drop_middle l j k Hj) at 3.
  rewrite !filter_app. f_equal. by rewrite filter_cons_False by (by intros H; apply H).
Qed.

Lemma others_id k l : k ∉ l -> others k l = l.
Proof.
  induction l as [|x l IH]; intros Hk; [done|]. apply not_elem_of_cons in Hk as [Hx Hk].
  unfold others in *. rewrite filter_cons_True by congruence. by rewrite IH.
Qed.

(** The number of callbacks up to the firing index that stay. *)
Definition kept_index (k : K) (l : list K) (fi : Z) : Z :=
  Z.of_nat (length (others k (take (Z.to_nat (fi + 1)) l))) - 1.

Lemma take_delete_before l j n :
  (j < n)%nat -> take (n - 1) (delete j l) = delete j (take n l).
Proof.
  revert j n. induction l as [|x l IH]; intros j n Hj.
  - rewrite (take_nil n). destruct j; cbn; by rewrite ?take_nil.
  - destruct n as [|n]; [lia|]. replace (S n - 1)%nat with n by lia. destruct j as [|j]; [done|].
    destruct n as [|n]; [lia|]. cbn. f_equal. rewrite <- IH by lia. by replace (S n - 1)%nat with n by lia.
Qed.

Lemma take_delete_after l j n : (n <= j)%nat -> take n (delete j l) = take n l.
Proof.
  revert j n. induction l as [|x l IH]; intros j n Hj; [done|].
  destruct n as [|n]; [done|]. destruct j as [|j]; [lia|]. cbn. f_equal. apply IH. lia.
Qed.

Lemma kept_index_delete k l j fi :
  l !! j = Some k -> -1 <= fi < Z.of_nat (length l) ->
  kept_index k (delete j l) (if Z.of_nat j <=? fi then fi - 1 else fi) = kept_index k l fi.
Proof.
  intros Hj Hfi. unfold kept_index. destruct (Z.leb_spec (Z.of_nat j) fi).
  - replace (Z.to_nat (fi - 1 + 1)) with (Z.to_nat (fi + 1) - 1)%nat by lia.
    rewrite take_delete_before by lia. rewrite others_delete; [done|].
    by rewrite lookup_take_lt by lia.
  - by rewrite take_delete_after by lia.
Qed.

Lemma kept_index_id k l fi :
  k ∉ l -> -1 <= fi < Z.of_nat (length l) -> kept_index k l fi = fi.
Proof.
  intros Hk Hfi. unfold kept_index. rewrite others_id.
  - rewrite length_take. lia.
  - intros Hin. apply Hk. apply elem_of_take in Hin as (i & Hi & _). by eapply list_elem_of_lookup_2.
Qed.

(** The removal loop, started at an index before which the callback does not occur. *)
Lemma remove_loop_spec fuel k index c l :
  cb_list c = Some l -> (forall m, (m < index)%nat -> l !! m <> Some k) -> (length l < fuel)%nat ->
  -1 <= firingIndex c < Z.of_nat (length l) ->
  remove_loop fuel k index c
  = c <| cb_list := Some (others k l) |> <| firingIndex := kept_index k l (firingIndex c) |>.
Proof.
  revert index c l. induction fuel as [|fuel IH]; intros index c l Hl Hpre Hf Hfi; [lia|].
  cbn [remove_loop]. rewrite (list_of_some c l Hl), Hl. unfold inArray. destruct (inArray_from_spec k l 0 index) as [[-> Hni]|(j & -> & Hj & Hlt & Hm)].
  - assert (k ∉ l) as Hk.
    { rewrite Nat.sub_0_r in Hni. intros (m & Hin)%list_elem_of_lookup. destruct (Nat.lt_ge_cases m index).
      - by eapply Hpre.
      - apply Hni, list_elem_of_lookup. exists (m - index)%nat. rewrite lookup_drop. by rewrite Nat.add_comm, Nat.sub_add. }
    cbn [Z.ltb Z.compare]. rewrite others_id, kept_index_id by done. destruct c; cbn in *. by subst.
  - rewrite Nat.add_0_l. replace (Z.of_nat j <? 0) with false by lia. cbn [option_map]. rewrite Nat2Z.id.
    pose proof (lookup_lt_Some _ _ _ Hj) as Hjl.
    assert (length (delete j l) = length l - 1)%nat as Hlen by (by apply length_delete).
    pose proof (kept_index_delete k l j (firingIndex c) Hj Hfi) as Hki.
    erewrite IH with (l := delete j l).
    + cbn [firingIndex set_field]. rewrite others_delete by done.
      destruct (Z.leb_spec (Z.of_nat j) (firingIndex c)); cbn [set_field firingIndex cb_list] in *;
        by rewrite Hki.
    + cbn [firingIndex set_field]. by destruct (Z.of_nat j <=? firingIndex c).
    + intros m Hmj. rewrite list_lookup_delete_lt by lia. destruct (Nat.lt_ge_cases m index); [by apply Hpre|apply Hm; lia].
    + lia.
    + cbn [firingIndex set_field]. destruct (Z.leb_spec (Z.of_nat j) (firingIndex c)); cbn; lia.
Qed.

Lemma remove_single k c l :
  cb_list c = Some l -> -1 <= firingIndex c < Z.of_nat (length l) ->
  remove [k] c
  = c <| cb_list := Some (others k l) |> <| firingIndex := kept_index k l (firingIndex c) |>.
Proof.
  intros Hl Hfi. unfold remove. cbn [fold_left].
  apply remove_loop_spec; [done|lia|rewrite (list_of_some c l Hl); lia|done].
Qed.

(** Removing a callback while the list is firing, itself included,
    removes all its occurrences and moves the firing index with the list: the
    callbacks already called and the callbacks still to be called are those of
    before without the removed one, so none is skipped or called twice. *)
Theorem remove_while_firing k c l :
  cb_list c = Some l -> -1 <= firingIndex c < Z.of_nat (length l) ->
  let called c := take (Z.to_nat (firingIndex c + 1)) (list_of c) in
  let pending c := drop (Z.to_nat (firingIndex c + 1)) (list_of c) in
  called (remove [k] c) = others k (called c) /\
  pending (remove [k] c) = others k (pending c) /\
  memory (remove [k] c) = memory c /\ queue (remove [k] c) = queue c.
Proof.
  intros Hl Hfi. cbv zeta. rewrite (remove_single k c l Hl Hfi), (list_of_some c l Hl).
  rewrite (list_of_some _ (others k l)) by done. cbn [firingIndex memory queue set_field].
  unfold kept_index. set (n := Z.to_nat (firingIndex c + 1)).
  replace (Z.to_nat (Z.of_nat (length (others k (take n l))) - 1 + 1))
    with (length (others k (take n l))) by lia.
  assert (others k l = others k (take n l) ++ others k (drop n l)) as ->.
  { unfold others. by rewrite <- filter_app, take_drop. }
  by rewrite take_app_length, drop_app_length.
Qed.
End Removal.

Definition demo_options : options := createOptions "once memory".

Lemma remove_while_firing_witness :
  let c := (Callbacks demo_options : callbacks nat unit)
             <| cb_list := Some [1; 2; 1; 3]%nat |> <| firingIndex := 2 |> in
  firingIndex (remove [1%nat] c) = 0 /\
  drop (Z.to_nat (firingIndex (remove [1%nat] c) + 1)) (list_of (remove [1%nat] c)) = [3%nat].
Proof.
  intros c. split; [by vm_compute|].
  destruct (remove_while_firing 1%nat c [1; 2; 1; 3]%nat eq_refl ltac:(cbn; lia)) as (_ & H & _).
  exact H.
Defined.

(** ** Steps of the loops *)

Section Steps.
Context {E K A St I : Type} `{!EqDecision K, !CbHost K A St I}.
Context (call : K -> A -> proc E St bool).

Lemma list_of_index (c : callbacks K A) n : list_of (c <| firingIndex := n |>) = list_of c.
Proof. reflexivity. Qed.

Lemma fire_list_S fuel (i : I) mem s :
  fire_list call (S fuel) i mem s
  = let c := (cb_get i s) <| firingIndex := firingIndex (cb_get i s) + 1 |> in
    match list_of c !! Z.to_nat (firingIndex c) with
    | None => Some (Ret tt, cb_set i c s)
    | Some k =>
        (is_false ← call k mem;
         (if (is_false : bool) && stopOnFalse (opts c) then
            upd i (fun c => c <| firingIndex := Z.of_nat (length (list_of c)) |> <| memory := None |>)
          else mret tt) ;;
         fire_list call fuel i mem) (cb_set i c s)
    end.
Proof.
  cbn [fire_list]. erewrite proc_bind_ok by done. erewrite proc_bind_ok by done. cbv beta zeta.
  rewrite cb_get_set. by destruct (list_of _ !! _).
Qed.

Lemma fire_queue_S fuel (i : I) s :
  fire_queue call (S fuel) i s
  = match queue (cb_get i s) with
    | [] => Some (Ret tt, s)
    | m :: q =>
        (fire_list call fuel i m ;; upd i (fun c => c <| firingIndex := -1 |>) ;; fire_queue call fuel i)
          (cb_set i ((cb_get i s) <| memory := Some m |> <| queue := q |>) s)
    end.
Proof.
  cbn [fire_queue]. erewrite proc_bind_ok by done. cbv beta. by destruct (queue (cb_get i s)).
Qed.
End Steps.

(** ** An abstract specification

    Without reentrancy a list behaves like a machine that remembers only its
    callbacks, the arguments to replay and whether it is locked. *)

Section Refinement.
Context {K A : Type} `{!EqDecision K}.
Context (o : options) (ret : K -> A -> bool).

Record spec := { s_list : option (list K); s_memory : option A; s_locked : bool; s_fired : bool }.

Definition spec_init : spec :=
  {| s_list := Some []; s_memory := None; s_locked := false; s_fired := false |}.

(** The calls one firing makes, and whether [stopOnFalse] ended it. *)
Fixpoint called (a : A) (ks : list K) : list (K * A) * bool :=
  match ks with
  | [] => ([], false)
  | k :: ks =>
      if ret k a && stopOnFalse o then ([(k, a)], true)
      else let '(l, b) := called a ks in ((k, a) :: l, b)
  end.

(** Fire the callbacks [ks], a suffix of the list [l]. *)
Definition spec_run (a : A) (ks : list K) (l : option (list K)) (s : spec) : list (K * A) * spec :=
  let '(lg, stopped) := called a ks in
  let mem := if o_memory o && negb stopped then Some a else None in
  let lk := s_locked s || once o in
  (lg, {| s_list := if lk then (match mem with Some _ => Some [] | None => None end) else l;
          s_memory := mem; s_locked := lk; s_fired := true |}).

Inductive op := OAdd (args : list (arg K)) | OFire (a : A) | ORemove (k : K) | OEmpty | ODisable | OLock.

(** The functions in the arguments of [add], from left to right. *)
Fixpoint functions (a : arg K) : list K :=
  match a with AFn k => [k] | AList l => flat_map functions l | AOther => [] end.
(** Those that are not among [seen], each where it occurs first. *)
Fixpoint new_ones (seen l : list K) : list K :=
  match l with
  | [] => []
  | k :: l => if decide (k ∈ seen) then new_ones seen l else k :: new_ones (k :: seen) l
  end.
(** The callbacks of a list after [add]: with the option [unique] none is there
    twice on account of [add]. *)
Definition appended (l fs : list K) : list K := l ++ if unique o then new_ones l fs else fs.
Definition grown (args : list (arg K)) (l : list K) : list K := appended l (flat_map functions args).

Definition spec_step (x : op) (s : spec) : list (K * A) * spec :=
  match x with
  | OAdd args =>
      match s_list s with
      | None => ([], s)
      | Some l =>
          let l' := grown args l in
          match s_memory s with
          | Some m => spec_run m (drop (length l) l') (Some l') s
          | None => ([], {| s_list := Some l'; s_memory := None;
                            s_locked := s_locked s; s_fired := s_fired s |})
          end
      end
  | OFire a =>
      if s_locked s then ([], s) else spec_run a (default [] (s_list s)) (s_list s) s
  | ORemove k => ([], {| s_list := option_map (others k) (s_list s); s_memory := s_memory s;
                         s_locked := s_locked s; s_fired := s_fired s |})
  | OEmpty => ([], {| s_list := option_map (fun _ => []) (s_list s); s_memory := s_memory s;
                      s_locked := s_locked s; s_fired := s_fired s |})
  | ODisable => ([], {| s_list := None; s_memory := None; s_locked := true; s_fired := s_fired s |})
  | OLock =>
      ([], match s_memory s with
           | Some _ => {| s_list := s_list s; s_memory := s_memory s; s_locked := true;
                          s_fired := s_fired s |}
           | None => {| s_list := None; s_memory := None; s_locked := true; s_fired := s_fired s |}
           end)
  end.

Fixpoint spec_steps (xs : list op) (s : spec) : list (K * A) * spec :=
  match xs with
  | [] => ([], s)
  | x :: xs => let '(l1, s1) := spec_step x s in let '(l2, s2) := spec_steps xs s1 in (l1 ++ l2, s2)
  end.

(** ** The implementation with logging callbacks *)

Record world := { w_cb : callbacks K A; w_log : list (K * A) }.

#[export] Instance eta_world : Eta world := fun w => {| w_cb := w_cb w; w_log := w_log w |}.

#[export] Instance world_host : CbHost K A world unit := {|
  cb_get _ w := w_cb w; cb_set _ c w := w <| w_cb := c |>;
  cb_get_set _ _ _ := eq_refl |}.

Definition log_call (k : K) (a : A) : proc Empty_set world bool :=
  p_modify (fun w => w <| w_log := w_log w ++ [(k, a)] |>) ;; mret (ret k a).

Definition step (fuel : nat) (x : op) : proc Empty_set world unit :=
  match x with
  | OAdd args => add log_call fuel tt args
  | OFire a => fireWith log_call fuel tt a
  | ORemove k => upd tt (remove [k])
  | OEmpty => upd tt empty
  | ODisable => upd tt disable
  | OLock => upd tt lock
  end.

Fixpoint steps (fuel : nat) (xs : list op) : proc Empty_set world unit :=
  match xs with [] => mret tt | x :: xs => step fuel x ;; steps fuel xs end.

(** The concrete state of an idle list. *)
Definition idle (s : spec) : callbacks K A := {|
  opts := o; firing := false; memory := s_memory s; fired := s_fired s; locked := s_locked s;
  cb_list := s_list s; queue := []; firingIndex := -1 |}.

Lemma log_call_value k a w :
  log_call k a w = Some (Ret (ret k a), w <| w_log := w_log w ++ [(k, a)] |>).
Proof. reflexivity. Qed.

Lemma fire_list_called fuel a w ks :
  let c := w_cb w in
  opts c = o -> -1 <= firingIndex c < Z.of_nat (length (list_of c)) ->
  drop (Z.to_nat (firingIndex c + 1)) (list_of c) = ks -> (length ks < fuel)%nat ->
  exists n, fire_list log_call fuel tt a w
    = Some (Ret tt, w <| w_log := w_log w ++ fst (called a ks) |>
                     <| w_cb := c <| firingIndex := n |>
                                  <| memory := if snd (called a ks) then None else memory c |> |>).
Proof.
  revert w ks. induction fuel as [|fuel IH]; intros w ks; cbv zeta; intros Ho Hj Hks Hf; [lia|].
  rewrite fire_list_S. cbv zeta. rewrite list_of_index.
  change (cb_get tt w) with (w_cb w). cbn [firingIndex set_field].
  assert (list_of (w_cb w) !! Z.to_nat (firingIndex (w_cb w) + 1) = head ks) as ->.
  { rewrite <- Hks, head_lookup, lookup_drop. f_equal. lia. }
  destruct ks as [|k ks]; cbn [head].
  { exists (firingIndex (w_cb w) + 1). cbn [called fst snd]. rewrite app_nil_r. by destruct w as [[] ?]. }
  erewrite proc_bind_ok by apply log_call_value. 
  match goal with |- context [stopOnFalse (opts ?c)] =>
    replace (stopOnFalse (opts c)) with (stopOnFalse o) by (by rewrite <- Ho) end.
  cbn [called].
  destruct (ret k a && stopOnFalse o).
  - (* stop: the index is moved past the end *)
    destruct fuel as [|fuel]; [cbn in Hf; lia|].
    erewrite proc_bind_ok by done. rewrite fire_list_S. cbv zeta. rewrite list_of_index.
    match goal with |- context [list_of ?c !! ?j] =>
      replace (list_of c !! j) with (@None K) end.
    + exists (Z.of_nat (length (list_of (w_cb w))) + 1). by destruct w as [[] ?].
    + symmetry. apply lookup_ge_None_2. cbn. unfold list_of. cbn. lia.
  - erewrite proc_bind_ok by done.
    edestruct (IH (cb_set tt ((w_cb w) <| firingIndex := firingIndex (w_cb w) + 1 |>) w
                  <| w_log := w_log w ++ [(k, a)] |>) ks) as [n Hn].
    + done.
    + change (-1 <= firingIndex (w_cb w) + 1 < Z.of_nat (length (list_of (w_cb w)))).
      apply (f_equal length) in Hks. rewrite length_drop in Hks. cbn in Hks. lia.
    + change (drop (Z.to_nat (firingIndex (w_cb w) + 1 + 1)) (list_of (w_cb w)) = ks).
      replace (Z.to_nat (firingIndex (w_cb w) + 1 + 1)) with (Z.to_nat (firingIndex (w_cb w) + 1) + 1)%nat by lia.
      rewrite <- drop_drop, Hks. done.
    + cbn in Hf. lia.
    + exists n. etrans; [exact Hn|]. destruct (called a ks) as [lg b]. cbn [fst snd].
      do 2 f_equal. destruct w as [[] lg']; cbn. by rewrite <- app_assoc.
Qed.

Lemma fire_idle fuel a s l j lg ks :
  -1 <= j < Z.of_nat (length (default [] l)) -> drop (Z.to_nat (j + 1)) (default [] l) = ks ->
  (length ks + 2 <= fuel)%nat ->
  fire log_call fuel tt
    {| w_cb := (idle s) <| cb_list := l |> <| firingIndex := j |> <| queue := [a] |>; w_log := lg |}
  = Some (Ret tt, {| w_cb := idle (snd (spec_run a ks l s)); w_log := lg ++ fst (spec_run a ks l s) |}).
Proof.
  intros Hj Hks Hf. unfold fire. erewrite proc_bind_ok by done.
  destruct fuel as [|[|fuel]]; [lia..|].
  set (c := (idle s) <| cb_list := l |> <| firingIndex := j |>).
  set (w := {| w_cb := c <| locked := locked c || once o |> <| fired := true |> <| firing := true |>
                         <| memory := Some a |>; w_log := lg |}).
  destruct (fire_list_called (S fuel) a w ks eq_refl Hj Hks ltac:(lia)) as [n Hn].
  erewrite proc_bind_ok.
  2: { rewrite fire_queue_S. cbn [queue cb_get world_host w_cb cb_set set_field].
       erewrite proc_bind_ok by exact Hn. erewrite proc_bind_ok by done.
       rewrite fire_queue_S. reflexivity. }
  unfold upd, p_modify. do 2 f_equal. unfold spec_run.
  destruct (called a ks) as [lg' b]. unfold idle, fire_end. cbn.
  by destruct b, (o_memory o), (s_locked s || once o).
Qed.

Lemma add_arg_rest (a : arg K) (c : callbacks K A) :
  add_arg a c = c <| cb_list := cb_list (add_arg a c) |>.
Proof.
  revert a c. fix IH 1. intros a c. destruct a as [k|l|]; cbn [add_arg].
  - destruct (_ || _); by destruct c.
  - revert c. induction l as [|a l IHl]; intros c; [by destruct c|].
    rewrite IHl. rewrite (IH a c) at 1. done.
  - by destruct c.
Qed.

Lemma add_args_rest (l : list (arg K)) (c : callbacks K A) :
  add_args l c = c <| cb_list := cb_list (add_args l c) |>.
Proof.
  unfold add_args. revert c. induction l as [|a l IH]; intros c; cbn [fold_left]; [by destruct c|].
  rewrite IH. rewrite (add_arg_rest a c) at 1. done.
Qed.

(** [add] appends the functions of its arguments. *)
Lemma new_ones_perm seen seen' l : (forall k, k ∈ seen <-> k ∈ seen') -> new_ones seen l = new_ones seen' l.
Proof.
  revert seen seen'. induction l as [|k l IH]; intros seen seen' Hs; cbn; [done|].
  rewrite (decide_ext (k ∈ seen) (k ∈ seen')) by done. case_decide; [by apply IH|]. f_equal. apply IH. set_solver.
Qed.
Lemma new_ones_app seen l l' : new_ones seen (l ++ l') = new_ones seen l ++ new_ones (seen ++ new_ones seen l) l'.
Proof.
  revert seen. induction l as [|k l IH]; intros seen; cbn; [by rewrite app_nil_r|]. case_decide; [apply IH|].
  cbn. rewrite IH. do 2 f_equal. apply new_ones_perm. set_solver.
Qed.
Lemma appended_app l fs gs : appended (appended l fs) gs = appended l (fs ++ gs).
Proof. unfold appended. destruct (unique o); [by rewrite new_ones_app, app_assoc|by rewrite app_assoc]. Qed.
Lemma appended_nil l : appended l [] = l.
Proof. unfold appended. destruct (unique o); cbn; apply app_nil_r. Qed.

Lemma has_spec k (c : callbacks K A) l : cb_list c = Some l -> has k c = bool_decide (k ∈ l).
Proof.
  intros Hl. unfold has, inArray. rewrite (list_of_some c l Hl).
  destruct (inArray_from_spec k l 0 0) as [[-> Hni]|(j & -> & Hj & _)].
  - by rewrite bool_decide_eq_false_2.
  - rewrite bool_decide_eq_true_2 by (by eapply list_elem_of_lookup_2). apply Z.leb_le. lia.
Qed.

Lemma add_arg_appends (a : arg K) (c : callbacks K A) l : opts c = o -> cb_list c = Some l ->
  cb_list (add_arg a c) = Some (appended l (functions a)).
Proof.
  revert a c l. fix IH 1. intros a c l Ho Hl. destruct a as [k|as_|]; cbn [add_arg functions].
  - rewrite (has_spec k c l Hl), Ho. unfold appended. cbn. destruct (unique o); cbn; rewrite ?Hl; [|done].
    case_decide as Hk; [rewrite bool_decide_eq_true_2 by done|rewrite bool_decide_eq_false_2 by done]; cbn; by rewrite ?Hl, ?app_nil_r.
  - revert c l Ho Hl. induction as_ as [|a as_ IHl]; intros c l Ho Hl; cbn [flat_map]; [by rewrite appended_nil|].
    rewrite <- appended_app. apply IHl; [by rewrite (add_arg_rest a c)|by apply IH].
  - by rewrite appended_nil.
Qed.

Lemma add_args_grown args (c : callbacks K A) l :
  opts c = o -> cb_list c = Some l ->
  add_args args c = c <| cb_list := Some (grown args l) |> /\ (length l <= length (grown args l))%nat.
Proof.
  intros Ho Hl. split; [|unfold grown, appended; rewrite length_app; lia]. rewrite add_args_rest. f_equal.
  cut (cb_list (add_args args c) = Some (grown args l)); [by intros ->|].
  unfold add_args, grown. revert c l Ho Hl. induction args as [|a args IH]; intros c l Ho Hl; cbn [fold_left flat_map]; [by rewrite appended_nil|].
  rewrite <- appended_app. apply IH; [by rewrite (add_arg_rest a c)|by apply add_arg_appends].
Qed.

Lemma step_refines x s :
  exists N, forall fuel lg, (N <= fuel)%nat ->
    step fuel x {| w_cb := idle s; w_log := lg |}
    = Some (Ret tt, {| w_cb := idle (snd (spec_step x s)); w_log := lg ++ fst (spec_step x s) |}).
Proof.
  destruct x as [args|a|k| | |]; cbn [step spec_step].
  - destruct (s_list s) as [l|] eqn:Hl.
    2: { exists 0%nat. intros fuel lg _. unfold add. erewrite proc_bind_ok by done.
         cbn [cb_get world_host w_cb idle cb_list]. rewrite Hl. cbn. by rewrite app_nil_r. }
    exists (length (grown args l) + 2)%nat. intros fuel lg Hf.
    unfold add. erewrite proc_bind_ok by done. cbn [cb_get world_host w_cb idle cb_list memory]. rewrite Hl.
    destruct (s_memory s) as [m|] eqn:Hm; cbn [firing].
    + set (c := (idle s) <| firingIndex := Z.of_nat (length l) - 1 |> <| queue := [m] |>).
      destruct (add_args_grown args c l eq_refl Hl) as [Hadd Hlen].
      erewrite proc_bind_ok by done. cbv beta.
      erewrite proc_bind_ok by done. cbv beta. erewrite proc_bind_ok by done. cbv beta.
      cbn [cb_get world_host w_cb cb_set set_field].
      match goal with |- context [add_args args ?d] => change d with c end.
      rewrite Hadd. unfold has_memory. cbn [memory set_field c firing idle]. rewrite Hm.
      rewrite <- (fire_idle fuel m s (Some (grown args l)) (Z.of_nat (length l) - 1) lg).
      * cbn [andb negb]. f_equal. unfold c, idle. cbn. by rewrite Hm.
      * cbn [default from_option]. unfold id. destruct (grown args l); cbn in *; lia.
      * cbn [default from_option]. unfold id. f_equal. lia.
      * rewrite length_drop. lia.
    + destruct (add_args_grown args (idle s) l eq_refl Hl) as [Hadd Hlen].
      erewrite proc_bind_ok by done. cbv beta.
      erewrite proc_bind_ok by done. cbv beta. erewrite proc_bind_ok by done. cbv beta.
      cbn [cb_get world_host w_cb cb_set set_field]. rewrite Hadd.
      unfold has_memory. cbn [memory set_field idle]. rewrite Hm. cbn. rewrite app_nil_r.
      unfold idle. cbn. by rewrite ?Hm.
  - exists (length (default [] (s_list s)) + 2)%nat. intros fuel lg Hf. unfold fireWith.
    erewrite proc_bind_ok by done. cbn [cb_get world_host w_cb idle locked].
    destruct (s_locked s) eqn:Hk; [cbn; by rewrite app_nil_r|].
    erewrite proc_bind_ok by done. cbv beta. erewrite proc_bind_ok by done. cbv beta.
    cbn [cb_get world_host w_cb idle firing set_field cb_set].
    apply (fire_idle fuel a s (s_list s) (-1) lg); [lia|done|lia].
  - exists 0%nat. intros fuel lg _. cbn [fst snd]. rewrite app_nil_r. unfold upd, p_modify. do 2 f_equal.
    change (cb_set tt (remove [k] (idle s)) {| w_cb := idle s; w_log := lg |})
      with {| w_cb := remove [k] (idle s); w_log := lg |}. f_equal.
    destruct (s_list s) as [[|x l]|] eqn:Hl.
    + unfold idle, remove. cbn [fold_left cb_list list_of default from_option]. rewrite Hl. done.
    + rewrite (remove_single k (idle s) (x :: l)); [|done|cbn; lia]. unfold idle. cbn. done.
    + unfold idle, remove. cbn [fold_left cb_list list_of default from_option]. rewrite Hl. done.
  - exists 0%nat. intros fuel lg _. cbn. rewrite app_nil_r. unfold upd, p_modify. do 2 f_equal.
  - exists 0%nat. intros fuel lg _. cbn. rewrite app_nil_r. unfold upd, p_modify. do 2 f_equal.
  - exists 0%nat. intros fuel lg _. cbn. rewrite app_nil_r. unfold upd, p_modify. do 2 f_equal.
    cbn. unfold lock, idle. cbn. by destruct (s_memory s).
Qed.

Lemma steps_refine xs s :
  exists N, forall fuel lg, (N <= fuel)%nat ->
    steps fuel xs {| w_cb := idle s; w_log := lg |}
    = Some (Ret tt, {| w_cb := idle (snd (spec_steps xs s)); w_log := lg ++ fst (spec_steps xs s) |}).
Proof.
  revert s. induction xs as [|x xs IH]; intros s.
  { exists 0%nat. intros fuel lg _. cbn. by rewrite app_nil_r. }
  destruct (step_refines x s) as [N1 H1]. destruct (IH (snd (spec_step x s))) as [N2 H2].
  exists (max N1 N2). intros fuel lg Hf. cbn [steps spec_steps].
  erewrite proc_bind_ok by (apply H1; lia). rewrite H2 by lia.
  destruct (spec_step x s) as [l1 s1]. cbn [fst snd]. destruct (spec_steps xs s1) as [l2 s2].
  by rewrite <- app_assoc.
Qed.

(** C7. For all sixteen combinations of options and every sequence of [add],
    [fire], [remove], [empty], [disable] and [lock] on a new list, the
    implementation terminates without an exception, calls exactly the
    callbacks the specification says with the same arguments in the same
    order, and is idle again with the list, memory and lock of the specification. *)
Theorem callbacks_refine xs :
  exists N, forall fuel, (N <= fuel)%nat ->
    steps fuel xs {| w_cb := Callbacks o; w_log := [] |}
    = Some (Ret tt, {| w_cb := idle (snd (spec_steps xs spec_init));
                      w_log := fst (spec_steps xs spec_init) |}).
Proof.
  destruct (steps_refine xs spec_init) as [N HN]. exists N. intros fuel Hf. by apply HN.
Qed.
End Refinement.

(** ** Deferred-style lists *)

Section Once.
Context {K A : Type} `{!EqDecision K} (ret : K -> A -> bool).

Inductive request := RAdd (k : K) | RFire (a : A).

Definition op_of (r : request) : op := match r with RAdd k => OAdd [AFn k] | RFire a => OFire a end.
Definition added (rs : list request) : list K := flat_map (fun r => match r with RAdd k => [k] | _ => [] end) rs.
Definition first_fire (rs : list request) : option A :=
  head (flat_map (fun r => match r with RFire a => [a] | _ => [] end) rs).

Lemma called_all (a : A) ks :
  called demo_options ret a ks = (map (fun k => (k, a)) ks, false).
Proof.
  induction ks as [|k ks IH]; [done|]. cbn [called]. change (stopOnFalse demo_options) with false.
  rewrite andb_false_r, IH. done.
Qed.

Lemma grown_single k (l : list K) : grown demo_options [AFn k] l = l ++ [k].
Proof. reflexivity. Qed.

Lemma once_fired (a : A) rs s :
  s_list s = Some [] -> s_memory s = Some a -> s_locked s = true ->
  fst (spec_steps demo_options ret (map op_of rs) s) = map (fun k => (k, a)) (added rs).
Proof.
  revert s. induction rs as [|[k|b] rs IH]; intros s Hl Hm Hk; [done| |]; cbn [map op_of spec_steps spec_step].
  - rewrite Hl, Hm, grown_single. unfold spec_run. cbn [length drop app]. rewrite called_all, Hk.
    specialize (IH {| s_list := Some []; s_memory := Some a; s_locked := true; s_fired := true |}
      eq_refl eq_refl eq_refl).
    cbn in IH |- *. destruct (spec_steps _ _ _ _) as [l2 s2]. cbn in *. by rewrite IH.
  - rewrite Hk. specialize (IH s Hl Hm Hk). destruct (spec_steps _ _ _ _) as [l2 s2]. exact IH.
Qed.

Lemma once_pending rs l s :
  s_list s = Some l -> s_memory s = None -> s_locked s = false ->
  fst (spec_steps demo_options ret (map op_of rs) s)
  = match first_fire rs with Some a => map (fun k => (k, a)) (l ++ added rs) | None => [] end.
Proof.
  revert l s. induction rs as [|[k|b] rs IH]; intros l s Hl Hm Hk; [done| |]; cbn [map op_of spec_steps spec_step].
  - rewrite Hl, Hm, grown_single.
    specialize (IH (l ++ [k]) {| s_list := Some (l ++ [k]); s_memory := None; s_locked := s_locked s;
      s_fired := s_fired s |} eq_refl eq_refl Hk).
    destruct (spec_steps _ _ _ _) as [l2 s2]. cbn [fst app] in *. rewrite IH.
    by rewrite <- app_assoc.
  - rewrite Hk, Hl. cbn [default from_option]. unfold id, spec_run. rewrite called_all.
    change (o_memory demo_options && negb false) with true.
    change (once demo_options) with true. rewrite orb_true_r. cbv iota.
    set (s' := {| s_list := Some []; s_memory := Some b; s_locked := true; s_fired := true |}).
    pose proof (once_fired b rs s' eq_refl eq_refl eq_refl) as Hf.
    destruct (spec_steps _ _ _ s') as [l2 s2]. cbn [fst first_fire flat_map head app] in *.
    by rewrite Hf, map_app.
Qed.

(** The contract of a deferred's list ("once memory"): whatever the order
    in which callbacks are added and the list is fired, and however often it is
    fired, every callback is called exactly once, in the order of registration,
    with the arguments of the first firing; without a firing none is called. *)
Theorem once_memory_contract rs :
  exists N, forall fuel, (N <= fuel)%nat -> exists c,
    steps ret fuel (map op_of rs) {| w_cb := Callbacks (createOptions "once memory"); w_log := [] |}
    = Some (Ret tt, {| w_cb := c;
        w_log := match first_fire rs with
                 | Some a => map (fun k => (k, a)) (added rs)
                 | None => []
                 end |}).
Proof.
  destruct (steps_refine demo_options ret (map op_of rs) spec_init) as [N HN].
  exists N. intros fuel Hf. eexists.
  etrans; [exact (HN fuel [] Hf)|]. cbn [app]. do 3 f_equal.
  by apply (once_pending rs [] spec_init).
Qed.
End Once.

(** ** Exceptions *)

Section Wedge.
Context {E K A St I : Type} `{!EqDecision K, !CbHost K A St I}.
Context (call : K -> A -> proc E St bool) (i : I).

(** Callbacks never clear the flag of a list that is firing: only the end of
    [fire] does. *)
Hypothesis call_firing : forall k a s r s',
  call k a s = Some (r, s') -> firing (cb_get i s) = true -> firing (cb_get i s') = true.

Lemma fire_list_firing fuel mem s r s' :
  fire_list call fuel i mem s = Some (r, s') -> firing (cb_get i s) = true -> firing (cb_get i s') = true.
Proof using call_firing.
  revert s. induction fuel as [|fuel IH]; intros s Hs Hf; [done|].
  rewrite fire_list_S in Hs. cbv zeta in Hs. set (c := (cb_get i s) <| firingIndex := _ |>) in Hs.
  assert (firing (cb_get i (cb_set i c s)) = true) as Hc by (rewrite cb_get_set; exact Hf).
  destruct (list_of c !! _) as [k|]; [|by injection Hs as <- <-].
  unfold mbind at 1, proc_bind at 1 in Hs.
  destruct (call k mem (cb_set i c s)) as [[[b|e] s1]|] eqn:Hcall; [| |done].
  2: { injection Hs as <- <-. by eapply call_firing. }
  pose proof (call_firing _ _ _ _ _ Hcall Hc) as H1.
  destruct (b && stopOnFalse (opts c)).
  - erewrite proc_bind_ok in Hs by done. eapply IH; [exact Hs|]. by rewrite cb_get_set.
  - erewrite proc_bind_ok in Hs by done. by eapply IH.
Qed.

Lemma fire_queue_throw fuel s e s' :
  fire_queue call fuel i s = Some (Raise e, s') -> firing (cb_get i s) = true ->
  firing (cb_get i s') = true.
Proof using call_firing.
  revert s. induction fuel as [|fuel IH]; intros s Hs Hf; [done|].
  rewrite fire_queue_S in Hs. destruct (queue (cb_get i s)) as [|m q]; [done|].
  set (s0 := cb_set i _ s) in Hs.
  assert (firing (cb_get i s0) = true) as H0 by (unfold s0; rewrite cb_get_set; exact Hf).
  unfold mbind at 1, proc_bind at 1 in Hs.
  destruct (fire_list call fuel i m s0) as [[[[]|e'] s1]|] eqn:Hl; [| |done].
  - pose proof (fire_list_firing _ _ _ _ _ Hl H0) as H1.
    erewrite proc_bind_ok in Hs by done. eapply IH; [exact Hs|]. by rewrite cb_get_set.
  - injection Hs as <- <-. by eapply fire_list_firing.
Qed.

(** After a callback has thrown, the list stays marked as firing for good:
    every later [fire] returns normally, calls nothing, and only queues its
    arguments (or does nothing when the list is locked). *)
Theorem throw_wedges fuel a s e s' :
  fireWith call fuel i a s = Some (Raise e, s') -> firing (cb_get i s) = false ->
  firing (cb_get i s') = true /\
  forall fuel' b,
    fireWith call fuel' i b s'
    = Some (Ret tt, if locked (cb_get i s') then s'
                   else cb_set i ((cb_get i s') <| queue := queue (cb_get i s') ++ [b] |>) s').
Proof using call_firing.
  intros Hs Hf.
  assert (firing (cb_get i s') = true) as Hw.
  { unfold fireWith in Hs. erewrite proc_bind_ok in Hs by done.
    destruct (locked (cb_get i s)); [done|].
    erewrite proc_bind_ok in Hs by done. erewrite proc_bind_ok in Hs by done.
    rewrite cb_get_set in Hs. cbn [firing set_field] in Hs. rewrite Hf in Hs.
    unfold fire in Hs. erewrite proc_bind_ok in Hs by done.
    unfold mbind at 1, proc_bind at 1 in Hs.
    set (s0 := cb_set i _ (cb_set i _ s)) in Hs.
    destruct (fire_queue call fuel i s0) as [[[[]|e'] s1]|] eqn:Hq; [done| |done].
    injection Hs as <- <-. eapply fire_queue_throw; [exact Hq|].
    unfold s0. by rewrite cb_get_set. }
  split; [done|]. intros fuel' b. unfold fireWith. erewrite proc_bind_ok by done.
  destruct (locked (cb_get i s')); [done|].
  erewrite proc_bind_ok by done. erewrite proc_bind_ok by done.
  rewrite cb_get_set. cbn [firing set_field]. by rewrite Hw.
Qed.
End Wedge.

(** A list of one callback that throws. *)
Definition throwing_call (k : nat) (a : nat) : proc js_error (world (K := nat) (A := nat)) bool := p_throw TypeError.
Definition demo_world : world (K := nat) (A := nat) :=
  {| w_cb := (Callbacks (createOptions EmptyString)) <| cb_list := Some [1%nat] |>; w_log := [] |}.

Lemma throw_wedges_witness :
  exists s', fireWith throwing_call 5 tt 7%nat demo_world = Some (Raise TypeError, s') /\
    firing (w_cb s') = true /\
    exists s'', fireWith throwing_call 5 tt 8%nat s' = Some (Ret tt, s'') /\ queue (w_cb s'') = [8%nat].
Proof.
  destruct (fireWith throwing_call 5 tt 7%nat demo_world) as [[[[]|e] s']|] eqn:Hs; [done| |done].
  assert (e = TypeError) as -> by (vm_compute in Hs; congruence).
  destruct (throw_wedges throwing_call tt ltac:(by intros k a s r s1 [= <- <-] ?) 5 7%nat demo_world
    TypeError s' Hs eq_refl) as [H1 H2].
  exists s'. split; [done|]. split; [exact H1|]. eexists. split; [exact (H2 5%nat 8%nat)|].
  assert (locked (cb_get tt s') = false /\ queue (w_cb s') = []) as [-> Hq]
    by (vm_compute in Hs; by injection Hs as <-).
  cbn. by rewrite Hq.
Defined.
