(* ===== verification/Deferred.v ===== *)
(** [jQuery.Deferred], [then], [when] and the document's ready list
    (jquery-3.2.0.js).

    A deferred is six callback lists and a state.  All deferreds live in one
    world together with the queue of timeouts; user functions are scripts that
    may settle deferreds, add callbacks and chain while they run, so every
    reentrancy the code allows can be expressed. *)
From S2P Require Import Prelude Callbacks.

(** ** Data *)

(** The values that pass through deferreds.  A promise is the only thenable:
    foreign thenables are not modelled. *)
Inductive value :=
  | VUndefined
  | VNum (z : Z)
  | VArr (l : list value)
  | VTypeError                  (* an exception of the library's own *)
  | VPromise (d : nat).

Inductive tuple := Notify | Resolve | Reject.

#[export] Instance tuple_eq_dec : EqDecision tuple.
Proof. solve_decision. Defined.

(** [tuple[2]] and [tuple[3]] *)
Inductive slot := Main (t : tuple) | Handlers (t : tuple).

#[export] Instance slot_eq_dec : EqDecision slot.
Proof. solve_decision. Defined.

Inductive dstate := Pending | Resolved | Rejected.

#[export] Instance dstate_eq_dec : EqDecision dstate.
Proof. solve_decision. Defined.

(** A handler given to [then]: a user function, the two defaults, or a closure
    made by [resolve]. *)
Inductive handler :=
  | HUser (f : nat)
  | HIdentity
  | HThrower
  | HProc (p : processor)
(** The variables a closure of [resolve(depth, deferred, handler, special)]
    captures; [special], when given, is [notifyWith] of the same deferred. *)
with processor := Proc (depth : nat) (deferred : nat) (h : handler) (special : bool).

(** The functions found in callback lists. *)
Inductive callback :=
  | KState (d : nat) (st : dstate)    (* state = stateString *)
  | KDisable (d : nat) (t : tuple)    (* tuples[ 3 - i ][ 2 ].disable *)
  | KLock (d : nat)                   (* tuples[ 0 ][ 2 ].lock *)
  | KFire (d : nat) (t : tuple)       (* tuple[ 3 ].fire *)
  | KUser (f : nat)
  | KProc (p : processor)
  | KUpdate (w i : nat)               (* updateFunc( i ) of a call of when *)
  | KSettle (d : nat) (t : tuple).    (* deferred.resolve, reject or notify *)

Fixpoint handler_eq (a b : handler) : {a = b} + {a <> b}
with processor_eq (p q : processor) : {p = q} + {p <> q}.
Proof.
  - decide equality. apply Nat.eq_dec.
  - decide equality; [apply Bool.bool_dec|apply Nat.eq_dec|apply Nat.eq_dec].
Defined.

#[export] Instance handler_eq_dec : EqDecision handler := handler_eq.
#[export] Instance processor_eq_dec : EqDecision processor := processor_eq.
#[export] Instance callback_eq_dec : EqDecision callback.
Proof. solve_decision. Defined.

(** Context and arguments of a call. *)
Abbreviation args := (value * list value)%type.
Abbreviation cblist := (callbacks callback args).

Record deferred := {
  d_lists : slot -> cblist;
  d_state : dstate;
  d_maxDepth : nat;             (* the variable of the call of then that made it *)
}.

(** The variables of a call of [when]. *)
Record when_state := {
  remaining : Z;
  resolveContexts : list value;
  resolveValues : list value;
  master : nat;
}.

(** What a user function does besides returning. *)
Inductive cmd :=
  | CSettle (d : nat) (t : tuple) (l : list value)
  | COn (d : nat) (t : tuple) (f : nat)              (* done, fail, progress *)
  | CThen (d : nat) (done fail progress : option nat).

Record world := {
  defs : nat -> deferred;
  next_def : nat;                     (* the deferreds from here on are not made yet *)
  whens : nat -> when_state;
  next_when : nat;
  tasks : list (processor * args);    (* pending timeouts, oldest first *)
  calls : list (nat * list value);    (* user functions called so far *)
}.

#[export] Instance eta_deferred : Eta deferred := fun d =>
  {| d_lists := d_lists d; d_state := d_state d; d_maxDepth := d_maxDepth d |}.
#[export] Instance eta_world : Eta world := fun w =>
  {| defs := defs w; next_def := next_def w; whens := whens w; next_when := next_when w;
     tasks := tasks w; calls := calls w |}.
#[export] Instance eta_when : Eta when_state := fun w =>
  {| remaining := remaining w; resolveContexts := resolveContexts w;
     resolveValues := resolveValues w; master := master w |}.

(** [jQuery.Deferred()] for index [d]: the lists with the callbacks the library
    adds itself. *)
Definition memory_options : options :=
  {| once := false; o_memory := true; unique := false; stopOnFalse := false |}.
Definition once_memory : options :=
  {| once := true; o_memory := true; unique := false; stopOnFalse := false |}.

Definition tuple_options (t : tuple) : options :=
  match t with Notify => memory_options | _ => once_memory end.

(** [tuples[ 3 - i ]] of the two final states. *)
Definition opposite (t : tuple) : tuple :=
  match t with Resolve => Reject | Reject => Resolve | Notify => Notify end.

Definition state_of_tuple (t : tuple) : option dstate :=
  match t with Notify => None | Resolve => Some Resolved | Reject => Some Rejected end.

Definition own_callbacks (d : nat) (t : tuple) : list callback :=
  match state_of_tuple t with
  | Some st => [KState d st; KDisable d (opposite t); KLock d]
  | None => []
  end ++ [KFire d t].

Definition new_deferred (d : nat) : deferred := {|
  d_lists s :=
    match s with
    | Main t => (Callbacks (tuple_options t) : cblist) <| cb_list := Some (own_callbacks d t) |>
    | Handlers t => Callbacks (tuple_options t)
    end;
  d_state := Pending;
  d_maxDepth := 0 |}.

Definition initial_world : world := {|
  defs := new_deferred; next_def := 0;
  whens _ := {| remaining := 0; resolveContexts := []; resolveValues := []; master := 0 |};
  next_when := 0; tasks := []; calls := [] |}.

Definition set_list (s : slot) (c : cblist) (x : deferred) : deferred :=
  x <| d_lists := fun s' => if decide (s' = s) then c else d_lists x s' |>.

Definition on_def (d : nat) (f : deferred -> deferred) (w : world) : world :=
  w <| defs := fun d' => if decide (d' = d) then f (defs w d) else defs w d' |>.

Definition get_list (i : nat * slot) (w : world) : cblist := d_lists (defs w (fst i)) (snd i).

#[export] Instance deferred_host : CbHost callback args world (nat * slot).
Proof.
  refine {|
    cb_get := get_list;
    cb_set i c w := on_def (fst i) (set_list (snd i) c) w |}.
  intros [d s] c w. unfold get_list, on_def, set_list. cbn.
  rewrite decide_True by done. cbn. by rewrite decide_True by done.
Defined.

(** ** Operations

    [call] is the behaviour of callbacks, closed over below; an exception is
    the value thrown. *)

Abbreviation act := (proc value world).

Section Body.
Context (user : nat -> list value -> list cmd * (value + value)).
Context (call : callback -> args -> act bool) (fuel : nat).

(** deferred.notifyWith, resolveWith, rejectWith *)
Definition settleWith (d : nat) (t : tuple) (a : args) : act unit := fireWith call fuel (d, Main t) a.

(** promise.progress, done, fail *)
Definition on_tuple (d : nat) (t : tuple) (k : callback) : act unit := add call fuel (d, Main t) [AFn k].

Definition new_def : act nat :=
  w ← p_get; p_modify (fun w => w <| next_def := S (next_def w) |>) ;; mret (next_def w).

(** [promise.then] of deferred [d] *)
Definition deferred_then (d : nat) (onFulfilled onRejected onProgress : option handler) : act nat :=
  newDefer ← new_def;
  add call fuel (d, Handlers Notify)
    [AFn (KProc (Proc 0 newDefer (default HIdentity onProgress) true))] ;;
  add call fuel (d, Handlers Resolve)
    [AFn (KProc (Proc 0 newDefer (default HIdentity onFulfilled) false))] ;;
  add call fuel (d, Handlers Reject)
    [AFn (KProc (Proc 0 newDefer (default HThrower onRejected) false))] ;;
  mret newDefer.

Definition exec (c : cmd) : act unit :=
  match c with
  | CSettle d t l => settleWith d t (VUndefined, l)
  | COn d t f => on_tuple d t (KUser f)
  | CThen d f g h => deferred_then d (option_map HUser f) (option_map HUser g) (option_map HUser h) ;; mret tt
  end.

Fixpoint exec_all (l : list cmd) : act unit :=
  match l with [] => mret tt | c :: l => exec c ;; exec_all l end.

(** A user function: its commands, then its value or exception. *)
Definition run_user (f : nat) (l : list value) : act value :=
  p_modify (fun w => w <| calls := calls w ++ [(f, l)] |>) ;;
  let '(cmds, r) := user f l in
  exec_all cmds ;;
  match r with inl v => mret v | inr e => p_throw e end.

(** [handler.apply( that, args )] *)
Definition apply_handler (h : handler) (a : args) : act value :=
  match h with
  | HUser f => run_user f (snd a)
  | HIdentity => mret (default VUndefined (head (snd a)))
  | HThrower => p_throw (default VUndefined (head (snd a)))
  | HProc p => call (KProc p) a ;; mret VUndefined
  end.

Definition is_identity (h : handler) : bool := match h with HIdentity => true | _ => false end.
Definition is_thrower (h : handler) : bool := match h with HThrower => true | _ => false end.

(** [mightThrow] *)
Definition mightThrow (p : processor) (a : args) : act unit :=
  let '(Proc depth deferred h special) := p in
  w ← p_get;
  if (depth <? d_maxDepth (defs w deferred))%nat then mret tt
  else
    returned ← apply_handler h a;
    match returned with
    | VPromise d =>
        if (d =? deferred)%nat then p_throw VTypeError
        else if special then
          w ← p_get;
          let m := d_maxDepth (defs w deferred) in
          deferred_then d (Some (HProc (Proc m deferred HIdentity special)))
                          (Some (HProc (Proc m deferred HThrower special))) None ;; mret tt
        else
          p_modify (on_def deferred (fun x => x <| d_maxDepth := S (d_maxDepth x) |>)) ;;
          w ← p_get;
          let m := d_maxDepth (defs w deferred) in
          deferred_then d (Some (HProc (Proc m deferred HIdentity special)))
                          (Some (HProc (Proc m deferred HThrower special)))
                          (Some (HProc (Proc m deferred HIdentity true))) ;; mret tt
    | _ =>
        settleWith deferred (if special then Notify else Resolve)
          (if is_identity h then a else (VUndefined, [returned]))
    end.

(** [process]: the exception hook only writes to the console. *)
Definition process (p : processor) (a : args) : act unit :=
  let '(Proc depth deferred h special) := p in
  if special then mightThrow p a
  else
    p_catch (mightThrow p a) (fun e =>
      w ← p_get;
      if (d_maxDepth (defs w deferred) <=? depth + 1)%nat then
        settleWith deferred Reject (if is_thrower h then a else (VUndefined, [e]))
      else mret tt).

(** The function [resolve(...)] returns. *)
Definition run_closure (p : processor) (a : args) : act unit :=
  let '(Proc depth _ _ _) := p in
  if (depth =? 0)%nat then p_modify (fun w => w <| tasks := tasks w ++ [(p, a)] |>)
  else process p a.

(** The function [updateFunc( i )] returns. *)
Definition run_update (n i : nat) (a : args) : act unit :=
  let put {X} (x : X) (dflt : X) (l : list X) := <[i := x]> (l ++ replicate (S i - length l) dflt) in
  p_modify (fun w => w <| whens := fun n' =>
    if decide (n' = n) then
      (whens w n) <| resolveContexts := put (fst a) VUndefined (resolveContexts (whens w n)) |>
                  <| resolveValues :=
                       put (if (1 <? length (snd a))%nat then VArr (snd a)
                            else default VUndefined (head (snd a)))
                         VUndefined (resolveValues (whens w n)) |>
                  <| remaining := remaining (whens w n) - 1 |>
    else whens w n' |>) ;;
  w ← p_get;
  let s := whens w n in
  if remaining s =? 0 then
    settleWith (master s) Resolve (VArr (resolveContexts s), resolveValues s)
  else mret tt.

(** What a callback does; none of them returns [false]. *)
Definition body (k : callback) (a : args) : act bool :=
  match k with
  | KState d st => p_modify (on_def d (fun x => x <| d_state := st |>))
  | KDisable d t => upd (d, Main t) disable
  | KLock d => upd (d, Main Notify) lock
  | KFire d t => fireWith call fuel (d, Handlers t) a
  | KUser f => run_user f (snd a) ;; mret tt
  | KProc p => run_closure p a
  | KUpdate n i => run_update n i a
  | KSettle d t => settleWith d t a
  end ;;
  mret false.
End Body.

(** ** Closing the recursion *)

Section Run.
Context (user : nat -> list value -> list cmd * (value + value)).

Fixpoint call (fuel : nat) (k : callback) (a : args) : act bool :=
  match fuel with
  | O => p_diverge
  | S fuel => body user (call fuel) (S fuel) k a
  end.

(** One timeout of the event loop; an exception ends only this task. *)
Definition run_task (fuel : nat) : act unit :=
  w ← p_get;
  match tasks w with
  | [] => mret tt
  | (p, a) :: rest =>
      p_modify (fun w => w <| tasks := rest |>) ;;
      p_catch (process user (call fuel) fuel p a) (fun _ => mret tt)
  end.

(** The event loop until no timeout is pending. *)
Fixpoint run_tasks (rounds fuel : nat) : act unit :=
  w ← p_get;
  match tasks w with
  | [] => mret tt
  | _ :: _ =>
      match rounds with
      | O => p_diverge
      | S rounds => run_task fuel ;; run_tasks rounds fuel
      end
  end.

Definition resolveWith fuel d a := settleWith (call fuel) fuel d Resolve a.
Definition rejectWith fuel d a := settleWith (call fuel) fuel d Reject a.
Definition notifyWith fuel d a := settleWith (call fuel) fuel d Notify a.
Definition then_ fuel d f g h := deferred_then (call fuel) fuel d f g h.

(** [promise.always] *)
Definition always (fuel : nat) (d : nat) (f : nat) : act unit :=
  on_tuple (call fuel) fuel d Resolve (KUser f) ;; on_tuple (call fuel) fuel d Reject (KUser f).

(** ** [jQuery.when] *)

Definition adoptValue (fuel : nat) (v : value) (resolve reject : callback) (noValue : bool) : act unit :=
  p_catch
    match v with
    | VPromise d =>
        on_tuple (call fuel) fuel d Resolve resolve ;; on_tuple (call fuel) fuel d Reject reject
    | _ => call fuel resolve (VUndefined, if noValue then [] else [v]) ;; mret tt
    end
    (fun e => call fuel reject (VUndefined, [e]) ;; mret tt).

(** [while ( i-- )] *)
Fixpoint adopt_all (fuel : nat) (n m i : nat) : act unit :=
  match i with
  | O => mret tt
  | S i =>
      w ← p_get;
      adoptValue fuel (default VUndefined (resolveValues (whens w n) !! i)) (KUpdate n i) (KSettle m Reject) false ;;
      adopt_all fuel n m i
  end.

Definition when (fuel : nat) (l : list value) : act nat :=
  m ← new_def;
  w ← p_get;
  let n := next_when w in
  let i := length l in
  p_modify (fun w => w <| next_when := S (next_when w) |>
    <| whens := fun n' => if decide (n' = n) then
         {| remaining := Z.of_nat i; resolveContexts := replicate i VUndefined;
            resolveValues := l; master := m |} else whens w n' |>) ;;
  if (i <=? 1)%nat then
    on_tuple (call fuel) fuel m Resolve (KUpdate n i) ;;
    adoptValue fuel (default VUndefined (head l)) (KSettle m Resolve) (KSettle m Reject) (i =? 0)%nat ;;
    w ← p_get;
    if bool_decide (d_state (defs w m) = Pending) ||
       match resolveValues (whens w n) !! i with Some (VPromise _) => true | _ => false end
    then then_ fuel m None None None
    else adopt_all fuel n m i ;; mret m
  else adopt_all fuel n m i ;; mret m.

(** ** [jQuery.fn.ready] and [jQuery.ready] *)

Record ready_state := { isReady : bool; readyWait : Z }.
Definition initial_ready : ready_state := {| isReady := false; readyWait := 1 |}.

(** [jQuery( document ).ready( fn )] on the ready deferred [d]; [hook] is the
    function that reports an exception. *)
Definition fn_ready (fuel d : nat) (f hook : nat) : act unit :=
  d' ← then_ fuel d (Some (HUser f)) None None;
  then_ fuel d' None (Some (HUser hook)) None ;; mret tt.

(** [jQuery.ready( wait )]; [jq] stands for the jQuery function. *)
Definition jquery_ready (fuel d : nat) (jq : value) (wait : bool) (r : ready_state) : act ready_state :=
  let r := if wait then {| isReady := isReady r; readyWait := readyWait r - 1 |} else r in
  if (if wait then negb (readyWait r =? 0) else isReady r) then mret r
  else
    let r := {| isReady := true; readyWait := if wait then readyWait r else readyWait r - 1 |} in
    if negb wait && (0 <? readyWait r) then mret r
    else resolveWith fuel d (VUndefined, [jq]) ;; mret r.
End Run.
