(* ===== verification/DeferredInv.v ===== *)
(** A deferred settles at most once, whatever the functions it calls do: the
    invariant of all deferreds of the world, kept by every operation however
    deeply operations are nested. *)
From S2P Require Import Prelude Callbacks CallbacksProps Deferred.

(** ** The invariant *)

(** Every callback except those the library adds to set the state. *)
Definition allowed (k : callback) : Prop :=
  match k with KState _ _ | KDisable _ _ | KLock _ => False | _ => True end.

(** The list of a final state that has not been reached. *)
Definition fresh (d : nat) (t : tuple) (c : cblist) : Prop :=
  opts c = once_memory /\ firing c = false /\ memory c = None /\ locked c = false /\ queue c = [] /\
  firingIndex c = -1 /\ exists l, cb_list c = Some (own_callbacks d t ++ l) /\ Forall allowed l.

(** The list of the state that has been reached: it is locked, and the callbacks
    that remain to be called do not touch any state. *)
Definition settled (c : cblist) : Prop :=
  locked c = true /\ queue c = [] /\
  if firing c then -1 <= firingIndex c /\ Forall allowed (drop (Z.to_nat (firingIndex c + 1)) (list_of c))
  else Forall allowed (list_of c).

(** The list of the other state. *)
Definition dead (c : cblist) : Prop := locked c = true /\ cb_list c = None.

Definition ok_list (st : dstate) (i : nat * slot) (c : cblist) : Prop :=
  match snd i with
  | Handlers _ | Main Notify => Forall allowed (list_of c) /\ -1 <= firingIndex c
  | Main t =>
      match st with
      | Pending => fresh (fst i) t c
      | _ => if decide (state_of_tuple t = Some st) then settled c else dead c
      end
  end.

Definition state (d : nat) (w : world) : dstate := d_state (defs w d).

Definition inv (w : world) : Prop := forall i, ok_list (state (fst i) w) i (get_list i w).

(** Settled states stay, and a list that is firing is not stopped by others. *)
Definition later (w w' : world) : Prop :=
  (forall d, state d w <> Pending -> state d w' = state d w) /\
  (forall i, firing (get_list i w) = true -> firing (get_list i w') = true).

#[export] Instance later_preorder : PreOrder later.
Proof.
  split; [by intros w|]. intros a b c [H1 H2] [H3 H4]. split; [|auto].
  intros d Hd. rewrite H3; [auto|]. by rewrite H1.
Qed.

(** Operations that keep the invariant and only move forward. *)
Definition good {A} (m : act A) : Prop :=
  forall w r w', inv w -> m w = Some (r, w') -> inv w' /\ later w w'.

Lemma good_ret {A} (a : A) : good (mret a).
Proof. intros w r w' Hw [= <- <-]. by split. Qed.
Lemma good_throw {A} e : good (p_throw e : act A).
Proof. intros w r w' Hw [= <- <-]. by split. Qed.
Lemma good_get : good p_get.
Proof. intros w r w' Hw [= <- <-]. by split. Qed.
Lemma good_diverge {A} : good (p_diverge : act A).
Proof. done. Qed.

Lemma good_bind {A B} (m : act A) (f : A -> act B) :
  good m -> (forall a, good (f a)) -> good (m ≫= f).
Proof.
  intros Hm Hf w r w' Hw. unfold mbind, proc_bind.
  destruct (m w) as [[[a|e] w1]|] eqn:Hmw; [| |done].
  - destruct (Hm _ _ _ Hw Hmw) as [H1 H2]. intros Hfa. destruct (Hf a _ _ _ H1 Hfa) as [H3 H4].
    split; [done|by etrans].
  - intros [= <- <-]. by eapply Hm.
Qed.

Lemma good_catch {A} (m : act A) h : good m -> (forall e, good (h e)) -> good (p_catch m h).
Proof.
  intros Hm Hh w r w' Hw. unfold p_catch.
  destruct (m w) as [[[a|e] w1]|] eqn:Hmw; [| |done].
  - intros [= <- <-]. by eapply Hm.
  - destruct (Hm _ _ _ Hw Hmw) as [H1 H2]. intros Hfa. destruct (Hh e _ _ _ H1 Hfa) as [H3 H4].
    split; [done|by etrans].
Qed.

(** ** Changing one list *)

Lemma get_list_set i j c w :
  get_list j (cb_set i c w) = if decide (j = i) then c else get_list j w.
Proof.
  destruct i as [d s], j as [d' s']. cbn. unfold get_list, on_def, set_list. cbn.
  destruct (decide (d' = d)) as [->|Hd]; cbn.
  - destruct (decide (s' = s)) as [->|Hs]; case_decide; congruence.
  - case_decide; congruence.
Qed.

Lemma state_set d i c w : state d (cb_set i c w) = state d w.
Proof. unfold state. cbn. unfold on_def. cbn. case_decide; by subst. Qed.

Lemma inv_set i c w : inv w -> ok_list (state (fst i) w) i c -> inv (cb_set i c w).
Proof.
  intros Hw Hc j. rewrite state_set, get_list_set. case_decide; [by subst|apply Hw].
Qed.

Lemma later_set i c w : (firing (get_list i w) = true -> firing c = true) -> later w (cb_set i c w).
Proof.
  intros Hc. split; [intros d _; apply state_set|].
  intros j Hj. rewrite get_list_set. case_decide; [subst; auto|done].
Qed.

Lemma good_upd i f :
  (forall st c, ok_list st i c -> ok_list st i (f c)) ->
  (forall c, firing c = true -> firing (f c) = true) -> good (upd i f).
Proof.
  intros Hok Hf w r w' Hw [= <- <-]. split; [|apply later_set, Hf]. apply inv_set; [done|].
  apply Hok, Hw.
Qed.

(** Changes of the world beside the lists. *)
Lemma good_modify f :
  (forall w d, state d (f w) = state d w) -> (forall w i, get_list i (f w) = get_list i w) ->
  good (p_modify f).
Proof.
  intros Hs Hl w r w' Hw [= <- <-]. split.
  - intros i. rewrite Hs, Hl. apply Hw.
  - split; [by intros d _|]. intros i. by rewrite Hl.
Qed.

(** ** Firing a list *)

(** The modes in which callbacks of list [i] may be called. *)
Definition may_fire (i : nat * slot) (w : world) : Prop :=
  match snd i with
  | Handlers _ | Main Notify => True
  | Main t => state_of_tuple t = Some (state (fst i) w) /\ firing (get_list i w) = true
  end.

Lemma may_fire_later i w w' : later w w' -> may_fire i w -> may_fire i w'.
Proof.
  intros [H1 H2]. unfold may_fire. destruct i as [d [[]|t]]; cbn; try done; intros [Hs Hf];
    (rewrite H1; [auto|]; destruct (state d w); done).
Qed.

(** What the inner loop needs of a list it may fire. *)
Lemma ok_list_pending_calls st i c :
  ok_list st i c ->
  match snd i with
  | Handlers _ | Main Notify => True
  | Main t => state_of_tuple t = Some st /\ firing c = true
  end ->
  -1 <= firingIndex c /\ Forall allowed (drop (Z.to_nat (firingIndex c + 1)) (list_of c)).
Proof.
  unfold ok_list. destruct i as [d [[]|t]]; cbn.
  - intros [Ha Hi] _. split; [done|by apply Forall_drop].
  - intros Hok [[= <-] Hf]. rewrite decide_True in Hok by done. destruct Hok as (_ & _ & Hc). by rewrite Hf in Hc.
  - intros Hok [[= <-] Hf]. rewrite decide_True in Hok by done. destruct Hok as (_ & _ & Hc). by rewrite Hf in Hc.
  - intros [Ha Hi] _. split; [done|by apply Forall_drop].
Qed.

Lemma ok_list_jump st i c n :
  ok_list st i c ->
  match snd i with
  | Handlers _ | Main Notify => True
  | Main t => state_of_tuple t = Some st /\ firing c = true
  end ->
  -1 <= n -> Forall allowed (drop (Z.to_nat (n + 1)) (list_of c)) -> ok_list st i (c <| firingIndex := n |>).
Proof.
  intros Hok Hm Hn Hd. unfold ok_list in *. destruct i as [d [[]|t]]; cbn in *.
  1,4: by destruct Hok.
  all: destruct Hm as [[= <-] Hf]; rewrite decide_True in * by done; destruct Hok as (H1 & H2 & _);
    unfold settled; cbn; rewrite Hf; by split_and!.
Qed.

Lemma ok_list_index st i c n :
  ok_list st i c ->
  match snd i with
  | Handlers _ | Main Notify => True
  | Main t => state_of_tuple t = Some st /\ firing c = true
  end ->
  firingIndex c <= n -> ok_list st i (c <| firingIndex := n |>).
Proof.
  intros Hok Hm Hn. destruct (ok_list_pending_calls _ _ _ Hok Hm) as [Hi Hd].
  apply ok_list_jump; [done|done|lia|].
  replace (Z.to_nat (n + 1)) with (Z.to_nat (firingIndex c + 1) + Z.to_nat (n - firingIndex c))%nat by lia.
  rewrite <- drop_drop. by apply Forall_drop.
Qed.

Lemma ok_list_memory st i c m :
  ok_list st i c ->
  match snd i with
  | Handlers _ | Main Notify => True
  | Main t => state_of_tuple t = Some st /\ firing c = true
  end ->
  ok_list st i (c <| memory := m |>).
Proof.
  unfold ok_list. destruct i as [d [[]|t]]; cbn; try done;
    intros Hok [[= <-] Hf]; by rewrite decide_True in * by done.
Qed.

Section Fire.
Context (call : callback -> args -> act bool).
Hypothesis call_good : forall k a, allowed k -> good (call k a).

Lemma fire_list_good fuel i mem w r w' :
  inv w -> may_fire i w -> fire_list call fuel i mem w = Some (r, w') -> inv w' /\ later w w'.
Proof using call_good.
  revert w. induction fuel as [|fuel IH]; intros w Hw Hm Hs; [done|].
  rewrite fire_list_S in Hs. cbv zeta in Hs.
  change (cb_get i w) with (get_list i w) in Hs.
  set (c := (get_list i w) <| firingIndex := firingIndex (get_list i w) + 1 |>) in Hs.
  pose proof (Hw i) as Hi.
  destruct (ok_list_pending_calls _ _ _ Hi Hm) as [Hidx Hall].
  assert (inv (cb_set i c w) /\ later w (cb_set i c w)) as [Hw1 Hl1].
  { split; [|by apply later_set]. apply inv_set; [done|]. apply ok_list_index; [done|done|lia]. }
  assert (list_of c !! Z.to_nat (firingIndex c) = head (drop (Z.to_nat (firingIndex (get_list i w) + 1))
    (list_of (get_list i w)))) as Hk.
  { rewrite head_lookup, lookup_drop. change (list_of c) with (list_of (get_list i w)).
    cbn [c firingIndex set_field]. f_equal. lia. }
  rewrite Hk in Hs.
  destruct (drop _ _) as [|k ks] eqn:Hd; cbn [head] in Hs; [by injection Hs as <- <-|].
  inversion_clear Hall as [|? ? Hak Hks].
  unfold mbind at 1, proc_bind at 1 in Hs.
  destruct (call k mem (cb_set i c w)) as [[[b|e] w2]|] eqn:Hcall; [| |done].
  2: { injection Hs as <- <-. destruct (call_good k mem Hak _ _ _ Hw1 Hcall). split; [done|by etrans]. }
  destruct (call_good k mem Hak _ _ _ Hw1 Hcall) as [Hw2 Hl2].
  assert (may_fire i w2) as Hm2.
  { eapply may_fire_later; [|exact Hm]. by etrans. }
  destruct (b && stopOnFalse (opts c)).
  - unfold upd in Hs. erewrite proc_bind_ok in Hs by done. set (w3 := cb_set i _ w2) in Hs.
    assert (inv w3 /\ later w2 w3) as [Hw3 Hl3].
    { split; [|by apply later_set]. apply inv_set; [done|].
      apply (ok_list_memory _ _ ((get_list i w2) <| firingIndex := _ |>)); [|exact Hm2].
      apply ok_list_jump; [apply Hw2|exact Hm2|lia|].
      rewrite drop_ge; [done|]. change (cb_get i w2) with (get_list i w2). lia. }
    destruct (IH _ Hw3 (may_fire_later _ _ _ Hl3 Hm2) Hs) as [H1 H2].
    split; [done|]. etrans; [exact Hl1|]. etrans; [exact Hl2|]. by etrans.
  - erewrite proc_bind_ok in Hs by done. destruct (IH _ Hw2 Hm2 Hs) as [H1 H2].
    split; [done|]. etrans; [exact Hl1|]. by etrans.
Qed.

(** ** The end of a firing *)

(** Forward, except that list [i] may have stopped firing. *)
Definition later_except (i : nat * slot) (w w' : world) : Prop :=
  (forall d, state d w <> Pending -> state d w' = state d w) /\
  (forall j, j <> i -> firing (get_list j w) = true -> firing (get_list j w') = true).

Lemma later_except_trans i a b c : later_except i a b -> later_except i b c -> later_except i a c.
Proof.
  intros [H1 H2] [H3 H4]. split; [|auto]. intros d Hd. rewrite H3; [auto|]. by rewrite H1.
Qed.

Lemma later_except_of i w w' : later w w' -> later_except i w w'.
Proof. intros [H1 H2]. split; auto. Qed.

Lemma later_except_set i c w : later_except i w (cb_set i c w).
Proof.
  split; [intros d _; apply state_set|]. intros j Hj. rewrite get_list_set. by case_decide.
Qed.

Lemma later_except_idle i w w' :
  later_except i w w' -> firing (get_list i w) = false -> later w w'.
Proof.
  intros [H1 H2] Hi. split; [done|]. intros j. destruct (decide (j = i)) as [->|Hj]; [congruence|auto].
Qed.

Definition open_list (i : nat * slot) : Prop :=
  match snd i with Handlers _ | Main Notify => True | _ => False end.

#[local] Instance open_list_dec i : Decision (open_list i).
Proof. destruct i as [d [[]|t]]; cbn; apply _. Defined.

Lemma fire_end_list (c : cblist) : list_of (fire_end c) = [] \/ list_of (fire_end c) = list_of c.
Proof.
  unfold fire_end, list_of. destruct (o_memory (opts c)); cbn; destruct (locked c); cbn; auto.
  destruct (memory c); auto.
Qed.

Lemma fire_end_ok_open st i c : open_list i -> ok_list st i c -> ok_list st i (fire_end c).
Proof.
  intros Ho. unfold ok_list, open_list in *. destruct i as [d [[]|t]]; cbn in *; try done; intros [Ha Hi];
    (split; [destruct (fire_end_list c) as [-> | ->]; done|]);
    unfold fire_end; destruct (o_memory (opts c)); cbn; destruct (locked c); cbn; try done;
    by destruct (memory c).
Qed.

Lemma fire_end_settled (c : cblist) :
  locked c = true -> queue c = [] -> settled (fire_end c) /\ firing (fire_end c) = false.
Proof.
  intros Hl Hq. unfold fire_end, settled. destruct (o_memory (opts c)); cbn; rewrite Hl; cbn;
    [destruct (memory c)|]; cbn; by rewrite Hq.
Qed.

Lemma open_ok st i c c' :
  open_list i -> ok_list st i c -> cb_list c' = cb_list c -> -1 <= firingIndex c' -> ok_list st i c'.
Proof.
  unfold ok_list, open_list. intros Ho Hok Hl Hi. destruct i as [d [[]|t]]; cbn in *; try done;
    unfold list_of in *; rewrite Hl; by destruct Hok.
Qed.

Lemma open_may_fire i w : open_list i -> may_fire i w.
Proof. unfold open_list, may_fire. by destruct i as [d [[]|t]]. Qed.

Lemma open_index i w : open_list i -> inv w -> -1 <= firingIndex (get_list i w).
Proof. intros Ho Hw. specialize (Hw i). unfold ok_list, open_list in *. destruct i as [d [[]|t]]; cbn in *; try done; by destruct Hw. Qed.

Lemma fire_queue_open fuel i w r w' :
  open_list i -> inv w -> fire_queue call fuel i w = Some (r, w') -> inv w' /\ later w w'.
Proof using call_good.
  intros Ho. revert w. induction fuel as [|fuel IH]; intros w Hw Hs; [done|].
  rewrite fire_queue_S in Hs. change (cb_get i w) with (get_list i w) in Hs.
  destruct (queue (get_list i w)) as [|m q]; [by injection Hs as <- <-|].
  set (w1 := cb_set i _ w) in Hs.
  assert (inv w1 /\ later w w1) as [Hw1 Hl1].
  { split; [|by apply later_set]. apply inv_set; [done|].
    apply (open_ok _ _ (get_list i w)); [done|apply Hw|done|by apply open_index]. }
  unfold mbind at 1, proc_bind at 1 in Hs.
  destruct (fire_list call fuel i m w1) as [[[[]|e] w2]|] eqn:Hf; [| |done].
  2: { injection Hs as <- <-. destruct (fire_list_good _ _ _ _ _ _ Hw1 (open_may_fire i w1 Ho) Hf).
       split; [done|by etrans]. }
  destruct (fire_list_good _ _ _ _ _ _ Hw1 (open_may_fire i w1 Ho) Hf) as [Hw2 Hl2].
  unfold upd in Hs. erewrite proc_bind_ok in Hs by done. set (w3 := cb_set i _ w2) in Hs.
  assert (inv w3 /\ later w2 w3) as [Hw3 Hl3].
  { split; [|by apply later_set]. apply inv_set; [done|].
    by apply (open_ok _ _ (get_list i w2)); [|apply Hw2| |]. }
  destruct (IH _ Hw3 Hs) as [Hw4 Hl4]. split; [done|]. etrans; [exact Hl1|]. etrans; [exact Hl2|]. by etrans.
Qed.

Lemma fire_open fuel i w r w' :
  open_list i -> inv w -> fire call fuel i w = Some (r, w') -> inv w' /\ later_except i w w'.
Proof using call_good.
  intros Ho Hw Hs. unfold fire, upd in Hs. erewrite proc_bind_ok in Hs by done.
  set (w1 := cb_set i _ w) in Hs.
  assert (inv w1 /\ later_except i w w1) as [Hw1 Hl1].
  { split; [|apply later_except_set]. apply inv_set; [done|].
    apply (open_ok _ _ (get_list i w)); [done|apply Hw|done|by apply open_index]. }
  unfold mbind at 1, proc_bind at 1 in Hs.
  destruct (fire_queue call fuel i w1) as [[[[]|e] w2]|] eqn:Hf; [| |done].
  - destruct (fire_queue_open _ _ _ _ _ Ho Hw1 Hf) as [Hw2 Hl2]. injection Hs as <- <-. split.
    + apply inv_set; [done|]. apply fire_end_ok_open; [done|apply Hw2].
    + eapply later_except_trans; [exact Hl1|]. eapply later_except_trans; [by apply later_except_of|].
      apply later_except_set.
  - injection Hs as <- <-. destruct (fire_queue_open _ _ _ _ _ Ho Hw1 Hf) as [Hw2 Hl2].
    split; [done|]. eapply later_except_trans; [exact Hl1|]. by apply later_except_of.
Qed.

(** The rest of a firing of the list of the reached state. *)
Lemma fire_round fuel fuel' d t m w r w' :
  inv w -> may_fire (d, Main t) w -> t <> Notify ->
  (((fire_list call fuel (d, Main t) m ;;
     upd (d, Main t) (fun c => c <| firingIndex := -1 |>) ;; fire_queue call fuel' (d, Main t)) ;;
    upd (d, Main t) fire_end) : act unit) w = Some (r, w') ->
  inv w' /\ later_except (d, Main t) w w'.
Proof using call_good.
  intros Hw Hm Ht Hs. set (i := (d, Main t)) in *.
  unfold mbind at 1 2, proc_bind at 1 2 in Hs.
  destruct (fire_list call fuel i m w) as [[[[]|e] w2]|] eqn:Hf; [| |done].
  2: { injection Hs as <- <-. destruct (fire_list_good _ _ _ _ _ _ Hw Hm Hf).
       split; [done|by apply later_except_of]. }
  destruct (fire_list_good _ _ _ _ _ _ Hw Hm Hf) as [Hw2 Hl2].
  pose proof (may_fire_later _ _ _ Hl2 Hm) as Hm2.
  unfold upd in Hs. erewrite proc_bind_ok in Hs by done. set (w3 := cb_set i _ w2) in Hs.
  destruct fuel' as [|fuel']; [done|]. rewrite fire_queue_S in Hs.
  assert (locked (get_list i w2) = true /\ queue (get_list i w2) = [] /\
          state_of_tuple t = Some (state d w2)) as (Hk & Hq & Hst).
  { specialize (Hw2 i). unfold ok_list, may_fire, i in *. cbn in *. destruct t; [done|..];
      destruct Hm2 as [[= Hst] Hf2]; rewrite <- Hst in Hw2 |- *; rewrite decide_True in Hw2 by done;
      by destruct Hw2 as (? & ? & _). }
  assert (get_list i w3 = (get_list i w2) <| firingIndex := -1 |>) as H3.
  { unfold w3. rewrite get_list_set. by rewrite decide_True. }
  change (cb_get i w3) with (get_list i w3) in Hs. rewrite H3 in Hs. cbn [queue set_field] in Hs. rewrite Hq in Hs.
  assert (w' = cb_set i (fire_end (get_list i w3)) w3) as ->.
  { change (Some (Ret tt : outcome value unit, cb_set i (fire_end (get_list i w3)) w3) = Some (r, w')) in Hs.
    congruence. }
  rewrite H3.
  pose (c3 := (get_list i w2) <| firingIndex := -1 |> : cblist).
  destruct (fire_end_settled c3 Hk Hq) as [Hset _]. fold c3.
  assert (inv (cb_set i (fire_end c3) w2)) as Hend.
  { apply inv_set; [done|]. unfold ok_list, i. cbn [fst snd].
    destruct t; [done|..]; injection Hst as Hst; rewrite <- Hst; by rewrite decide_True. }
  split.
  - intros j. specialize (Hend j). rewrite state_set, get_list_set in Hend |- *.
    unfold w3. rewrite state_set, get_list_set. by case_decide.
  - eapply later_except_trans; [by apply later_except_of|].
    eapply later_except_trans; apply later_except_set.
Qed.

(** ** The first firing of a final state *)

Definition effect (k : callback) (w : world) : world :=
  match k with
  | KState d st => on_def d (fun x => x <| d_state := st |>) w
  | KDisable d t => cb_set (d, Main t) (disable (get_list (d, Main t) w)) w
  | KLock d => cb_set (d, Main Notify) (lock (get_list (d, Main Notify) w)) w
  | _ => w
  end.

Hypothesis call_internal : forall k a w r w',
  ~ allowed k -> call k a w = Some (r, w') -> r = Ret false /\ w' = effect k w.

Lemma get_list_state j d st w : get_list j (on_def d (fun x => x <| d_state := st |>) w) = get_list j w.
Proof. unfold get_list, on_def. cbn. case_decide; by subst. Qed.

Lemma state_state d' d st w :
  state d' (on_def d (fun x => x <| d_state := st |>) w) = if decide (d' = d) then st else state d' w.
Proof. unfold state, on_def. cbn. by case_decide. Qed.

Lemma fire_list_internal f i m w k r w' :
  let c := (get_list i w) <| firingIndex := firingIndex (get_list i w) + 1 |> in
  list_of c !! Z.to_nat (firingIndex c) = Some k -> ~ allowed k ->
  fire_list call (S f) i m w = Some (r, w') ->
  fire_list call f i m (effect k (cb_set i c w)) = Some (r, w').
Proof using call_internal.
  cbv zeta. intros Hk Hna Hs. rewrite fire_list_S in Hs. cbv zeta in Hs.
  change (cb_get i w) with (get_list i w) in Hs. rewrite Hk in Hs.
  unfold mbind at 1, proc_bind at 1 in Hs.
  destruct (call k m _) as [[r1 w1]|] eqn:Hcall in Hs; [|done].
  destruct (call_internal _ _ _ _ _ Hna Hcall) as [-> ->].
  by erewrite proc_bind_ok in Hs by done.
Qed.

(** The list of the state just reached, after its first three callbacks. *)
Definition reached (d : nat) (t : tuple) (l : list callback) (m : args) (n : Z) : cblist := {|
  opts := once_memory; firing := true; memory := Some m; fired := true; locked := true;
  cb_list := Some (own_callbacks d t ++ l); queue := []; firingIndex := n |}.

Lemma fire_list_first f d t st l m w r w' :
  state_of_tuple t = Some st ->
  get_list (d, Main t) w = reached d t l m (-1) ->
  fire_list call f (d, Main t) m w = Some (r, w') ->
  exists f' w1, fire_list call f' (d, Main t) m w1 = Some (r, w') /\
    (forall d', state d' w1 = if decide (d' = d) then st else state d' w) /\
    (forall j, get_list j w1 =
      if decide (j = (d, Main Notify)) then lock (get_list j w)
      else if decide (j = (d, Main (opposite t))) then disable (get_list j w)
      else if decide (j = (d, Main t)) then reached d t l m 2 else get_list j w).
Proof using call_internal.
  intros Hst Hl Hs.
  assert (own_callbacks d t = [KState d st; KDisable d (opposite t); KLock d; KFire d t]) as Hown
    by (by destruct t; try done; injection Hst as <-).
  assert (t <> Notify) as Hn by (by intros ->).
  assert (opposite t <> Notify /\ opposite t <> t) as [Ho Hot] by (by destruct t).
  destruct f as [|[|[|f]]]; [done| | |].
  - apply (fire_list_internal _ _ _ _ (KState d st)) in Hs; [done| |by intros []].
    rewrite Hl. unfold list_of. cbn. by rewrite Hown.
  - apply (fire_list_internal _ _ _ _ (KState d st)) in Hs; [| |by intros []].
    2: { rewrite Hl. unfold list_of. cbn. by rewrite Hown. }
    apply (fire_list_internal _ _ _ _ (KDisable d (opposite t))) in Hs; [done| |by intros []].
    cbn [effect]. rewrite get_list_state, get_list_set, decide_True, Hl by done. unfold list_of. cbn. by rewrite Hown.
  - apply (fire_list_internal _ _ _ _ (KState d st)) in Hs; [| |by intros []].
    2: { rewrite Hl. unfold list_of. cbn. by rewrite Hown. }
    apply (fire_list_internal _ _ _ _ (KDisable d (opposite t))) in Hs; [| |by intros []].
    2: { cbn [effect]. rewrite get_list_state, get_list_set, decide_True, Hl by done. unfold list_of. cbn. by rewrite Hown. }
    apply (fire_list_internal _ _ _ _ (KLock d)) in Hs; [| |by intros []].
    2: { cbn [effect]. rewrite get_list_set, decide_False by congruence.
         rewrite get_list_set, decide_True, get_list_state, get_list_set, decide_True, Hl by done.
         unfold list_of. cbn. by rewrite Hown. }
    exists f. eexists. split; [exact Hs|]. cbn [effect].
    repeat (rewrite ?get_list_set, ?get_list_state || rewrite (decide_True (P := (d, Main t) = (d, Main t))) by done
            || rewrite (decide_False (P := (d, Main t) = (d, Main (opposite t)))) by congruence).
    split.
    + intros d'. rewrite !state_set, state_state, state_set. done.
    + intros j. rewrite !get_list_set, !get_list_state, !get_list_set.
      rewrite Hl.
      destruct (decide (j = (d, Main Notify))) as [->|Hj1].
      { rewrite !(decide_False (P := (d, Main Notify) = (d, Main t))) by congruence.
        rewrite !(decide_False (P := (d, Main Notify) = (d, Main (opposite t)))) by congruence. done. }
      destruct (decide (j = (d, Main (opposite t)))) as [->|Hj2].
      { rewrite !(decide_False (P := (d, Main (opposite t)) = (d, Main t))) by congruence. done. }
      rewrite !(decide_False (P := (d, Main t) = (d, Main (opposite t)))) by congruence.
      by destruct (decide (j = (d, Main t))) as [->|Hj3].
Qed.

Lemma inv_fresh d t w : inv w -> state d w = Pending -> t <> Notify -> fresh d t (get_list (d, Main t) w).
Proof.
  intros Hw Hp Ht. specialize (Hw (d, Main t)). unfold ok_list in Hw. cbn in Hw. rewrite Hp in Hw.
  by destruct t.
Qed.

Lemma lock_ok_open st i c : open_list i -> ok_list st i c -> ok_list st i (lock c).
Proof.
  unfold ok_list, open_list, lock, list_of. destruct i as [d [[]|t]]; cbn; try done;
    intros _ [Ha Hi]; destruct (memory c); cbn; try done; destruct (firing c); cbn; done.
Qed.

(** The state after the first three callbacks satisfies the invariant again. *)
Lemma inv_reached d t st l m w w1 :
  inv w -> state d w = Pending -> state_of_tuple t = Some st -> Forall allowed l ->
  (forall d', state d' w1 = if decide (d' = d) then st else state d' w) ->
  (forall j, get_list j w1 =
     if decide (j = (d, Main Notify)) then lock (get_list j w)
     else if decide (j = (d, Main (opposite t))) then disable (get_list j w)
     else if decide (j = (d, Main t)) then reached d t l m 2 else get_list j w) ->
  inv w1 /\ may_fire (d, Main t) w1 /\ later_except (d, Main t) w w1.
Proof using.
  intros Hw Hp Hst Hal Hs Hg.
  assert (t <> Notify /\ opposite t <> Notify /\ opposite t <> t /\
          state_of_tuple (opposite t) <> Some st /\ st <> Pending) as (Ht & Ho & Hot & Hos & Hsp).
  { destruct t; [done|..]; injection Hst as <-; done. }
  split_and!.
  - intros [d' s]. rewrite Hs, Hg. cbn [fst]. specialize (Hw (d', s)). cbn [fst] in Hw.
    destruct (decide (d' = d)) as [->|Hd].
    2: { rewrite !decide_False by congruence. done. }
    destruct s as [t'|t'].
    2: { rewrite !decide_False by congruence. exact Hw. }
    destruct (decide (t' = Notify)) as [->|Hn].
    { rewrite decide_True by done. by apply lock_ok_open in Hw. }
    rewrite decide_False by congruence.
    assert (ok_list st (d, Main t) (reached d t l m 2)) as Hok1.
    { unfold ok_list. cbn [fst snd]. destruct t; [done|..]; injection Hst as <-;
        (rewrite decide_True by done); unfold settled, list_of; cbn; split_and!;
        [done..|lia|by constructor|done|done|lia|by constructor]. }
    assert (ok_list st (d, Main (opposite t)) (disable (get_list (d, Main (opposite t)) w))) as Hok2.
    { unfold ok_list. cbn [fst snd]. destruct (opposite t); [done|..]; destruct st; try done;
        by rewrite decide_False. }
    destruct (decide (t' = t)) as [->|Htt].
    + by rewrite decide_False, decide_True by congruence.
    + assert (t' = opposite t) as -> by (by destruct t, t'). by rewrite decide_True.
  - unfold may_fire. cbn [fst snd]. rewrite Hs, Hg, decide_True by done.
    rewrite decide_False, decide_False, decide_True by congruence. by destruct t.
  - split.
    + intros d' Hd'. rewrite Hs. case_decide; [congruence|done].
    + intros j Hj Hf. rewrite Hg. case_decide; [|case_decide; [|by rewrite decide_False]].
      * unfold lock. cbn. destruct (memory (get_list j w)); cbn; [done|]. by rewrite Hf.
      * done.
Qed.

Lemma fire_first fuel d t w m r w' :
  inv w -> state d w = Pending -> t <> Notify ->
  fire call fuel (d, Main t)
    (cb_set (d, Main t) ((get_list (d, Main t) w) <| queue := [m] |>) w) = Some (r, w') ->
  inv w' /\ later_except (d, Main t) w w'.
Proof using call_good call_internal.
  intros Hw Hp Ht Hs. set (i := (d, Main t)) in *.
  destruct (inv_fresh d t w Hw Hp Ht) as (Ho & Hf & Hm & Hk & Hq & Hi & l & Hl & Hal). fold i in Ho, Hf, Hm, Hk, Hq, Hi, Hl.
  assert (exists st, state_of_tuple t = Some st) as [st Hst] by (destruct t; [done|eauto..]).
  unfold fire, upd in Hs. erewrite proc_bind_ok in Hs by done.
  set (w1 := cb_set i _ (cb_set i _ w)) in Hs.
  destruct fuel as [|fuel]; [done|]. unfold mbind at 1, proc_bind at 1 in Hs. rewrite fire_queue_S in Hs.
  assert (get_list i w1 = (reached d t l m (-1)) <| memory := None |> <| queue := [m] |>) as H1.
  { unfold w1. change (@cb_get _ _ _ _ deferred_host) with get_list.
    rewrite !get_list_set, !decide_True by done.
    destruct (get_list i w); cbn in *; by subst. }
  change (cb_get i w1) with (get_list i w1) in Hs. rewrite H1 in Hs. cbn [queue set_field] in Hs.
  set (w2 := cb_set i _ w1) in Hs.
  assert (get_list i w2 = reached d t l m (-1)) as H2.
  { unfold w2. by rewrite get_list_set, decide_True. }
  unfold mbind at 1, proc_bind at 1 in Hs.
  destruct (fire_list call fuel i m w2) as [[ra wa]|] eqn:Hfl; [|done].
  destruct (fire_list_first _ _ _ _ _ _ _ _ _ Hst H2 Hfl) as (f' & w3 & Hfl3 & Hst3 & Hg3).
  destruct (inv_reached d t st l m w w3 Hw Hp Hst Hal) as (Hw3 & Hm3 & Hl3).
  - intros d'. rewrite Hst3. unfold w2, w1. by rewrite !state_set.
  - intros j. rewrite Hg3. unfold w2, w1. rewrite !get_list_set.
    assert (opposite t <> t) as Hot by (by destruct t).
    destruct (decide (j = i)) as [->|Hj]; unfold i; [|done].
    rewrite !(decide_False (P := (d, Main t) = (d, Main Notify))) by congruence.
    rewrite !(decide_False (P := (d, Main t) = (d, Main (opposite t)))) by congruence.
    by rewrite !decide_True.
  - destruct (fire_round f' fuel d t m w3 r w' Hw3 Hm3 Ht) as [Hw' Hl'].
    { unfold mbind at 1 2, proc_bind at 1 2. rewrite Hfl3. exact Hs. }
    split; [done|]. by eapply later_except_trans.
Qed.

(** Firing again the list of a state reached before, for a callback added later. *)
Lemma fire_again fuel d t c m w w0 r w' :
  inv w -> state_of_tuple t = Some (state d w) ->
  (forall d', state d' w0 = state d' w) ->
  (forall j, j <> (d, Main t) -> get_list j w0 = get_list j w) -> get_list (d, Main t) w0 = c ->
  locked c = true -> queue c = [m] -> -1 <= firingIndex c -> Forall allowed (list_of c) ->
  fire call fuel (d, Main t) w0 = Some (r, w') ->
  inv w' /\ later_except (d, Main t) w w'.
Proof using call_good.
  intros Hw Hst Hs0 Hg0 Hc Hk Hq Hi Hal Hs. set (i := (d, Main t)) in *.
  assert (t <> Notify) as Ht by (by intros ->).
  unfold fire, upd in Hs. erewrite proc_bind_ok in Hs by done.
  change (@cb_get _ _ _ _ deferred_host) with get_list in Hs.
  rewrite Hc in Hs. set (w1 := cb_set i _ w0) in Hs.
  destruct fuel as [|fuel]; [done|]. unfold mbind at 1, proc_bind at 1 in Hs. rewrite fire_queue_S in Hs.
  change (@cb_get _ _ _ _ deferred_host) with get_list in Hs.
  pose (c1 := c <| locked := locked c || once (opts c) |> <| fired := true |> <| firing := true |> : cblist).
  assert (get_list i w1 = c1) as H1 by (unfold w1; by rewrite get_list_set, decide_True).
  rewrite H1 in Hs. change (queue c1) with (queue c) in Hs. rewrite Hq in Hs. set (w2 := cb_set i _ w1) in Hs.
  assert (get_list i w2 = c1 <| memory := Some m |> <| queue := [] |>) as H2
    by (unfold w2; by rewrite get_list_set, decide_True).
  assert (forall d', state d' w2 = state d' w) as Hs2 by (intros; unfold w2, w1; by rewrite !state_set).
  assert (forall j, j <> i -> get_list j w2 = get_list j w) as Hg2
    by (intros; unfold w2, w1; by rewrite !get_list_set, !decide_False; auto).
  destruct (fire_round fuel fuel d t m w2 r w') as [Hw' Hl']; [| |done|exact Hs|].
  - intros j. rewrite Hs2. destruct (decide (j = i)) as [->|Hj]; [|rewrite Hg2 by done; apply Hw].
    rewrite H2. unfold ok_list, i. cbn [fst snd].
    destruct t; [done|..]; injection Hst as Hst; rewrite <- Hst; (rewrite decide_True by done);
      unfold settled; cbn; rewrite Hk; split_and!; try done; by apply Forall_drop.
  - unfold may_fire, i. cbn [fst snd]. fold i. rewrite Hs2, H2. by destruct t.
  - split; [done|]. eapply later_except_trans; [|exact Hl']. split.
    + intros d' _. apply Hs2.
    + intros j Hj. by rewrite Hg2.
Qed.

(** ** Adding and firing *)

Lemma add_one k (c : cblist) l :
  cb_list c = Some l ->
  add_args [AFn k] c = c <| cb_list := Some (l ++ [k]) |> \/ add_args [AFn k] c = c.
Proof. intros Hl. cbn. rewrite Hl. destruct (_ || _); auto. Qed.

Lemma ok_list_add st i k l c :
  allowed k -> ok_list st i c -> cb_list c = Some l -> ok_list st i (c <| cb_list := Some (l ++ [k]) |>).
Proof.
  intros Ha Hok Hl. unfold ok_list in *. destruct i as [d s]. cbn [fst snd] in *.
  assert (forall x, Forall allowed x -> Forall allowed (x ++ [k])) as Happ
    by (intros x Hx; apply Forall_app; by repeat constructor).
  assert (list_of c = l) as Hlo by (unfold list_of; by rewrite Hl).
  assert (ok_open : Forall allowed (list_of c) /\ -1 <= firingIndex c ->
    Forall allowed (list_of (c <| cb_list := Some (l ++ [k]) |>)) /\ -1 <= firingIndex c).
  { rewrite Hlo. intros [H1 H2]. split; [by apply Happ|done]. }
  assert (fresh d Resolve c -> fresh d Resolve (c <| cb_list := Some (l ++ [k]) |>)) as Hfr.
  { intros (? & ? & ? & ? & ? & ? & l' & Hl' & Hal). unfold fresh. split_and!; try done.
    exists (l' ++ [k]). split; [|by apply Happ]. rewrite Hl in Hl'. apply Some_inj in Hl' as ->.
    cbn [cb_list set_field]. by rewrite <- app_assoc. }
  assert (fresh d Reject c -> fresh d Reject (c <| cb_list := Some (l ++ [k]) |>)) as Hfj.
  { intros (? & ? & ? & ? & ? & ? & l' & Hl' & Hal). unfold fresh. split_and!; try done.
    exists (l' ++ [k]). split; [|by apply Happ]. rewrite Hl in Hl'. apply Some_inj in Hl' as ->.
    cbn [cb_list set_field]. by rewrite <- app_assoc. }
  assert (settled c -> settled (c <| cb_list := Some (l ++ [k]) |>)) as Hse.
  { unfold settled. rewrite Hlo. cbn. intros (? & ? & Hc). split_and!; try done.
    destruct (firing c); [|by apply Happ]. destruct Hc as [H1 H2]. split; [done|].
    unfold list_of. cbn. rewrite drop_app. apply Forall_app. split; [done|].
    apply Forall_drop. by repeat constructor. }
  assert (dead c -> dead (c <| cb_list := Some (l ++ [k]) |>)) as Hde
    by (intros [_ Hn]; congruence).
  destruct s as [[]|t]; [auto|..|auto]; destruct st; try case_decide; auto.
Qed.

Lemma later_idle_set i c w w' :
  later_except i (cb_set i c w) w' -> firing (get_list i w) = false -> later w w'.
Proof.
  intros Hl Hf. eapply later_except_idle; [|exact Hf].
  eapply later_except_trans; [apply later_except_set|exact Hl].
Qed.

(** Adding to a list that does not fire afterwards. *)
Lemma add_idle fuel i k w r w' :
  inv w -> allowed k -> is_Some (cb_list (get_list i w)) ->
  has_memory (get_list i w) && negb (firing (get_list i w)) = false ->
  ((upd i (add_args [AFn k]) ;;
    s ← p_get;
    if has_memory (get_list i s) && negb (firing (get_list i s)) then fire call fuel i else mret tt) : act unit) w
  = Some (r, w') -> inv w' /\ later w w'.
Proof using.
  intros Hw Hk [l Hl] Hm Hs. unfold upd in Hs.
  erewrite proc_bind_ok in Hs by done. erewrite proc_bind_ok in Hs by done.
  change (@cb_get _ _ _ _ deferred_host) with get_list in Hs.
  rewrite get_list_set, decide_True in Hs by done.
  pose proof (Hw i) as Hok.
  destruct (add_one k _ l Hl) as [Ha|Ha]; rewrite Ha in Hs.
  - change (has_memory (_ <| cb_list := _ |>)) with (has_memory (get_list i w)) in Hs.
    change (firing (_ <| cb_list := _ |>)) with (firing (get_list i w)) in Hs.
    rewrite Hm in Hs. injection Hs as <- <-. split; [|by apply later_set].
    apply inv_set; [done|]. by apply ok_list_add.
  - rewrite Hm in Hs. injection Hs as <- <-. split; [|by apply later_set]. by apply inv_set.
Qed.

(** Adding to a list that replays its memory. *)
Lemma add_memory fuel i k l m w r w' :
  inv w -> allowed k -> cb_list (get_list i w) = Some l -> memory (get_list i w) = Some m ->
  firing (get_list i w) = false ->
  ((upd i (fun c => c <| firingIndex := Z.of_nat (length l) - 1 |> <| queue := queue c ++ [m] |>) ;;
    upd i (add_args [AFn k]) ;;
    s ← p_get;
    if has_memory (get_list i s) && negb (firing (get_list i s)) then fire call fuel i else mret tt) : act unit) w
  = Some (r, w') -> inv w' /\ later w w'.
Proof using call_good.
  intros Hw Hk Hl Hm Hf Hs. unfold upd in Hs.
  erewrite proc_bind_ok in Hs by done. erewrite proc_bind_ok in Hs by done. erewrite proc_bind_ok in Hs by done.
  change (@cb_get _ _ _ _ deferred_host) with get_list in Hs.
  set (w1 := cb_set i _ w) in Hs. set (w2 := cb_set i _ w1) in Hs.
  pose (c1 := (get_list i w) <| firingIndex := Z.of_nat (length l) - 1 |>
                <| queue := queue (get_list i w) ++ [m] |> : cblist).
  assert (get_list i w1 = c1) as H1 by (unfold w1; by rewrite get_list_set, decide_True).
  assert (get_list i w2 = add_args [AFn k] c1) as H2 by (unfold w2; by rewrite get_list_set, decide_True, H1).
  assert (exists l2, get_list i w2 = c1 <| cb_list := Some l2 |> /\ (l2 = l \/ l2 = l ++ [k])) as (l2 & H2' & Hl2).
  { rewrite H2. destruct (add_one k c1 l Hl) as [-> | ->]; [by eexists; split; [|right]|].
    exists l. split; [|by left]. unfold c1. destruct (get_list i w); cbn in *. by subst. }
  rewrite H2' in Hs. unfold has_memory in Hs. cbn [memory firing set_field c1] in Hs. rewrite Hm, Hf in Hs.
  cbn [andb negb] in Hs.
  assert (forall d', state d' w2 = state d' w) as Hsw by (intros; unfold w2, w1; by rewrite !state_set).
  assert (forall j, j <> i -> get_list j w2 = get_list j w) as Hgw
    by (intros; unfold w2, w1; by rewrite !get_list_set, !decide_False).
  assert (later_except i w w2) as Hlw.
  { split; [intros d' _; apply Hsw|]. intros j Hj. by rewrite Hgw. }
  pose proof (Hw i) as Hok.
  enough (inv w' /\ later_except i w w') as [? ?] by (split; [done|by eapply later_except_idle]).
  assert (Forall allowed l -> Forall allowed l2) as Hall.
  { intros Ha. destruct Hl2 as [-> | ->]; [done|]. apply Forall_app. by repeat constructor. }
  assert (list_of (get_list i w) = l) as Hlo by (unfold list_of; by rewrite Hl).
  destruct (decide (open_list i)) as [Ho|Hno].
  - assert (inv w2) as Hw2.
    { intros j. rewrite Hsw. destruct (decide (j = i)) as [->|Hj]; [|rewrite Hgw by done; apply Hw].
      rewrite H2'. unfold ok_list, open_list in *. destruct i as [d [[]|t]]; cbn in *; try done;
        rewrite Hlo in Hok; (split;
          [change (Forall allowed l2); apply Hall; by destruct Hok|change (-1 <= Z.of_nat (length l) - 1); lia]). }
    destruct (fire_open _ _ _ _ _ Ho Hw2 Hs) as [Hw' Hl']. split; [done|]. by eapply later_except_trans.
  - destruct i as [d [t|t]]; [|done]. assert (t <> Notify) as Ht by (by intros ->).
    unfold ok_list in Hok. cbn [fst snd] in Hok.
    destruct (state d w) eqn:Hp.
    { destruct (inv_fresh d t w Hw Hp Ht) as (_ & _ & Hm' & _). congruence. }
    all: assert (state_of_tuple t = Some (state d w) /\ settled (get_list (d, Main t) w)) as [Hst (Hk1 & Hq1 & Hal)]
      by (rewrite Hp; destruct t; [done|..]; case_decide; try done; destruct Hok; congruence).
    all: rewrite Hf, Hlo in Hal.
    all: eapply (fire_again fuel d t (c1 <| cb_list := Some l2 |>) m w w2); try done;
      [change (queue (get_list (d, Main t) w) ++ [m] = [m]); by rewrite Hq1|change (-1 <= Z.of_nat (length l) - 1); lia|by apply Hall].
Qed.

Lemma add_good fuel i k : allowed k -> good (add call fuel i [AFn k]).
Proof using call_good.
  intros Hk w r w' Hw Hs. unfold add in Hs. erewrite proc_bind_ok in Hs by done.
  change (@cb_get _ _ _ _ deferred_host) with get_list in Hs.
  destruct (cb_list (get_list i w)) as [l|] eqn:Hl; [|by injection Hs as <- <-].
  destruct (memory (get_list i w)) as [m|] eqn:Hm; [destruct (firing (get_list i w)) eqn:Hf|].
  - erewrite proc_bind_ok in Hs by done. eapply add_idle; [exact Hw|exact Hk|by eexists| |exact Hs].
    by rewrite Hf, andb_false_r.
  - by eapply add_memory.
  - erewrite proc_bind_ok in Hs by done. eapply add_idle; [exact Hw|exact Hk|by eexists| |exact Hs].
    unfold has_memory. by rewrite Hm.
Qed.

Lemma fireWith_good fuel i a : good (fireWith call fuel i a).
Proof using call_good call_internal.
  intros w r w' Hw Hs. unfold fireWith in Hs. erewrite proc_bind_ok in Hs by done.
  change (@cb_get _ _ _ _ deferred_host) with get_list in Hs.
  destruct (locked (get_list i w)) eqn:Hk; [by injection Hs as <- <-|].
  unfold upd in Hs. erewrite proc_bind_ok in Hs by done. erewrite proc_bind_ok in Hs by done.
  change (@cb_get _ _ _ _ deferred_host) with get_list in Hs.
  rewrite get_list_set, decide_True in Hs by done. cbn [firing set_field] in Hs.
  destruct (decide (open_list i)) as [Ho|Hno].
  - set (w1 := cb_set i _ w) in Hs.
    assert (inv w1 /\ later w w1) as [Hw1 Hl1].
    { split; [|by apply later_set]. apply inv_set; [done|].
      apply (open_ok _ _ (get_list i w)); [done|apply Hw|done|by apply open_index]. }
    destruct (firing (get_list i w)) eqn:Hf; [by injection Hs as <- <-|].
    destruct (fire_open _ _ _ _ _ Ho Hw1 Hs) as [Hw' Hl']. split; [done|].
    by eapply later_idle_set.
  - destruct i as [d [t|t]]; [|done]. assert (t <> Notify) as Ht by (by intros ->).
    pose proof (Hw (d, Main t)) as Hok. unfold ok_list in Hok. cbn [fst snd] in Hok.
    destruct (state d w) eqn:Hp.
    2,3: destruct t; [done|..]; case_decide; destruct Hok; congruence.
    destruct (inv_fresh d t w Hw Hp Ht) as (_ & Hf & _ & _ & Hq & _). rewrite Hf, Hq in Hs.
    destruct (fire_first fuel d t w a r w' Hw Hp Ht) as [Hw' Hl']; [|split; [done|by eapply later_except_idle]].
    rewrite <- Hs. do 2 f_equal. destruct (get_list (d, Main t) w); cbn in *; by subst.
Qed.
End Fire.

(** ** All operations *)

(** Changes that concern neither lists nor states. *)
Ltac good_mod := apply good_modify; intros ? ?; unfold state, get_list, on_def; cbn;
  repeat case_decide; subst; reflexivity.

Ltac good_step :=
  match goal with
  | |- good (_ ≫= _) => apply good_bind; [|intros ?]
  | |- good (mret _) => apply good_ret
  | |- good (p_throw _) => apply good_throw
  | |- good p_get => apply good_get
  | |- good p_diverge => apply good_diverge
  | |- good (p_catch _ _) => apply good_catch; [|intros ?]
  | |- good (p_modify _) => good_mod
  | |- good (fireWith _ _ _ _) => apply fireWith_good
  | |- good (add _ _ _ [AFn _]) => apply add_good
  | |- good (match ?x with _ => _ end) => destruct x
  | |- good (let '(_, _) := ?x in _) => destruct x
  | |- good (if ?x then _ else _) => destruct x
  end.

Section Operations.
Context (user : nat -> list value -> list cmd * (value + value)).

Definition call_ok (call : callback -> args -> act bool) : Prop :=
  (forall k a, allowed k -> good (call k a)) /\
  (forall k a w r w', ~ allowed k -> call k a w = Some (r, w') -> r = Ret false /\ w' = effect k w).

Section Body.
Context (call : callback -> args -> act bool) (Hcall : call_ok call) (fuel : nat).

Ltac go := repeat (good_step; try exact (proj1 Hcall); try exact (proj2 Hcall); try exact I; try assumption).

Lemma settleWith_good d t a : good (settleWith call fuel d t a).
Proof using Hcall. unfold settleWith. go. Qed.

Lemma on_tuple_good d t k : allowed k -> good (on_tuple call fuel d t k).
Proof using Hcall. intros Hk. unfold on_tuple. go. Qed.

Lemma deferred_then_good d f g h : good (deferred_then call fuel d f g h).
Proof using Hcall. unfold deferred_then, new_def. go. Qed.

Lemma exec_all_good l : good (exec_all call fuel l).
Proof using Hcall.
  induction l as [|c l IH]; cbn [exec_all]; [apply good_ret|].
  apply good_bind; [|intros []; exact IH].
  destruct c; cbn [exec]; [apply settleWith_good|by apply on_tuple_good|].
  apply good_bind; [apply deferred_then_good|intros; apply good_ret].
Qed.

Lemma run_user_good f l : good (run_user user call fuel f l).
Proof using Hcall.
  unfold run_user. go; first [apply exec_all_good|idtac].
Qed.

Lemma mightThrow_good p a : good (mightThrow user call fuel p a).
Proof using Hcall.
  destruct p as [depth d h special]. unfold mightThrow, apply_handler.
  go; first [apply run_user_good|apply settleWith_good|apply deferred_then_good|by apply Hcall].
Qed.

Lemma process_good p a : good (process user call fuel p a).
Proof using Hcall.
  pose proof (mightThrow_good p a) as Hm.
  destruct p as [depth d h special]. unfold process. destruct special; [exact Hm|].
  apply good_catch; [exact Hm|]. intros e. go; apply settleWith_good.
Qed.

Lemma run_closure_good p a : good (run_closure user call fuel p a).
Proof using Hcall.
  pose proof (process_good p a) as Hp. destruct p as [depth d h special]. unfold run_closure. go.
Qed.

Lemma run_update_good n i a : good (run_update call fuel n i a).
Proof using Hcall. unfold run_update. go; apply settleWith_good. Qed.

Lemma body_ok : call_ok (body user call fuel).
Proof using Hcall.
  split.
  - intros k a Hk. unfold body. apply good_bind; [|intros; apply good_ret].
    destruct k; try done; cbn.
    + apply settleWith_good || (apply fireWith_good; apply Hcall).
    + apply good_bind; [apply run_user_good|intros; apply good_ret].
    + apply run_closure_good.
    + apply run_update_good.
    + apply settleWith_good.
  - intros k a w r w' Hk Hs. destruct k; try (by destruct Hk); by injection Hs as <- <-.
Qed.
End Body.

Lemma call_call_ok fuel : call_ok (call user fuel).
Proof.
  induction fuel as [|fuel IH]; [done|]. exact (body_ok _ IH (S fuel)).
Qed.

(** ** The page: everything a program can do with deferreds *)

Inductive top :=
  | TSettle (d : nat) (t : tuple) (a : args)
  | TOn (d : nat) (t : tuple) (f : nat)
  | TThen (d : nat) (done fail progress : option nat)
  | TWhen (l : list value)
  | TReady (d f hook : nat)
  | TTask.

Definition run_top (fuel : nat) (x : top) : act unit :=
  match x with
  | TSettle d t a => settleWith (call user fuel) fuel d t a
  | TOn d t f => on_tuple (call user fuel) fuel d t (KUser f)
  | TThen d f g h =>
      then_ user fuel d (option_map HUser f) (option_map HUser g) (option_map HUser h) ;; mret tt
  | TWhen l => when user fuel l ;; mret tt
  | TReady d f hook => fn_ready user fuel d f hook
  | TTask => run_task user fuel
  end.

(** Worlds reached by any operations with any fuel, exceptions included. *)
Inductive reach : world -> Prop :=
  | reach_initial : reach initial_world
  | reach_top w fuel x r w' : reach w -> run_top fuel x w = Some (r, w') -> reach w'.

Lemma adoptValue_good fuel v k k' b :
  allowed k -> allowed k' -> good (adoptValue user fuel v k k' b).
Proof.
  intros Hk Hk'. pose proof (call_call_ok fuel) as Hc. unfold adoptValue. apply good_catch.
  - destruct v; try (apply good_bind; [by apply Hc|intros; apply good_ret]).
    apply good_bind; [|intros []]; by apply on_tuple_good.
  - intros e. apply good_bind; [by apply Hc|intros; apply good_ret].
Qed.

Lemma adopt_all_good fuel n m i : good (adopt_all user fuel n m i).
Proof.
  induction i as [|i IH]; cbn [adopt_all]; [apply good_ret|].
  apply good_bind; [apply good_get|intros w].
  apply good_bind; [by apply adoptValue_good|intros []; exact IH].
Qed.

Lemma when_good fuel l : good (when user fuel l).
Proof.
  pose proof (call_call_ok fuel) as Hc. unfold when, new_def.
  repeat good_step; try exact I; try (apply Hc);
    first [apply on_tuple_good; done|apply adoptValue_good; done|apply adopt_all_good
          |apply deferred_then_good; done].
Qed.

Lemma run_top_good fuel x : good (run_top fuel x).
Proof.
  pose proof (call_call_ok fuel) as Hc. destruct x; cbn [run_top].
  - by apply settleWith_good.
  - by apply on_tuple_good.
  - apply good_bind; [by apply deferred_then_good|intros; apply good_ret].
  - apply good_bind; [apply when_good|intros; apply good_ret].
  - unfold fn_ready, then_. apply good_bind; [by apply deferred_then_good|intros d'].
    apply good_bind; [by apply deferred_then_good|intros; apply good_ret].
  - unfold run_task. apply good_bind; [apply good_get|intros w].
    destruct (tasks w) as [|[p a] rest]; [apply good_ret|].
    apply good_bind; [good_mod|intros []]. apply good_catch; [by apply process_good|intros; apply good_ret].
Qed.

Lemma inv_initial : inv initial_world.
Proof.
  intros [d s]. unfold ok_list, get_list, state. cbn.
  destruct s as [t|t]; cbn; [destruct t|]; cbn.
  - split; [by repeat constructor|lia].
  - unfold fresh. cbn. split_and!; try done. by exists [].
  - unfold fresh. cbn. split_and!; try done. by exists [].
  - split; [constructor|lia].
Qed.

Lemma reach_inv w : reach w -> inv w.
Proof.
  induction 1 as [|w fuel x r w' _ IH Hs]; [apply inv_initial|]. by eapply run_top_good.
Qed.
End Operations.

(** C8. A deferred settles at most once.  In every world that any program
    reaches, whatever its callbacks do while they run (settling, chaining,
    adding, throwing), a further operation leaves the state of every settled
    deferred as it is, and the list of the other outcome is disabled for good,
    so its callbacks can never be called. *)
Theorem settles_once user w fuel x r w' d :
  reach user w -> run_top user fuel x w = Some (r, w') -> d_state (defs w d) <> Pending ->
  d_state (defs w' d) = d_state (defs w d) /\
  (d_state (defs w d) = Resolved -> disabled (d_lists (defs w' d) (Main Reject)) = true) /\
  (d_state (defs w d) = Rejected -> disabled (d_lists (defs w' d) (Main Resolve)) = true).
Proof.
  intros Hw Hs Hd. destruct (run_top_good user fuel x w r w' (reach_inv _ _ Hw) Hs) as [Hw' [Hl _]].
  specialize (Hl d Hd). unfold state in Hl. split; [exact Hl|].
  split; intros Hst; [pose proof (Hw' (d, Main Reject)) as Hok|pose proof (Hw' (d, Main Resolve)) as Hok];
    unfold ok_list, state, get_list in Hok; cbn in Hok; rewrite Hl, Hst in Hok; cbn in Hok;
    destruct Hok as [_ Hn]; unfold disabled; by rewrite Hn.
Qed.

(** A callback that rejects, resolves again and then throws. *)
Definition hostile_user (f : nat) (l : list value) : list cmd * (value + value) :=
  ([CSettle 0 Reject l; CSettle 0 Resolve l; COn 0 Reject 7], inr (VNum 1)).

Definition result_world (m : act unit) (w : world) : world :=
  match m w with Some (_, w') => w' | None => w end.

Lemma result_world_eq (m : act unit) w :
  match m w with Some _ => true | None => false end = true ->
  exists r, m w = Some (r, result_world m w).
Proof. unfold result_world. destruct (m w) as [[r w']|]; [eauto|done]. Qed.

Lemma settles_once_witness :
  let w1 := result_world (run_top hostile_user 20 (TOn 0 Resolve 3)) initial_world in
  let w2 := result_world (run_top hostile_user 20 (TSettle 0 Resolve (VUndefined, [VNum 5]))) w1 in
  let w3 := result_world (run_top hostile_user 20 (TSettle 0 Reject (VUndefined, []))) w2 in
  calls w2 = [(3%nat, [VNum 5])] /\ d_state (defs w2 0) = Resolved /\ d_state (defs w3 0) = Resolved.
Proof.
  intros w1 w2 w3.
  destruct (result_world_eq (run_top hostile_user 20 (TOn 0 Resolve 3)) initial_world) as [r1 H1]; [done|].
  destruct (result_world_eq (run_top hostile_user 20 (TSettle 0 Resolve (VUndefined, [VNum 5]))) w1) as [r2 H2];
    [done|].
  destruct (result_world_eq (run_top hostile_user 20 (TSettle 0 Reject (VUndefined, []))) w2) as [r3 H3]; [done|].
  assert (reach hostile_user w2) as Hw2.
  { eapply reach_top; [|exact H2]. eapply reach_top; [apply reach_initial|exact H1]. }
  assert (d_state (defs w2 0) = Resolved) as Hst by reflexivity.
  split; [reflexivity|]. split; [exact Hst|]. rewrite <- Hst.
  apply (settles_once hostile_user w2 20 _ r3 w3 0 Hw2 H3). by rewrite Hst.
Defined.
