(* ===== verification/DeferredProps.v ===== *)
(** [then] and [when], evaluated for arbitrary values and outcomes of the user's
    functions. *)
From S2P Require Import Prelude Callbacks CallbacksProps Deferred.

(** User functions 0 and 1 have arbitrary outcomes; the others return nothing. *)
Definition two_users (out0 out1 : value + value) (f : nat) (l : list value) :
    list cmd * (value + value) :=
  ([], match f with 0%nat => out0 | 1%nat => out1 | _ => inl VUndefined end).

(** What is observed of a run: the calls made, and state and values of a deferred. *)
Definition observe {A} (m : act A) (w : world) (d : nat) :
    option (list (nat * list value) * dstate * option (list value)) :=
  match m w with
  | Some (Ret _, w') =>
      let x := defs w' d in
      let mem t := option_map snd (memory (d_lists x (Main t))) in
      Some (calls w', d_state x, match d_state x with
                                 | Pending => None
                                 | Resolved => mem Resolve
                                 | Rejected => mem Reject
                                 end)
  | _ => None
  end.

(** Deferreds 0 and 1 exist; 1 is left for the functions to return. *)
Definition start : world := initial_world <| next_def := 2%nat |>.

Definition flush (user : nat -> list value -> list cmd * (value + value)) : act unit :=
  run_tasks user 20 20.

(** Chain function 0 to deferred 0 before or after it is settled; the new
    deferred is 2. *)
Definition chained user (late : bool) (t : tuple) (l : list value) : act unit :=
  if late then
    settleWith (call user 20) 20 0 t (VUndefined, l) ;;
    then_ user 20 0 (Some (HUser 0)) None None ;; mret tt
  else
    then_ user 20 0 (Some (HUser 0)) None None ;;
    settleWith (call user 20) 20 0 t (VUndefined, l).

Definition promise_of (v : value) : option nat := match v with VPromise d => Some d | _ => None end.

(** [then] on a deferred that is resolved, before or afterwards, with any
    values: the handler is not called before the current task ends, and is then
    called exactly once with all the values; the new deferred is resolved with
    the value it returns or rejected with the exception it throws, and with a
    TypeError when it returns the new promise itself. *)
Theorem then_settles out late l :
  observe (chained (two_users out out) late Resolve l) start 2 = Some ([], Pending, None) /\
  (match out with inl v => promise_of v = None \/ v = VPromise 2 | inr _ => True end ->
   observe (chained (two_users out out) late Resolve l ;; flush (two_users out out)) start 2
   = Some ([(0%nat, l)],
           match out with
           | inl (VPromise _) => Rejected
           | inl _ => Resolved
           | inr _ => Rejected
           end,
           Some match out with
                | inl (VPromise _) => [VTypeError]
                | inl v => [v]
                | inr e => [e]
                end)).
Proof.
  split.
  - destruct late; vm_compute; reflexivity.
  - intros Hv. destruct out as [[| | | |d]|e].
    5: { destruct Hv as [Hv|Hv]; [done|]. injection Hv as ->. destruct late; vm_compute; reflexivity. }
    all: destruct late; vm_compute; reflexivity.
Qed.

Lemma then_settles_witness :
  observe (chained (two_users (inl (VNum 7)) (inl (VNum 7))) true Resolve [VNum 3] ;;
           flush (two_users (inl (VNum 7)) (inl (VNum 7)))) start 2
  = Some ([(0%nat, [VNum 3])], Resolved, Some [VNum 7]).
Proof.
  destruct (then_settles (inl (VNum 7)) true [VNum 3]) as [_ H]. exact (H (or_introl eq_refl)).
Defined.

(** A handler that returns another promise delays the new deferred until
    that promise is settled, and the new deferred then has the same outcome and
    values; a rejection that no handler catches is passed on unchanged. *)
Theorem then_adopts late l t u :
  t <> Notify -> match u with v :: _ => promise_of v = None | [] => True end ->
  let user := two_users (inl (VPromise 1)) (inl VUndefined) in
  let st := match t with Reject => Rejected | _ => Resolved end in
  observe (chained user late Resolve l ;; flush user) start 2 = Some ([(0%nat, l)], Pending, None) /\
  observe (chained user late Resolve l ;; flush user ;;
           settleWith (call user 20) 20 1 t (VUndefined, u) ;; flush user) start 2
  = Some ([(0%nat, l)], st, Some u) /\
  observe (chained user late Reject u ;; flush user) start 2 = Some ([], Rejected, Some u).
Proof.
  intros Ht Hu. cbv zeta. split_and!.
  - destruct late; vm_compute; reflexivity.
  - destruct t; [done|..]; destruct late, u as [|[] u]; try done; vm_compute; reflexivity.
  - destruct late; vm_compute; reflexivity.
Qed.

Lemma then_adopts_witness :
  observe (chained (two_users (inl (VPromise 1)) (inl VUndefined)) true Resolve [] ;;
           flush (two_users (inl (VPromise 1)) (inl VUndefined)) ;;
           settleWith (call (two_users (inl (VPromise 1)) (inl VUndefined)) 20) 20 1 Reject (VUndefined, [VNum 4]) ;;
           flush (two_users (inl (VPromise 1)) (inl VUndefined))) start 2
  = Some ([(0%nat, [])], Rejected, Some [VNum 4]).
Proof.
  destruct (then_adopts true [] Reject [VNum 4]) as (_ & H & _); [done|reflexivity|exact H].
Defined.

(** ** [jQuery.when] *)

Definition settle_one user (d : nat) (t : tuple) (v : value) : act unit :=
  settleWith (call user 20) 20 d t (VUndefined, [v]).

(** Wait for deferreds 0 and 1 and a plain value; [early] settles deferred 0
    before the call, [swap] deferred 1 before deferred 0. *)
Definition when_session user (early swap : bool) (t : tuple) (a b v : value) : act unit :=
  (if early then settle_one user 0 Resolve a else mret tt) ;;
  when user 20 [VPromise 0; v; VPromise 1] ;;
  (if swap then settle_one user 1 t b ;; settle_one user 0 Resolve a
   else settle_one user 0 Resolve a ;; settle_one user 1 t b).

(** [when] waits for all its arguments: the master is resolved with their
    values in the order of the arguments, whatever the order in which they are
    settled, and rejected with the first exception as soon as one is rejected;
    until the last is settled it is pending. *)
Theorem when_aggregates early swap a b v :
  promise_of v = None ->
  let user := two_users (inl VUndefined) (inl VUndefined) in
  option_map (fun o => (snd (fst o), snd o)) (observe (when_session user early swap Resolve a b v) start 2)
  = Some (Resolved, Some [a; v; b]) /\
  option_map (fun o => (snd (fst o), snd o)) (observe (when_session user early swap Reject a b v) start 2)
  = Some (Rejected, Some [b]) /\
  option_map (fun o => snd (fst o))
    (observe (when user 20 [VPromise 0; v; VPromise 1] ;; settle_one user 0 Resolve a) start 2)
  = Some Pending.
Proof.
  intros Hv. cbv zeta.
  destruct v as [| | | |d]; [..|done]; destruct early, swap; vm_compute; done.
Qed.

Lemma when_aggregates_witness :
  option_map (fun o => (snd (fst o), snd o))
    (observe (when_session (two_users (inl VUndefined) (inl VUndefined)) false true Resolve (VNum 1) (VNum 2) (VNum 3))
       start 2)
  = Some (Resolved, Some [VNum 1; VNum 3; VNum 2]).
Proof. exact (proj1 (when_aggregates false true (VNum 1) (VNum 2) (VNum 3) eq_refl)). Defined.
