(* ===== verification/DeferredReady.v ===== *)
(** The functions given to [$( document ).ready]: whatever the order of
    registrations, ready events and timeouts, each runs once. *)
From S2P Require Import Prelude Callbacks CallbacksProps Deferred DeferredInv.

(** ** Firing lists whose callbacks succeed *)

Section fire_all.
Context {E K A St I : Type} `{!EqDecision K, !CbHost K A St I}.
Context (call : K -> A -> proc E St bool) (i : I) (a : A).
(** What holds while [ks] remain to be called; it does not look at the list. *)
Context (J : list K -> St -> Prop).
Context (J_set : forall ks c s, J ks s -> J ks (cb_set i c s)).
Context (J_call : forall k ks s, J (k :: ks) s -> exists s', call k a s = Some (Ret false, s') /\ J ks s' /\ cb_get i s' = cb_get i s).

Lemma fire_list_all fuel ks s : J ks s -> -1 <= firingIndex (cb_get i s) -> drop (Z.to_nat (firingIndex (cb_get i s) + 1)) (list_of (cb_get i s)) = ks ->
  (length ks < fuel)%nat ->
  exists s' n, fire_list call fuel i a s = Some (Ret tt, s') /\ J [] s' /\ cb_get i s' = (cb_get i s) <| firingIndex := n |>.
Proof using J_set J_call.
  revert fuel s. induction ks as [|k ks IH]; intros fuel s HJ Hi Hd Hf; (destruct fuel as [|fuel]; [cbn in Hf; lia|]); rewrite fire_list_S; cbv zeta;
    rewrite list_of_index; cbn [firingIndex set_field].
  - assert (list_of (cb_get i s) !! Z.to_nat (firingIndex (cb_get i s) + 1) = None) as ->.
    { apply lookup_ge_None. apply (f_equal length) in Hd. rewrite length_drop in Hd. cbn in Hd. lia. }
    do 2 eexists. split; [done|]. split; [by apply J_set|]. by rewrite cb_get_set.
  - assert (list_of (cb_get i s) !! Z.to_nat (firingIndex (cb_get i s) + 1) = Some k) as ->.
    { transitivity (head (k :: ks)); [|done]. rewrite <- Hd, head_lookup, lookup_drop. f_equal. lia. }
    set (s1 := cb_set i _ s). destruct (J_call k ks s1) as (s2 & Hc & H2 & Hg); [by apply J_set|].
    erewrite proc_bind_ok by exact Hc. cbn [andb]. erewrite proc_bind_ok by done.
    unfold s1 in Hg. rewrite cb_get_set in Hg. destruct (IH fuel s2) as (s3 & n & H3 & HJ3 & Hg3); [done| | |cbn in Hf; lia|].
    + rewrite Hg. cbn [set_field firingIndex]. lia.
    + rewrite Hg. cbn [set_field firingIndex]. change (list_of _) with (list_of (cb_get i s)).
      replace (Z.to_nat (firingIndex (cb_get i s) + 1 + 1)) with (Z.to_nat (firingIndex (cb_get i s) + 1) + 1)%nat by lia.
      by rewrite <- drop_drop, Hd.
    + exists s3, n. split; [done|]. split; [done|]. by rewrite Hg3, Hg.
Qed.

(** One firing from the start or, for a list that replays its memory, from where it stands. *)
Lemma fire_all fuel ks s c : J ks s -> cb_get i s = c -> queue c = [a] -> -1 <= firingIndex c ->
  drop (Z.to_nat (firingIndex c + 1)) (list_of c) = ks -> (length ks + 1 < fuel)%nat ->
  exists s', fire call fuel i s = Some (Ret tt, s') /\ J [] s' /\
    cb_get i s' = fire_end (c <| locked := locked c || once (opts c) |> <| fired := true |> <| firing := true |> <| memory := Some a |> <| queue := [] |>
                              <| firingIndex := -1 |>).
Proof using J_set J_call.
  intros HJ Hc Hq Hi Hd Hf. unfold fire. erewrite proc_bind_ok by done. destruct fuel as [|[|fuel]]; [lia..|].
  set (s1 := cb_set i _ s). set (c1 := c <| locked := locked c || once (opts c) |> <| fired := true |> <| firing := true |>).
  assert (cb_get i s1 = c1) as H1 by (unfold s1; by rewrite cb_get_set, Hc).
  set (c2 := c1 <| memory := Some a |> <| queue := [] |>). set (s2 := cb_set i c2 s1).
  assert (cb_get i s2 = c2) as H2 by apply cb_get_set.
  destruct (fire_list_all (S fuel) ks s2) as (s3 & n & H3 & HJ3 & Hg3); rewrite ?H2; [by do 2 apply J_set|done|done|lia|].
  erewrite proc_bind_ok.
  2: { rewrite fire_queue_S, H1. change (queue c1) with (queue c). rewrite Hq. cbv iota.
       change (cb_set i _ s1) with s2. erewrite proc_bind_ok by exact H3. erewrite proc_bind_ok by done.
       rewrite fire_queue_S, cb_get_set, Hg3, H2. reflexivity. }
  eexists. split; [done|]. split; [by do 2 apply J_set|]. by rewrite !cb_get_set.
Qed.
End fire_all.

(** ** Settling *)

(** What an operation on one deferred leaves as it was. *)
Record aside (d : nat) (w w' : world) : Prop := {
  aside_next : next_def w' = next_def w;
  aside_calls : calls w' = calls w;
  aside_defs d' : d' <> d -> defs w' d' = defs w d';
  aside_depth : d_maxDepth (defs w' d) = d_maxDepth (defs w d);
}.
#[export] Instance aside_preorder d : PreOrder (aside d).
Proof.
  split; [by intros w; split|]. intros w1 w2 w3 [H1 H2 H3 H4] [G1 G2 G3 G4].
  split; [congruence|congruence|intros d' Hd; by rewrite G3, H3|congruence].
Qed.
Lemma aside_set d s c w : aside d w (cb_set (d, s) c w).
Proof. split; cbn; [done|done|intros d' Hd; by rewrite decide_False|by rewrite decide_True]. Qed.

(** Handlers at depth 0 become timeouts. *)
Definition starts (p : processor) : Prop := let '(Proc depth _ _ _) := p in depth = 0%nat.

(** The list of handlers after its deferred has been settled with [a]. *)
Definition spent (a : args) : cblist := {|
  opts := once_memory; firing := false; memory := Some a; fired := true; locked := true; cb_list := Some []; queue := []; firingIndex := -1 |}.

Section settle.
Context (user : nat -> list value -> list cmd * (value + value)).

(** Firing a list of handlers adds timeouts. *)
Lemma fire_handlers fuel fuel' d t ps a c w : get_list (d, Handlers t) w = c -> opts c = once_memory -> queue c = [a] -> -1 <= firingIndex c ->
  drop (Z.to_nat (firingIndex c + 1)) (list_of c) = KProc <$> ps -> Forall starts ps -> (length ps + 1 < fuel)%nat ->
  exists w', fire (call user (S fuel')) fuel (d, Handlers t) w = Some (Ret tt, w') /\ aside d w w' /\
    tasks w' = tasks w ++ ((fun p => (p, a)) <$> ps) /\ get_list (d, Handlers t) w' = spent a /\
    (forall s, s <> Handlers t -> get_list (d, s) w' = get_list (d, s) w).
Proof.
  intros Hc Ho Hq Hi Hd Hps Hf.
  set (J (ks : list callback) w1 := exists qs, ks = KProc <$> qs /\ Forall starts qs /\ aside d w w1 /\
    tasks w ++ ((fun p => (p, a)) <$> ps) = tasks w1 ++ ((fun p => (p, a)) <$> qs) /\
    (forall s, s <> Handlers t -> get_list (d, s) w1 = get_list (d, s) w)).
  destruct (fire_all (call user (S fuel')) (d, Handlers t) a J) with (fuel := fuel) (ks := KProc <$> ps) (s := w) (c := c)
    as (w' & Hw' & (qs & Hqs & _ & Ha & Ht & Hs) & Hg); try done.
  - intros ks c' w1 (qs & -> & Hst & Ha & Ht & Hs). exists qs. split_and!; [done|done|by etrans; [|apply aside_set]|done|].
    intros s Hne. rewrite get_list_set, decide_False by congruence. by apply Hs.
  - intros k ks w1 (qs & Hqs & Hst & Ha & Ht & Hs). destruct qs as [|[depth b h sp] qs]; [done|]. injection Hqs as -> ->.
    apply Forall_cons in Hst as [Hz Hst]. cbn in Hz. subst depth. eexists. split; [done|]. split; [|done].
    exists qs. split_and!; [done|done| | |done].
    + etrans; [exact Ha|]. by split.
    + rewrite Ht. cbn. by rewrite <- app_assoc.
  - exists ps. by split_and!.
  - by rewrite length_fmap.
  - exists w'. symmetry in Hqs. apply fmap_nil_inv in Hqs as ->. rewrite app_nil_r in Ht. split_and!; [done|done|done| |done].
    etrans; [exact Hg|]. unfold fire_end. destruct c. cbn in Ho |- *. subst. cbn. by rewrite orb_true_r.
Qed.

Definition waiting_list (ps : list processor) : cblist := (Callbacks once_memory) <| cb_list := Some (KProc <$> ps) |>.

Lemma fireWith_handlers fuel fuel' d t ps a w : get_list (d, Handlers t) w = waiting_list ps -> Forall starts ps -> (length ps + 1 < fuel)%nat ->
  exists w', fireWith (call user (S fuel')) fuel (d, Handlers t) a w = Some (Ret tt, w') /\ aside d w w' /\
    tasks w' = tasks w ++ ((fun p => (p, a)) <$> ps) /\ get_list (d, Handlers t) w' = spent a /\
    (forall s, s <> Handlers t -> get_list (d, s) w' = get_list (d, s) w).
Proof.
  intros Hc Hps Hf. unfold fireWith. erewrite proc_bind_ok by done. cbv beta. change (cb_get ?i ?w) with (get_list i w). rewrite Hc. cbn [locked waiting_list Callbacks set_field].
  set (w1 := cb_set (d, Handlers t) ((waiting_list ps) <| queue := [a] |>) w).
  erewrite proc_bind_ok. 2: { unfold upd, p_modify. change (cb_get ?i ?w) with (get_list i w). rewrite Hc. reflexivity. }
  erewrite proc_bind_ok by done. cbv beta. change (cb_set _ _ w) with w1. change (cb_get ?i ?w) with (get_list i w).
  assert (get_list (d, Handlers t) w1 = (waiting_list ps) <| queue := [a] |>) as H1 by (unfold w1; by rewrite get_list_set, decide_True). rewrite H1.
  change (firing _) with false. cbv iota.
  destruct (fire_handlers fuel fuel' d t ps a _ w1 H1) as (w' & Hw' & Ha & Ht & Hg & Hs); try done.
  exists w'. split_and!; [done| |done|done|].
  - etrans; [|exact Ha]. apply aside_set.
  - intros s Hne. rewrite Hs by done. unfold w1. rewrite get_list_set, decide_False; congruence.
Qed.

(** Settling a deferred for the first time: its handlers become timeouts, in
    their order. *)
Lemma settle_fresh fuel d t ps a w : t <> Notify -> get_list (d, Main t) w = d_lists (new_deferred d) (Main t) ->
  get_list (d, Handlers t) w = waiting_list ps -> Forall starts ps -> (length ps + 6 < fuel)%nat ->
  exists w', settleWith (call user fuel) fuel d t a w = Some (Ret tt, w') /\ aside d w w' /\
    tasks w' = tasks w ++ ((fun p => (p, a)) <$> ps) /\ get_list (d, Handlers t) w' = spent a /\
    (forall t', t' <> t -> get_list (d, Handlers t') w' = get_list (d, Handlers t') w).
Proof.
  intros Hnt Hm Hc Hps Hf. unfold settleWith, fireWith. set (c := d_lists (new_deferred d) (Main t)) in *.
  assert (opts c = once_memory) as Hopts by (by destruct t).
  erewrite proc_bind_ok by done. cbv beta. change (cb_get ?i ?w) with (get_list i w). rewrite Hm. change (locked c) with false. cbv iota.
  set (w1 := cb_set (d, Main t) (c <| queue := [a] |>) w).
  erewrite proc_bind_ok. 2: { unfold upd, p_modify. change (cb_get ?i ?w) with (get_list i w). rewrite Hm. reflexivity. }
  erewrite proc_bind_ok by done. cbv beta. change (cb_set _ _ w) with w1. change (cb_get ?i ?w) with (get_list i w).
  assert (get_list (d, Main t) w1 = c <| queue := [a] |>) as H1 by (unfold w1; by rewrite get_list_set, decide_True). rewrite H1.
  change (firing _) with false. cbv iota.
  set (post w' := aside d w w' /\ tasks w' = tasks w ++ ((fun p => (p, a)) <$> ps) /\ get_list (d, Handlers t) w' = spent a /\
    (forall t', t' <> t -> get_list (d, Handlers t') w' = get_list (d, Handlers t') w)).
  set (quiet w' := aside d w w' /\ tasks w' = tasks w /\ forall t', get_list (d, Handlers t') w' = get_list (d, Handlers t') w).
  set (J ks w' := match ks with [] => post w' | _ => ks `suffix_of` own_callbacks d t /\ quiet w' end).
  assert (forall s c w', (forall t', s <> Handlers t') -> quiet w' -> quiet (cb_set (d, s) c w')) as Hquiet.
  { intros s c' w' Hne (Ha & Ht & Hg). split_and!; [by etrans; [|apply aside_set]|done|].
    intros t'. rewrite get_list_set, decide_False; [done|]. intros [= E]. by apply (Hne t'). }
  destruct (fire_all (call user fuel) (d, Main t) a J) with (fuel := fuel) (ks := own_callbacks d t) (s := w1) (c := c <| queue := [a] |>)
    as (w' & Hw' & (Ha & Ht & Hg & Ho) & _); [..|by exists w'].
  - intros ks c' w' HJ. destruct ks as [|k ks]; [|split; [apply HJ|by apply Hquiet, HJ]]. destruct HJ as (Ha & Ht & Hg & Ho).
    split_and!; [by etrans; [|apply aside_set]|done|by rewrite get_list_set, decide_False|].
    intros t' Hne. rewrite get_list_set, decide_False by done. by apply Ho.
  - destruct fuel as [|[|fuel]]; [lia..|]. intros k ks w' [[pre Hpre] Hq].
    assert (ks `suffix_of` own_callbacks d t) as Hsuf by (exists (pre ++ [k]); by rewrite <- app_assoc).
    assert (k = KFire d t /\ ks = [] \/ ks <> [] /\ (k = KDisable d (opposite t) \/ k = KLock d \/ exists st, k = KState d st)) as [[-> ->]|[Hks Hk]].
    { destruct t; [done|..]; destruct pre as [|? [|? [|? [|? [|]]]]]; try discriminate; cbn in Hpre; injection Hpre; intros; simplify_eq;
        first [by left|right; split; [done|eauto]]. }
    + destruct Hq as (Ha & Ht & Hg).
      destruct (fireWith_handlers (S (S fuel)) fuel d t ps a w') as (w2 & Hw2 & Ha2 & Ht2 & Hg2 & Ho2); [by rewrite Hg|done|lia|].
      exists w2. split; [|split].
      * change (call user (S (S fuel)) (KFire d t) a w') with ((fireWith (call user (S fuel)) (S (S fuel)) (d, Handlers t) a ;; mret false) w').
        by erewrite proc_bind_ok by exact Hw2.
      * split_and!; [by etrans|by rewrite Ht2, Ht|done|]. intros t' Hne. rewrite Ho2 by congruence. apply Hg.
      * apply Ho2. done.
    + destruct ks as [|k' ks]; [done|]. destruct Hk as [-> | [-> | [st ->]]]; (eexists; split; [reflexivity|]).
      all: split; [split; [done|]|]. all: change (@cb_get _ _ _ _ deferred_host) with get_list.
      * by apply (Hquiet (Main (opposite t)) _ w').
      * rewrite get_list_set, decide_False; [done|]. by destruct t.
      * by apply (Hquiet (Main Notify) _ w').
      * rewrite get_list_set, decide_False; [done|]. by intros [= ->].
      * destruct Hq as (Ha & Ht & Hg). split_and!; [|done|intros t'; by rewrite get_list_state].
        etrans; [exact Ha|]. split; cbn; [done|done|intros d' Hd; by rewrite decide_False|by rewrite decide_True].
      * apply get_list_state.
  - unfold J. destruct (own_callbacks d t) eqn:E; [by destruct t|]. split; [done|]. apply Hquiet; [done|]. by split_and!.
  - done.
  - done.
  - done.
  - by destruct t.
  - destruct t; cbn; lia.
Qed.

(** ** Chaining *)

Definition unfired (t : tuple) (l : list callback) : cblist := (Callbacks (tuple_options t)) <| cb_list := Some l |>.

Lemma add_unfired fuel i t l k w : get_list i w = unfired t l ->
  add (call user fuel) fuel i [AFn k] w = Some (Ret tt, cb_set i (unfired t (l ++ [k])) w).
Proof.
  intros Hc. unfold add. erewrite proc_bind_ok by done. cbv beta. change (@cb_get _ _ _ _ deferred_host) with get_list. rewrite Hc.
  cbn [cb_list memory unfired Callbacks set_field]. erewrite proc_bind_ok by done. unfold upd. erewrite proc_bind_ok by done.
  change (@cb_get _ _ _ _ deferred_host) with get_list. rewrite Hc.
  assert (add_args [AFn k] (unfired t l) = unfired t (l ++ [k])) as -> by (by destruct t).
  erewrite proc_bind_ok by done. cbv beta. rewrite get_list_set, decide_True by done. done.
Qed.

Lemma add_spent fuel d t a p w : get_list (d, Handlers t) w = spent a -> starts p -> (3 < fuel)%nat ->
  exists w', add (call user fuel) fuel (d, Handlers t) [AFn (KProc p)] w = Some (Ret tt, w') /\ aside d w w' /\
    tasks w' = tasks w ++ [(p, a)] /\ get_list (d, Handlers t) w' = spent a /\
    (forall s, s <> Handlers t -> get_list (d, s) w' = get_list (d, s) w).
Proof.
  intros Hc Hp Hf. unfold add. erewrite proc_bind_ok by done. cbv beta. change (@cb_get _ _ _ _ deferred_host) with get_list. rewrite Hc.
  cbn [cb_list memory spent firing]. unfold upd. erewrite proc_bind_ok by done. erewrite proc_bind_ok by done. erewrite proc_bind_ok by done. cbv beta.
  change (@cb_get _ _ _ _ deferred_host) with get_list.
  set (w1 := cb_set _ _ w). assert (get_list (d, Handlers t) w1 = (spent a) <| firingIndex := -1 |> <| queue := [a] |>) as H1
    by (unfold w1; by rewrite get_list_set, decide_True, Hc by done).
  set (c := (spent a) <| queue := [a] |> <| cb_list := Some [KProc p] |>). set (w2 := cb_set _ _ w1).
  assert (get_list (d, Handlers t) w2 = c) as H2 by (unfold w2; by rewrite get_list_set, decide_True, H1 by done).
  rewrite H2. change (has_memory c && negb (firing c)) with true. cbv iota. destruct fuel as [|fuel]; [lia|].
  destruct (fire_handlers (S fuel) fuel d t [p] a c w2 H2) as (w' & Hw' & Ha & Ht & Hg & Hs); try done.
  { by repeat constructor. } { cbn; lia. }
  exists w'. split_and!; [exact Hw'| |exact Ht|exact Hg|].
  - etrans; [|exact Ha]. etrans; apply aside_set.
  - intros s Hne. rewrite Hs by done. unfold w2, w1. by rewrite !get_list_set, !decide_False by congruence.
Qed.

(** The handler of a tuple that [then] makes. *)
Definition handler_for (f g h : option handler) (t : tuple) : handler :=
  match t with Notify => default HIdentity h | Resolve => default HIdentity f | Reject => default HThrower g end.
Definition proc_for (b : nat) (f g h : option handler) (t : tuple) : processor := Proc 0 b (handler_for f g h t) (bool_decide (t = Notify)).

(** [then] has made the deferred [b] with handlers on [d]; [ls] were there. *)
Record then_made (d b : nat) (w w' : world) : Prop := {
  then_made_next : next_def w' = S (next_def w) /\ b = next_def w;
  then_calls : calls w' = calls w;
  then_defs d' : d' <> d -> defs w' d' = defs w d';
  then_depth : d_maxDepth (defs w' d) = d_maxDepth (defs w d);
  then_main t : get_list (d, Main t) w' = get_list (d, Main t) w;
}.

Lemma then_unfired fuel d f g h ls w : (forall t, get_list (d, Handlers t) w = unfired t (ls t)) ->
  exists w', then_ user fuel d f g h w = Some (Ret (next_def w), w') /\ then_made d (next_def w) w w' /\ tasks w' = tasks w /\
    (forall t, get_list (d, Handlers t) w' = unfired t (ls t ++ [KProc (proc_for (next_def w) f g h t)])).
Proof.
  intros Hl. unfold then_, deferred_then. erewrite proc_bind_ok by reflexivity. set (b := next_def w). set (w0 := w <| next_def := S b |>).
  erewrite proc_bind_ok by (apply add_unfired; exact (Hl Notify)). set (w1 := cb_set _ _ w0).
  assert (forall t, t <> Notify -> get_list (d, Handlers t) w1 = unfired t (ls t)) as H1.
  { intros t Hne. unfold w1. rewrite get_list_set, decide_False by congruence. apply Hl. }
  erewrite proc_bind_ok by (apply add_unfired; by apply H1). set (w2 := cb_set _ _ w1).
  erewrite proc_bind_ok by (apply add_unfired; unfold w2; rewrite get_list_set, decide_False by done; by apply H1). set (w3 := cb_set _ _ w2).
  exists w3. split; [done|]. assert (aside d w0 w3) as Ha by (etrans; [|etrans]; apply aside_set). split; [|split; [done|]].
  - split; [by rewrite (aside_next _ _ _ Ha)|apply (aside_calls _ _ _ Ha)|apply (aside_defs _ _ _ Ha)|apply (aside_depth _ _ _ Ha)|].
    intros t. unfold w3, w2, w1. by rewrite !get_list_set, !decide_False.
  - intros t. unfold w3, w2, w1. rewrite !get_list_set. destruct t; by repeat first [rewrite decide_False by done|rewrite decide_True by done].
Qed.

Lemma then_spent fuel d f a ls w : get_list (d, Handlers Resolve) w = spent a -> (forall t, t <> Resolve -> get_list (d, Handlers t) w = unfired t (ls t)) ->
  (3 < fuel)%nat ->
  exists w', then_ user fuel d f None None w = Some (Ret (next_def w), w') /\ then_made d (next_def w) w w' /\
    tasks w' = tasks w ++ [(proc_for (next_def w) f None None Resolve, a)] /\
    get_list (d, Handlers Resolve) w' = spent a /\
    (forall t, t <> Resolve -> get_list (d, Handlers t) w' = unfired t (ls t ++ [KProc (proc_for (next_def w) f None None t)])).
Proof.
  intros Hs Hl Hf. unfold then_, deferred_then. erewrite proc_bind_ok by reflexivity. set (b := next_def w). set (w0 := w <| next_def := S b |>).
  erewrite proc_bind_ok by (apply add_unfired; by apply (Hl Notify)). set (w1 := cb_set _ _ w0).
  destruct (add_spent fuel d Resolve a (proc_for b f None None Resolve) w1) as (w2 & Hw2 & Ha2 & Ht2 & Hg2 & Ho2); [|done|done|].
  { unfold w1. rewrite get_list_set, decide_False by done. exact Hs. }
  erewrite proc_bind_ok by exact Hw2.
  assert (get_list (d, Handlers Reject) w2 = unfired Reject (ls Reject)) as Hr.
  { rewrite Ho2 by done. unfold w1. rewrite get_list_set, decide_False by done. by apply Hl. }
  erewrite proc_bind_ok by (by apply add_unfired). set (w3 := cb_set _ _ w2).
  exists w3. split; [done|]. assert (aside d w0 w3) as Ha by (etrans; [apply aside_set|etrans; [exact Ha2|apply aside_set]]).
  split; [|split; [exact Ht2|split]].
  - split; [by rewrite (aside_next _ _ _ Ha)|apply (aside_calls _ _ _ Ha)|apply (aside_defs _ _ _ Ha)|apply (aside_depth _ _ _ Ha)|].
    intros t. unfold w3. rewrite get_list_set, decide_False, Ho2 by done. unfold w1. by rewrite get_list_set, decide_False.
  - unfold w3. by rewrite get_list_set, decide_False.
  - intros t Hne. unfold w3. rewrite get_list_set. destruct t; [|done|by rewrite decide_True].
    rewrite decide_False, Ho2 by done. unfold w1. by rewrite get_list_set, decide_True.
Qed.
End settle.

(** ** Timeouts *)

Definition plain (v : value) : Prop := match v with VPromise _ => False | _ => True end.
(** Functions that only return a value that is no promise, or throw. *)
Definition well_behaved (user : nat -> list value -> list cmd * (value + value)) : Prop :=
  forall f l, fst (user f l) = [] /\ match snd (user f l) with inl v => plain v | inr _ => True end.

(** A deferred that has not been settled; [ps] and [qs] wait for its result. *)
Record unsettled (b : nat) (ps qs : list processor) (w : world) : Prop := {
  un_depth : d_maxDepth (defs w b) = 0%nat;
  un_main t : get_list (b, Main t) w = d_lists (new_deferred b) (Main t);
  un_resolve : get_list (b, Handlers Resolve) w = waiting_list ps;
  un_reject : get_list (b, Handlers Reject) w = waiting_list qs;
}.
Lemma unsettled_same b ps qs w w' : defs w' b = defs w b -> unsettled b ps qs w -> unsettled b ps qs w'.
Proof. intros E [H1 H2 H3 H4]. unfold get_list in *. cbn [fst snd] in *. split; unfold get_list; cbn [fst snd]; by rewrite E. Qed.
Lemma unsettled_new w b : defs w b = new_deferred b -> unsettled b [] [] w.
Proof. intros E. split; unfold get_list; cbn [fst snd]; by rewrite E. Qed.

(** A task that settles [b] has run. *)
Record has_run (b : nat) (new_calls : list (nat * list value)) (new_tasks : list (processor * args)) (w w' : world) : Prop := {
  run_next : next_def w' = next_def w;
  run_calls : calls w' = calls w ++ new_calls;
  run_defs d' : d' <> b -> defs w' d' = defs w d';
  run_tasks_ : tasks w' = tasks w ++ new_tasks;
}.

Section run.
Context (user : nat -> list value -> list cmd * (value + value)) (Hwb : well_behaved user).

Lemma settle_unsettled fuel b t ps qs a w : t <> Notify -> unsettled b ps qs w -> Forall starts ps -> Forall starts qs ->
  (length ps + 6 < fuel)%nat -> (length qs + 6 < fuel)%nat ->
  exists w', settleWith (call user fuel) fuel b t a w = Some (Ret tt, w') /\
    has_run b [] ((fun p => (p, a)) <$> match t with Resolve => ps | _ => qs end) w w'.
Proof.
  intros Ht Hu Hps Hqs Hf Hf'.
  destruct (settle_fresh user fuel b t (match t with Resolve => ps | _ => qs end) a w) as (w' & Hw' & [H1 H2 H3 H4] & Htk & _);
    [done|apply Hu|by destruct t; [|apply Hu..]|by destruct t|by destruct t|].
  exists w'. split; [done|]. split; [done|by rewrite app_nil_r|done|done].
Qed.

Lemma run_user_task fuel f b ps qs l w : unsettled b ps qs w -> Forall starts ps -> Forall starts qs ->
  (length ps + 6 < fuel)%nat -> (length qs + 6 < fuel)%nat ->
  exists w', process user (call user fuel) fuel (Proc 0 b (HUser f) false) (VUndefined, l) w = Some (Ret tt, w') /\
    has_run b [(f, l)] (match snd (user f l) with
                        | inl v => (fun p => (p, (VUndefined, [v]))) <$> ps
                        | inr e => (fun p => (p, (VUndefined, [e]))) <$> qs
                        end) w w'.
Proof using Hwb.
  intros Hu Hps Hqs Hf Hf'. destruct (Hwb f l) as [Hc Hv]. set (w1 := w <| calls := calls w ++ [(f, l)] |>).
  assert (unsettled b ps qs w1) as Hu1 by (by apply (unsettled_same b ps qs w)).
  assert (run_user user (call user fuel) fuel f l w = Some (match snd (user f l) with inl v => Ret v | inr e => Raise e end, w1)) as Hrun.
  { unfold run_user. erewrite proc_bind_ok by reflexivity. destruct (user f l) as [cmds r]. cbn in Hc |- *. subst cmds. by destruct r. }
  unfold process, mightThrow. unfold p_catch. erewrite proc_bind_ok by reflexivity. cbv beta. rewrite (un_depth _ _ _ _ Hu). cbn [Nat.ltb Nat.leb].
  unfold apply_handler. cbn [snd].
  destruct (snd (user f l)) as [v|e].
  - erewrite proc_bind_ok by exact Hrun.
    destruct (settle_unsettled fuel b Resolve ps qs (VUndefined, [v]) w1) as (w' & Hw' & [H1 H2 H3 H4]); try done.
    exists w'. split.
    + destruct v; try done; cbv iota; cbn [is_identity]; by rewrite Hw'.
    + split; [done|by rewrite H2, app_nil_r|done|done].
  - erewrite proc_bind_throw by exact Hrun. erewrite proc_bind_ok by reflexivity. cbv beta. change (defs w1) with (defs w). rewrite (un_depth _ _ _ _ Hu).
    cbn [Nat.leb is_thrower].
    destruct (settle_unsettled fuel b Reject ps qs (VUndefined, [e]) w1) as (w' & Hw' & [H1 H2 H3 H4]); try done.
    exists w'. split; [done|]. split; [done|by rewrite H2, app_nil_r|done|done].
Qed.

Lemma run_identity_task fuel b ps qs v w : plain v -> unsettled b ps qs w -> Forall starts ps -> Forall starts qs ->
  (length ps + 6 < fuel)%nat -> (length qs + 6 < fuel)%nat ->
  exists w', process user (call user fuel) fuel (Proc 0 b HIdentity false) (VUndefined, [v]) w = Some (Ret tt, w') /\
    has_run b [] ((fun p => (p, (VUndefined, [v]))) <$> ps) w w'.
Proof.
  intros Hv Hu Hps Hqs Hf Hf'.
  destruct (settle_unsettled fuel b Resolve ps qs (VUndefined, [v]) w) as (w' & Hw' & Hr); try done.
  exists w'. split; [|done].
  unfold process, mightThrow. unfold p_catch. erewrite proc_bind_ok by reflexivity. cbv beta. rewrite (un_depth _ _ _ _ Hu). cbn [Nat.ltb Nat.leb].
  unfold apply_handler. cbn [snd head default from_option id]. erewrite proc_bind_ok by reflexivity. by destruct v; try done; cbv iota; cbn [is_identity]; rewrite Hw'.
Qed.
End run.

(** ** Sessions *)

(** What happens to a page in the course of time: a function is registered, the
    browser reports that the document is ready, the oldest timeout is run. *)
Inductive event := Register (f : nat) | ReadyEvent | Timeout.

#[export] Instance event_eq_dec : EqDecision event.
Proof. solve_decision. Defined.

Section session.
Context (user : nat -> list value -> list cmd * (value + value)) (hook : nat) (jq : value).

Definition session_step (fuel d : nat) (x : event) (r : ready_state) : act ready_state :=
  match x with
  | Register f => fn_ready user fuel d f hook ;; mret r
  | ReadyEvent => jquery_ready user fuel d jq false r
  | Timeout => run_task user fuel ;; mret r
  end.
Fixpoint session_run (fuel d : nat) (xs : list event) (r : ready_state) : act ready_state :=
  match xs with [] => mret r | x :: xs => r ← session_step fuel d x r; session_run fuel d xs r end.

Definition registered (xs : list event) : list nat := flat_map (fun x => match x with Register f => [f] | _ => [] end) xs.
(** The functions called, and the exceptions reported. *)
Definition runs (w : world) : list (nat * list value) := filter (fun c => fst c <> hook) (calls w).
Definition reports (w : world) : list (nat * list value) := filter (fun c => fst c = hook) (calls w).
Definition thrown (f : nat) : list (nat * list value) :=
  match snd (user f [jq]) with inl _ => [] | inr e => [(hook, [e])] end.

(** *** Tasks that are still to run *)

Inductive pending := PRun (f b : nat) | PReport (c : nat) (e : value) | PDone (c : nat) (v : value).
Definition run_proc (f b : nat) : processor := Proc 0 b (HUser f) false.
Definition after (b : nat) : processor := Proc 0 (S b) HIdentity false.
Definition report (b : nat) : processor := Proc 0 (S b) (HUser hook) false.
Definition task_of (p : pending) : processor * args :=
  match p with
  | PRun f b => (run_proc f b, (VUndefined, [jq]))
  | PReport c e => (Proc 0 c (HUser hook) false, (VUndefined, [e]))
  | PDone c v => (Proc 0 c HIdentity false, (VUndefined, [v]))
  end.
Definition uses (p : pending) : list nat := match p with PRun _ b => [b; S b] | PReport c _ | PDone c _ => [c] end.
Definition pending_ok (w : world) (p : pending) : Prop :=
  match p with
  | PRun f b => f <> hook /\ unsettled b [after b] [report b] w /\ unsettled (S b) [] [] w
  | PReport c _ => unsettled c [] [] w
  | PDone c v => unsettled c [] [] w /\ plain v
  end.
Definition runs_of (l : list pending) : list (nat * list value) := flat_map (fun p => match p with PRun f _ => [(f, [jq])] | _ => [] end) l.
Definition reports_of (l : list pending) : list (nat * list value) :=
  flat_map (fun p => match p with PReport _ e => [(hook, [e])] | _ => [] end) l ++
  flat_map (fun p => match p with PRun f _ => thrown f | _ => [] end) l.
Definition waiting_proc (p : pending) : option processor := match p with PRun f b => Some (run_proc f b) | _ => None end.

(** *** The invariant *)

Definition ready_of (fired : bool) : ready_state := if fired then {| isReady := true; readyWait := 0 |} else initial_ready.

Record session (d : nat) (is_fired : bool) (fs : list nat) (l : list pending) (w : world) : Prop := {
  se_new x : (next_def w <= x)%nat -> defs w x = new_deferred x;
  se_uses : NoDup (d :: flat_map uses l);
  se_made : Forall (fun b => (b < next_def w)%nat) (d :: flat_map uses l);
  se_ok : Forall (pending_ok w) l;
  se_chained : exists ls, forall t, t <> Resolve -> get_list (d, Handlers t) w = unfired t (ls t);
  se_phase : if is_fired then get_list (d, Handlers Resolve) w = spent (VUndefined, [jq]) /\ tasks w = task_of <$> l
             else (forall t, get_list (d, Main t) w = d_lists (new_deferred d) (Main t)) /\
                  (exists ps, waiting_proc <$> l = Some <$> ps /\ get_list (d, Handlers Resolve) w = waiting_list ps) /\ tasks w = [] /\ calls w = [];
  se_runs : runs w ++ runs_of l = (fun f => (f, [jq])) <$> fs;
  se_reports : reports w ++ reports_of l = flat_map thrown fs;
}.

Lemma pending_ok_same w w' p : Forall (fun b => defs w' b = defs w b) (uses p) -> pending_ok w p -> pending_ok w' p.
Proof.
  destruct p as [f b|c e|c v]; cbn [uses pending_ok]; rewrite !Forall_cons.
  - intros (E1 & E2 & _) (H1 & H2 & H3). split_and!; [done|by eapply unsettled_same|by eapply unsettled_same].
  - intros [E _]. by apply unsettled_same.
  - intros [E _] [H ?]. split; [by eapply unsettled_same|done].
Qed.
Lemma all_pending_same w w' l : (forall b, b ∈ flat_map uses l -> defs w' b = defs w b) -> Forall (pending_ok w) l -> Forall (pending_ok w') l.
Proof.
  rewrite !Forall_forall. intros E H p Hp. eapply pending_ok_same; [|by apply H]. apply Forall_forall. intros b Hb. apply E.
  apply list_elem_of_In, in_flat_map. exists p. by rewrite <- !list_elem_of_In.
Qed.

Lemma session_start : session 0 false [] [] (initial_world <| next_def := 1%nat |>).
Proof.
  split; cbn; try done.
  - apply NoDup_singleton.
  - constructor; [lia|constructor].
  - by exists (fun _ => []); intros [].
  - split; [done|]. split; [by exists []|done].
Qed.

(** *** Registration *)

Lemma register_made fuel d is_fired fs l f w : session d is_fired fs l w -> (3 < fuel)%nat ->
  exists w1 w2, then_ user fuel d (Some (HUser f)) None None w = Some (Ret (next_def w), w1) /\ then_made d (next_def w) w w1 /\
    (exists ls, forall t, t <> Resolve -> get_list (d, Handlers t) w1 = unfired t (ls t)) /\
    (if is_fired then get_list (d, Handlers Resolve) w1 = spent (VUndefined, [jq]) /\ tasks w1 = task_of <$> (l ++ [PRun f (next_def w)])
     else tasks w1 = [] /\ exists ps, waiting_proc <$> (l ++ [PRun f (next_def w)]) = Some <$> ps /\ get_list (d, Handlers Resolve) w1 = waiting_list ps) /\
    then_ user fuel (next_def w) None (Some (HUser hook)) None w1 = Some (Ret (S (next_def w)), w2) /\
    then_made (next_def w) (S (next_def w)) w1 w2 /\ tasks w2 = tasks w1 /\ unsettled (next_def w) [after (next_def w)] [report (next_def w)] w2.
Proof.
  intros H Hf. destruct (se_chained _ _ _ _ _ H) as [ls Hls]. set (b := next_def w).
  assert (exists w1, then_ user fuel d (Some (HUser f)) None None w = Some (Ret b, w1) /\ then_made d b w w1 /\
    (exists ls, forall t, t <> Resolve -> get_list (d, Handlers t) w1 = unfired t (ls t)) /\
    (if is_fired then get_list (d, Handlers Resolve) w1 = spent (VUndefined, [jq]) /\ tasks w1 = task_of <$> (l ++ [PRun f b])
     else tasks w1 = [] /\ exists ps, waiting_proc <$> (l ++ [PRun f b]) = Some <$> ps /\ get_list (d, Handlers Resolve) w1 = waiting_list ps))
    as (w1 & Hw1 & Hm1 & Hl1 & Hp1).
  { pose proof (se_phase _ _ _ _ _ H) as Hp. destruct is_fired.
    - destruct Hp as [Hs Ht]. destruct (then_spent user fuel d (Some (HUser f)) _ ls w Hs Hls Hf) as (w1 & H1 & H2 & H3 & H4 & H5).
      exists w1. split_and!; [done|done|by eexists (fun t => _)|done|]. rewrite fmap_app. etrans; [exact H3|]. by rewrite Ht.
    - destruct Hp as (_ & (ps & Hps & Hs) & Ht & _).
      destruct (then_unfired user fuel d (Some (HUser f)) None None (fun t => if decide (t = Resolve) then KProc <$> ps else ls t) w) as (w1 & H1 & H2 & H3 & H4).
      { intros t. destruct (decide (t = Resolve)) as [->|Hne]; [exact Hs|by apply Hls]. }
      exists w1. split_and!; [done|done| |by rewrite H3|].
      + exists (fun t => ls t ++ [KProc (proc_for b (Some (HUser f)) None None t)]). intros t Hne. rewrite H4. by rewrite decide_False.
      + exists (ps ++ [run_proc f b]). rewrite !fmap_app, Hps. split; [done|]. rewrite H4, decide_True by done. unfold waiting_list. by rewrite fmap_app. }
  assert (forall x, (b <= x)%nat -> x <> d -> defs w1 x = new_deferred x) as Hnew.
  { intros x Hx Hd. rewrite (then_defs _ _ _ _ Hm1) by done. by apply (se_new _ _ _ _ _ H). }
  assert (b <> d) as Hbd. { pose proof (se_made _ _ _ _ _ H) as Hmd. apply Forall_cons in Hmd as [Hmd _]. unfold b. lia. }
  destruct (then_made_next _ _ _ _ Hm1) as [Hn1 _].
  destruct (then_unfired user fuel b None (Some (HUser hook)) None (fun _ => []) w1) as (w2 & H1 & H2 & H3 & H4).
  { intros t. unfold get_list. cbn [fst snd]. by rewrite Hnew. }
  rewrite Hn1 in H1, H2, H4. fold b in H1, H2, H4. exists w1, w2. split_and!; try done. split.
  - rewrite (then_depth _ _ _ _ H2). by rewrite Hnew.
  - intros t. rewrite (then_main _ _ _ _ H2). unfold get_list. cbn [fst snd]. by rewrite Hnew.
  - exact (H4 Resolve).
  - exact (H4 Reject).
Qed.

Lemma register_step fuel d is_fired fs l f w : session d is_fired fs l w -> f <> hook -> (3 < fuel)%nat ->
  exists b w', session_step fuel d (Register f) (ready_of is_fired) w = Some (Ret (ready_of is_fired), w') /\
    session d is_fired (fs ++ [f]) (l ++ [PRun f b]) w'.
Proof.
  intros H Hfh Hf. destruct (register_made fuel d is_fired fs l f w H Hf) as (w1 & w2 & Hw1 & Hm1 & Hl1 & Hp1 & Hw2 & Hm2 & Ht2 & Hu). set (b := next_def w) in *.
  exists b, w2. split.
  { cbn [session_step]. unfold fn_ready. erewrite proc_bind_ok; [done|]. erewrite proc_bind_ok by exact Hw1. by erewrite proc_bind_ok by exact Hw2. }
  pose proof (se_made _ _ _ _ _ H) as Hmade. rewrite Forall_forall in Hmade.
  assert (b <> d) as Hbd by (specialize (Hmade d ltac:(left)); unfold b; lia).
  destruct (then_made_next _ _ _ _ Hm1) as [Hn1 _]. destruct (then_made_next _ _ _ _ Hm2) as [Hn2 _].
  assert (next_def w2 = S (S b)) as Hn by (by rewrite Hn2, Hn1).
  assert (forall x, x <> d -> x <> b -> defs w2 x = defs w x) as Hsame.
  { intros x Hd Hb. rewrite (then_defs _ _ _ _ Hm2) by done. by apply (then_defs _ _ _ _ Hm1). }
  assert (forall s, get_list (d, s) w2 = get_list (d, s) w1) as Hd by (intros s; unfold get_list; cbn [fst]; by rewrite (then_defs _ _ _ _ Hm2)).
  assert (calls w2 = calls w) as Hc by (by rewrite (then_calls _ _ _ _ Hm2), (then_calls _ _ _ _ Hm1)).
  split.
  - intros x Hx. rewrite Hsame by (specialize (Hmade d ltac:(left)); unfold b in *; lia). apply (se_new _ _ _ _ _ H). unfold b in *. lia.
  - pose proof (se_uses _ _ _ _ _ H) as Hu'. rewrite flat_map_app. cbn [flat_map uses]. change (d :: flat_map uses l ++ [b; S b] ++ []) with ((d :: flat_map uses l) ++ [b; S b]).
    apply NoDup_app. split; [done|]. split.
    + intros x Hx%Hmade [-> |[->|[]%elem_of_nil]%elem_of_cons]%elem_of_cons; unfold b in *; lia.
    + apply NoDup_cons. split; [|apply NoDup_singleton]. rewrite list_elem_of_singleton. lia.
  - rewrite flat_map_app, Hn. cbn [flat_map uses]. apply Forall_forall. intros x. rewrite elem_of_cons, elem_of_app. intros [->|[Hx|[-> |[->|[]%elem_of_nil]%elem_of_cons]%elem_of_cons]].
    + specialize (Hmade d ltac:(left)). unfold b. lia.
    + specialize (Hmade x ltac:(by right)). unfold b. lia.
    + lia.
    + lia.
  - apply Forall_app. split.
    + eapply all_pending_same; [|apply H]. intros x Hx. pose proof (Hmade x ltac:(by right)) as Hxb. apply Hsame; [|unfold b; lia].
      intros ->. pose proof (se_uses _ _ _ _ _ H) as Hu'. by apply NoDup_cons in Hu' as [? _].
    + constructor; [|constructor]. split; [done|]. split; [done|]. apply unsettled_new. rewrite Hsame by (specialize (Hmade d ltac:(left)); unfold b in *; lia).
      apply (se_new _ _ _ _ _ H). unfold b. lia.
  - destruct Hl1 as [ls Hls]. exists ls. intros t Hne. rewrite Hd. by apply Hls.
  - pose proof (se_phase _ _ _ _ _ H) as Hp. destruct is_fired.
    + rewrite Hd, Ht2. done.
    + destruct Hp as (Hm & _ & _ & Hcw). destruct Hp1 as [Ht (ps & Hps & Hg)]. split_and!; [|exists ps; by rewrite Hd|by rewrite Ht2|by rewrite Hc].
      intros t. rewrite Hd, (then_main _ _ _ _ Hm1). apply Hm.
  - unfold runs. rewrite Hc. pose proof (se_runs _ _ _ _ _ H) as Hr. unfold runs in Hr. rewrite fmap_app, <- Hr. unfold runs_of. rewrite flat_map_app, app_assoc. done.
  - unfold reports. rewrite Hc. pose proof (se_reports _ _ _ _ _ H) as Hr. unfold reports in Hr. rewrite flat_map_app, <- Hr. unfold reports_of. rewrite !flat_map_app. cbn [flat_map].
    by rewrite app_nil_r, <- !app_assoc.
Qed.

(** *** The ready event *)

Lemma ready_step fuel d is_fired fs l w : session d is_fired fs l w -> (length l + 6 < fuel)%nat ->
  exists w', session_step fuel d ReadyEvent (ready_of is_fired) w = Some (Ret (ready_of true), w') /\ session d true fs l w'.
Proof.
  intros H Hf. destruct is_fired; [by exists w|]. destruct (se_phase _ _ _ _ _ H) as (Hm & (ps & Hps & Hs) & Ht & Hc).
  assert (length ps = length l) as Hlen by (apply (f_equal length) in Hps; by rewrite !length_fmap in Hps).
  assert (Forall starts ps) as Hst.
  { clear -Hps. revert l Hps. induction ps as [|p ps IH]; intros [|[f b| |] l] Hps; try done; constructor; [|apply (IH l)]; cbn in Hps; by simplify_eq. }
  destruct (settle_fresh user fuel d Resolve ps (VUndefined, [jq]) w) as (w' & Hw' & Ha & Ht' & Hg & Ho); [done|apply Hm|done|done|by rewrite Hlen|].
  exists w'. split. {
    change (session_step fuel d ReadyEvent (ready_of false) w) with ((resolveWith user fuel d (VUndefined, [jq]) ;; mret (ready_of true)) w).
    by erewrite proc_bind_ok by exact Hw'. }
  split.
  - intros x Hx. rewrite (aside_next _ _ _ Ha) in Hx. rewrite (aside_defs _ _ _ Ha); [by apply (se_new _ _ _ _ _ H)|].
    intros ->. pose proof (se_made _ _ _ _ _ H) as Hmade. apply Forall_cons in Hmade as [? _]. lia.
  - apply H.
  - rewrite (aside_next _ _ _ Ha). apply H.
  - eapply all_pending_same; [|apply H]. intros x Hx. apply (aside_defs _ _ _ Ha). intros ->. pose proof (se_uses _ _ _ _ _ H) as Hu. by apply NoDup_cons in Hu as [? _].
  - destruct (se_chained _ _ _ _ _ H) as [ls Hls]. exists ls. intros t Hne. rewrite Ho by done. by apply Hls.
  - split; [done|]. rewrite Ht', Ht. clear -Hps. revert l Hps. induction ps as [|p ps IH]; intros [|[f b| |] l] Hps; try done. cbn in Hps |- *. simplify_eq. f_equal. by apply IH.
  - unfold runs. rewrite (aside_calls _ _ _ Ha). apply H.
  - unfold reports. rewrite (aside_calls _ _ _ Ha). apply H.
Qed.

(** *** Timeouts *)

Definition hooks_of (l : list pending) : list (nat * list value) := flat_map (fun p => match p with PReport _ e => [(hook, [e])] | _ => [] end) l.
Definition later_of (l : list pending) : list (nat * list value) := flat_map (fun p => match p with PRun f _ => thrown f | _ => [] end) l.
(** How many timeouts are still to come. *)
Definition work (l : list pending) : nat := sum_list_with (fun p => match p with PRun _ _ => 2 | _ => 1 end)%nat l.

Context (Hwb : well_behaved user).

Lemma run_pending fuel p w w0 : defs w0 = defs w -> pending_ok w p -> (7 < fuel)%nat ->
  exists w' b cs new, process user (call user fuel) fuel (fst (task_of p)) (snd (task_of p)) w0 = Some (Ret tt, w') /\
    has_run b cs (task_of <$> new) w0 w' /\ uses p = b :: flat_map uses new /\ b ∉ flat_map uses new /\ Forall (pending_ok w') new /\
    filter (fun c => fst c <> hook) cs = runs_of [p] /\ runs_of new = [] /\
    filter (fun c => fst c = hook) cs = hooks_of [p] /\ hooks_of new = later_of [p] /\ later_of new = [] /\ (work new < work [p])%nat.
Proof using Hwb.
  intros Hdefs Hok Hf.
  assert (forall b ps qs, unsettled b ps qs w -> unsettled b ps qs w0) as Hsame.
  { intros b ps qs. apply unsettled_same. by rewrite Hdefs. }
  destruct p as [f b|c e|c v]; cbn [task_of fst snd].
  - destruct Hok as (Hfh & Hu & Hu').
    destruct (run_user_task user Hwb fuel f b [after b] [report b] [jq] w0) as (w' & Hw' & Hr); [by apply Hsame|by repeat constructor..|cbn; lia|cbn; lia|].
    assert (unsettled (S b) [] [] w') as Hb. { eapply unsettled_same; [|apply Hsame, Hu']. apply (run_defs _ _ _ _ _ Hr). lia. }
    exists w', b, [(f, [jq])], [match snd (user f [jq]) with inl v => PDone (S b) v | inr e => PReport (S b) e end].
    rewrite filter_cons_True, filter_cons_False by done. unfold runs_of, hooks_of, later_of. cbn. unfold thrown. destruct (Hwb f [jq]) as [_ Hv].
    destruct (snd (user f [jq])) as [v|e]; cbn; rewrite ?list_elem_of_singleton; (split_and!; [exact Hw'|exact Hr|done|lia|by apply Forall_singleton|done..|lia]).
  - destruct (run_user_task user Hwb fuel hook c [] [] [e] w0) as (w' & Hw' & Hr); [by apply Hsame|done..|cbn; lia|cbn; lia|].
    exists w', c, [(hook, [e])], []. rewrite filter_cons_False, filter_cons_True by auto. cbn. split_and!; try done; [by destruct (snd (user hook [e]))|by intros ?%elem_of_nil|lia].
  - destruct Hok as [Hu Hv]. destruct (run_identity_task user fuel c [] [] v w0) as (w' & Hw' & Hr); [done|by apply Hsame|done..|cbn; lia|cbn; lia|].
    exists w', c, [], []. cbn. split_and!; try done; [by intros ?%elem_of_nil|lia].
Qed.

Lemma task_step fuel d fs p l w : session d true fs (p :: l) w -> (7 < fuel)%nat ->
  exists w' l', run_task user fuel w = Some (Ret tt, w') /\ session d true fs l' w' /\ (work l' < work (p :: l))%nat.
Proof using Hwb.
  intros H Hf. destruct (se_phase _ _ _ _ _ H) as [Hs Ht]. cbn [fmap list_fmap] in Ht.
  set (w0 := w <| tasks := task_of <$> l |>). pose proof (se_ok _ _ _ _ _ H) as Hok. apply Forall_cons in Hok as [Hp Hl].
  destruct (run_pending fuel p w w0 eq_refl Hp Hf) as (w' & b & cs & new & Hw' & Hr & Hu & Hb & Hn & Hruns & Hruns' & Hrep & Hlat & Hlat' & Hwork).
  exists w', (l ++ new). split.
  { unfold run_task. erewrite proc_bind_ok by reflexivity. cbv beta. rewrite Ht. destruct (task_of p) as [pr a] eqn:Ep. erewrite proc_bind_ok by reflexivity.
    unfold p_catch. cbn [fst snd] in Hw'. fold w0. by rewrite Hw'. }
  pose proof (se_uses _ _ _ _ _ H) as Hnd. pose proof (se_made _ _ _ _ _ H) as Hmade. cbn [flat_map] in Hnd, Hmade. rewrite Hu in Hnd, Hmade.
  assert (d :: (b :: flat_map uses new) ++ flat_map uses l ≡ₚ b :: d :: flat_map uses (l ++ new)) as Hperm.
  { rewrite flat_map_app. cbn [app]. rewrite (Permutation_app_comm (flat_map uses l)). constructor. }
  rewrite Hperm in Hnd, Hmade. apply NoDup_cons in Hnd as [Hb' Hnd]. apply Forall_cons in Hmade as [Hlt Hmade]. apply not_elem_of_cons in Hb' as [Hbd Hbl].
  split; [|unfold work in *; rewrite sum_list_with_app; cbn in *; lia]. split.
  - intros x Hx. rewrite (run_next _ _ _ _ _ Hr) in Hx. rewrite (run_defs _ _ _ _ _ Hr); [by apply (se_new _ _ _ _ _ H)|].
    intros ->. cbn in Hx. lia.
  - done.
  - rewrite (run_next _ _ _ _ _ Hr). exact Hmade.
  - apply Forall_app. split; [|done]. eapply all_pending_same; [|exact Hl]. intros x Hx. apply (run_defs _ _ _ _ _ Hr). intros ->.
    apply Hbl. rewrite flat_map_app. by apply elem_of_app; left.
  - destruct (se_chained _ _ _ _ _ H) as [ls Hls]. exists ls. intros t Hne. unfold get_list. cbn [fst]. rewrite (run_defs _ _ _ _ _ Hr) by done. by apply (Hls t).
  - split; [|by rewrite (run_tasks_ _ _ _ _ _ Hr), fmap_app]. unfold get_list. cbn [fst]. by rewrite (run_defs _ _ _ _ _ Hr) by done.
  - rewrite <- (se_runs _ _ _ _ _ H). unfold runs. rewrite (run_calls _ _ _ _ _ Hr), filter_app, Hruns. cbn [calls set_field w0].
    change (runs_of (p :: l)) with (runs_of ([p] ++ l)). unfold runs_of in *. rewrite !flat_map_app, Hruns', app_nil_r. by rewrite app_assoc.
  - rewrite <- (se_reports _ _ _ _ _ H). unfold reports. rewrite (run_calls _ _ _ _ _ Hr), filter_app, Hrep. cbn [calls set_field w0].
    change (reports_of (p :: l)) with (hooks_of ([p] ++ l) ++ later_of ([p] ++ l)). change (reports_of (l ++ new)) with (hooks_of (l ++ new) ++ later_of (l ++ new)).
    unfold hooks_of, later_of in *. rewrite !flat_map_app, Hlat, Hlat', app_nil_r, <- !app_assoc. done.
Qed.

Lemma work_length l : (length l <= work l)%nat.
Proof. induction l as [|p l IH]; cbn; [lia|]. unfold work in IH. destruct p; lia. Qed.
Lemma work_app l l' : work (l ++ l') = (work l + work l')%nat.
Proof. unfold work. by rewrite sum_list_with_app. Qed.

Lemma timeout_step fuel d is_fired fs l w : session d is_fired fs l w -> (7 < fuel)%nat ->
  exists w' l', session_step fuel d Timeout (ready_of is_fired) w = Some (Ret (ready_of is_fired), w') /\ session d is_fired fs l' w' /\ (work l' <= work l)%nat.
Proof using Hwb.
  intros H Hf. assert (tasks w = [] \/ is_fired = true /\ l <> []) as [Ht|[-> Hl]].
  { pose proof (se_phase _ _ _ _ _ H) as Hp. destruct is_fired; [|left; by destruct Hp as (_ & _ & ? & _)].
    destruct Hp as [_ Ht]. destruct l; [by left|by right]. }
  - exists w, l. split; [|done]. cbn [session_step]. erewrite proc_bind_ok; [done|]. unfold run_task. erewrite proc_bind_ok by done. cbv beta. by rewrite Ht.
  - destruct l as [|p l]; [done|]. destruct (task_step fuel d fs p l w H Hf) as (w' & l' & Hw' & Hs & Hlt).
    exists w', l'. split; [|split; [done|lia]]. cbn [session_step]. by erewrite proc_bind_ok by exact Hw'.
Qed.

Lemma session_runs fuel d xs is_fired fs l w : session d is_fired fs l w -> Forall (fun x => x <> Register hook) xs ->
  (work l + 2 * length xs + 7 < fuel)%nat ->
  exists w' l', let is_fired' := is_fired || bool_decide (ReadyEvent ∈ xs) in
    session_run fuel d xs (ready_of is_fired) w = Some (Ret (ready_of is_fired'), w') /\
    session d is_fired' (fs ++ registered xs) l' w' /\ (work l' <= work l + 2 * length xs)%nat.
Proof using Hwb.
  revert is_fired fs l w. induction xs as [|x xs IH]; intros is_fired fs l w H Hx Hf; cbn [length] in *.
  - exists w, l. cbn. rewrite bool_decide_eq_false_2, orb_false_r, app_nil_r by apply not_elem_of_nil. split_and!; [done|done|lia].
  - apply Forall_cons in Hx as [Hx Hxs]. pose proof (work_length l).
    assert (exists is_fired1 w1 l1, session_step fuel d x (ready_of is_fired) w = Some (Ret (ready_of is_fired1), w1) /\
      session d is_fired1 (fs ++ registered [x]) l1 w1 /\ (work l1 <= work l + 2)%nat /\
      is_fired1 = is_fired || bool_decide (x = ReadyEvent)) as (is_fired1 & w1 & l1 & H1 & Hs1 & Hl1 & Hf1).
    { destruct x as [f| |]; cbn [registered flat_map app].
      - destruct (register_step fuel d is_fired fs l f w H) as (b & w1 & H1 & Hs1); [congruence|lia|]. exists is_fired, w1, (l ++ [PRun f b]).
        rewrite work_app. split_and!; [done|done|cbn; lia|by rewrite orb_false_r].
      - destruct (ready_step fuel d is_fired fs l w H) as (w1 & H1 & Hs1); [lia|]. exists true, w1, l. rewrite app_nil_r. split_and!; [done|done|lia|by rewrite orb_true_r].
      - destruct (timeout_step fuel d is_fired fs l w H) as (w1 & l1 & H1 & Hs1 & Hl1); [lia|]. exists is_fired, w1, l1.
        rewrite app_nil_r. split_and!; [done|done|lia|by rewrite orb_false_r]. }
    destruct (IH is_fired1 _ l1 w1 Hs1 Hxs) as (w' & l' & Hw' & Hs' & Hl'); [lia|].
    assert (is_fired1 || bool_decide (ReadyEvent ∈ xs) = is_fired || bool_decide (ReadyEvent ∈ x :: xs)) as E.
    { rewrite Hf1, <- orb_assoc. f_equal. rewrite (bool_decide_ext (ReadyEvent ∈ x :: xs) (x = ReadyEvent \/ ReadyEvent ∈ xs)) by (rewrite elem_of_cons; naive_solver).
      by rewrite bool_decide_or. }
    rewrite E in Hw', Hs'. exists w', l'. cbv zeta. split; [|split; [|lia]].
    + cbn [session_run]. by erewrite proc_bind_ok by exact H1.
    + assert (registered (x :: xs) = registered [x] ++ registered xs) as -> by (by destruct x). by rewrite app_assoc.
Qed.

(** Then nothing is left. *)
Lemma tasks_end rounds fuel d fs l w : session d true fs l w -> (work l <= rounds)%nat -> (7 < fuel)%nat ->
  exists w', run_tasks user rounds fuel w = Some (Ret tt, w') /\ session d true fs [] w'.
Proof using Hwb.
  revert l w. induction rounds as [|rounds IH]; intros l w H Hl Hf; (destruct (se_phase _ _ _ _ _ H) as [_ Ht]); cbn [run_tasks];
    (erewrite proc_bind_ok by reflexivity); cbv beta; rewrite Ht; (destruct l as [|p l]; [by exists w|]); cbn [fmap list_fmap]; [pose proof (work_length (p :: l)); cbn in *; lia|].
  destruct (task_step fuel d fs p l w H Hf) as (w1 & l1 & Hw1 & Hs1 & Hlt). erewrite proc_bind_ok by exact Hw1. apply (IH l1); [done|lia|done].
Qed.
End session.

(** C33. The document's ready list: for every sequence of registrations with
    [$( document ).ready], ready events and timeouts, with functions that return
    or throw whatever they like (but neither use deferreds nor return promises),
    the library's calls succeed; no function is called before the first ready
    event; if there is one, then once the timeouts have run every function has
    been called exactly once, in the order of registration and with the jQuery
    function as its argument, whether it was registered before or after the event,
    and each exception has been reported once without keeping other functions
    from running; further ready events have no effect. *)
Theorem ready_runs_once user (hook : nat) (jq : value) (xs : list event)
    (Hwb : well_behaved user) (Hhook : Forall (fun x => x <> Register hook) xs) :
  exists N, forall fuel, (N <= fuel)%nat ->
  exists r w, session_run user hook jq fuel 0 xs initial_ready (initial_world <| next_def := 1%nat |>) = Some (Ret r, w) /\
    (ReadyEvent ∉ xs -> calls w = []) /\
    (ReadyEvent ∈ xs -> exists w', run_tasks user fuel fuel w = Some (Ret tt, w') /\ tasks w' = [] /\
      runs hook w' = (fun f => (f, [jq])) <$> registered xs /\
      reports hook w' = flat_map (thrown user hook jq) (registered xs)).
Proof.
  exists (2 * length xs + 8)%nat. intros fuel Hf.
  destruct (session_runs user hook jq Hwb fuel 0 xs false [] [] _ (session_start user hook jq) Hhook) as (w & l & Hw & Hs & Hl); [cbn; lia|].
  eexists _, w. split; [exact Hw|]. cbn [orb app work sum_list_with] in Hs, Hl. split.
  - intros Hno. rewrite bool_decide_eq_false_2 in Hs by done. by destruct (se_phase _ _ _ _ _ _ _ _ Hs) as (_ & _ & _ & ?).
  - intros Hyes. rewrite bool_decide_eq_true_2 in Hs by done.
    destruct (tasks_end user hook jq Hwb fuel fuel 0 _ l w Hs) as (w' & Hw' & Hs'); [cbn in Hl; lia|lia|].
    exists w'. split; [done|]. split; [by destruct (se_phase _ _ _ _ _ _ _ _ Hs')|].
    rewrite <- (se_runs _ _ _ _ _ _ _ _ Hs'), <- (se_reports _ _ _ _ _ _ _ _ Hs'). unfold runs_of, reports_of. by rewrite !app_nil_r.
Qed.

(** Function 1 throws; 0, 1 and 2 are registered before and after the event. *)
Definition demo_user (f : nat) (l : list value) : list cmd * (value + value) := ([], if (f =? 1)%nat then inr (VNum 9) else inl VUndefined).
Definition demo_events : list event := [Register 0%nat; Register 1%nat; ReadyEvent; Timeout; Register 2%nat; ReadyEvent].

Lemma ready_runs_once_witness :
  (exists N, forall fuel, (N <= fuel)%nat ->
   exists r w, session_run demo_user 3 (VNum 0) fuel 0 demo_events initial_ready (initial_world <| next_def := 1%nat |>) = Some (Ret r, w) /\
    (ReadyEvent ∉ demo_events -> calls w = []) /\
    (ReadyEvent ∈ demo_events -> exists w', run_tasks demo_user fuel fuel w = Some (Ret tt, w') /\ tasks w' = [] /\
      runs 3 w' = (fun f => (f, [VNum 0])) <$> registered demo_events /\
      reports 3 w' = flat_map (thrown demo_user 3 (VNum 0)) (registered demo_events))) /\
  registered demo_events = [0; 1; 2]%nat /\ flat_map (thrown demo_user 3 (VNum 0)) [0; 1; 2]%nat = [(3%nat, [VNum 9])].
Proof.
  split; [|split; reflexivity].
  apply (ready_runs_once demo_user 3 (VNum 0) demo_events).
  - intros f l. split; [reflexivity|]. unfold demo_user. destruct (f =? 1)%nat; exact I.
  - repeat constructor; discriminate.
Defined.
