(* ===== verification/JsMath.v ===== *)
(** More of the language's arithmetic: the remainder operator, [Math.round],
    [Math.abs], [Math.min], [Math.max] and [parseFloat] of [toFixed], as the
    widgets compute with them, and their exactness on safe integers. *)
From S2P Require Import Prelude JsNumber JsString Json JsonRoundtrip.

Definition num_abs (x : number) : number :=
  match x with
  | S754_zero _ => S754_zero false
  | S754_infinity _ => S754_infinity false
  | S754_nan => S754_nan
  | S754_finite _ m e => S754_finite false m e
  end.

Definition is_nan (x : number) : bool := match x with S754_nan => true | _ => false end.

(** [Math.min] and [Math.max] of two numbers; signed zeros aside. *)
Definition num_min (x y : number) : number :=
  if is_nan x || is_nan y then S754_nan else if num_ltb y x then y else x.
Definition num_max (x y : number) : number :=
  if is_nan x || is_nan y then S754_nan else if num_ltb x y then y else x.

(** [x % y]: exact, with the sign of the dividend. *)
Definition num_rem (x y : number) : number :=
  match x, y with
  | S754_nan, _ | _, S754_nan | S754_infinity _, _ | _, S754_zero _ => S754_nan
  | _, S754_infinity _ | S754_zero _, _ => x
  | S754_finite s m1 e1, S754_finite _ m2 e2 =>
      let e := Z.min e1 e2 in
      binary_normalize prec64 emax64
        (cond_Zopp s ((Zpos m1 * 2 ^ (e1 - e)) mod (Zpos m2 * 2 ^ (e2 - e)))) e s
  end.

(** [Math.round]: to the nearest integer, ties upwards. *)
Definition num_round (x : number) : number :=
  match x with
  | S754_finite s m e =>
      if 0 <=? e then x
      else binary_normalize prec64 emax64
             ((2 * cond_Zopp s (Zpos m) + 2 ^ (- e)) / (2 * 2 ^ (- e))) 0 s
  | _ => x
  end.

(** The integer n for which n / 10^d is closest to |m * 2^e|, the larger of two. *)
Definition fixed_digits (d m e : Z) : Z :=
  if 0 <=? e then m * 2 ^ e * 10 ^ d
  else (2 * m * 10 ^ d + 2 ^ (- e)) / (2 * 2 ^ (- e)).

(** [parseFloat( x.toFixed( d ) )]: from 10^21 on [toFixed] prints the number
    itself, which [parseFloat] reads back. *)
Definition parse_fixed (d : Z) (x : number) : number :=
  match x with
  | S754_finite s m e =>
      if num_ltb (num_abs x) (binary_normalize prec64 emax64 (10 ^ 21) 0 false)
      then decimal s (fixed_digits d (Zpos m) e) (- d) else x
  | S754_zero _ => S754_zero false
  | _ => x
  end.

(** The digits after the point in the text of a number: the least precision at
    which some decimal denotes it.  Numbers printed with an exponent (below
    10^-6 or from 10^21 on) are not covered. *)
Definition decimals (x : number) : Z :=
  match x with
  | S754_finite s m e =>
      default 0 (head (filter (fun p => decimal s (fixed_digits p (Zpos m) e) (- p) = x) (below 26)))
  | _ => 0
  end.

(** ** Safe integers *)

Lemma not_nan_Z z : safe z -> is_nan (num_of_Z z) = false.
Proof.
  intros Hs. destruct (Z.eq_dec z 0) as [->|Hz]; [done|].
  by destruct (safe_repr z Hs Hz) as (M & E & -> & _).
Qed.

Ltac num_cases z :=
  let Hz := fresh "Hz" in
  destruct (Z.eq_dec z 0) as [Hz|Hz]; [rewrite Hz in *; try done|].

Lemma num_of_Z_finite z M E :
  z <> 0 -> bounded prec64 emax64 M E = true -> E <= 0 -> Zpos M = Z.abs z * 2 ^ (- E) ->
  num_of_Z z = S754_finite (z <? 0) M E.
Proof.
  intros Hz Hb HE HM. rewrite num_of_Z_nonzero by done. apply binary_round_exact; [done|]. left.
  split; [lia|]. rewrite Z.sub_0_l, HM, Z2Pos.id by lia. done.
Qed.

Lemma num_abs_Z z : safe z -> num_abs (num_of_Z z) = num_of_Z (Z.abs z).
Proof.
  intros Hs. num_cases z.
  destruct (safe_repr z Hs Hz) as (M & E & -> & Hb & _ & HE & HM). cbn [num_abs].
  symmetry. replace false with (Z.abs z <? 0) by lia. apply num_of_Z_finite; try done; lia.
Qed.

Lemma num_min_Z x y : safe x -> safe y -> num_min (num_of_Z x) (num_of_Z y) = num_of_Z (Z.min x y).
Proof.
  intros Hx Hy. unfold num_min. rewrite !not_nan_Z by done. cbn [orb]. rewrite num_ltb_Z by done.
  destruct (Z.ltb_spec y x); f_equal; lia.
Qed.

Lemma num_max_Z x y : safe x -> safe y -> num_max (num_of_Z x) (num_of_Z y) = num_of_Z (Z.max x y).
Proof.
  intros Hx Hy. unfold num_max. rewrite !not_nan_Z by done. cbn [orb]. rewrite num_ltb_Z by done.
  destruct (Z.ltb_spec x y); f_equal; lia.
Qed.

Lemma num_rem_Z x y : 0 <= x -> 0 < y -> safe x -> safe y ->
  num_rem (num_of_Z x) (num_of_Z y) = num_of_Z (x mod y).
Proof.
  intros Hx Hy Hsx Hsy.
  destruct (safe_repr y Hsy ltac:(lia)) as (m2 & e2 & Hy2 & _ & _ & He2 & Hm2). rewrite Hy2.
  replace (y <? 0) with false by lia. num_cases x.
  destruct (safe_repr x Hsx Hz) as (m1 & e1 & Hx1 & _ & _ & He1 & Hm1). rewrite Hx1.
  replace (x <? 0) with false by lia. cbn [num_rem cond_Zopp].
  set (e := Z.min e1 e2).
  assert (Zpos m1 * 2 ^ (e1 - e) = x * 2 ^ (- e)) as ->.
  { rewrite Hm1, Z.abs_eq, <- Z.mul_assoc, <- Z.pow_add_r by lia. do 2 f_equal. lia. }
  assert (Zpos m2 * 2 ^ (e2 - e) = y * 2 ^ (- e)) as ->.
  { rewrite Hm2, Z.abs_eq, <- Z.mul_assoc, <- Z.pow_add_r by lia. do 2 f_equal. lia. }
  assert (0 < 2 ^ (- e)) by (apply Z.pow_pos_nonneg; lia).
  rewrite Z.mul_mod_distr_r by lia.
  pose proof (Z.mod_pos_bound x y Hy).
  apply binary_normalize_safe; [unfold safe in *; lia|lia|done].
Qed.

(** [Math.round] of a quotient of safe integers is the integer quotient or the
    next integer; it is the first when the division is exact. *)
Lemma num_round_div x y : 0 <= x -> 0 < y -> safe x -> safe y ->
  exists k, num_round (num_div (num_of_Z x) (num_of_Z y)) = num_of_Z k /\ (k = x / y \/ k = x / y + 1).
Proof.
  intros Hx Hy Hsx Hsy. destruct (Z.eq_dec x 0) as [->|Hx0].
  { destruct (safe_repr y Hsy ltac:(lia)) as (m2 & e2 & -> & _). replace (y <? 0) with false by lia.
    exists 0. split; [done|]. left. by rewrite Z.div_0_l by lia. }
  destruct (num_div_repr x y ltac:(lia) Hy Hsx Hsy) as (M & E & -> & HE & HdM & HV & _).
  cbn [num_round cond_Zopp]. destruct (Z.leb_spec 0 E).
  - replace E with 0 in * by lia. exists (Zpos M). rewrite canonical_num_of_Z by done.
    split; [done|]. left. by rewrite <- HV, Z.div_1_r.
  - eexists. split; [reflexivity|]. rewrite <- HV.
    set (P := 2 ^ (- E)). assert (0 < P) by (apply Z.pow_pos_nonneg; lia).
    pose proof (Z.div_mod (Zpos M) P ltac:(lia)) as Hdm. pose proof (Z.mod_pos_bound (Zpos M) P ltac:(lia)).
    set (q := Zpos M / P) in *. set (r := Zpos M mod P) in *.
    destruct (Z.lt_ge_cases (2 * r) P).
    + left. symmetry. apply Z.div_unique with (2 * r + P); lia.
    + right. symmetry. apply Z.div_unique with (2 * r - P); lia.
Qed.

Lemma binary_round_aux_opp s m e l :
  binary_round_aux prec64 emax64 (negb s) m e l = num_opp (binary_round_aux prec64 emax64 s m e l).
Proof.
  unfold binary_round_aux. destruct (shr_fexp _ _ _ _ _) as [r1 e1]. destruct (shr_fexp _ _ _ _ _) as [r2 e2].
  destruct (shr_m r2) as [|p|p]; [done| |done]. by destruct (e2 <=? _).
Qed.

Lemma num_div_opp x y : 0 < x -> 0 < y -> safe x -> safe y ->
  num_div (num_of_Z (- x)) (num_of_Z y) = num_opp (num_div (num_of_Z x) (num_of_Z y)).
Proof.
  intros Hx Hy Hsx Hsy.
  rewrite <- num_opp_Z by (done || lia). destruct (safe_repr x Hsx ltac:(lia)) as (m1 & e1 & -> & _).
  destruct (safe_repr y Hsy ltac:(lia)) as (m2 & e2 & -> & _).
  unfold num_div, num_opp at 1. cbn [SFopp SFdiv]. rewrite <- negb_xorb_l.
  destruct (SFdiv_core_binary _ _ _ _ _ _) as [[q e'] l]. apply binary_round_aux_opp.
Qed.

(** A division without remainder is exact. *)
Lemma num_div_exact q y : 0 < y -> safe y -> safe q -> safe (q * y) -> 0 <= q ->
  num_div (num_of_Z (q * y)) (num_of_Z y) = num_of_Z q.
Proof.
  intros Hy Hsy Hsq Hsx Hq. destruct (Z.eq_dec q 0) as [->|Hq0].
  { destruct (safe_repr y Hsy ltac:(lia)) as (m2 & e2 & -> & _). by replace (y <? 0) with false by lia. }
  destruct (num_div_repr (q * y) y ltac:(nia) Hy Hsx Hsy) as (M & E & -> & HE & HdM & _ & Hnear).
  assert (Zpos M = q * 2 ^ (- E)) as HM by nia.
  destruct (safe_repr q Hsq Hq0) as (m & e & -> & _ & Hdm & He & Hm). replace (q <? 0) with false by lia.
  rewrite Z.abs_eq in Hm by lia.
  pose proof (digits2_pos_spec M) as HM53. rewrite HdM in HM53.
  pose proof (digits2_pos_spec m) as Hm53. rewrite Hdm in Hm53. change (53 - 1) with 52 in *.
  assert (E = e) as ->.
  { destruct (Z.lt_trichotomy E e) as [Hlt|[Heq|Hlt]]; [exfalso|done|exfalso].
    - assert (2 ^ (- E) = 2 ^ (- e) * 2 ^ (e - E)) as Hp by (rewrite <- Z.pow_add_r by lia; f_equal; lia).
      assert (2 ^ 1 <= 2 ^ (e - E)) by (apply Z.pow_le_mono_r; lia). nia.
    - assert (2 ^ (- e) = 2 ^ (- E) * 2 ^ (E - e)) as Hp by (rewrite <- Z.pow_add_r by lia; f_equal; lia).
      assert (2 ^ 1 <= 2 ^ (E - e)) by (apply Z.pow_le_mono_r; lia). nia. }
  assert (M = m) as -> by lia. done.
Qed.

(** [Math.round] of a quotient finds the integer it is close to. *)
Lemma round_near_pos (M : positive) E x y n :
  0 < y -> 0 < x -> Z.abs n <= 2 ^ 40 -> 12 * Z.abs (x - n * y) <= 5 * y ->
  E <= 0 -> Zpos (digits2_pos M) = 53 -> - y <= 2 * (Zpos M * y - x * 2 ^ (- E)) <= y ->
  E < 0 /\ (2 * Zpos M + 2 ^ (- E)) / (2 * 2 ^ (- E)) = n /\ (2 * - Zpos M + 2 ^ (- E)) / (2 * 2 ^ (- E)) = - n.
Proof.
  intros Hy Hx Hn Hnear HE HM Hnd.
  pose proof (digits2_pos_spec M) as [HM1 _]. rewrite HM in HM1. change (53 - 1) with 52 in HM1.
  set (P := 2 ^ (- E)) in *. assert (0 < P) as HP by (apply Z.pow_pos_nonneg; lia).
  assert (x <= (2 ^ 40 + 1) * y) as Hxy by nia.
  assert (2 ^ 10 <= P) as HP10.
  { destruct (Z.le_gt_cases (2 ^ 10) P); [done|exfalso].
    assert (x * P <= (2 ^ 40 + 1) * y * 2 ^ 10) by nia. nia. }
  assert (E < 0) as HE0. { destruct (Z.eq_dec E 0); [subst E; unfold P in *; lia|lia]. }
  split; [done|]. assert (12 * Z.abs (Zpos M - n * P) <= 5 * P + 6) as Hm.
  { assert (12 * Z.abs (Zpos M * y - n * P * y) <= (5 * P + 6) * y) as Hm; [|nia].
    assert (12 * Z.abs (x * P - n * P * y) <= 5 * y * P) by nia. nia. }
  split.
  - symmetry. apply Z.div_unique with (2 * Zpos M + P - 2 * P * n); lia.
  - symmetry. apply Z.div_unique with (2 * - Zpos M + P + 2 * P * n); lia.
Qed.

Lemma num_round_near x y n : 0 < y -> safe x -> safe y -> Z.abs n <= 2 ^ 40 -> 12 * Z.abs (x - n * y) <= 5 * y ->
  num_trunc (num_round (num_div (num_of_Z x) (num_of_Z y))) = n.
Proof.
  intros Hy Hsx Hsy Hn Hnear.
  assert (forall k, safe k -> num_trunc (binary_normalize prec64 emax64 k 0 true) = k) as Hneg.
  { intros k Hk. destruct (Z.eq_dec k 0) as [->|]; [done|]. pose proof (num_trunc_Z k Hk) as Ht.
    unfold num_of_Z in Ht. by destruct k. }
  assert (safe n) as Hsn by (unfold safe; lia).
  destruct (Z.lt_trichotomy x 0) as [Hx|[->|Hx]].
  - replace x with (- (- x)) by lia. rewrite num_div_opp by (unfold safe in *; lia).
    destruct (num_div_repr (- x) y ltac:(lia) Hy ltac:(unfold safe in *; lia) Hsy) as (M & E & -> & HE & HdM & _ & Hnd).
    destruct (round_near_pos M E (- x) y (- n)) as (HE0 & _ & Hr); [lia|lia|lia|lia|done|done|done|].
    cbn [num_opp SFopp num_round negb cond_Zopp]. replace (0 <=? E) with false by lia.
    rewrite Z.opp_involutive in Hr. rewrite Hr. by apply Hneg.
  - assert (n = 0) as -> by nia. destruct (safe_repr y Hsy ltac:(lia)) as (m2 & e2 & -> & _).
    by replace (y <? 0) with false by lia.
  - destruct (num_div_repr x y ltac:(lia) Hy Hsx Hsy) as (M & E & -> & HE & HdM & _ & Hnd).
    destruct (round_near_pos M E x y n) as (HE0 & Hr & _); [lia|lia|lia|lia|done|done|done|].
    cbn [num_round cond_Zopp]. replace (0 <=? E) with false by lia. rewrite Hr. by apply num_trunc_Z.
Qed.

(** The decimal text of an integer with zeros after the point denotes it. *)
Lemma decimal_exact neg m k :
  0 < m -> safe m -> 0 < k -> decimal neg (m * 10 ^ k) (- k) = num_of_Z (cond_Zopp neg m).
Proof.
  intros Hm Hs Hk. assert (0 < 10 ^ k) as Hp by (apply Z.pow_pos_nonneg; lia).
  destruct (m * 10 ^ k) as [|n|n] eqn:Hn; [lia| |lia]. unfold decimal.
  replace (0 <=? - k) with false by lia. rewrite Z.opp_involutive.
  destruct (10 ^ k) as [|p|p] eqn:Hpow; [lia| |lia].
  unfold SFdiv_core_binary. cbn [Zdigits2].
  pose proof (digits2_pos_spec n) as Hdn. pose proof (digits2_pos_spec p) as Hdp.
  set (d1 := Zpos (digits2_pos n)) in *. set (d2 := Zpos (digits2_pos p)) in *.
  rewrite ?Hpow in Hn. unfold safe in Hs. rewrite Z.abs_eq in Hs by lia.
  assert (d2 <= d1) as Hd.
  { assert (2 ^ (d2 - 1) < 2 ^ d1) as Hlt by nia. apply Z.pow_lt_mono_r_iff in Hlt; lia. }
  assert (d1 - d2 <= 53) as Hd53.
  { assert (2 ^ (d1 - 1) < 2 ^ (d2 + 53)) as Hlt by (rewrite Z.pow_add_r by lia; nia).
    apply Z.pow_lt_mono_r_iff in Hlt; lia. }
  replace (fexp prec64 emax64 (d1 + 0 - (d2 + 0))) with (d1 - d2 - 53)
    by (unfold fexp, emin, prec64, emax64; lia).
  replace (Z.min (d1 - d2 - 53) (0 - 0)) with (d1 - d2 - 53) by lia.
  replace (0 - 0 - (d1 - d2 - 53)) with (53 + d2 - d1) by lia.
  set (s := 53 + d2 - d1). assert (0 <= s) by lia.
  assert (0 < 2 ^ s) as Hs2 by (apply Z.pow_pos_nonneg; lia).
  assert (match s with 0 => Zpos n | Zpos _ => Z.shiftl (Zpos n) s | Zneg _ => 0 end = Zpos n * 2 ^ s) as ->.
  { destruct s as [|s'|s']; [by rewrite Z.mul_1_r|by rewrite Z.shiftl_mul_pow2 by lia|lia]. }
  pose proof (Z_div_mod (Zpos n * 2 ^ s) (Zpos p) ltac:(lia)) as Hdiv.
  destruct (Z.div_eucl (Zpos n * 2 ^ s) (Zpos p)) as [q r]. destruct Hdiv as [Hq Hr].
  assert (q = m * 2 ^ s /\ r = 0) as [-> ->].
  { assert (m * 2 ^ s = (Zpos n * 2 ^ s) / Zpos p) as Hdq.
    { rewrite <- Hn. replace (m * Zpos p * 2 ^ s) with (m * 2 ^ s * Zpos p) by lia. by rewrite Z.div_mul by lia. }
    assert (q = (Zpos n * 2 ^ s) / Zpos p) as -> by (apply Z.div_unique with r; lia).
    rewrite <- Hdq in *. split; [done|]. nia. }
  assert (2 ^ 52 <= m * 2 ^ s) as H52.
  { assert (2 ^ (d1 - 1) * 2 ^ s = 2 ^ 52 * 2 ^ d2) as Hpp
      by (rewrite <- !Z.pow_add_r by lia; f_equal; unfold s; lia). nia. }
  destruct (m * 2 ^ s) as [|mm|mm] eqn:Hmm; [lia| |lia].
  replace (new_location (Zpos p) 0) with loc_Exact
    by (unfold new_location, new_location_even, new_location_odd; by destruct (Z.even (Zpos p))).
  replace neg with (cond_Zopp neg m <? 0) at 1 by (destruct neg; cbn; lia).
  apply binary_round_aux_safe; [unfold safe; destruct neg; cbn; lia|destruct neg; cbn; lia|lia|lia|].
  replace (- (d1 - d2 - 53)) with s by lia. rewrite <- Hmm. f_equal. destruct neg; cbn; lia.
Qed.

Lemma ltb_1e21 z : safe z -> num_ltb (num_of_Z (Z.abs z)) (binary_normalize prec64 emax64 (10 ^ 21) 0 false) = true.
Proof.
  intros Hs.
  assert (exists M E, binary_normalize prec64 emax64 (10 ^ 21) 0 false = S754_finite false M E /\ 0 < E)
    as (M & E & -> & HE) by (do 2 eexists; split; [vm_compute; reflexivity|done]).
  destruct (Z.eq_dec (Z.abs z) 0) as [->|Hz]; [done|].
  destruct (safe_repr (Z.abs z) ltac:(unfold safe in *; lia) Hz) as (M' & E' & -> & _ & _ & HE' & _).
  replace (Z.abs z <? 0) with false by lia. unfold num_ltb, SFltb, SFcompare.
  by rewrite (proj2 (Z.compare_lt_iff E' E)) by lia.
Qed.

Lemma parse_fixed_Z d z : 0 <= d <= 20 -> safe z -> parse_fixed d (num_of_Z z) = num_of_Z z.
Proof.
  intros Hd Hs. num_cases z.
  destruct (safe_repr z Hs Hz) as (M & E & HzE & Hb & _ & HE & HM).
  assert (num_ltb (num_abs (num_of_Z z)) (binary_normalize prec64 emax64 (10 ^ 21) 0 false) = true) as Hlt.
  { rewrite num_abs_Z by done. by apply ltb_1e21. }
  rewrite HzE in Hlt |- *. cbn [parse_fixed]. rewrite Hlt.
  assert (0 < 2 ^ (- E)) by (apply Z.pow_pos_nonneg; lia).
  assert (0 < 10 ^ d) by (apply Z.pow_pos_nonneg; lia).
  assert (fixed_digits d (Zpos M) E = Z.abs z * 10 ^ d) as ->.
  { unfold fixed_digits. rewrite HM. destruct (Z.leb_spec 0 E).
    - replace E with 0 by lia. cbn [Z.opp]. rewrite Z.pow_0_r. lia.
    - symmetry. apply Z.div_unique with (2 ^ (- E)); [lia|ring]. }
  destruct (Z.eq_dec d 0) as [->|Hd0].
  { rewrite Z.pow_0_r, Z.mul_1_r. cbn [Z.opp]. rewrite decimal_pos by lia. rewrite <- HzE. f_equal.
    destruct (Z.ltb_spec z 0); cbn; lia. }
  rewrite decimal_exact by (unfold safe in *; lia). rewrite <- HzE. do 2 f_equal.
  destruct (Z.ltb_spec z 0); cbn; lia.
Qed.

Lemma decimals_Z z : safe z -> decimals (num_of_Z z) = 0.
Proof.
  intros Hs. num_cases z.
  destruct (safe_repr z Hs Hz) as (M & E & HzE & Hb & _ & HE & HM). rewrite HzE. cbn [decimals].
  change (below 26) with (0 :: map Z.of_nat (seq 1 25)).
  rewrite filter_cons_True; [done|]. rewrite <- HzE.
  assert (0 < 2 ^ (- E)) by (apply Z.pow_pos_nonneg; lia).
  assert (fixed_digits 0 (Zpos M) E = Z.abs z) as ->.
  { unfold fixed_digits. rewrite HM, Z.pow_0_r, !Z.mul_1_r. destruct (Z.leb_spec 0 E).
    - replace E with 0 by lia. cbn [Z.opp]. rewrite Z.pow_0_r. lia.
    - symmetry. apply Z.div_unique with (2 ^ (- E)); [lia|ring]. }
  cbn [Z.opp]. rewrite decimal_pos by lia. f_equal. destruct (Z.ltb_spec z 0); cbn; lia.
Qed.
