(* ===== verification/Mouse.v ===== *)
(** [$.ui.mouse] (jquery-ui.js): the mouse interaction every draggable widget
    inherits.  The widget is a client of this component: it provides the four
    methods [_mouseCapture], [_mouseStart], [_mouseDrag] and [_mouseStop]; what
    it may rely on is the order in which they are called. *)
From S2P Require Import Prelude JsNumber JsMath.

(** A mouse event, with what the handlers read of it. *)
Record mevent := {
  pageX : number;
  pageY : number;
  which : Z;                (* 1 is the left button, 0 no button *)
  ev_button : Z;
  target : nat;
  modifier : bool;          (* alt, ctrl, meta or shift of the original event *)
  on_cancel : bool;         (* the target lies in an element of options.cancel *)
}.

(** The instance variables, the delegates bound to the document, and the
    global [mouseHandled]. *)
Record mouse := {
  mouseStarted : bool;
  mouseMoved : bool;
  mouseDownEvent : option mevent;
  mouseDelayMet : bool;
  delayTimer : bool;               (* _mouseDelayTimer is pending *)
  ignoreMissingWhich : bool;
  bound : list nat;                (* delegates bound to mousemove and mouseup *)
  delegate : nat;                  (* _mouseMoveDelegate, _mouseUpDelegate *)
  next_delegate : nat;
  preventClick : list nat;         (* targets with preventClickEvent set *)
  mouseHandled : bool;
}.

#[export] Instance eta_mouse : Eta mouse := fun m => {|
  mouseStarted := mouseStarted m; mouseMoved := mouseMoved m; mouseDownEvent := mouseDownEvent m;
  mouseDelayMet := mouseDelayMet m; delayTimer := delayTimer m;
  ignoreMissingWhich := ignoreMissingWhich m; bound := bound m; delegate := delegate m;
  next_delegate := next_delegate m; preventClick := preventClick m; mouseHandled := mouseHandled m |}.

(** [_mouseInit] *)
Definition mouseInit : mouse := {|
  mouseStarted := false; mouseMoved := false; mouseDownEvent := None; mouseDelayMet := false;
  delayTimer := false; ignoreMissingWhich := false; bound := []; delegate := 0; next_delegate := 0;
  preventClick := []; mouseHandled := false |}.

Record mouse_options := { distance : number; delay : Z }.

(** A widget on top of the component.  A method's result is whether it returned
    something other than [false]; it may change the widget's state but not the
    mouse's. *)
Class MouseClient (St : Type) := {
  mouse_of : St -> mouse;
  set_mouse : mouse -> St -> St;
  moptions : St -> mouse_options;
  mouseCapture : mevent -> eff St bool;
  mouseStart : mevent -> eff St bool;
  mouseDrag : mevent -> eff St unit;
  mouseStop : mevent -> eff St unit;
}.

Section Mouse.
Context {St : Type} `{!MouseClient St}.
(** Whether the browser is Internet Explorer before version 9. *)
Context (old_ie : bool).

Definition upd_mouse (f : mouse -> mouse) : eff St unit :=
  modify (fun s => set_mouse (f (mouse_of s)) s).

(** [_mouseDistanceMet]; a missing mouse-down event would be a TypeError. *)
Definition mouseDistanceMet (e : mevent) : eff St bool :=
  s ← get;
  match mouseDownEvent (mouse_of s) with
  | None => throw TypeError
  | Some d =>
      mret (num_leb (distance (moptions s))
              (num_max (num_abs (num_sub (pageX d) (pageX e))) (num_abs (num_sub (pageY d) (pageY e)))))
  end.

(** [_mouseDelayMet] *)
Definition delayMet : eff St bool := s ← get; mret (mouseDelayMet (mouse_of s)).

(** [a && b] *)
Definition and_also (a b : eff St bool) : eff St bool := x ← a; if (x : bool) then b else mret false.

(** [_mouseUp] *)
Definition mouseUp (e : mevent) : eff St unit :=
  upd_mouse (fun m => m <| bound := filter (fun i => i <> delegate m) (bound m) |>) ;;
  s ← get;
  (if mouseStarted (mouse_of s) then
     upd_mouse (fun m => m <| mouseStarted := false |>) ;;
     match mouseDownEvent (mouse_of s) with
     | None => throw TypeError
     | Some d =>
         if (target e =? target d)%nat
         then upd_mouse (fun m => m <| preventClick := target e :: preventClick m |>) else mret tt
     end ;;
     mouseStop e
   else mret tt) ;;
  upd_mouse (fun m => m <| delayTimer := false |>) ;;
  upd_mouse (fun m => m <| ignoreMissingWhich := false |>) ;;
  upd_mouse (fun m => m <| mouseHandled := false |>).

(** [_mouseDown] *)
Definition mouseDown (e : mevent) : eff St unit :=
  s ← get;
  if mouseHandled (mouse_of s) then mret tt
  else
    upd_mouse (fun m => m <| mouseMoved := false |>) ;;
    (if mouseStarted (mouse_of s) then mouseUp e else mret tt) ;;
    upd_mouse (fun m => m <| mouseDownEvent := Some e |>) ;;
    go ← (if negb (which e =? 1) || on_cancel e then mret false else mouseCapture e);
    if negb go then mret tt
    else
      s ← get;
      let met := delay (moptions s) =? 0 in
      upd_mouse (fun m => m <| mouseDelayMet := met |>) ;;
      (if met then mret tt else upd_mouse (fun m => m <| delayTimer := true |>)) ;;
      start ← and_also (mouseDistanceMet e) delayMet;
      stay ← (if (start : bool) then
                started ← mouseStart e;
                upd_mouse (fun m => m <| mouseStarted := started |>) ;; mret started
              else mret true);
      if negb stay then mret tt
      else
        upd_mouse (fun m => m <| preventClick := filter (fun t => t <> target e) (preventClick m) |>) ;;
        upd_mouse (fun m => m <| delegate := next_delegate m |> <| next_delegate := S (next_delegate m) |>) ;;
        upd_mouse (fun m => m <| bound := bound m ++ [delegate m] |>) ;;
        upd_mouse (fun m => m <| mouseHandled := true |>).

(** [_mouseMove] *)
Definition mouseMove (e : mevent) : eff St unit :=
  s ← get;
  let m := mouse_of s in
  let missed := mouseMoved m &&
    (if old_ie && (ev_button e =? 0) then true
     else (which e =? 0) && negb (modifier e) && negb (ignoreMissingWhich m)) in
  if missed then mouseUp e
  else
    (if mouseMoved m && negb (old_ie && (ev_button e =? 0)) && (which e =? 0) && modifier e
     then upd_mouse (fun m => m <| ignoreMissingWhich := true |>) else mret tt) ;;
    (if negb (which e =? 0) || negb (ev_button e =? 0)
     then upd_mouse (fun m => m <| mouseMoved := true |>) else mret tt) ;;
    s ← get;
    if mouseStarted (mouse_of s) then mouseDrag e
    else
      start ← and_also (mouseDistanceMet e) delayMet;
      if (start : bool) then
        match mouseDownEvent (mouse_of s) with
        | None => throw TypeError
        | Some d =>
            started ← mouseStart d;
            upd_mouse (fun m => m <| mouseStarted := started |>) ;;
            if (started : bool) then mouseDrag e else mouseUp e
        end
      else mret tt.

(** The click handler of [_mouseInit]; the result says whether the click is
    swallowed. *)
Definition mouseClick (t : nat) : eff St bool :=
  s ← get;
  let prevented := bool_decide (t ∈ preventClick (mouse_of s)) in
  (if prevented then upd_mouse (fun m => m <| preventClick := filter (fun x => x <> t) (preventClick m) |>)
   else mret tt) ;;
  mret prevented.

(** [_mouseDestroy] *)
Definition mouseDestroy : eff St unit :=
  upd_mouse (fun m => m <| bound := filter (fun i => i <> delegate m) (bound m) |>).

(** ** The document delivers events *)

Inductive mouse_event :=
  | MDown (e : mevent)             (* a mousedown on the element *)
  | MMove (e : mevent)             (* a mousemove anywhere in the document *)
  | MUp (e : mevent)
  | MDelay                         (* the delay timer fires *)
  | MClick (t : nat).

(** The document's own mouseup handler runs before the delegates. *)
Definition dispatch (x : mouse_event) : eff St unit :=
  match x with
  | MDown e => mouseDown e
  | MMove e => s ← get; for_each (fun _ => mouseMove e) (bound (mouse_of s))
  | MUp e =>
      upd_mouse (fun m => m <| mouseHandled := false |>) ;;
      s ← get; for_each (fun _ => mouseUp e) (bound (mouse_of s))
  | MDelay =>
      s ← get;
      if delayTimer (mouse_of s)
      then upd_mouse (fun m => m <| mouseDelayMet := true |> <| delayTimer := false |>) else mret tt
  | MClick t => mouseClick t ;; mret tt
  end.
End Mouse.
