(* ===== verification/MouseProps.v ===== *)
(** The protocol [$.ui.mouse] keeps with the widget on top of it: a drag is
    captured, started, moved any number of times and stopped exactly once,
    whatever the mouse does and whatever the widget's methods return or throw. *)
From S2P Require Import Prelude JsNumber JsMath Mouse.

(** A client may not touch the state of the component. *)
Class MouseClientLaws (St : Type) `{!MouseClient St} := {
  mouse_set m s : mouse_of (set_mouse m s) = m;
  capture_keeps e s : mouse_of (snd (mouseCapture e s)) = mouse_of s;
  start_keeps e s : mouse_of (snd (mouseStart e s)) = mouse_of s;
  drag_keeps e s : mouse_of (snd (mouseDrag e s)) = mouse_of s;
  stop_keeps e s : mouse_of (snd (mouseStop e s)) = mouse_of s;
}.

(** A relation that holds across changes of the component's state and across the
    client's methods holds across every event. *)
Lemma dispatch_keeps {St} `{!MouseClient St} (R : St -> St -> Prop) `{!PreOrder R} old_ie ev :
  (forall m s, R s (set_mouse m s)) ->
  (forall e, keeps R (mouseCapture e)) -> (forall e, keeps R (mouseStart e)) ->
  (forall e, keeps R (mouseDrag e)) -> (forall e, keeps R (mouseStop e)) ->
  keeps R (dispatch old_ie ev).
Proof.
  intros Hset Hca Hst Hdr Hsp.
  assert (forall f, keeps R (upd_mouse f)) as Hupd by (intros f; by apply keeps_modify).
  assert (forall e, keeps R (mouseDistanceMet e)) as Hdist by (intros e; unfold mouseDistanceMet; keeps_auto R).
  assert (keeps R (delayMet (St := St))) as Hdel by (unfold delayMet; keeps_auto R).
  assert (forall e, keeps R (and_also (mouseDistanceMet e) delayMet)) as Hmet
    by (intros e; unfold and_also; keeps_auto R).
  assert (forall e, keeps R (mouseUp e)) as Hup by (intros e; unfold mouseUp; keeps_auto R).
  assert (forall e, keeps R (mouseDown e)) as Hdn by (intros e; unfold mouseDown; keeps_auto R).
  assert (forall e, keeps R (mouseMove old_ie e)) as Hmv by (intros e; unfold mouseMove; keeps_auto R).
  destruct ev; cbn [dispatch]; unfold mouseClick; keeps_auto R.
Qed.

(** ** The calls a client sees *)

Inductive mcall :=
  | CCapture (r : result bool)
  | CStart (r : result bool)
  | CDrag (r : result unit)
  | CStop (r : result unit).

(** What the client may expect next. *)
Inductive phase := Idle | Armed | Dragging.

#[export] Instance phase_eq_dec : EqDecision phase.
Proof. solve_decision. Defined.

(** The protocol; a call it does not allow has no next phase. *)
Definition next_phase (p : phase) (c : mcall) : option phase :=
  match p, c with
  | (Idle | Armed), CCapture (Ok true) => Some Armed
  | (Idle | Armed), CCapture _ => Some Idle
  | Armed, CStart (Ok true) => Some Dragging
  | Armed, CStart (Ok false) => Some Idle
  | Armed, CStart (Throw _) => Some Armed
  | Dragging, CDrag _ => Some Dragging
  | Dragging, CStop _ => Some Idle
  | _, _ => None
  end.

Definition run_phase (p : phase) (l : list mcall) : option phase :=
  fold_left (fun p c => p ≫= fun p => next_phase p c) l (Some p).

Lemma run_phase_snoc p l c : run_phase p (l ++ [c]) = run_phase p l ≫= fun p => next_phase p c.
Proof. unfold run_phase. by rewrite fold_left_app. Qed.

Arguments run_phase : simpl never.

(** ** The client with a log of its calls *)

Section Logged.
Context {St : Type} `{!MouseClient St}.

Definition logged {A} (c : result A -> mcall) (m : eff St A) : eff (St * list mcall) A :=
  fun s => let '(r, s') := m (fst s) in (r, (s', snd s ++ [c r])).

#[local] Instance logged_client : MouseClient (St * list mcall) := {|
  mouse_of s := mouse_of (fst s);
  set_mouse m s := (set_mouse m (fst s), snd s);
  moptions s := moptions (fst s);
  mouseCapture e := logged CCapture (mouseCapture e);
  mouseStart e := logged CStart (mouseStart e);
  mouseDrag e := logged CDrag (mouseDrag e);
  mouseStop e := logged CStop (mouseStop e);
|}.

(** Every event is handled to its end; an exception stays in the console. *)
Definition run_events (old_ie : bool) (evs : list mouse_event) (s : St * list mcall) : St * list mcall :=
  fold_left (fun s ev => snd (dispatch old_ie ev s)) evs s.

Context `{!MouseClientLaws St}.
Context (old_ie : bool).

(** The delegates are bound only while the global flag is set, at most once,
    and the client is in the phase the instance believes it to be in. *)
Record bound_ok (m : mouse) (p : phase) : Prop := {
  bo_bound : bound m = [] \/ bound m = [delegate m] /\ mouseDownEvent m <> None;
  bo_started : mouseStarted m = true <-> p = Dragging;
  bo_drag : p = Dragging -> bound m <> [];
}.

Definition minv (s : St * list mcall) : Prop :=
  exists p, run_phase Idle (snd s) = Some p /\ bound_ok (mouse_of s) p /\
    (bound (mouse_of s) <> [] -> mouseHandled (mouse_of s) = true /\ p <> Idle).

(** [mouse_of s] is [m] and the client is in phase [p]. *)
Definition at_phase (m : mouse) (p : phase) (s : St * list mcall) : Prop :=
  mouse_of s = m /\ run_phase Idle (snd s) = Some p.

Lemma post_upd f {B} (k : unit -> eff (St * list mcall) B) m p s Q :
  at_phase m p s ->
  (forall s, at_phase (f m) p s -> post (k tt) s Q) -> post (upd_mouse f ≫= k) s Q.
Proof.
  intros [<- Hp] Hk. unfold upd_mouse. apply (Hk (set_mouse (f (mouse_of s)) s)).
  split; [cbn; by rewrite mouse_set|done].
Qed.

Lemma post_upd_last f m p s (Q : result unit -> _ -> Prop) :
  at_phase m p s -> (forall s, at_phase (f m) p s -> Q (Ok tt) s) -> post (upd_mouse f) s Q.
Proof.
  intros [<- Hp] Hk. apply Hk. split; [cbn; by rewrite mouse_set|done].
Qed.

Lemma post_call {A} (c : result A -> mcall) (call : eff St A) m p s (Q : result A -> _ -> Prop) :
  (forall s, mouse_of (snd (call s)) = mouse_of s) ->
  at_phase m p s ->
  (forall r s, (forall p', next_phase p (c r) = Some p' -> at_phase m p' s) -> Q r s) ->
  post (logged c call) s Q.
Proof.
  intros Hkeep [<- Hp] HQ. unfold post, logged. destruct s as [s l]; cbn in *.
  specialize (Hkeep s). destruct (call s) as [r s']; cbn in *. apply HQ. intros p' Hp'.
  split; [done|]. cbn. rewrite run_phase_snoc, Hp. done.
Qed.

(** What [_mouseUp] leaves behind, in any case. *)
Definition released (s : St * list mcall) : Prop :=
  exists m p, at_phase m p s /\ bound m = [] /\ mouseStarted m = false /\ p <> Dragging.

Lemma released_minv s : released s -> minv s.
Proof.
  intros (m & p & [<- Hp] & Hb & Hst & Hd). exists p. split_and!; [done| |by rewrite Hb].
  split; [by left| |done]. by rewrite Hst.
Qed.

Lemma bound_off m p : bound_ok m p -> filter (fun i => i <> delegate m) (bound m) = [].
Proof.
  intros [Hb _ _]. destruct Hb as [->|[-> _]]; [done|].
  rewrite filter_cons_False by auto. done.
Qed.

Lemma mouseUp_post e m p s :
  bound_ok m p -> at_phase m p s -> post (mouseUp e) s (fun _ => released).
Proof.
  intros Hok Hs. pose proof (bound_off m p Hok) as Hoff. destruct Hok as [Hb Hst Hdr].
  unfold mouseUp. eapply post_upd; [exact Hs|]. clear s Hs. intros s Hs. cbn beta in Hs. rewrite Hoff in Hs.
  apply post_bind_get. rewrite (proj1 Hs). cbn [mouseStarted set_field].
  apply post_bind with (P := fun _ s => exists m' p', at_phase m' p' s /\ bound m' = [] /\
    mouseStarted m' = false /\ p' <> Dragging); [| |by intros ? ? H].
  - cbn. destruct (mouseStarted m) eqn:Hm.
    + assert (p = Dragging) as -> by (by apply Hst).
      destruct Hb as [Hb|[_ Hde]]; [by destruct Hdr|].
      destruct (mouseDownEvent m) as [d|] eqn:Hd; [|done]. clear Hde.
      eapply post_upd; [exact Hs|]. clear s Hs. intros s Hs.
      eapply post_bind with (P := fun r s => r = Ok tt /\ exists m', at_phase m' Dragging s /\ bound m' = [] /\ mouseStarted m' = false).
      { destruct (_ =? _)%nat.
        - eapply post_upd_last; [exact Hs|]. intros s' Hs'. split; [done|]. eexists. by split_and!; [exact Hs'| |].
        - apply post_ret. split; [done|]. eexists. by split_and!; [exact Hs| |]. }
      * intros a s' (_ & m' & Hs' & Hb' & Hst'). eapply post_call; [apply stop_keeps|exact Hs'|].
        intros r s'' Hs''. exists m', Idle. split_and!; [by apply Hs''|done..].
      * by intros e' s' [? _].
    + apply post_ret. eexists _, p. split; [exact Hs|]. split; [done|]. split; [exact Hm|].
      intros ->. by discriminate (proj2 Hst eq_refl).
  - intros [] s' (m' & p' & Hs' & Hb' & Hst' & Hp').
    eapply post_upd; [exact Hs'|]. clear s' Hs'. intros s' Hs'.
    eapply post_upd; [exact Hs'|]. clear s' Hs'. intros s' Hs'.
    eapply post_upd_last; [exact Hs'|]. clear s' Hs'. intros s' Hs'.
    eexists _, p'. by split_and!; [exact Hs'|..].
Qed.

Lemma met_reads e (s : St * list mcall) : snd (and_also (mouseDistanceMet e) delayMet s) = s.
Proof.
  unfold and_also, mouseDistanceMet, delayMet. eff_cbn. destruct (mouseDownEvent _); [|done].
  by destruct (num_leb _ _).
Qed.

Lemma post_met {B} e (k : bool -> eff (St * list mcall) B) s Q :
  (forall b, post (k b) s Q) -> (forall e, Q (Throw e) s) ->
  post (and_also (mouseDistanceMet e) delayMet ≫= k) s Q.
Proof.
  intros Hk He. apply post_bind with (P := fun _ s' => s' = s); [apply met_reads|by intros b ? ->|by intros ? ? ->].
Qed.

Lemma minv_unbound m p s : at_phase m p s -> bound m = [] -> mouseStarted m = false -> p <> Dragging -> minv s.
Proof. intros Hs Hb Hst Hp. apply released_minv. by exists m, p. Qed.

(** The common end of a press: the delegates are bound. *)
Lemma press_end e m p s :
  at_phase m p s -> bound m = [] -> (mouseStarted m = true <-> p = Dragging) -> p <> Idle ->
  mouseDownEvent m <> None ->
  post (upd_mouse (fun m => m <| preventClick := filter (fun t => t <> target e) (preventClick m) |>) ;;
        upd_mouse (fun m => m <| delegate := next_delegate m |> <| next_delegate := S (next_delegate m) |>) ;;
        upd_mouse (fun m => m <| bound := bound m ++ [delegate m] |>) ;;
        upd_mouse (fun m => m <| mouseHandled := true |>)) s (fun _ => minv).
Proof.
  intros Hs Hb Hst Hp Hd.
  eapply post_upd; [exact Hs|]. clear s Hs. intros s Hs.
  eapply post_upd; [exact Hs|]. clear s Hs. intros s Hs.
  eapply post_upd; [exact Hs|]. clear s Hs. intros s Hs.
  eapply post_upd_last; [exact Hs|]. clear s Hs. intros s [Hs Hr].
  exists p. rewrite Hs. cbn. rewrite Hb. split_and!; [done| |done].
  split; cbn; [by right|done|done].
Qed.

Lemma mouseDown_post e s : minv s -> post (mouseDown e) s (fun _ => minv).
Proof.
  intros Hs. pose proof Hs as (p & Hp & Hok & Hh). unfold mouseDown. apply post_bind_get.
  destruct (mouseHandled (mouse_of s)) eqn:Hhd; [by apply post_ret|]. clear Hs.
  assert (bound (mouse_of s) = []) as Hb by (destruct (bound (mouse_of s)) eqn:Hbb; [done|]; destruct Hh; congruence).
  assert (p <> Dragging) as Hnd by (intros ->; by apply (bo_drag _ _ Hok)).
  assert (mouseStarted (mouse_of s) = false) as Hst.
  { destruct (mouseStarted _) eqn:H; [|done]. by apply (bo_started _ _ Hok) in H. }
  assert (at_phase (mouse_of s) p s) as Hs by done. revert Hs Hb Hst. generalize (mouse_of s). intros m Hs Hb Hst.
  clear Hok Hh Hp Hhd.
  eapply post_upd; [exact Hs|]. clear s Hs. intros s Hs. rewrite Hst. apply post_bind_ret.
  eapply post_upd; [exact Hs|]. clear s Hs. intros s Hs.
  eapply post_bind with (P := fun r s => exists p, at_phase _ p s /\ p <> Dragging /\ (r = Ok true -> p = Armed)).
  { destruct (_ || _).
    - apply post_ret. exists p. by split_and!; [exact Hs|..].
    - eapply post_call; [apply capture_keeps|exact Hs|]. intros r s' Hs'.
      assert (exists p', next_phase p (CCapture r) = Some p' /\ p' <> Dragging /\ (r = Ok true -> p' = Armed))
        as (p' & Hn & Hp') by (destruct p; [| |done]; destruct r as [[]|]; eexists; done).
      exists p'. by split; [apply Hs'|]. }
  2: { intros err s' (p' & Hs' & Hp' & _). by eapply minv_unbound. }
  clear s Hs Hnd p. intros go s (p & Hs & Hnd & Hgo). destruct go; cbn [negb].
  2: { apply post_ret. by eapply minv_unbound. }
  rewrite (Hgo eq_refl) in Hs. clear Hgo Hnd p. apply post_bind_get.
  eapply post_upd; [exact Hs|]. intros s1 Hs1. clear Hs.
  eapply post_bind with (P := fun r s => r = Ok tt /\ exists m, at_phase m Armed s /\ bound m = [] /\
    mouseStarted m = false /\ mouseDownEvent m = Some e); [| |by intros ? ? [? _]].
  { destruct (_ =? 0).
    - apply post_ret. split; [done|]. eexists. by split_and!; [exact Hs1|..].
    - eapply post_upd_last; [exact Hs1|]. intros s2 Hs2. split; [done|]. eexists. by split_and!; [exact Hs2|..]. }
  clear s s1 Hs1 Hb Hst m. intros _ s (_ & m & Hs & Hb & Hst & Hd).
  apply post_met; [|intros; by eapply minv_unbound].
  intros [].
  - eapply post_bind with (P := fun r s => (exists m, at_phase m Dragging s /\ r = Ok true /\ bound m = [] /\
      mouseStarted m = true /\ mouseDownEvent m = Some e) \/ r <> Ok true /\ minv s).
    + eapply post_bind with (P := fun r s => forall p', next_phase Armed (CStart r) = Some p' -> at_phase m p' s).
      * eapply post_call; [apply start_keeps|exact Hs|]. by intros r s' Hr; cbn beta.
      * intros [] s' Hs'.
        -- eapply post_upd; [by apply Hs'|]. intros s2 Hs2. apply post_ret. left. eexists.
           by split_and!; [exact Hs2|..].
        -- eapply post_upd; [by apply Hs'|]. intros s2 Hs2. apply post_ret. right. split; [done|].
           by eapply minv_unbound.
      * intros err s' Hs'. right. split; [done|]. eapply minv_unbound; [by apply Hs'|done..].
    + intros [] s'; cbn [negb]; intros [(m' & Hs' & Hr & Hb' & Hst' & Hd')|[Hr Hm]]; try done.
      eapply press_end; [exact Hs'|done|by rewrite Hst'|done|by rewrite Hd'].
    + by intros err s' [(m' & _ & ? & _)|[_ Hm]].
  - apply post_bind_ret. eapply press_end; [exact Hs|done|by rewrite Hst|done|by rewrite Hd].
Qed.

(** Updates of the fields the invariant does not read. *)
Definition inessential (f : mouse -> mouse) : Prop := forall m,
  bound (f m) = bound m /\ delegate (f m) = delegate m /\ mouseStarted (f m) = mouseStarted m /\
  mouseDownEvent (f m) = mouseDownEvent m /\ mouseHandled (f m) = mouseHandled m.

Lemma minv_upd f s :
  minv s -> inessential f ->
  post (upd_mouse f) s (fun r s' => r = Ok tt /\ minv s' /\ bound (mouse_of s') = bound (mouse_of s)).
Proof.
  intros (p & Hp & Hok & Hh) Hf. destruct (Hf (mouse_of s)) as (Hb & Hd & Hst & Hde & Hha).
  assert (mouse_of (snd (upd_mouse f s)) = f (mouse_of s)) as Hm by (cbn; by rewrite mouse_set).
  split; [done|]. rewrite Hm, Hb. split; [|done]. exists p. rewrite Hm, Hb, Hha. split; [done|]. split; [|done].
  destruct Hok as [H1 H2 H3]. by split; rewrite ?Hb, ?Hd, ?Hst, ?Hde.
Qed.

(** An optional inessential update in front of the rest. *)
Lemma minv_step {B} (c : bool) f (k : eff (St * list mcall) B) s Q :
  minv s -> inessential f ->
  (forall s', minv s' -> bound (mouse_of s') = bound (mouse_of s) -> post k s' Q) ->
  post ((if c then upd_mouse f else mret tt) ;; k) s Q.
Proof.
  intros Hs Hf Hk. destruct c; [|by apply (Hk s)].
  eapply post_bind; [by apply minv_upd| |by intros ? ? [? _]].
  intros [] s' (_ & Hs' & Hb). by apply Hk.
Qed.

(** A call the protocol allows leaves the component where it was. *)
Lemma minv_phase m p s :
  bound_ok m p -> p <> Idle -> mouseHandled m = true -> at_phase m p s -> minv s.
Proof. intros Hok Hi Hh [<- Hp]. exists p. by split_and!. Qed.

Lemma mouseMove_post e s :
  minv s -> bound (mouse_of s) <> [] -> post (mouseMove old_ie e) s (fun _ => minv).
Proof.
  intros Hs Hb. unfold mouseMove. apply post_bind_get.
  destruct (mouseMoved (mouse_of s) && _) eqn:Hmiss.
  { destruct Hs as (p & Hp & Hok & _). eapply post_mono; [by eapply mouseUp_post|]. intros r s'. apply released_minv. }
  clear Hmiss. apply minv_step; [done..|]. intros s1 Hs1 Hb1. rewrite <- Hb1 in Hb.
  apply minv_step; [done..|]. intros s2 Hs2 Hb2. rewrite <- Hb2 in Hb.
  apply post_bind_get. destruct Hs2 as (p & Hp & Hok & Hh). destruct (Hh Hb) as [Hha Hi]. clear Hh.
  assert (at_phase (mouse_of s2) p s2) as Hat by done. revert Hat Hok Hha Hb. generalize (mouse_of s2).
  clear Hp. intros m Hat Hok Hha Hb. destruct (mouseStarted m) eqn:Hst.
  { assert (p = Dragging) as -> by (by apply Hok).
    eapply post_call; [apply drag_keeps|exact Hat|]. intros r s' Hs'.
    by eapply (minv_phase m Dragging); [..|apply Hs']. }
  assert (p = Armed) as ->.
  { destruct p; [done|done|]. by rewrite (proj2 (bo_started _ _ Hok) eq_refl) in Hst. }
  apply post_met; [|intros; by eapply (minv_phase m Armed)].
  intros []; [|apply post_ret; by eapply (minv_phase m Armed)].
  destruct (bo_bound _ _ Hok) as [?|[Hbd Hde]]; [done|]. destruct (mouseDownEvent m) as [d|] eqn:Hd; [|done].
  eapply post_bind with (P := fun r s => forall p', next_phase Armed (CStart r) = Some p' -> at_phase m p' s).
  - eapply post_call; [apply start_keeps|exact Hat|]. by intros r s' Hr; cbn beta.
  - intros started s' Hs'.
    assert (at_phase m (if started then Dragging else Idle) s') as Hat' by (destruct started; by apply Hs').
    eapply post_upd; [exact Hat'|]. clear s' Hs' Hat'. intros s' Hs'.
    assert (bound_ok (m <| mouseStarted := started |>) (if started then Dragging else Idle)) as Hok'.
    { split; cbn; [right; by rewrite Hd|by destruct started|by destruct started]. }
    destruct started.
    + eapply post_call; [apply drag_keeps|exact Hs'|]. intros r s'' Hs''.
      by eapply (minv_phase _ Dragging); [..|apply Hs''].
    + eapply post_mono; [by eapply mouseUp_post|]. intros r s''. apply released_minv.
  - intros err s' Hs'. eapply (minv_phase m Armed); [done..|]. by apply Hs'.
Qed.

Lemma bound_cases s : minv s -> bound (mouse_of s) = [] \/ exists d, bound (mouse_of s) = [d].
Proof. intros (p & _ & [[?|[? _]] _ _] & _); eauto. Qed.

Lemma dispatch_minv ev s : minv s -> post (dispatch old_ie ev) s (fun _ => minv).
Proof.
  intros Hs. destruct ev as [e|e|e| |t]; cbn [dispatch].
  - by apply mouseDown_post.
  - apply post_bind_get. destruct (bound_cases s Hs) as [->|[d Hd]]; [done|]. rewrite Hd. cbn [for_each].
    eapply post_bind; [apply mouseMove_post; [done|by rewrite Hd]|done|done].
  - destruct Hs as (p & Hp & Hok & _).
    eapply post_upd; [by split|]. intros s' Hs'. apply post_bind_get. rewrite (proj1 Hs'). cbn [bound set_field].
    assert (bound_ok ((mouse_of s) <| mouseHandled := false |>) p) as Hok' by (by destruct Hok; split).
    destruct (bo_bound _ _ Hok') as [Hb|[Hb _]]; cbn in Hb; cbn; rewrite Hb; cbn [for_each].
    + apply post_ret. eapply minv_unbound; [exact Hs'|done| |].
      * cbn. destruct (mouseStarted (mouse_of s)) eqn:Hst; [|done].
        apply (bo_started _ _ Hok) in Hst. by apply (bo_drag _ _ Hok) in Hst.
      * intros ->. by apply (bo_drag _ _ Hok).
    + eapply post_bind; [by eapply mouseUp_post| |]; intros; by apply released_minv.
  - apply post_bind_get. destruct (delayTimer _); [|done].
    eapply post_mono; [by apply minv_upd|]. by intros r s' (_ & ? & _).
  - unfold mouseClick. apply post_bind with (P := fun r => minv); [|done|done]. apply post_bind_get.
    apply (minv_step _ _ _ s); [done|done|]. intros s' Hs' _. by apply post_ret.
Qed.

Lemma run_events_minv evs s : minv s -> minv (run_events old_ie evs s).
Proof.
  revert s. induction evs as [|ev evs IH]; intros s Hs; [done|]. apply IH. by apply dispatch_minv.
Qed.
End Logged.

(** C9. For every widget that keeps to the interface, every browser and every
    sequence of presses, moves, releases, clicks and timer ticks, with methods
    that return or throw anything: the calls the widget sees follow the
    protocol (a start only after a successful capture, drags and exactly one
    stop only after a successful start), the component knows whether a drag is
    under way, and at most one delegate is bound to the document, none being
    left behind. *)
Theorem mouse_protocol {St} `{!MouseClient St, !MouseClientLaws St} (old_ie : bool) (s : St)
    (evs : list mouse_event) (H0 : mouse_of s = mouseInit) :
  let s' := run_events old_ie evs (s, []) in
  exists p, run_phase Idle (snd s') = Some p /\
    (mouseStarted (mouse_of (fst s')) = true <-> p = Dragging) /\
    (length (bound (mouse_of (fst s'))) <= 1)%nat /\
    (p = Dragging -> length (bound (mouse_of (fst s'))) = 1%nat).
Proof.
  assert (minv (s, [])) as Hinit.
  { exists Idle. cbn. rewrite H0. cbn. split; [done|]. split; [|done]. split; [by left|done|done]. }
  destruct (run_events_minv old_ie evs _ Hinit) as (p & Hp & Hok & _). exists p. split; [done|].
  destruct Hok as [Hb Hst Hdr]. cbn in Hb, Hst, Hdr.
  split; [done|]. destruct Hb as [Hb|[Hb _]]; rewrite Hb; [|by split].
  split; [cbn; lia|]. intros Hp'. by destruct (Hdr Hp').
Qed.
