(* ===== verification/Slider.v ===== *)
(** [$.ui.slider] (jquery-ui.js), the widget of the client's sample value and
    of its update rate.

    Widths, offsets and CSS lengths come from the page and are arguments; a
    position of a handle or of the range is the number of percent written to
    its style.  Animations are taken to be off, as in the client. *)
From S2P Require Import Prelude JsNumber JsMath Mouse.

(** ** State *)

Inductive range_mode := RangeFalse | RangeTrue | RangeMin | RangeMax.

#[export] Instance range_mode_eq_dec : EqDecision range_mode.
Proof. solve_decision. Defined.

(** [options]; a hole in [values] is the number NaN, which every use of an
    undefined value computes to. *)
Record soptions := {
  o_disabled : bool;
  o_vertical : bool;                  (* orientation is the string vertical *)
  o_min : number;
  o_max : number;
  o_step : number;
  o_value : number;
  o_values : option (list number);    (* [None] is [null] *)
  o_range : range_mode;
  o_distance : number;
  o_delay : Z;
}.

(** The style of an element; [None] is the empty string. *)
Record style := {
  s_left : option number; s_bottom : option number;
  s_width : option number; s_height : option number }.
Definition no_style : style := {| s_left := None; s_bottom := None; s_width := None; s_height := None |}.

Record handle := { h_style : style; h_active : bool; h_hover : bool }.
Definition new_handle : handle := {| h_style := no_style; h_active := false; h_hover := false |}.

(** What [_uiHash] builds; the handle itself is given by its index. *)
Record ui_hash := { ui_index : option nat; ui_value : number; ui_values : option (list number) }.

Inductive trigger_name := TStart | TSlide | TStop | TChange.

(** One call of a callback, with what the methods [value] and [values] would
    return to it. *)
Record triggered := {
  t_name : trigger_name; t_ui : ui_hash; t_value : number; t_values : list number }.

Record slider := {
  sl_mouse : mouse;
  sopts : soptions;
  s_max : number;                     (* this.max *)
  s_vertical : bool;                  (* this.orientation *)
  keySliding : bool;
  mouseSliding : bool;
  handleIndex : option nat;
  lastChangedValue : option nat;
  clickOffset : option (number * number);
  elementSize : number * number;
  elementOffset : number * number;
  handles : list handle;
  range_el : option style;            (* this.range *)
  range_class : range_mode;           (* ui-slider-range-min or -max *)
  calls : list triggered;             (* the callbacks run so far *)
}.

#[export] Instance eta_soptions : Eta soptions := fun o => {|
  o_disabled := o_disabled o; o_vertical := o_vertical o; o_min := o_min o; o_max := o_max o;
  o_step := o_step o; o_value := o_value o; o_values := o_values o; o_range := o_range o;
  o_distance := o_distance o; o_delay := o_delay o |}.
#[export] Instance eta_style : Eta style := fun s => {|
  s_left := s_left s; s_bottom := s_bottom s; s_width := s_width s; s_height := s_height s |}.
#[export] Instance eta_handle : Eta handle := fun h => {|
  h_style := h_style h; h_active := h_active h; h_hover := h_hover h |}.
#[export] Instance eta_slider : Eta slider := fun s => {|
  sl_mouse := sl_mouse s; sopts := sopts s; s_max := s_max s; s_vertical := s_vertical s;
  keySliding := keySliding s; mouseSliding := mouseSliding s; handleIndex := handleIndex s;
  lastChangedValue := lastChangedValue s; clickOffset := clickOffset s; elementSize := elementSize s;
  elementOffset := elementOffset s; handles := handles s; range_el := range_el s;
  range_class := range_class s; calls := calls s |}.

Definition zero : number := num_of_Z 0.
Definition one : number := num_of_Z 1.

(** ** Values *)

Definition valueMin (s : slider) : number := o_min (sopts s).
Definition valueMax (s : slider) : number := s_max s.

(** [_trimAlignValue] *)
Definition trimAlignValue (s : slider) (val : number) : number :=
  if num_leb val (valueMin s) then valueMin s
  else if num_leb (valueMax s) val then valueMax s
  else
    let step := if num_ltb zero (o_step (sopts s)) then o_step (sopts s) else one in
    let valModStep := num_rem (num_sub val (valueMin s)) step in
    let alignValue := num_sub val valModStep in
    let alignValue :=
      if num_leb step (num_mul (num_abs valModStep) (num_of_Z 2))
      then num_add alignValue (if num_ltb zero valModStep then step else num_opp step)
      else alignValue in
    parse_fixed 5 alignValue.

(** [_precision] *)
Definition precision (s : slider) : Z :=
  Z.max (decimals (o_step (sopts s))) (decimals (o_min (sopts s))).

(** [_calculateNewMax], the new [this.max] *)
Definition newMax (s : slider) : number :=
  let max := o_max (sopts s) in
  let min := valueMin s in
  let step := o_step (sopts s) in
  let aboveMin := num_mul (num_round (num_div (num_sub max min) step)) step in
  let m := num_add aboveMin min in
  let m := if num_ltb max m then num_sub m step else m in
  parse_fixed (precision s) m.

Definition calculateNewMax : eff slider unit := modify (fun s => s <| s_max := newMax s |>).

(** Reading an array: an index outside it, or none, is undefined. *)
Definition get_at (l : list number) (i : option nat) : number :=
  default S754_nan (i ≫= fun i => l !! i).

(** Writing an array at an index extends it; the index [undefined] names a
    property that is none of its elements. *)
Definition set_at (l : list number) (i : option nat) (v : number) : list number :=
  match i with
  | None => l
  | Some i => if (i <? length l)%nat then <[i := v]> l else l ++ replicate (i - length l) S754_nan ++ [v]
  end.

Definition hasMultipleValues (s : slider) : bool :=
  match o_values (sopts s) with Some (_ :: _) => true | _ => false end.

(** [_value] *)
Definition value_ (s : slider) : number := trimAlignValue s (o_value (sopts s)).

(** [_values( index )] *)
Definition values_at (s : slider) (i : option nat) : result number :=
  match o_values (sopts s) with
  | None => Throw TypeError
  | Some vs => Ok (trimAlignValue s (get_at vs i))
  end.

(** [_values()], a fresh array *)
Definition values_ (s : slider) : list number :=
  if hasMultipleValues s then trimAlignValue s <$> default [] (o_values (sopts s)) else [].

(** [value()] and [values( index )] with an index *)
Definition value (s : slider) : number := value_ s.
Definition values (s : slider) (i : option nat) : number :=
  if hasMultipleValues s then trimAlignValue s (get_at (default [] (o_values (sopts s))) i) else value s.

(** [_uiHash]; [None] is an argument that is missing or undefined. *)
Definition uiHash (s : slider) (index : option nat) (val : option number) (vals : option (list number)) : ui_hash :=
  if hasMultipleValues s then
    {| ui_index := index; ui_value := default (values s index) val; ui_values := Some (default (values_ s) vals) |}
  else {| ui_index := index; ui_value := default (value s) val; ui_values := None |}.

(** ** The view *)

(** The percentage at which a value is shown, with several handles. *)
Definition percent (s : slider) (v : number) : number :=
  num_mul (num_div (num_sub v (valueMin s)) (num_sub (valueMax s) (valueMin s))) (num_of_Z 100).

(** The percentage of a single handle. *)
Definition single_percent (s : slider) : number :=
  if num_eqb (valueMax s) (valueMin s) then zero else percent s (value s).

(** [_set] of [_refreshValue] *)
Definition place (vertical : bool) (p : number) (h : style) : style :=
  if vertical then h <| s_bottom := Some p |> else h <| s_left := Some p |>.
Definition extend (vertical : bool) (p : number) (r : style) : style :=
  if vertical then r <| s_height := Some p |> else r <| s_width := Some p |>.

Definition style_handle (i : nat) (f : style -> style) (s : slider) : slider :=
  s <| handles := alter (fun h => h <| h_style := f (h_style h) |>) i (handles s) |>.

(** A change of the style of [this.range]; [null] has no method [css]. *)
Definition style_range (f : style -> style) : eff slider unit :=
  s ← get;
  match range_el s with
  | None => throw TypeError
  | Some r => modify (fun s => s <| range_el := Some (f r) |>)
  end.

(** The body of [this.handles.each] for several values. *)
Fixpoint refresh_handles (idx : list nat) (last : number) : eff slider unit :=
  match idx with
  | [] => mret tt
  | i :: idx =>
      s ← get;
      let p := percent s (values s (Some i)) in
      modify (style_handle i (place (s_vertical s) p)) ;;
      (if bool_decide (o_range (sopts s) = RangeTrue) then
         match i with
         | 0%nat => style_range (place (s_vertical s) p)
         | 1%nat => style_range (extend (s_vertical s) (num_sub p last))
         | _ => mret tt
         end
       else mret tt) ;;
      refresh_handles idx p
  end.

(** [_refreshValue] *)
Definition refreshValue : eff slider unit :=
  s ← get;
  if hasMultipleValues s then refresh_handles (seq 0 (length (handles s))) S754_nan
  else
    let p := single_percent s in
    modify (style_handle 0 (place (s_vertical s) p)) ;;
    match o_range (sopts s) with
    | RangeMin => style_range (extend (s_vertical s) p)
    | RangeMax => style_range (extend (s_vertical s) (num_sub (num_of_Z 100) p))
    | _ => mret tt
    end.

(** [_refreshRange]: [value] is the new option [orientation]. *)
Definition refreshRange (vertical : bool) : eff slider unit :=
  style_range (fun r => if vertical then r <| s_width := None |> <| s_left := None |>
                        else r <| s_height := None |> <| s_bottom := None |>).

(** [_createHandles] *)
Definition createHandles : eff slider unit :=
  modify (fun s =>
    let n := match o_values (sopts s) with Some ((_ :: _) as vs) => length vs | _ => 1%nat end in
    s <| handles := take n (handles s) ++ replicate (n - length (handles s)) new_handle |>).

(** [_createRange] *)
Definition createRange : eff slider unit :=
  modify (fun s =>
    match o_range (sopts s) with
    | RangeFalse => s <| range_el := None |>
    | m =>
        let vs := o_values (sopts s) in
        let vs := match m, vs with
                  | RangeTrue, None => Some [valueMin s; valueMin s]
                  | RangeTrue, Some (v :: l) => if (length l =? 1)%nat then vs else Some [v; v]
                  | _, _ => vs
                  end in
        let s := s <| sopts := (sopts s) <| o_values := vs |> |> in
        s <| range_el := Some (match range_el s with
                               | None => no_style
                               | Some r => r <| s_left := None |> <| s_bottom := None |>
                               end) |>
          <| range_class := match m with RangeMin | RangeMax => m | _ => RangeFalse end |>
    end).

(** [_refresh]; [_setupEvents] binds the handlers below to the handles. *)
Definition refresh : eff slider unit := createRange ;; createHandles ;; refreshValue.

(** [_create]: the state of a slider whose widget has just been made. *)
Definition fresh_slider (o : soptions) : slider := {|
  sl_mouse := mouseInit; sopts := o; s_max := S754_nan; s_vertical := o_vertical o;
  keySliding := false; mouseSliding := false; handleIndex := None; lastChangedValue := None;
  clickOffset := None; elementSize := (zero, zero); elementOffset := (zero, zero); handles := [];
  range_el := None; range_class := RangeFalse; calls := [] |}.
Definition create (o : soptions) : result unit * slider :=
  (calculateNewMax ;; refresh) (fresh_slider o).

(** ** Operations

    A callback may look at the slider, return [false] or throw; it does not
    call the slider's methods. *)

(** The position of a handle as [_mouseCapture] reads it. *)
Record handle_box := {
  hb_left : number; hb_top : number; hb_width : number; hb_height : number;
  hb_borderTop : number; hb_borderBottom : number; hb_marginTop : number }.

(** The callbacks of the options and the geometry of the page. *)
Class SliderPage := {
  callback : trigger_name -> ui_hash -> slider -> result bool;   (* is the result other than [false] *)
  outer_size : number * number;
  element_offset : number * number;
  handle_box_of : slider -> nat -> handle_box;
  over_handle : mevent -> bool;
}.

Section Operations.
Context `{!SliderPage}.

(** [_trigger]: the callback of an event; its result is that of the call. *)
Definition trigger (n : trigger_name) (ui : ui_hash) : eff slider bool :=
  s ← get;
  let t := {| t_name := n; t_ui := ui; t_value := value s; t_values := values_ s |} in
  modify (fun s => s <| calls := calls s ++ [t] |>) ;;
  lift (callback n ui s).

(** [_start] *)
Definition start (index : option nat) : eff slider bool :=
  s ← get; trigger TStart (uiHash s index None None).

(** [_stop] *)
Definition stop (index : option nat) : eff slider unit :=
  s ← get; trigger TStop (uiHash s index None None) ;; mret tt.

(** [_change] *)
Definition change (index : option nat) : eff slider unit :=
  s ← get;
  if negb (keySliding s) && negb (mouseSliding s) then
    modify (fun s => s <| lastChangedValue := index |>) ;;
    s ← get;
    trigger TChange (uiHash s index None None) ;; mret tt
  else mret tt.

(** [value( newValue )] *)
Definition set_value (v : number) : eff slider unit :=
  modify (fun s => s <| sopts := (sopts s) <| o_value := trimAlignValue s v |> |>) ;;
  refreshValue ;;
  change (Some 0%nat).

(** [values( index, newValue )] *)
Definition set_values (index : option nat) (v : number) : eff slider unit :=
  s ← get;
  match o_values (sopts s) with
  | None => throw TypeError
  | Some vs =>
      modify (fun s => s <| sopts := (sopts s) <| o_values := Some (set_at vs index (trimAlignValue s v)) |> |>) ;;
      refreshValue ;;
      change index
  end.

(** [values( array )] *)
Definition set_values_array (newValues : list number) : eff slider unit :=
  s ← get;
  match o_values (sopts s) with
  | None => throw TypeError
  | Some vs =>
      for_each (fun i =>
        modify (fun s => s <| sopts := (sopts s) <| o_values :=
          option_map (fun vs => set_at vs (Some i) (trimAlignValue s (get_at newValues (Some i)))) (o_values (sopts s)) |> |>) ;;
        change (Some i)) (seq 0 (length vs)) ;;
      refreshValue
  end.

(** [index ? 0 : 1] *)
Definition other_index (index : option nat) : option nat :=
  match index with Some (S _) => Some 0%nat | _ => Some 1%nat end.

(** [_slide] *)
Definition slide (index : option nat) (newVal : number) : eff slider unit :=
  s ← get;
  let multiple := hasMultipleValues s in
  let currentValue := if multiple then values s index else value s in
  let newVal :=
    if multiple && (length (default [] (o_values (sopts s))) =? 2)%nat && bool_decide (o_range (sopts s) = RangeTrue) then
      let otherVal := values s (other_index index) in
      if bool_decide (index = Some 0%nat) then num_min otherVal newVal else num_max otherVal newVal
    else newVal in
  let newValues := if multiple then set_at (values_ s) index newVal else values_ s in
  if num_eqb newVal currentValue then mret tt
  else
    allowed ← trigger TSlide (uiHash s index (Some newVal) (Some newValues));
    if negb allowed then mret tt
    else
      s ← get;
      if hasMultipleValues s then set_values index newVal else set_value newVal.

(** [_normValueFromMouse] *)
Definition normValueFromMouse (s : slider) (x y : number) : number :=
  let '(pixelTotal, pixelMouse) :=
    if s_vertical s
    then ((elementSize s).2, num_sub (num_sub y (elementOffset s).2) (default zero (snd <$> clickOffset s)))
    else ((elementSize s).1, num_sub (num_sub x (elementOffset s).1) (default zero (fst <$> clickOffset s))) in
  let percentMouse := num_div pixelMouse pixelTotal in
  let percentMouse := if num_ltb one percentMouse then one else percentMouse in
  let percentMouse := if num_ltb percentMouse zero then zero else percentMouse in
  let percentMouse := if s_vertical s then num_sub one percentMouse else percentMouse in
  let valueTotal := num_sub (valueMax s) (valueMin s) in
  trimAlignValue s (num_add (valueMin s) (num_mul percentMouse valueTotal)).

(** The search for the closest handle; of the handles at the same distance the
    last one changed wins, or one that is at the minimum. *)
Definition closer (s : slider) (norm : number) (best : number * option nat) (i : nat) : number * option nat :=
  let '(distance, index) := best in
  let thisDistance := num_abs (num_sub norm (values s (Some i))) in
  if num_ltb thisDistance distance
     || num_eqb distance thisDistance
        && (bool_decide (Some i = lastChangedValue s) || num_eqb (values s (Some i)) (o_min (sopts s)))
  then (thisDistance, Some i) else (distance, index).

Definition closest (s : slider) (norm : number) : option nat :=
  snd (fold_left (closer s norm) (seq 0 (length (handles s)))
         (num_add (num_sub (valueMax s) (valueMin s)) one, None)).

Definition set_active (i : nat) (b : bool) (s : slider) : slider :=
  s <| handles := alter (fun h => h <| h_active := b |>) i (handles s) |>.

(** The offset of the pointer in a handle that is clicked. *)
Definition offset_in (hb : handle_box) (e : mevent) : number * number :=
  (num_sub (num_sub (pageX e) (hb_left hb)) (num_div (hb_width hb) (num_of_Z 2)),
   num_add (num_sub (num_sub (num_sub (num_sub (pageY e) (hb_top hb)) (num_div (hb_height hb) (num_of_Z 2)))
     (hb_borderTop hb)) (hb_borderBottom hb)) (hb_marginTop hb)).

(** [_mouseCapture]; without a closest handle [_addClass] throws. *)
Definition mouseCapture_ (e : mevent) : eff slider bool :=
  s ← get;
  if o_disabled (sopts s) then mret false
  else
    modify (fun s => s <| elementSize := outer_size |> <| elementOffset := element_offset |>) ;;
    s ← get;
    let normValue := normValueFromMouse s (pageX e) (pageY e) in
    let index := closest s normValue in
    allowed ← start index;
    if negb allowed then mret false
    else
      modify (fun s => s <| mouseSliding := true |> <| handleIndex := index |>) ;;
      match index with
      | None => throw TypeError
      | Some i =>
          modify (set_active i true) ;;
          modify (fun s => s <| clickOffset :=
            Some (if over_handle e then offset_in (handle_box_of s i) e else (zero, zero)) |>) ;;
          s ← get;
          (if existsb h_hover (handles s) then mret tt else slide index normValue) ;;
          mret true
      end.

(** [_mouseStart] *)
Definition mouseStart_ (e : mevent) : eff slider bool := mret true.

(** [_mouseDrag] *)
Definition mouseDrag_ (e : mevent) : eff slider unit :=
  s ← get;
  slide (handleIndex s) (normValueFromMouse s (pageX e) (pageY e)).

(** [_mouseStop] *)
Definition mouseStop_ (e : mevent) : eff slider unit :=
  modify (fun s => s <| handles := (fun h => h <| h_active := false |>) <$> handles s |>) ;;
  modify (fun s => s <| mouseSliding := false |>) ;;
  s ← get;
  stop (handleIndex s) ;;
  s ← get;
  change (handleIndex s) ;;
  modify (fun s => s <| handleIndex := None |> <| clickOffset := None |>).

#[export] Instance slider_mouse : MouseClient slider := {|
  mouse_of := sl_mouse;
  set_mouse m s := s <| sl_mouse := m |>;
  moptions s := {| distance := o_distance (sopts s); delay := o_delay (sopts s) |};
  mouseCapture := mouseCapture_;
  mouseStart := mouseStart_;
  mouseDrag := mouseDrag_;
  mouseStop := mouseStop_;
|}.

(** ** Keys *)

Inductive key := Home | End_ | PageUp | PageDown | Up | Right | Down | Left | OtherKey.

Definition numPages : number := num_of_Z 5.

(** The second [switch] of [keydown]; [None] is its [return]. *)
Definition key_value (s : slider) (k : key) (curVal : number) : option number :=
  let page := num_div (num_sub (valueMax s) (valueMin s)) numPages in
  let step := o_step (sopts s) in
  match k with
  | Home => Some (valueMin s)
  | End_ => Some (valueMax s)
  | PageUp => Some (trimAlignValue s (num_add curVal page))
  | PageDown => Some (trimAlignValue s (num_sub curVal page))
  | Up | Right =>
      if num_eqb curVal (valueMax s) then None else Some (trimAlignValue s (num_add curVal step))
  | Down | Left =>
      if num_eqb curVal (valueMin s) then None else Some (trimAlignValue s (num_sub curVal step))
  | OtherKey => Some curVal
  end.

(** [keydown] on the handle of index [i] *)
Definition keydown (i : nat) (k : key) : eff slider unit :=
  s ← get;
  go ← (match k with
        | OtherKey => mret true
        | _ =>
            if keySliding s then mret true
            else
              modify (fun s => s <| keySliding := true |>) ;;
              modify (set_active i true) ;;
              start (Some i)
        end);
  if negb go then mret tt
  else
    s ← get;
    let curVal := if hasMultipleValues s then values s (Some i) else value s in
    match key_value s k curVal with
    | None => mret tt
    | Some newVal => slide (Some i) newVal
    end.

(** [keyup] on the handle of index [i] *)
Definition keyup (i : nat) : eff slider unit :=
  s ← get;
  if keySliding s then
    modify (fun s => s <| keySliding := false |>) ;;
    stop (Some i) ;;
    change (Some i) ;;
    modify (set_active i false)
  else mret tt.

(** ** Options *)

Inductive soption :=
  | SDisabled (b : bool)
  | SOrientation (vertical : bool)
  | SMin (v : number)
  | SMax (v : number)
  | SStep (v : number)
  | SValue (v : number)
  | SValues (l : option (list number))
  | SRange (m : range_mode).

(** [this.options[ key ] = value] *)
Definition put_option (c : soption) (o : soptions) : soptions :=
  match c with
  | SDisabled b => o <| o_disabled := b |>
  | SOrientation b => o <| o_vertical := b |>
  | SMin v => o <| o_min := v |>
  | SMax v => o <| o_max := v |>
  | SStep v => o <| o_step := v |>
  | SValue v => o <| o_value := v |>
  | SValues l => o <| o_values := l |>
  | SRange m => o <| o_range := m |>
  end.

(** The first lines of [_setOption]: a range of two values becomes a single one. *)
Definition leave_range (c : soption) : eff slider unit :=
  s ← get;
  let keep (i : nat) : eff slider unit :=
    v ← lift (values_at s (Some i));
    modify (fun s => s <| sopts := (sopts s) <| o_value := v |> <| o_values := None |> |>) in
  if bool_decide (o_range (sopts s) = RangeTrue) then
    match c with
    | SRange RangeMin => keep 0%nat
    | SRange RangeMax => keep (length (default [] (o_values (sopts s))) - 1)%nat
    | _ => mret tt
    end
  else mret tt.

(** [_setOption] *)
Definition setOption (c : soption) : eff slider unit :=
  leave_range c ;;
  s ← get;
  let valsLength := length (default [] (o_values (sopts s))) in
  modify (fun s => s <| sopts := put_option c (sopts s) |>) ;;
  match c with
  | SOrientation vertical =>
      modify (fun s => s <| s_vertical := o_vertical (sopts s) |>) ;;
      refreshValue ;;
      s ← get;
      (if bool_decide (o_range (sopts s) = RangeFalse) then mret tt else refreshRange vertical) ;;
      modify (fun s => s <| handles := (fun h => h <| h_style :=
        if vertical then (h_style h) <| s_left := None |> else (h_style h) <| s_bottom := None |> |>) <$> handles s |>)
  | SValue _ => refreshValue ;; change (Some 0%nat)
  | SValues _ => refreshValue ;; for_each (fun i => change (Some i)) (rev (seq 0 valsLength))
  | SStep _ | SMin _ | SMax _ => calculateNewMax ;; refreshValue
  | SRange _ => refresh
  | SDisabled b =>
      if b then modify (fun s => s <| handles := (fun h => h <| h_hover := false |>) <$> handles s |>) else mret tt
  end.

(** ** The events of the page *)

Inductive slider_event :=
  | EMouse (e : mouse_event)
  | EKeydown (i : nat) (k : key)
  | EKeyup (i : nat)
  | EHover (i : nat) (b : bool)                  (* mouseenter and mouseleave of a handle *)
  | EOption (c : soption)                        (* a call of the method [option] *)
  | EValue (v : number)                          (* a call of the method [value] *)
  | EValues (i : nat) (v : number)
  | EValuesArray (l : list number).

(** A handler bound by [_on] or [_hoverable] does nothing on a disabled widget. *)
Definition unless_disabled (m : eff slider unit) : eff slider unit :=
  s ← get; if o_disabled (sopts s) then mret tt else m.

Definition slider_handle (e : slider_event) : eff slider unit :=
  match e with
  | EMouse e => dispatch false e
  | EKeydown i k => unless_disabled (keydown i k)
  | EKeyup i => unless_disabled (keyup i)
  | EHover i b =>
      unless_disabled (modify (fun s => s <| handles := alter (fun h => h <| h_hover := b |>) i (handles s) |>))
  | EOption c => setOption c
  | EValue v => set_value v
  | EValues i v => set_values (Some i) v
  | EValuesArray l => set_values_array l
  end.
End Operations.
