(* ===== verification/SliderProps.v ===== *)
(** The values of a slider: alignment to the steps, the greatest value, the
    order of two handles, and what a slide callback sees. *)
From S2P Require Import Prelude JsNumber JsMath Mouse MouseProps Slider.

(** ** Integer sliders *)

(** The least, greatest and step value are integers, far from the end of the
    exact ones. *)
Record int_slider (s : slider) (lo hi st : Z) : Prop := {
  is_min : o_min (sopts s) = num_of_Z lo;
  is_max : s_max s = num_of_Z hi;
  is_step : o_step (sopts s) = num_of_Z st;
  is_pos : 0 < st;
  is_bounds : Z.abs lo < 2 ^ 50 /\ Z.abs hi < 2 ^ 50 /\ st < 2 ^ 50;
}.

Lemma pow50 : 2 ^ 50 = 1125899906842624.
Proof. done. Qed.
Lemma pow53 : 2 ^ 53 = 9007199254740992.
Proof. done. Qed.
Ltac safe_lia := unfold safe in *; rewrite ?pow50, ?pow53 in *; lia.

(** What the code computes, on integers. *)
Definition alignZ (lo hi st v : Z) : Z :=
  if v <=? lo then lo else if hi <=? v then hi
  else let r := (v - lo) mod st in if st <=? 2 * r then v - r + st else v - r.

Lemma trim_int s lo hi st v :
  int_slider s lo hi st -> Z.abs v < 2 ^ 50 -> trimAlignValue s (num_of_Z v) = num_of_Z (alignZ lo hi st v).
Proof.
  intros [Hlo Hhi Hst Hpos (Hb1 & Hb2 & Hb3)] Hv. unfold trimAlignValue, alignZ, valueMin, valueMax, zero.
  rewrite Hlo, Hhi, Hst. rewrite !num_leb_Z by safe_lia.
  destruct (Z.leb_spec v lo); [done|]. destruct (Z.leb_spec hi v); [done|].
  rewrite (num_ltb_Z 0 st) by safe_lia. replace (0 <? st) with true by lia.
  pose proof (Z.mod_pos_bound (v - lo) st Hpos).
  rewrite num_sub_Z by safe_lia. rewrite num_rem_Z by safe_lia.
  set (r := (v - lo) mod st) in *.
  rewrite num_sub_Z by safe_lia. rewrite num_abs_Z by safe_lia. rewrite (Z.abs_eq r) by lia.
  rewrite num_mul_Z by safe_lia. rewrite num_leb_Z by safe_lia. rewrite num_ltb_Z by safe_lia.
  replace (r * 2) with (2 * r) by lia.
  destruct (Z.leb_spec st (2 * r)); [|by rewrite parse_fixed_Z by safe_lia].
  destruct (Z.ltb_spec 0 r); [|lia].
  rewrite num_add_Z by safe_lia. by rewrite parse_fixed_Z by safe_lia.
Qed.

(** The aligned values of a slider. *)
Definition aligned (lo hi st w : Z) : Prop := lo <= w <= hi /\ (st | w - lo).

Lemma alignZ_spec lo hi st v :
  0 < st -> lo <= hi -> (st | hi - lo) ->
  aligned lo hi st (alignZ lo hi st v) /\
  forall w, aligned lo hi st w -> Z.abs (v - alignZ lo hi st v) <= Z.abs (v - w).
Proof.
  intros Hst Hle [q Hq]. unfold aligned, alignZ.
  destruct (Z.leb_spec v lo) as [Hv|Hv].
  { split; [split; [lia|exists 0; lia]|]. intros w [Hw _]. lia. }
  destruct (Z.leb_spec hi v) as [Hv'|Hv'].
  { split; [split; [lia|by exists q]|]. intros w [Hw _]. lia. }
  pose proof (Z.div_mod (v - lo) st ltac:(lia)) as Hdm. pose proof (Z.mod_pos_bound (v - lo) st Hst).
  cbv zeta. set (k := (v - lo) / st) in *. set (r := (v - lo) mod st) in *.
  assert (0 <= k < q) as Hk by (split; nia).
  destruct (Z.leb_spec st (2 * r)).
  - split; [split; [nia|exists (k + 1); lia]|]. intros w [Hw [j Hj]].
    assert (j <= k \/ k + 1 <= j) as [?|?] by lia; nia.
  - split; [split; [nia|exists k; lia]|]. intros w [Hw [j Hj]].
    assert (j <= k \/ k + 1 <= j) as [?|?] by lia; nia.
Qed.

(** [_trimAlignValue] on an integer slider returns, of the values that are
    a whole number of steps above the minimum and do not exceed the maximum,
    one that is closest to its argument. *)
Theorem trim_nearest s lo hi st v (H : int_slider s lo hi st) (Hle : lo <= hi) (Hdiv : (st | hi - lo))
    (Hv : Z.abs v < 2 ^ 50) :
  exists w, trimAlignValue s (num_of_Z v) = num_of_Z w /\ aligned lo hi st w /\
    forall w', aligned lo hi st w' -> Z.abs (v - w) <= Z.abs (v - w').
Proof.
  exists (alignZ lo hi st v). split; [by apply trim_int|].
  apply alignZ_spec; [apply H|done|done].
Qed.

(** [_calculateNewMax] on integer options sets the greatest value that is a
    whole number of steps above the minimum and does not exceed the option
    [max], although the quotient it rounds is not exact. *)
Theorem new_max_aligned s lo mx st (Hlo : o_min (sopts s) = num_of_Z lo) (Hmx : o_max (sopts s) = num_of_Z mx)
    (Hst : o_step (sopts s) = num_of_Z st) (Hpos : 0 < st) (Hle : lo <= mx)
    (Hb : Z.abs lo < 2 ^ 50 /\ Z.abs mx < 2 ^ 50 /\ st < 2 ^ 50) :
  exists hi, s_max (snd (calculateNewMax s)) = num_of_Z hi /\ aligned lo mx st hi /\
    forall w, aligned lo mx st w -> w <= hi.
Proof.
  set (q := (mx - lo) / st). assert (0 <= q) as Hq0 by (apply Z.div_pos; lia).
  pose proof (Z.div_mod (mx - lo) st ltac:(lia)) as Hdm. pose proof (Z.mod_pos_bound (mx - lo) st Hpos).
  fold q in Hdm. set (r := (mx - lo) mod st) in *.
  exists (lo + st * q). split; [|split].
  - cbn. unfold newMax, valueMin, precision. rewrite Hlo, Hmx, Hst. rewrite !decimals_Z by safe_lia.
    rewrite num_sub_Z by safe_lia.
    destruct (num_round_div (mx - lo) st) as (k & -> & Hk); [lia|lia|safe_lia|safe_lia|]. fold q in Hk.
    assert (0 <= k * st <= mx - lo + st) as Hks by (destruct Hk as [-> | ->]; nia).
    assert (0 <= k <= mx - lo + st) as Hkb by nia.
    rewrite num_mul_Z by safe_lia. rewrite num_add_Z by safe_lia. rewrite num_ltb_Z by safe_lia.
    destruct (Z.ltb_spec mx (k * st + lo)).
    + assert (k = q + 1) as -> by (destruct Hk as [-> | ->]; [nia|lia]).
      rewrite num_sub_Z by safe_lia. rewrite parse_fixed_Z by safe_lia. f_equal. lia.
    + assert (k = q) as -> by (destruct Hk as [-> | ->]; [lia|nia]).
      rewrite parse_fixed_Z by safe_lia. f_equal. lia.
  - split; [nia|exists q; lia].
  - intros w [Hw [j Hj]]. assert (j <= q) by nia. nia.
Qed.

(** ** The view shows the values *)

(** Everything the values are computed from. *)
Definition core (s : slider) : soptions * number * bool := (sopts s, s_max s, s_vertical s).
(** What an operation that does not touch values or styles leaves alone. *)
Definition view (s : slider) := (core s, h_style <$> handles s, range_el s).

Definition start_of (vertical : bool) (st : style) : option number := if vertical then s_bottom st else s_left st.
Definition extent_of (vertical : bool) (st : style) : option number := if vertical then s_height st else s_width st.

Record wf (s : slider) : Prop := {
  wf_vertical : s_vertical s = o_vertical (sopts s);
  wf_range : o_range (sopts s) <> RangeFalse -> range_el s <> None;
  wf_handles : h_style <$> handles s <> [];
}.

(** The styles of the handles and of the range are those of the values. *)
Record shown (s : slider) : Prop := {
  sh_wf : wf s;
  sh_many : hasMultipleValues s = true -> forall i st, (h_style <$> handles s) !! i = Some st ->
    start_of (s_vertical s) st = Some (percent s (values s (Some i)));
  sh_one : hasMultipleValues s = false -> forall st, (h_style <$> handles s) !! 0%nat = Some st ->
    start_of (s_vertical s) st = Some (single_percent s);
  sh_min : hasMultipleValues s = false -> o_range (sopts s) = RangeMin ->
    extent_of (s_vertical s) <$> range_el s = Some (Some (single_percent s));
  sh_max : hasMultipleValues s = false -> o_range (sopts s) = RangeMax ->
    extent_of (s_vertical s) <$> range_el s = Some (Some (num_sub (num_of_Z 100) (single_percent s)));
  sh_range : hasMultipleValues s = true -> o_range (sopts s) = RangeTrue ->
    (2 <= length (h_style <$> handles s))%nat ->
    start_of (s_vertical s) <$> range_el s = Some (Some (percent s (values s (Some 0%nat)))) /\
    extent_of (s_vertical s) <$> range_el s =
      Some (Some (num_sub (percent s (values s (Some 1%nat))) (percent s (values s (Some 0%nat)))));
}.

Lemma core_trim s s' : core s = core s' -> trimAlignValue s = trimAlignValue s'.
Proof. intros [= H1 H2 H3]. unfold trimAlignValue, valueMin, valueMax. by rewrite H1, H2. Qed.
Lemma core_many s s' : core s = core s' -> hasMultipleValues s = hasMultipleValues s'.
Proof. intros [= H1 H2 H3]. unfold hasMultipleValues. by rewrite H1. Qed.
Lemma core_value s s' : core s = core s' -> value s = value s'.
Proof. intros H. unfold value, value_. rewrite (core_trim _ _ H). by injection H as -> _ _. Qed.
Lemma core_values s s' i : core s = core s' -> values s i = values s' i.
Proof.
  intros H. unfold values. rewrite (core_many _ _ H), (core_trim _ _ H), (core_value _ _ H).
  by injection H as -> _ _.
Qed.
Lemma core_percent s s' v : core s = core s' -> percent s v = percent s' v.
Proof. intros [= H1 H2 H3]. unfold percent, valueMin, valueMax. by rewrite H1, H2. Qed.
Lemma core_single s s' : core s = core s' -> single_percent s = single_percent s'.
Proof.
  intros H. unfold single_percent. rewrite (core_value _ _ H), (core_percent _ _ _ H).
  injection H as H1 H2 H3. unfold valueMin, valueMax. by rewrite H1, H2.
Qed.

Lemma view_fields s s' : view s = view s' ->
  core s = core s' /\ sopts s = sopts s' /\ s_vertical s = s_vertical s' /\
  h_style <$> handles s = h_style <$> handles s' /\ range_el s = range_el s'.
Proof. unfold view, core. intros H. split_and!; congruence. Qed.

Lemma wf_view s s' : view s = view s' -> wf s -> wf s'.
Proof.
  intros (_ & Ho & Hv & Hh & Hr)%view_fields [H1 H2 H3]. split; rewrite <- ?Ho, <- ?Hv, <- ?Hh, <- ?Hr; done.
Qed.

Lemma shown_view s s' : view s = view s' -> shown s -> shown s'.
Proof.
  intros Hview [H1 H2 H3 H4 H5 H6].
  destruct (view_fields _ _ Hview) as (Hc & Ho & Hv & Hh & Hr).
  pose proof (core_many _ _ Hc) as Hm. pose proof (core_single _ _ Hc) as Hsg.
  split; rewrite <- ?Hm, <- ?Ho, <- ?Hh, <- ?Hr, <- ?Hv, <- ?Hsg; try done.
  - by eapply wf_view.
  - intros HH i st Hi. rewrite <- (core_values _ _ _ Hc), <- (core_percent _ _ _ Hc). by apply H2.
  - rewrite <- !(core_values _ _ _ Hc), <- !(core_percent _ _ _ Hc). done.
Qed.

Definition keeps_view (s s' : slider) : Prop := view s' = view s.
#[export] Instance keeps_view_preorder : PreOrder keeps_view.
Proof. split; [done|]. unfold keeps_view. intros x y z H1 H2. by rewrite H2. Qed.

Section View.
Context `{!SliderPage}.
(** The callbacks return. *)
Context (returns : forall n ui s, exists b, callback n ui s = Ok b).

Lemma trigger_view n ui s : view (snd (trigger n ui s)) = view s.
Proof. done. Qed.

Lemma change_ok index s : exists s', change index s = (Ok tt, s') /\ view s' = view s.
Proof.
  unfold change. eff_cbn. destruct (_ && _); [|by eexists].
  unfold trigger. eff_cbn. edestruct returns as [b ->]. by eexists.
Qed.

(** One round of the loop of [_refreshValue]. *)
Definition refresh_step (i : nat) (last : number) (s : slider) : slider :=
  let p := percent s (values s (Some i)) in
  let s' := style_handle i (place (s_vertical s) p) s in
  if bool_decide (o_range (sopts s) = RangeTrue) then
    match i with
    | 0%nat => s' <| range_el := place (s_vertical s) p <$> range_el s |>
    | 1%nat => s' <| range_el := extend (s_vertical s) (num_sub p last) <$> range_el s |>
    | _ => s'
    end
  else s'.

Lemma refresh_handles_cons i idx last s :
  wf s -> refresh_handles (i :: idx) last s =
    refresh_handles idx (percent s (values s (Some i))) (refresh_step i last s).
Proof.
  intros Hwf. cbn [refresh_handles]. eff_cbn. unfold refresh_step.
  destruct (bool_decide_reflect (o_range (sopts s) = RangeTrue)) as [Hr|]; [|done].
  destruct (range_el s) as [r|] eqn:Hre; [|by destruct (wf_range _ Hwf); rewrite ?Hr].
  destruct i as [|[|i]]; unfold style_range; eff_cbn; rewrite ?Hre; done.
Qed.

Lemma styles_alter i f s :
  h_style <$> handles (style_handle i f s) = alter f i (h_style <$> handles s).
Proof. cbn. by apply list_fmap_alter, Forall_true. Qed.

Lemma start_place v p st : start_of v (place v p st) = Some p.
Proof. by destruct v. Qed.
Lemma start_extend v p st : start_of v (extend v p st) = start_of v st.
Proof. by destruct v. Qed.
Lemma extent_extend v p st : extent_of v (extend v p st) = Some p.
Proof. by destruct v. Qed.

Lemma step_core i last s : core (refresh_step i last s) = core s.
Proof. unfold refresh_step. destruct (bool_decide _); [|done]. by destruct i as [|[|]]. Qed.

Lemma step_styles i last s :
  h_style <$> handles (refresh_step i last s) =
    alter (place (s_vertical s) (percent s (values s (Some i)))) i (h_style <$> handles s).
Proof.
  rewrite <- styles_alter. unfold refresh_step. destruct (bool_decide _); [|done]. by destruct i as [|[|]].
Qed.

Lemma step_range i last s : (range_el (refresh_step i last s) = None) <-> (range_el s = None).
Proof.
  unfold refresh_step. destruct (bool_decide _); [|done].
  destruct i as [|[|]]; cbn; [..|done]; by destruct (range_el s).
Qed.

Lemma step_wf i last s : wf s -> wf (refresh_step i last s).
Proof.
  intros [H1 H2 H3]. pose proof (step_core i last s) as Hc.
  split.
  - by injection Hc as -> _ ->.
  - rewrite step_range. by injection Hc as -> _ _.
  - rewrite step_styles. intros Hn. apply H3. apply (f_equal length) in Hn. rewrite length_alter in Hn.
    by apply length_zero_iff_nil.
Qed.

(** The rounds [k, k+n) place the handles [k, k+n); after the first two they
    leave the range alone. *)
Lemma refresh_loop n k last s :
  wf s -> exists s', refresh_handles (seq k n) last s = (Ok tt, s') /\ core s' = core s /\
    ((2 <= k)%nat -> range_el s' = range_el s) /\ (range_el s' = None <-> range_el s = None) /\
    (forall i, (h_style <$> handles s') !! i =
       if decide (k <= i < k + n)%nat
       then place (s_vertical s) (percent s (values s (Some i))) <$> (h_style <$> handles s) !! i
       else (h_style <$> handles s) !! i).
Proof.
  revert k last s. induction n as [|n IH]; intros k last s Hwf; cbn [seq].
  { exists s. split_and!; try done. intros i. by rewrite decide_False by lia. }
  rewrite refresh_handles_cons by done.
  destruct (IH (S k) (percent s (values s (Some k))) (refresh_step k last s)) as (s' & -> & Hc & Hr & Hn & Hst);
    [by apply step_wf|].
  pose proof (step_core k last s) as Hck. exists s'. split; [done|]. split; [by rewrite Hc|].
  split; [|split; [by rewrite Hn, step_range|]].
  { intros Hk. rewrite Hr by lia. unfold refresh_step. destruct (bool_decide _); [|done].
    by destruct k as [|[|k]]; [lia|lia|]. }
  intros i. rewrite Hst, step_styles.
  rewrite (core_values _ _ (Some i) Hck), (core_percent _ _ _ Hck).
  assert (s_vertical (refresh_step k last s) = s_vertical s) as -> by (by injection Hck).
  rewrite list_lookup_alter.
  destruct (decide (k = i)) as [->|Hki].
  - rewrite (decide_False (P := (S i <= i < S i + n)%nat)), decide_True by lia. done.
  - destruct (decide (S k <= i < S k + n)%nat).
    + by rewrite (decide_True (P := (k <= i < k + S n)%nat)) by lia.
    + by rewrite (decide_False (P := (k <= i < k + S n)%nat)) by lia.
Qed.

Lemma refresh_range m last s s' r :
  wf s -> o_range (sopts s) = RangeTrue -> range_el s = Some r ->
  refresh_handles (0 :: 1 :: seq 2 m)%nat last s = (Ok tt, s') ->
  range_el s' = Some (extend (s_vertical s)
    (num_sub (percent s (values s (Some 1%nat))) (percent s (values s (Some 0%nat))))
    (place (s_vertical s) (percent s (values s (Some 0%nat))) r)).
Proof.
  intros Hwf Hrt Hr. rewrite refresh_handles_cons by done. rewrite refresh_handles_cons by by apply step_wf.
  pose proof (step_core 0 last s) as Hc.
  rewrite (core_values _ _ (Some 1%nat) Hc), (core_percent _ _ _ Hc).
  set (p0 := percent s (values s (Some 0%nat))). set (p1 := percent s (values s (Some 1%nat))).
  edestruct (refresh_loop m 2 p1 (refresh_step 1 p0 (refresh_step 0 last s))) as (s2 & -> & _ & Hr2 & _);
    [by apply step_wf, step_wf|].
  intros [= <-]. rewrite Hr2 by lia.
  unfold refresh_step at 1. rewrite (core_values _ _ (Some 1%nat) Hc), (core_percent _ _ _ Hc). fold p1.
  assert (o_range (sopts (refresh_step 0 last s)) = RangeTrue) as -> by (by injection Hc as -> _ _).
  rewrite bool_decide_eq_true_2 by done. cbn.
  assert (s_vertical (refresh_step 0 last s) = s_vertical s) as -> by (by injection Hc).
  unfold refresh_step. rewrite Hrt, bool_decide_eq_true_2 by done. cbn. by rewrite Hr.
Qed.

Lemma length_styles s : length (h_style <$> handles s) = length (handles s).
Proof. apply length_fmap. Qed.

Lemma lookup_fmap_length {A B} (f : nat -> B -> A) (l1 : list A) (l2 : list B) :
  (forall i, l1 !! i = f i <$> l2 !! i) -> length l1 = length l2.
Proof.
  intros Hl. apply Nat.le_antisymm; apply lookup_ge_None.
  - by rewrite Hl, lookup_ge_None_2.
  - apply (fmap_None (f (length l1))). by rewrite <- Hl, lookup_ge_None_2.
Qed.

(** After [_refreshValue] the view shows the values. *)
Lemma refreshValue_shown s :
  wf s -> exists s', refreshValue s = (Ok tt, s') /\ core s' = core s /\ shown s'.
Proof.
  intros Hwf. unfold refreshValue. eff_cbn. destruct (hasMultipleValues s) eqn:Hm.
  - destruct (refresh_loop (length (handles s)) 0 S754_nan s Hwf) as (s' & Heq & Hc & _ & Hn & Hst).
    assert (forall i, (h_style <$> handles s') !! i =
      place (s_vertical s) (percent s (values s (Some i))) <$> (h_style <$> handles s) !! i) as Hst'.
    { intros i. rewrite Hst. destruct (decide _); [done|]. rewrite lookup_ge_None_2; [done|].
      rewrite length_styles. lia. }
    assert (length (handles s') = length (handles s)) as Hlen.
    { rewrite <- !length_styles. by apply (lookup_fmap_length (fun i => place (s_vertical s) (percent s (values s (Some i))))). }
    exists s'. split; [done|]. split; [done|].
    pose proof (core_many _ _ Hc) as Hmm. rewrite Hm in Hmm.
    assert (sopts s' = sopts s) as Ho by (by injection Hc).
    assert (s_vertical s' = s_vertical s) as Hv by (by injection Hc).
    split; rewrite ?Hmm, ?Ho, ?Hv; try done.
    + destruct Hwf as [H1 H2 H3]. split; [by rewrite Hv, Ho|by rewrite Ho, Hn|].
      intros Hnil. apply H3, length_zero_iff_nil. rewrite length_styles, <- Hlen, <- length_styles. by rewrite Hnil.
    + intros _ i st. rewrite Hst', (core_values _ _ _ Hc), (core_percent _ _ _ Hc).
      intros (st0 & _ & ->)%fmap_Some. by rewrite start_place.
    + intros _ Hrt Hl. rewrite length_styles, Hlen in Hl.
      destruct (range_el s) as [r|] eqn:Hr; [|by destruct (wf_range _ Hwf); rewrite ?Hrt].
      rewrite !(core_values _ _ _ Hc), !(core_percent _ _ _ Hc).
      destruct (length (handles s)) as [|[|m]]; [lia|lia|].
      rewrite (refresh_range m _ _ _ _ Hwf Hrt Hr Heq). cbn [fmap option_fmap option_map].
      by rewrite start_extend, start_place, extent_extend.
  - set (p := single_percent s). set (s1 := style_handle 0 (place (s_vertical s) p) s).
    assert (exists r, (match o_range (sopts s) with
       | RangeMin => style_range (extend (s_vertical s) p)
       | RangeMax => style_range (extend (s_vertical s) (num_sub (num_of_Z 100) p))
       | _ => mret tt end : eff slider unit) s1 = (Ok tt, s1 <| range_el := r |>) /\
       (r = None <-> range_el s = None) /\
       (o_range (sopts s) = RangeMin -> extent_of (s_vertical s) <$> r = Some (Some p)) /\
       (o_range (sopts s) = RangeMax -> extent_of (s_vertical s) <$> r =
          Some (Some (num_sub (num_of_Z 100) p)))) as (r & Heq & Hn & Hmin & Hmax).
    { pose proof (wf_range _ Hwf) as Hr. unfold style_range.
      destruct (o_range (sopts s)), (range_el s) as [r|] eqn:Hre; eff_cbn; rewrite ?Hre;
        try (by destruct Hr); eexists; (split; [first [reflexivity|by destruct s; cbn in *; subst]|]);
        rewrite ?Hre; cbn; rewrite ?extent_extend; naive_solver. }
    exists (s1 <| range_el := r |>). split; [exact Heq|]. split; [done|].
    assert (core (s1 <| range_el := r |>) = core s) as Hc by done.
    assert (h_style <$> handles (s1 <| range_el := r |>) =
      alter (place (s_vertical s) p) 0%nat (h_style <$> handles s)) as Hst by apply styles_alter.
    pose proof (core_many _ _ Hc) as Hmm. rewrite Hm in Hmm. pose proof (core_single _ _ Hc) as Hsg.
    split; rewrite ?Hmm, ?Hsg, ?Hst; try done.
    + destruct Hwf as [H1 H2 H3]. split; [done|cbn; by rewrite Hn|]. rewrite Hst. cbn in H3.
      by destruct (handles s).
    + intros _ st. rewrite list_lookup_alter_eq. intros (st0 & _ & ->)%fmap_Some. apply start_place.
Qed.

(** ** Every operation keeps the view in step *)

Definition shown_le (s s' : slider) : Prop := shown s -> shown s'.
#[local] Instance shown_le_preorder : PreOrder shown_le.
Proof. split; [by intros s Hs|]. intros x y z H1 H2 Hx. by apply H2, H1. Qed.

Lemma keeps_of_view {A} (m : eff slider A) : keeps keeps_view m -> keeps shown_le m.
Proof. intros Hm s Hs. eapply shown_view; [|exact Hs]. symmetry. apply Hm. Qed.

Lemma keeps_modify_view f : (forall s, view (f s) = view s) -> keeps shown_le (modify f).
Proof. intros Hf. apply keeps_of_view, keeps_modify, Hf. Qed.

Lemma keeps_trigger n ui : keeps keeps_view (trigger n ui).
Proof. intros s. apply trigger_view. Qed.
Lemma keeps_start i : keeps keeps_view (start i).
Proof. intros s. apply trigger_view. Qed.
Lemma keeps_change i : keeps keeps_view (change i).
Proof. intros s. destruct (change_ok i s) as (s' & -> & Hs'). done. Qed.
Lemma keeps_stop i : keeps keeps_view (stop i).
Proof.
  apply (keeps_bind keeps_view); [apply keeps_get, _|]. intros s. apply (keeps_bind keeps_view); [apply keeps_trigger|]. intros _. apply keeps_ret, _.
Qed.

(** A change of the values, drawn again, then anything that leaves both alone. *)
Lemma keeps_refresh f (k : eff slider unit) :
  (forall s, wf s -> wf (f s)) -> keeps keeps_view k -> keeps shown_le (modify f ;; refreshValue ;; k).
Proof.
  intros Hf Hk s Hs. destruct (refreshValue_shown (f s)) as (s' & Hr & _ & Hs'); [apply Hf, Hs|].
  eff_cbn. rewrite Hr. eapply shown_view; [|exact Hs']. symmetry. apply Hk.
Qed.

Lemma keeps_set_value v : keeps shown_le (set_value v).
Proof. apply keeps_refresh; [|apply keeps_change]. intros s [H1 H2 H3]. by split. Qed.

Lemma keeps_set_values i v : keeps shown_le (set_values i v).
Proof.
  apply (keeps_bind shown_le); [apply keeps_get, _|]. intros s. destruct (o_values _) as [vs|]; [|apply keeps_throw, _].
  apply (keeps_refresh (fun s => _)); [|apply keeps_change]. intros s0 [H1 H2 H3]. by split.
Qed.

(** The loop of [values( array )]: the view is stale until it is drawn again. *)
Lemma values_loop l idx s :
  wf s -> exists s', for_each (fun i =>
    modify (fun s => s <| sopts := (sopts s) <| o_values :=
      option_map (fun vs => set_at vs (Some i) (trimAlignValue s (get_at l (Some i)))) (o_values (sopts s)) |> |>) ;;
    change (Some i)) idx s = (Ok tt, s') /\ wf s'.
Proof.
  revert s. induction idx as [|i idx IH]; intros s Hs; cbn [for_each]; [by exists s|].
  set (s1 := s <| sopts := (sopts s) <| o_values :=
    option_map (fun vs => set_at vs (Some i) (trimAlignValue s (get_at l (Some i)))) (o_values (sopts s)) |> |>).
  assert (wf s1) as H1 by (destruct Hs; by split).
  destruct (change_ok (Some i) s1) as (s2 & Hc & Hv).
  destruct (IH s2) as (s' & Heq & Hw); [by eapply wf_view|].
  exists s'. split; [|done]. etrans; [eapply eff_bind_ok; exact Hc|exact Heq].
Qed.

Lemma keeps_set_values_array l : keeps shown_le (set_values_array l).
Proof.
  intros s Hs. unfold set_values_array. rewrite eff_bind_get.
  destruct (o_values _) as [vs|]; [|done].
  destruct (values_loop l (seq 0 (length vs)) s (sh_wf _ Hs)) as (s1 & Heq & H1).
  rewrite (eff_bind_ok _ _ _ _ _ Heq). by destruct (refreshValue_shown s1 H1) as (s2 & -> & _ & H2).
Qed.

Lemma keeps_slide i v : keeps shown_le (slide i v).
Proof.
  apply (keeps_bind shown_le); [apply keeps_get, _|]. intros s. cbv zeta. destruct (num_eqb _ _); [apply keeps_ret, _|].
  apply (keeps_bind shown_le); [apply keeps_of_view, keeps_trigger|]. intros []; [|apply keeps_ret, _].
  apply (keeps_bind shown_le); [apply keeps_get, _|]. intros s'. destruct (hasMultipleValues s').
  - apply keeps_set_values.
  - apply keeps_set_value.
Qed.

Lemma styles_same (g : handle -> handle) (i : nat) (l : list handle) :
  (forall h, h_style (g h) = h_style h) -> h_style <$> alter g i l = h_style <$> l.
Proof. intros Hg. revert i. induction l as [|h l IH]; intros [|i]; cbn; by rewrite ?Hg, ?IH. Qed.

Lemma styles_map_same (g : handle -> handle) (l : list handle) :
  (forall h, h_style (g h) = h_style h) -> h_style <$> (g <$> l) = h_style <$> l.
Proof. intros Hg. induction l as [|h l IH]; cbn; by rewrite ?Hg, ?IH. Qed.

Lemma keeps_handles (g : list handle -> list handle) :
  (forall l, h_style <$> g l = h_style <$> l) -> keeps keeps_view (modify (fun s => s <| handles := g (handles s) |>)).
Proof. intros Hg s. unfold keeps_view, view. cbn. by rewrite Hg. Qed.

Lemma keeps_active i b : keeps keeps_view (modify (set_active i b)).
Proof. apply (keeps_handles (alter _ i)). intros l. by apply styles_same. Qed.

Lemma keeps_inessential f : (forall s, view (f s) = view s) -> keeps keeps_view (modify f).
Proof. intros Hf. apply keeps_modify, Hf. Qed.

Lemma keeps_mouseCapture e : keeps shown_le (mouseCapture_ e).
Proof.
  apply (keeps_bind shown_le); [apply keeps_get, _|]. intros s. destruct (o_disabled _); [apply keeps_ret, _|].
  apply (keeps_bind shown_le); [by apply keeps_modify_view|]. intros _.
  apply (keeps_bind shown_le); [apply keeps_get, _|]. intros s'. cbv zeta.
  apply (keeps_bind shown_le); [apply keeps_of_view, keeps_start|]. intros []; [|apply keeps_ret, _].
  apply (keeps_bind shown_le); [by apply keeps_modify_view|]. intros _.
  destruct (closest s' _) as [i|]; [|apply keeps_throw, _].
  apply (keeps_bind shown_le); [apply keeps_of_view, keeps_active|]. intros _.
  apply (keeps_bind shown_le); [by apply keeps_modify_view|]. intros _.
  apply (keeps_bind shown_le); [apply keeps_get, _|]. intros s2.
  apply (keeps_bind shown_le); [|intros; apply keeps_ret, _].
  destruct (existsb _ _); [apply keeps_ret, _|apply keeps_slide].
Qed.

Lemma keeps_mouseDrag e : keeps shown_le (mouseDrag_ e).
Proof. apply (keeps_bind shown_le); [apply keeps_get, _|]. intros s. apply keeps_slide. Qed.

Lemma keeps_mouseStop e : keeps shown_le (mouseStop_ e).
Proof.
  apply keeps_of_view. apply (keeps_bind keeps_view).
  { apply (keeps_handles (fmap _)). intros l. by apply styles_map_same. }
  intros _. apply (keeps_bind keeps_view); [by apply keeps_inessential|]. intros _.
  apply (keeps_bind keeps_view); [apply keeps_get, _|]. intros s.
  apply (keeps_bind keeps_view); [apply keeps_stop|]. intros _.
  apply (keeps_bind keeps_view); [apply keeps_get, _|]. intros s'.
  apply (keeps_bind keeps_view); [apply keeps_change|]. intros _. by apply keeps_inessential.
Qed.

Lemma keeps_keydown i k : keeps shown_le (keydown i k).
Proof.
  apply (keeps_bind shown_le); [apply keeps_get, _|]. intros s. apply (keeps_bind shown_le).
  - assert (keeps shown_le (if keySliding s then mret true
              else modify (fun s => s <| keySliding := true |>) ;; modify (set_active i true) ;; start (Some i))) as H1.
    { destruct (keySliding s); [apply keeps_ret, _|].
      apply (keeps_bind shown_le); [by apply keeps_modify_view|]. intros _.
      apply (keeps_bind shown_le); [apply keeps_of_view, keeps_active|]. intros _.
      apply keeps_of_view, keeps_start. }
    destruct k; [exact H1..|apply keeps_ret, _].
  - intros []; [|apply keeps_ret, _]. apply (keeps_bind shown_le); [apply keeps_get, _|]. intros s'.
    cbv zeta. destruct (key_value _ _ _); [apply keeps_slide|apply keeps_ret, _].
Qed.

Lemma keeps_keyup i : keeps shown_le (keyup i).
Proof.
  apply keeps_of_view. apply (keeps_bind keeps_view); [apply keeps_get, _|]. intros s.
  destruct (keySliding s); [|apply keeps_ret, _].
  apply (keeps_bind keeps_view); [by apply keeps_inessential|]. intros _.
  apply (keeps_bind keeps_view); [apply keeps_stop|]. intros _.
  apply (keeps_bind keeps_view); [apply keeps_change|]. intros _. apply keeps_active.
Qed.

(** [leave_range] changes the values, or throws before it does. *)
Lemma leave_range_post c s :
  wf s -> post (leave_range c) s (fun r s' =>
    match r with Ok _ => wf s' /\ (s' = s \/ exists m, c = SRange m) | Throw _ => s' = s end).
Proof.
  intros Hs. unfold leave_range. apply post_bind_get. cbv zeta.
  assert (forall i, post (v ← lift (values_at s (Some i)); modify (fun s => s <| sopts :=
    (sopts s) <| o_value := v |> <| o_values := None |> |>)) s
    (fun r s' => match r with Ok _ => wf s' | Throw _ => s' = s end)) as Hkeep.
  { intros i. unfold values_at. destruct (o_values _); [|done]. destruct Hs; by split. }
  destruct (bool_decide _); [|by split; [|left]].
  destruct c as [| | | | | | |[]]; try (by split; [|left]);
    (eapply post_mono; [apply Hkeep|]; intros [] s'; cbn; [|done]; intros Hw; split; [done|right; eauto]).
Qed.

(** A state drawn again, with the same axis for the styles that show it. *)
Lemma shown_same s (f : style -> style) (g : style -> style) :
  shown s ->
  (forall st, start_of (s_vertical s) (f st) = start_of (s_vertical s) st) ->
  (forall st, start_of (s_vertical s) (g st) = start_of (s_vertical s) st) ->
  (forall st, extent_of (s_vertical s) (g st) = extent_of (s_vertical s) st) ->
  shown (s <| range_el := g <$> range_el s |> <| handles := (fun h => h <| h_style := f (h_style h) |>) <$> handles s |>).
Proof.
  intros [[W1 W2 W3] H2 H3 H4 H5 H6] Hf Hg He.
  set (s' := s <| range_el := g <$> range_el s |> <| handles := _ |>).
  assert (core s' = core s) as Hc by done.
  assert (h_style <$> handles s' = f <$> (h_style <$> handles s)) as Hst by (cbn; by rewrite <- !list_fmap_compose).
  assert (range_el s' = g <$> range_el s) as Hr by done.
  pose proof (core_many _ _ Hc) as Hm. pose proof (core_single _ _ Hc) as Hsg.
  change (sopts s') with (sopts s) in *. change (s_vertical s') with (s_vertical s) in *.
  split; rewrite ?Hm, ?Hsg, ?Hst, ?Hr; change (sopts s') with (sopts s); change (s_vertical s') with (s_vertical s).
  - split; [done| |].
    + rewrite Hr. destruct (range_el s); [done|]. intros Hn. by destruct (W2 Hn).
    + rewrite Hst. by destruct (h_style <$> handles s).
  - intros Hmm i st. rewrite list_lookup_fmap. intros (st0 & Hi & ->)%fmap_Some. rewrite Hf.
    rewrite (core_values _ _ _ Hc), (core_percent _ _ _ Hc). by apply H2.
  - intros Hmm st. rewrite list_lookup_fmap. intros (st0 & Hi & ->)%fmap_Some. rewrite Hf. by apply H3.
  - intros Hmm Hx. rewrite <- option_fmap_compose. rewrite <- (H4 Hmm Hx). destruct (range_el s); [cbn; by rewrite He|done].
  - intros Hmm Hx. rewrite <- option_fmap_compose. rewrite <- (H5 Hmm Hx). destruct (range_el s); [cbn; by rewrite He|done].
  - intros Hmm Hx. rewrite length_fmap. intros Hl. destruct (H6 Hmm Hx Hl) as [Ha Hb].
    rewrite !(core_values _ _ _ Hc), !(core_percent _ _ _ Hc). rewrite <- Ha, <- Hb.
    destruct (range_el s); [cbn; by rewrite Hg, He|done].
Qed.

Lemma createHandles_nonempty s : handles (snd (createHandles s)) <> [].
Proof.
  unfold createHandles. cbn [snd modify handles set_field].
  set (n := match o_values (sopts s) with Some ((_ :: _) as vs) => length vs | _ => 1%nat end).
  assert (1 <= n)%nat. { unfold n. destruct (o_values (sopts s)) as [[|v l]|]; cbn [length]; lia. }
  intros Hn%(f_equal length). rewrite length_app, length_take, length_replicate in Hn. cbn in Hn. lia.
Qed.

Lemma createRange_wf s :
  s_vertical s = o_vertical (sopts s) ->
  s_vertical (snd (createRange s)) = o_vertical (sopts (snd (createRange s))) /\
  (o_range (sopts (snd (createRange s))) <> RangeFalse -> range_el (snd (createRange s)) <> None).
Proof.
  intros Hv. unfold createRange. cbn [snd modify].
  destruct (o_range (sopts s)) eqn:Hr; cbn; by rewrite ?Hr.
Qed.

Lemma refresh_shown s : s_vertical s = o_vertical (sopts s) -> shown (snd (refresh s)).
Proof.
  intros Hv. destruct (createRange_wf s Hv) as [H1 H2]. unfold refresh.
  set (s1 := snd (createRange s)) in *. rewrite (eff_bind_ok _ _ s tt s1) by done.
  set (s2 := snd (createHandles s1)). rewrite (eff_bind_ok _ _ s1 tt s2) by done.
  destruct (refreshValue_shown s2) as (s3 & -> & _ & H3); [|done].
  split; [done|done|]. intros Hn%fmap_nil_inv. by apply createHandles_nonempty in Hn.
Qed.

(** The new value of an option, drawn again, then anything that leaves the
    values and the styles alone. *)
Lemma draw_shown (k : eff slider unit) s : keeps keeps_view k -> wf s -> shown (snd ((refreshValue ;; k) s)).
Proof.
  intros Hk Hs. destruct (refreshValue_shown s Hs) as (s' & Hr & _ & Hs').
  rewrite (eff_bind_ok _ _ _ _ _ Hr). eapply shown_view; [|exact Hs']. symmetry. apply Hk.
Qed.

Lemma max_shown s : wf s -> shown (snd ((calculateNewMax ;; refreshValue) s)).
Proof.
  intros [V1 V2 V3]. unfold calculateNewMax. rewrite eff_bind_modify.
  edestruct refreshValue_shown as (s3 & -> & _ & H3); [|exact H3]. by split.
Qed.

Lemma clear_handles_shown s : shown s ->
  shown (s <| handles := (fun h => h <| h_style :=
    if s_vertical s then (h_style h) <| s_left := None |> else (h_style h) <| s_bottom := None |> |>) <$> handles s |>).
Proof.
  intros Hs.
  pose proof (shown_same s (fun st => if s_vertical s then st <| s_left := None |> else st <| s_bottom := None |>) id Hs) as H'.
  eapply shown_view; [|apply H']; try done; [|by intros st; destruct (s_vertical s)].
  unfold view. cbn. by rewrite option_fmap_id.
Qed.

Lemma clear_range_shown s : shown s -> range_el s <> None ->
  exists s', refreshRange (s_vertical s) s = (Ok tt, s') /\ s_vertical s' = s_vertical s /\ shown s'.
Proof.
  intros Hs Hn. destruct (range_el s) as [r|] eqn:Hr; [|done]. unfold refreshRange, style_range.
  rewrite eff_bind_get, Hr. eexists. split; [reflexivity|]. split; [done|].
  pose proof (shown_same s id (fun r => if s_vertical s then r <| s_width := None |> <| s_left := None |>
     else r <| s_height := None |> <| s_bottom := None |>) Hs) as H'.
  eapply shown_view; [|apply H']; try done; [|intros st; by destruct (s_vertical s)..].
  unfold view. cbn. rewrite Hr, <- list_fmap_compose. done.
Qed.

(** [_setOption( "orientation", value )] after the option is stored *)
Lemma orient_shown s v :
  s_vertical s = v -> wf s ->
  shown (snd ((refreshValue ;; s ← get;
      (if bool_decide (o_range (sopts s) = RangeFalse) then mret tt else refreshRange v) ;;
      modify (fun s => s <| handles := (fun h => h <| h_style :=
        if v then (h_style h) <| s_left := None |> else (h_style h) <| s_bottom := None |> |>) <$> handles s |>)) s)).
Proof.
  intros <- Hs. destruct (refreshValue_shown s Hs) as (s1 & Hr & Hc & H1).
  rewrite (eff_bind_ok _ _ _ _ _ Hr), eff_bind_get.
  assert (s_vertical s = s_vertical s1) as -> by (by injection Hc).
  destruct (bool_decide_reflect (o_range (sopts s1) = RangeFalse)) as [Hf|Hf].
  - by apply clear_handles_shown.
  - destruct (clear_range_shown s1 H1 (wf_range _ (sh_wf _ H1) Hf)) as (s2 & Hs2 & Hv2 & H2).
    rewrite (eff_bind_ok _ _ s1 tt s2) by exact Hs2. rewrite <- Hv2. by apply clear_handles_shown.
Qed.

Lemma keeps_changes l : keeps keeps_view (for_each (fun i : nat => change (Some i)) l).
Proof. apply (keeps_for_each keeps_view). intros i. apply keeps_change. Qed.

Lemma disabled_shown b s : shown s -> shown (s <| sopts := (sopts s) <| o_disabled := b |> |>).
Proof. intros [[W1 W2 W3] H2 H3 H4 H5 H6]. split; [by split|done..]. Qed.

Lemma keeps_setOption c : keeps shown_le (setOption c).
Proof.
  intros s Hs. unfold setOption. pose proof (leave_range_post c s (sh_wf _ Hs)) as Hl. unfold post in Hl.
  destruct (leave_range c s) as [[[]|err] s1] eqn:Heq; cbn in Hl.
  2: { rewrite (eff_bind_throw _ _ _ _ _ Heq). by subst s1. }
  rewrite (eff_bind_ok _ _ _ _ _ Heq), eff_bind_get, eff_bind_modify. clear Heq.
  destruct Hl as [[W1 W2 W3] Hl].
  destruct c as [b|b|v|v|v|v|l|m].
  - destruct Hl as [->|[? ?]]; [|done]. apply (disabled_shown b) in Hs. destruct b; [|exact Hs].
    eapply shown_view; [|exact Hs]. unfold view. cbn. by rewrite styles_map_same.
  - rewrite eff_bind_modify. apply orient_shown; [done|by split].
  - apply max_shown; by split.
  - apply max_shown; by split.
  - apply max_shown; by split.
  - apply draw_shown; [apply keeps_change|by split].
  - apply draw_shown; [apply keeps_changes|by split].
  - by apply refresh_shown.
Qed.

Lemma keeps_slider_handle e : keeps shown_le (slider_handle e).
Proof.
  assert (forall m, keeps shown_le m -> keeps shown_le (unless_disabled m)) as Hu.
  { intros m Hm. unfold unless_disabled. keeps_auto shown_le. }
  destruct e as [e|i k|i|i b|c|v|i v|l]; cbn [slider_handle].
  - apply (dispatch_keeps shown_le).
    + intros m s Hs. by eapply shown_view; [|exact Hs].
    + apply keeps_mouseCapture.
    + intros e'. apply keeps_ret, _.
    + apply keeps_mouseDrag.
    + apply keeps_mouseStop.
  - apply Hu, keeps_keydown.
  - apply Hu, keeps_keyup.
  - apply Hu, keeps_of_view, (keeps_handles (alter _ i)). intros l. by apply styles_same.
  - apply keeps_setOption.
  - apply keeps_set_value.
  - apply keeps_set_values.
  - apply keeps_set_values_array.
Qed.
End View.

(** The events of a page, one after the other. *)
Definition slider_run `{!SliderPage} (evs : list slider_event) (s : slider) : slider :=
  fold_left (fun s e => snd (slider_handle e s)) evs s.

(** C10. From the creation of a slider on, after every sequence of mouse, key
    and hover events, option changes and method calls, whatever the callbacks
    answer: the handles and the range are drawn where the values are, on the
    axis of the orientation. *)
Theorem view_consistent `{!SliderPage} (o : soptions) (evs : list slider_event)
    (returns : forall n ui s, exists b, callback n ui s = Ok b) :
  shown (slider_run evs (snd (create o))).
Proof.
  assert (shown (snd (create o))) as H0.
  { unfold create, calculateNewMax. rewrite eff_bind_modify. by apply refresh_shown. }
  revert H0. generalize (snd (create o)). induction evs as [|e evs IH]; intros s Hs; [done|].
  apply IH. by apply (keeps_slider_handle returns e).
Qed.

(** ** What a slide callback sees *)

Definition log_of (s : slider) := (calls s, keySliding s, mouseSliding s).
Definition keeps_log (s s' : slider) : Prop := log_of s' = log_of s.
#[export] Instance keeps_log_preorder : PreOrder keeps_log.
Proof. split; [done|]. unfold keeps_log. intros x y z H1 H2. by rewrite H2. Qed.

Lemma style_range_log f : keeps keeps_log (style_range f).
Proof. unfold style_range. keeps_auto keeps_log. Qed.

Lemma refreshValue_log : keeps keeps_log refreshValue.
Proof.
  assert (forall idx last, keeps keeps_log (refresh_handles idx last)) as Hl.
  { induction idx as [|i idx IH]; intros last; cbn [refresh_handles]; [apply keeps_ret, _|].
    keeps_auto keeps_log; apply style_range_log. }
  unfold refreshValue. keeps_auto keeps_log; apply style_range_log.
Qed.

(** While a handle of a single-valued slider is dragged, by mouse or by
    key, the slide callback runs once, before the value is changed: its
    argument carries the new value, but the method [value] still returns the
    old one.  If it allows the move the slider has the new value afterwards. *)
Theorem slide_sees_old `{!SliderPage} (s : slider) (i : option nat) (v : number)
    (Hwf : wf s) (Hone : hasMultipleValues s = false) (Hv : num_eqb v (value s) = false)
    (Hsl : keySliding s || mouseSliding s = true)
    (Hcb : forall s', callback TSlide {| ui_index := i; ui_value := v; ui_values := None |} s' = Ok true) :
  let s' := snd (slide i v s) in
  calls s' = calls s ++ [ {| t_name := TSlide; t_ui := {| ui_index := i; ui_value := v; ui_values := None |};
                             t_value := value s; t_values := [] |} ] /\
  value s' = trimAlignValue s (trimAlignValue s v).
Proof.
  unfold slide. rewrite eff_bind_get. cbv zeta. rewrite Hone. cbn [andb]. rewrite Hv.
  assert (values_ s = []) as Hvs by (unfold values_; by rewrite Hone).
  unfold trigger. rewrite Hvs.
  assert (uiHash s i (Some v) (Some []) = {| ui_index := i; ui_value := v; ui_values := None |}) as ->
    by (unfold uiHash; by rewrite Hone).
  set (t := {| t_name := TSlide; t_ui := _; t_value := _; t_values := _ |}).
  set (s1 := s <| calls := calls s ++ [t] |>).
  rewrite (eff_bind_ok _ _ s true s1); [|eff_cbn; by rewrite Hcb, Hvs].
  cbn [negb]. rewrite eff_bind_get. change (hasMultipleValues s1) with (hasMultipleValues s). rewrite Hone.
  unfold set_value. rewrite eff_bind_modify.
  set (s2 := s1 <| sopts := (sopts s1) <| o_value := trimAlignValue s1 v |> |>).
  destruct (refreshValue_shown s2) as (s3 & Hr & Hc & _); [by destruct Hwf; split|].
  rewrite (eff_bind_ok _ _ _ _ _ Hr). pose proof (refreshValue_log s2) as Hl. rewrite Hr in Hl.
  unfold keeps_log, log_of in Hl. cbn in Hl. injection Hl as Hcalls Hk Hm.
  unfold change. rewrite eff_bind_get, Hk, Hm, <- negb_orb, Hsl. cbn. split; [done|].
  by rewrite (core_value _ _ Hc).
Qed.

(** ** Two handles *)

Lemma alignZ_id lo hi st v : 0 < st -> aligned lo hi st v -> alignZ lo hi st v = v.
Proof.
  intros Hst [Hv [q Hq]]. unfold alignZ. destruct (Z.leb_spec v lo); [lia|]. destruct (Z.leb_spec hi v); [lia|].
  replace (v - lo) with (q * st) by lia. rewrite Z.mod_mul by lia. cbv zeta.
  destruct (Z.leb_spec st (2 * 0)); lia.
Qed.

(** A slider with the range option [true] and two values. *)
Record two_handles (s : slider) (lo hi st a b : Z) : Prop := {
  th_int : int_slider s lo hi st;
  th_values : o_values (sopts s) = Some [num_of_Z a; num_of_Z b];
  th_range : o_range (sopts s) = RangeTrue;
  th_a : aligned lo hi st a;
  th_b : aligned lo hi st b;
  th_order : a <= b;
}.

Lemma aligned_trim s lo hi st v :
  int_slider s lo hi st -> aligned lo hi st v -> trimAlignValue s (num_of_Z v) = num_of_Z v.
Proof.
  intros H Hv. pose proof H as [_ _ _ Hp Hb]. rewrite (trim_int s lo hi st) by (done || destruct Hv; safe_lia).
  by rewrite alignZ_id.
Qed.

Lemma step_safe s lo hi st v : int_slider s lo hi st -> aligned lo hi st v -> safe v.
Proof. intros [_ _ _ Hp Hb] [Hv _]. safe_lia. Qed.

Definition keeps_core (s s' : slider) : Prop := core s' = core s.
#[export] Instance keeps_core_preorder : PreOrder keeps_core.
Proof. split; [done|]. unfold keeps_core. intros x y z H1 H2. by rewrite H2. Qed.

Lemma trigger_core `{!SliderPage} n ui : keeps keeps_core (trigger n ui).
Proof. unfold trigger. keeps_auto keeps_core. Qed.

Lemma change_core `{!SliderPage} i : keeps keeps_core (change i).
Proof. unfold change. keeps_auto keeps_core. apply trigger_core. Qed.

Lemma two_handles_core s s' lo hi st a b :
  core s' = core s -> two_handles s lo hi st a b -> two_handles s' lo hi st a b.
Proof.
  unfold core. intros Hc [[H1 H2 H3 H4 H5] Hvs Hr Ha Hb Hab].
  assert (sopts s' = sopts s) as Ho by congruence. assert (s_max s' = s_max s) as Hm by congruence.
  split; try done; [split; by rewrite ?Ho, ?Hm|by rewrite Ho..].
Qed.

(** [values( i, v )] on a slider with two values. *)
Lemma set_values_two `{!SliderPage} s lo hi st a b i v :
  two_handles s lo hi st a b -> wf s -> (i < 2)%nat -> aligned lo hi st v ->
  core (snd (set_values (Some i) (num_of_Z v) s)) =
    core (s <| sopts := (sopts s) <| o_values :=
      Some (if (i =? 0)%nat then [num_of_Z v; num_of_Z b] else [num_of_Z a; num_of_Z v]) |> |>).
Proof.
  intros Ht Hwf Hi Hv. unfold set_values. rewrite eff_bind_get, (th_values _ _ _ _ _ _ Ht), eff_bind_modify.
  rewrite (aligned_trim s lo hi st v) by (apply Ht || done).
  set (s1 := s <| sopts := _ |>).
  destruct (refreshValue_shown s1) as (s2 & Hr & Hc & _); [by destruct Hwf; split|].
  rewrite (eff_bind_ok _ _ _ _ _ Hr). rewrite (change_core (Some i) s2), Hc. unfold s1.
  by destruct i as [|[|i]]; [| |lia].
Qed.

(** The two handles of a range slider never cross: sliding either of them
    to any step, whatever the callback answers, leaves two aligned values in
    order. *)
Theorem handles_ordered `{!SliderPage} (s : slider) lo hi st a b (i : nat) (v : Z)
    (Ht : two_handles s lo hi st a b) (Hwf : wf s) (Hi : (i < 2)%nat) (Hv : aligned lo hi st v) :
  exists a' b', two_handles (snd (slide (Some i) (num_of_Z v) s)) lo hi st a' b'.
Proof.
  pose proof Ht as [Hint Hvs Hr Ha Hb Hab]. pose proof (step_safe _ _ _ _ _ Hint Ha) as Hsa.
  pose proof (step_safe _ _ _ _ _ Hint Hb) as Hsb. pose proof (step_safe _ _ _ _ _ Hint Hv) as Hsv.
  assert (hasMultipleValues s = true) as Hm by (unfold hasMultipleValues; by rewrite Hvs).
  unfold slide. rewrite eff_bind_get. cbv zeta. rewrite Hm, Hvs, bool_decide_eq_true_2 by done. cbn [andb default length Nat.eqb].
  assert (values s (Some 0%nat) = num_of_Z a) as Hv0.
  { unfold values. rewrite Hm, Hvs. by apply (aligned_trim s lo hi st). }
  assert (values s (Some 1%nat) = num_of_Z b) as Hv1.
  { unfold values. rewrite Hm, Hvs. by apply (aligned_trim s lo hi st). }
  set (w := if (i =? 0)%nat then Z.min b v else Z.max a v).
  assert ((if bool_decide (Some i = Some 0%nat) then num_min (values s (other_index (Some i))) (num_of_Z v)
           else num_max (values s (other_index (Some i))) (num_of_Z v)) = num_of_Z w) as ->.
  { unfold w. destruct i as [|[|i]]; [| |lia]; cbn [other_index Nat.eqb].
    - rewrite bool_decide_eq_true_2, Hv1 by done. by apply num_min_Z.
    - rewrite bool_decide_eq_false_2, Hv0 by done. by apply num_max_Z. }
  assert (aligned lo hi st w) as Hw by (unfold w; destruct (_ =? _)%nat; [destruct (Z.min_spec b v) as [[_ ->]|[_ ->]]|
    destruct (Z.max_spec a v) as [[_ ->]|[_ ->]]]; done).
  destruct (num_eqb _ _); [by exists a, b|].
  match goal with |- context [ trigger TSlide ?u ] => set (ui := u) end.
  pose proof (trigger_core TSlide ui s) as Hc1. unfold keeps_core in Hc1.
  destruct (trigger TSlide ui s) as [[[]|err] s1] eqn:Htr; cbn in Hc1.
  2: { rewrite (eff_bind_ok _ _ _ _ _ Htr). exists a, b. by eapply two_handles_core. }
  2: { rewrite (eff_bind_throw _ _ _ _ _ Htr). exists a, b. by eapply two_handles_core. }
  rewrite (eff_bind_ok _ _ _ _ _ Htr). cbn [negb]. rewrite eff_bind_get, (core_many _ _ Hc1), Hm.
  pose proof (two_handles_core _ _ _ _ _ _ _ Hc1 Ht) as Ht1.
  pose proof (set_values_two s1 lo hi st a b i w Ht1) as Hset.
  exists (if (i =? 0)%nat then w else a), (if (i =? 0)%nat then b else w).
  eapply two_handles_core; [apply Hset; [|done|done]|].
  - injection Htr as _ <-. by destruct Hwf; split.
  - destruct Ht1 as [[H1 H2 H3 H4 H5] _ Hr1 _ _ _].
    split; [by split| |done| | |]; cbn; unfold w in *; destruct (i =? 0)%nat; try done; lia.
Qed.

(** ** The slider as a client of the mouse component *)

Definition keeps_mouse (s s' : slider) : Prop := sl_mouse s' = sl_mouse s.
#[export] Instance keeps_mouse_preorder : PreOrder keeps_mouse.
Proof. split; [done|]. unfold keeps_mouse. intros x y z H1 H2. by rewrite H2. Qed.

Section Client.
Context `{!SliderPage}.

Lemma trigger_mouse n ui : keeps keeps_mouse (trigger n ui).
Proof. unfold trigger. keeps_auto keeps_mouse. Qed.
Lemma change_mouse i : keeps keeps_mouse (change i).
Proof. unfold change. keeps_auto keeps_mouse. apply trigger_mouse. Qed.
Lemma style_range_mouse f : keeps keeps_mouse (style_range f).
Proof. unfold style_range. keeps_auto keeps_mouse. Qed.
Lemma refreshValue_mouse : keeps keeps_mouse refreshValue.
Proof.
  assert (forall idx last, keeps keeps_mouse (refresh_handles idx last)) as Hl.
  { induction idx as [|i idx IH]; intros last; cbn [refresh_handles]; [apply keeps_ret, _|].
    keeps_auto keeps_mouse; apply style_range_mouse. }
  unfold refreshValue. keeps_auto keeps_mouse; apply style_range_mouse.
Qed.
Lemma slide_mouse i v : keeps keeps_mouse (slide i v).
Proof.
  unfold slide. keeps_auto keeps_mouse; [apply trigger_mouse|..];
    unfold set_values, set_value; keeps_auto keeps_mouse; apply refreshValue_mouse || apply change_mouse.
Qed.

#[export] Instance slider_laws : MouseClientLaws slider.
Proof.
  split.
  - done.
  - intros e. change (keeps keeps_mouse (mouseCapture_ e)). unfold mouseCapture_, start. keeps_auto keeps_mouse;
      apply trigger_mouse || apply slide_mouse.
  - done.
  - intros e. change (keeps keeps_mouse (mouseDrag_ e)). unfold mouseDrag_. keeps_auto keeps_mouse. apply slide_mouse.
  - intros e. change (keeps keeps_mouse (mouseStop_ e)). unfold mouseStop_, stop. keeps_auto keeps_mouse;
      apply trigger_mouse || apply change_mouse.
Qed.
End Client.

(** ** Witnesses: the slider of the client, 100 pixels wide *)

#[local] Instance page : SliderPage := {|
  callback _ _ _ := Ok true;
  outer_size := (num_of_Z 100, num_of_Z 10);
  element_offset := (zero, zero);
  handle_box_of _ _ := {| hb_left := zero; hb_top := zero; hb_width := num_of_Z 10; hb_height := num_of_Z 10;
    hb_borderTop := zero; hb_borderBottom := zero; hb_marginTop := zero |};
  over_handle _ := false;
|}.

Definition client_options : soptions := {|
  o_disabled := false; o_vertical := false; o_min := num_of_Z 0; o_max := num_of_Z 100; o_step := num_of_Z 1;
  o_value := num_of_Z 50; o_values := None; o_range := RangeFalse; o_distance := num_of_Z 0; o_delay := 0 |}.
Definition client_slider : slider := snd (create client_options).

Definition at_x (x : Z) : mevent := {| pageX := num_of_Z x; pageY := num_of_Z 5; which := 1; ev_button := 0;
  target := 0; modifier := false; on_cancel := false |}.

Definition range_options : soptions := client_options <| o_values := Some [num_of_Z 20; num_of_Z 60] |>
  <| o_range := RangeTrue |>.
Definition range_slider : slider := snd (create range_options).

Lemma client_int : int_slider client_slider 0 100 1.
Proof. split; [done|by vm_compute|done|done|by rewrite pow50]. Qed.

Lemma range_two : two_handles range_slider 0 100 1 20 60.
Proof.
  split; [split; [done|by vm_compute|done|done|by rewrite pow50]|done|done|..|done]; (split; [done|eexists; by rewrite Z.mul_1_r]).
Qed.

Lemma trim_nearest_witness : exists w, trimAlignValue client_slider (num_of_Z 17) = num_of_Z w /\
  aligned 0 100 1 w /\ forall w', aligned 0 100 1 w' -> Z.abs (17 - w) <= Z.abs (17 - w').
Proof. apply trim_nearest; [exact client_int|done|by exists 100|done]. Defined.

Lemma new_max_aligned_witness :
  let s := client_slider <| sopts := client_options <| o_step := num_of_Z 7 |> |> in
  exists hi, s_max (snd (calculateNewMax s)) = num_of_Z hi /\ aligned 0 100 7 hi /\
    forall w, aligned 0 100 7 w -> w <= hi.
Proof. intros s. by apply new_max_aligned. Defined.

Lemma view_consistent_witness :
  shown (slider_run [EMouse (MDown (at_x 30)); EMouse (MMove (at_x 70)); EMouse (MUp (at_x 70));
    EOption (SOrientation true); EKeydown 0 PageUp; EKeyup 0] (snd (create range_options))).
Proof. apply view_consistent. intros n ui s. by exists true. Defined.

Lemma slide_sees_old_witness :
  let s := client_slider <| mouseSliding := true |> in
  let s' := snd (slide (Some 0%nat) (num_of_Z 51) s) in
  calls s' = calls s ++ [ {| t_name := TSlide;
    t_ui := {| ui_index := Some 0%nat; ui_value := num_of_Z 51; ui_values := None |};
    t_value := value s; t_values := [] |} ] /\
  value s' = trimAlignValue s (trimAlignValue s (num_of_Z 51)).
Proof.
  intros s. apply slide_sees_old; [split; [done|done|by vm_compute]|done|by vm_compute|done|done].
Defined.

Lemma handles_ordered_witness :
  exists a' b', two_handles (snd (slide (Some 0%nat) (num_of_Z 80) range_slider)) 0 100 1 a' b'.
Proof.
  apply (handles_ordered _ _ _ _ 20 60); [exact range_two|split; [done|by vm_compute|by vm_compute]|lia|].
  split; [done|by exists 80].
Defined.

(** Pressing the button over the slider of the client, dragging and releasing. *)
Lemma mouse_protocol_witness :
  let s' := run_events false [MDown (at_x 30); MMove (at_x 70); MUp (at_x 70)] (client_slider, []) in
  exists p, run_phase Idle (snd s') = Some p /\
    (mouseStarted (mouse_of (fst s')) = true <-> p = Dragging) /\
    (length (bound (mouse_of (fst s'))) <= 1)%nat /\
    (p = Dragging -> length (bound (mouse_of (fst s'))) = 1%nat).
Proof. apply mouse_protocol. reflexivity. Defined.

(** The same gesture evaluated: the value is 70 and the client saw one drag. *)
Example client_drag :
  let s' := run_events false [MDown (at_x 30); MMove (at_x 70); MUp (at_x 70)] (client_slider, []) in
  value (fst s') = num_of_Z 70 /\
  map t_name (calls (fst s')) = [TStart; TSlide; TSlide; TStop; TChange] /\
  snd s' = [CCapture (Ok true); CStart (Ok true); CDrag (Ok tt); CStop (Ok tt)].
Proof. vm_compute. done. Qed.
