(* ===== verification/ClassNames.v ===== *)
(** [addClass], [removeClass], [toggleClass] and [hasClass] (jquery-3.2.0.js):
    operations on the text of class attributes, and the sets of class names
    they implement. *)
From Stdlib Require Import String.
From S2P Require Import Prelude JsString.

(** ** Text *)

(** The blanks of [rnothtmlwhite]. *)
Definition is_white (c : Z) : bool := (c =? 32) || (c =? 9) || (c =? 13) || (c =? 10) || (c =? 12).

(** [value.match( rnothtmlwhite ) || []] *)
Fixpoint tokens_go (word s : jstr) : list jstr :=
  match s with
  | [] => if decide (word = []) then [] else [word]
  | c :: s =>
      if is_white c then (if decide (word = []) then [] else [word]) ++ tokens_go [] s
      else tokens_go (word ++ [c]) s
  end.
Definition tokens (s : jstr) : list jstr := tokens_go [] s.

(** [tokens.join( " " )] *)
Fixpoint join_space (l : list jstr) : jstr :=
  match l with
  | [] => []
  | [w] => w
  | w :: l => w ++ [32] ++ join_space l
  end.

Definition stripAndCollapse (s : jstr) : jstr := join_space (tokens s).

(** [s.indexOf( p )] *)
Fixpoint indexOf (p s : jstr) : option nat :=
  if is_prefix p s then Some 0%nat
  else match s with [] => None | _ :: s => S <$> indexOf p s end.

(** [s.replace( p, r )] for strings: the first occurrence *)
Fixpoint replace_first (p r s : jstr) : jstr :=
  if is_prefix p s then r ++ drop (length p) s
  else match s with [] => [] | c :: s => c :: replace_first p r s end.

Definition spaced (c : jstr) : jstr := [32] ++ c ++ [32].
Arguments spaced : simpl never.

(** ** Elements *)

Record node := {
  is_element : bool;              (* nodeType is 1 *)
  class_attr : option jstr;       (* the attribute class *)
  saved_class : option jstr;      (* the private data __className__ *)
}.
#[export] Instance eta_node : Eta node := fun n =>
  {| is_element := is_element n; class_attr := class_attr n; saved_class := saved_class n |}.

Definition document_ := nat -> node.

(** [getClass]; only elements have attributes. *)
Definition getClass (n : node) : jstr := if is_element n then default [] (class_attr n) else [].

Definition on_node (f : node -> node) (e : nat) (d : document_) : document_ :=
  fun e' => if decide (e' = e) then f (d e) else d e'.

(** [elem.setAttribute( "class", finalValue )] when it differs *)
Definition assign_class (v : jstr) (n : node) : node :=
  if decide (getClass n = v) then n else n <| class_attr := Some v |>.

(** The inner loop of [addClass]. *)
Definition add_tokens (classes : list jstr) (cur : jstr) : jstr :=
  fold_left (fun cur c => match indexOf (spaced c) cur with
                          | None => cur ++ c ++ [32]
                          | Some _ => cur
                          end) classes cur.

Definition addClass_node (value : jstr) (n : node) : node :=
  if is_element n
  then assign_class (stripAndCollapse (add_tokens (tokens value) (spaced (stripAndCollapse (getClass n))))) n
  else n.

(** [while ( cur.indexOf( " " + clazz + " " ) > -1 )]; every round makes the
    text shorter. *)
Fixpoint remove_token (fuel : nat) (c cur : jstr) : jstr :=
  match fuel with
  | O => cur
  | S fuel =>
      match indexOf (spaced c) cur with
      | None => cur
      | Some _ => remove_token fuel c (replace_first (spaced c) [32] cur)
      end
  end.
Definition remove_tokens (classes : list jstr) (cur : jstr) : jstr :=
  fold_left (fun cur c => remove_token (length cur) c cur) classes cur.

Definition removeClass_node (value : jstr) (n : node) : node :=
  if is_element n
  then assign_class (stripAndCollapse (remove_tokens (tokens value) (spaced (stripAndCollapse (getClass n))))) n
  else n.

(** Over a collection: [while ( ( elem = this[ i++ ] ) )] *)
Definition each_node (f : node -> node) (els : list nat) (d : document_) : document_ :=
  fold_left (fun d e => on_node f e d) els d.

(** [addClass( value )] and [removeClass( value )] with a string; the empty
    string does nothing. *)
Definition addClass (value : jstr) (els : list nat) (d : document_) : document_ :=
  if decide (value = []) then d else each_node (addClass_node value) els d.
Definition removeClass (value : jstr) (els : list nat) (d : document_) : document_ :=
  if decide (value = []) then d else each_node (removeClass_node value) els d.

(** [removeClass()] *)
Definition removeClass_all (els : list nat) (d : document_) : document_ :=
  each_node (fun n => if is_element n then n <| class_attr := Some [] |> else n) els d.

Definition hasClass_node (selector : jstr) (n : node) : bool :=
  is_element n &&
  match indexOf (spaced selector) (spaced (stripAndCollapse (getClass n))) with Some _ => true | None => false end.
Definition hasClass (selector : jstr) (els : list nat) (d : document_) : bool :=
  existsb (fun e => hasClass_node selector (d e)) els.

(** The loop of [toggleClass( value )] on one element. *)
Definition toggle_token (n : node) (c : jstr) : node :=
  if hasClass_node c n then removeClass_node c n else addClass_node c n.

(** [toggleClass( value )] without a state *)
Definition toggleClass_string (value : jstr) (els : list nat) (d : document_) : document_ :=
  each_node (fun n => fold_left toggle_token (tokens value) n) els d.

(** [toggleClass( value, state )] *)
Definition toggleClass_state (value : jstr) (state : bool) (els : list nat) (d : document_) : document_ :=
  if state then addClass value els d else removeClass value els d.

(** [toggleClass()], [toggleClass( true )] and [toggleClass( false )]: the whole
    attribute, saved to be brought back. *)
Definition toggle_whole (is_false : bool) (n : node) : node :=
  let className := getClass n in
  let n := if decide (className = []) then n else n <| saved_class := Some className |> in
  if is_element n then
    n <| class_attr := Some (if negb (bool_decide (className = [])) || is_false then [] else default [] (saved_class n)) |>
  else n.
Definition toggleClass_whole (is_false : bool) (els : list nat) (d : document_) : document_ :=
  each_node (toggle_whole is_false) els d.

(** ** The text of a set of class names *)

Definition word (c : jstr) : Prop := c <> [] /\ Forall (fun x => is_white x = false) c.

(** Every token followed by a blank. *)
Definition flat (ts : list jstr) : jstr := concat (map (fun t => t ++ [32]) ts).

Lemma tokens_go_word w c s :
  Forall (fun x => is_white x = false) c -> tokens_go w (c ++ s) = tokens_go (w ++ c) s.
Proof.
  intros Hc. revert w. induction Hc as [|x c Hx _ IH]; intros w; cbn; [by rewrite app_nil_r|].
  rewrite Hx, IH. by rewrite <- app_assoc.
Qed.

Lemma tokens_go_blank w s : tokens_go w (32 :: s) = (if decide (w = []) then [] else [w]) ++ tokens s.
Proof. done. Qed.

Lemma tokens_blank s : tokens (32 :: s) = tokens s.
Proof. unfold tokens. rewrite tokens_go_blank. by rewrite decide_True. Qed.

Lemma tokens_flat ts s : Forall word ts -> tokens (flat ts ++ s) = ts ++ tokens s.
Proof.
  induction 1 as [|t ts [Hne Ht] _ IH]; [done|]. change (flat (t :: ts)) with ((t ++ [32]) ++ flat ts).
  unfold tokens in *. rewrite <- !app_assoc, tokens_go_word by done. cbn [app].
  rewrite tokens_go_blank, decide_False by done. unfold tokens. by rewrite IH.
Qed.

Lemma flat_app ts us : flat (ts ++ us) = flat ts ++ flat us.
Proof. unfold flat. by rewrite map_app, concat_app. Qed.

Lemma tokens_go_words w s : Forall (fun x => is_white x = false) w -> Forall word (tokens_go w s).
Proof.
  revert w. induction s as [|c s IH]; intros w Hw; cbn.
  - destruct (decide (w = [])); [constructor|]. by constructor.
  - destruct (is_white c) eqn:Hc.
    + apply Forall_app. split; [|by apply IH]. destruct (decide (w = [])); [constructor|]. by constructor.
    + apply IH, Forall_app. split; [done|]. by constructor.
Qed.

Lemma tokens_words s : Forall word (tokens s).
Proof. by apply tokens_go_words. Qed.

Lemma spaced_join ts : Forall word ts ->
  spaced (join_space ts) = if decide (ts = []) then [32; 32] else [32] ++ flat ts.
Proof.
  unfold spaced. intros _. destruct ts as [|t ts]; [done|]. rewrite decide_False by done. f_equal.
  revert t. induction ts as [|u ts IH]; intros t; [cbn; by rewrite app_nil_r|].
  change (join_space (t :: u :: ts)) with (t ++ [32] ++ join_space (u :: ts)).
  change (flat (t :: u :: ts)) with ((t ++ [32]) ++ flat (u :: ts)). rewrite <- IH. by rewrite <- !app_assoc.
Qed.

(** [cur] holds the tokens [ts]. *)
Definition holds (ts : list jstr) (cur : jstr) : Prop :=
  Forall word ts /\ (cur = [32] ++ flat ts \/ cur = [32; 32] ++ flat ts).

Lemma holds_tokens ts cur : holds ts cur -> tokens cur = ts.
Proof.
  intros [Hts [-> | ->]]; cbn [app]; rewrite !tokens_blank; rewrite <- (app_nil_r (flat ts)), tokens_flat by done;
    by rewrite app_nil_r.
Qed.

Lemma holds_spaced ts : Forall word ts -> holds ts (spaced (join_space ts)).
Proof.
  intros Hts. split; [done|]. rewrite spaced_join by done. destruct (decide (ts = [])) as [->|]; [by right|by left].
Qed.

Lemma tokens_join ts : Forall word ts -> tokens (join_space ts) = ts.
Proof.
  induction 1 as [|t ts [Hne Ht] Hts IH]; [done|]. unfold tokens. destruct ts as [|u ts].
  - cbn [join_space]. rewrite <- (app_nil_r t) at 1. rewrite tokens_go_word by done. cbn. by rewrite decide_False.
  - change (join_space (t :: u :: ts)) with (t ++ 32 :: join_space (u :: ts)).
    rewrite tokens_go_word by done. cbn [app]. rewrite tokens_go_blank, decide_False by done. by rewrite IH.
Qed.

Lemma strip_holds ts cur : holds ts cur -> stripAndCollapse cur = join_space ts.
Proof. intros H. unfold stripAndCollapse. by rewrite (holds_tokens ts cur). Qed.

Lemma prefix_spaced c t s :
  word c -> word t -> is_prefix (spaced c) ([32] ++ t ++ [32] ++ s) = bool_decide (c = t).
Proof.
  intros [_ Hc] [_ Ht]. unfold spaced. cbn [app is_prefix]. rewrite Z.eqb_refl. cbn [andb]. revert t Ht. induction Hc as [|x c Hx Hc IH]; intros t Ht.
  - destruct Ht as [|y t Hy Ht]; [done|]. cbn [is_prefix app]. destruct (Z.eqb_spec 32 y) as [<-|]; [done|].
    by rewrite bool_decide_eq_false_2.
  - destruct Ht as [|y t Hy Ht]; cbn [is_prefix app].
    + destruct (Z.eqb_spec x 32) as [->|]; [done|]. by rewrite bool_decide_eq_false_2.
    + rewrite IH by done. destruct (Z.eqb_spec x y) as [->|]; cbn [andb].
      * apply bool_decide_ext. split; [by intros ->|by intros [= ->]].
      * rewrite bool_decide_eq_false_2; [done|]. by intros [= -> ?].
Qed.

Lemma prefix_spaced_no c x s : x <> 32 -> is_prefix (spaced c) (x :: s) = false.
Proof. intros Hx. unfold spaced. cbn [app is_prefix]. by rewrite (proj2 (Z.eqb_neq 32 x)). Qed.

Lemma indexOf_skip c t s :
  Forall (fun x => is_white x = false) t ->
  indexOf (spaced c) (t ++ s) = (fun i => (length t + i)%nat) <$> indexOf (spaced c) s.
Proof.
  induction 1 as [|x t Hx Ht IH]; cbn [app length]; [by destruct (indexOf _ _)|].
  assert (x <> 32) by (by intros ->). cbn [indexOf]. rewrite prefix_spaced_no by done. rewrite IH.
  by destruct (indexOf _ s).
Qed.

Lemma replace_skip c r t s :
  Forall (fun x => is_white x = false) t -> replace_first (spaced c) r (t ++ s) = t ++ replace_first (spaced c) r s.
Proof.
  induction 1 as [|x t Hx Ht IH]; cbn [app]; [done|]. assert (x <> 32) by (by intros ->).
  cbn [replace_first]. rewrite prefix_spaced_no by done. by rewrite IH.
Qed.

(** The first occurrence removed. *)
Fixpoint remove_one (c : jstr) (ts : list jstr) : list jstr :=
  match ts with
  | [] => []
  | t :: ts => if decide (c = t) then ts else t :: remove_one c ts
  end.

Lemma prefix_blank c s : word c -> is_prefix (spaced c) (32 :: 32 :: s) = false.
Proof.
  intros [Hne Hc]. destruct c as [|x c]; [done|]. inversion Hc; subst. unfold spaced. cbn [app is_prefix].
  rewrite (proj2 (Z.eqb_neq x 32)); [done|]. by intros ->.
Qed.

Lemma indexOf_flat c ts :
  word c -> Forall word ts -> indexOf (spaced c) ([32] ++ flat ts) = None <-> c ∉ ts.
Proof.
  intros Hc Hts. induction Hts as [|t ts Ht Hts IH].
  - split; [intros _; apply not_elem_of_nil|intros _]. destruct Hc as [Hne _]. by destruct c as [|x c].
  - change (flat (t :: ts)) with ((t ++ [32]) ++ flat ts). rewrite <- (app_assoc t).
    rewrite not_elem_of_cons, <- IH. change ([32] ++ t ++ [32] ++ flat ts) with (32 :: t ++ [32] ++ flat ts).
    cbn [indexOf]. change (32 :: t ++ [32] ++ flat ts) with ([32] ++ t ++ [32] ++ flat ts).
    rewrite prefix_spaced by done. destruct (bool_decide_reflect (c = t)) as [->|Hct]; [by split; [|intros []]|].
    rewrite indexOf_skip by apply Ht. destruct (indexOf _ ([32] ++ flat ts)); cbn; by split; [|intros []].
Qed.

Lemma replace_flat c ts :
  word c -> Forall word ts -> replace_first (spaced c) [32] ([32] ++ flat ts) = [32] ++ flat (remove_one c ts).
Proof.
  intros Hc Hts. induction Hts as [|t ts Ht Hts IH].
  - destruct Hc as [Hne _]. by destruct c as [|x c].
  - change (flat (t :: ts)) with ((t ++ [32]) ++ flat ts). rewrite <- (app_assoc t).
    change ([32] ++ t ++ [32] ++ flat ts) with (32 :: t ++ [32] ++ flat ts).
    cbn [replace_first remove_one]. change (32 :: t ++ [32] ++ flat ts) with ([32] ++ t ++ [32] ++ flat ts).
    rewrite prefix_spaced by done. destruct (decide (c = t)) as [->|Hct].
    + rewrite bool_decide_eq_true_2 by done. unfold spaced.
      replace ([32] ++ t ++ [32] ++ flat ts) with (([32] ++ t ++ [32]) ++ flat ts) by (by rewrite <- !app_assoc).
      by rewrite drop_app_length.
    + rewrite bool_decide_eq_false_2 by done. rewrite replace_skip by apply Ht. rewrite IH.
      change (flat (t :: remove_one c ts)) with ((t ++ [32]) ++ flat (remove_one c ts)). by rewrite <- !app_assoc.
Qed.

(** ** The operations on the set of names *)

Definition class_names (n : node) : list jstr := tokens (getClass n).
Definition add_name (ts : list jstr) (c : jstr) : list jstr := if decide (c ∈ ts) then ts else ts ++ [c].
Definition toggle_name (ts : list jstr) (c : jstr) : list jstr :=
  if decide (c ∈ ts) then filter (fun t => t <> c) ts else ts ++ [c].

Lemma indexOf_holds c ts cur : word c -> holds ts cur -> indexOf (spaced c) cur = None <-> c ∉ ts.
Proof.
  intros Hc [Hts [-> | ->]]; [by apply indexOf_flat|]. rewrite <- (indexOf_flat c ts) by done.
  cbn [app]. cbn [indexOf]. rewrite prefix_blank by done. cbn [indexOf app].
  destruct (is_prefix (spaced c) (32 :: flat ts)); [done|]. by destruct (indexOf _ (flat ts)).
Qed.

Lemma add_tokens_holds cs ts cur :
  Forall word cs -> holds ts cur -> holds (fold_left add_name cs ts) (add_tokens cs cur).
Proof.
  intros Hcs. revert ts cur. induction Hcs as [|c cs Hc Hcs IH]; intros ts cur H; [done|]. cbn.
  apply IH. pose proof (indexOf_holds c ts cur Hc H) as Hi. unfold add_name.
  destruct (decide (c ∈ ts)) as [Hin|Hin].
  { destruct (indexOf (spaced c) cur) eqn:He; [done|]. by destruct (proj1 Hi eq_refl). }
  rewrite (proj2 Hi Hin).
  destruct H as [Hts H]. split; [apply Forall_app; by split; [|constructor]|].
  rewrite flat_app. change (flat [c]) with ((c ++ [32]) ++ []). rewrite app_nil_r.
  destruct H as [-> | ->]; [left|right]; by rewrite <- !app_assoc.
Qed.

Lemma remove_one_words c ts : Forall word ts -> Forall word (remove_one c ts).
Proof. induction 1 as [|t ts Ht Hts IH]; cbn; [constructor|]. destruct (decide (c = t)); [done|by constructor]. Qed.

Lemma remove_one_filter c ts : filter (fun t => t <> c) (remove_one c ts) = filter (fun t => t <> c) ts.
Proof.
  induction ts as [|t ts IH]; cbn [remove_one]; [done|]. destruct (decide (c = t)) as [->|Hn].
  - by rewrite filter_cons_False by (intros H; by apply H).
  - by rewrite !filter_cons_True, IH by done.
Qed.

Lemma remove_one_length c ts : c ∈ ts -> S (length (remove_one c ts)) = length ts.
Proof.
  induction ts as [|t ts IH]; [by intros ?%elem_of_nil|]. intros Hin%elem_of_cons. cbn [remove_one].
  destruct (decide (c = t)) as [->|Hn]; [done|]. cbn. rewrite IH; [done|]. by destruct Hin.
Qed.

Lemma remove_token_holds fuel c ts cur :
  word c -> holds ts cur -> (length ts <= fuel)%nat ->
  holds (filter (fun t => t <> c) ts) (remove_token fuel c cur).
Proof.
  intros Hc. revert ts cur. induction fuel as [|fuel IH]; intros ts cur H Hf; cbn [remove_token].
  { by destruct ts; [|cbn in Hf; lia]. }
  pose proof (indexOf_holds c ts cur Hc H) as Hi. destruct (indexOf (spaced c) cur) eqn:He.
  - assert (c ∈ ts) as Hin.
    { destruct (decide (c ∈ ts)) as [|Hno]; [done|]. by apply Hi in Hno. }
    rewrite <- remove_one_filter. apply IH; [|pose proof (remove_one_length c ts Hin); lia].
    destruct H as [Hts H]. split; [by apply remove_one_words|].
    destruct H as [-> | ->]; [left; by apply replace_flat|right].
    change ([32; 32] ++ flat ts) with (32 :: [32] ++ flat ts). cbn [replace_first].
    change (32 :: [32] ++ flat ts) with (32 :: 32 :: flat ts). rewrite prefix_blank by done.
    change (32 :: flat ts) with ([32] ++ flat ts). by rewrite replace_flat.
  - assert (c ∉ ts) as Hin by (by apply Hi).
    assert (filter (fun t => t <> c) ts = ts) as ->; [|done].
    clear -Hin. induction ts as [|t ts IH]; [done|]. apply not_elem_of_cons in Hin as [Hn Hin].
    rewrite filter_cons_True by done. by rewrite IH.
Qed.

Lemma holds_length ts cur : holds ts cur -> (length ts <= length cur)%nat.
Proof.
  assert (length ts <= length (flat ts))%nat as Hl.
  { induction ts as [|t ts IH]; [done|]. change (flat (t :: ts)) with ((t ++ [32]) ++ flat ts).
    rewrite !length_app. cbn. lia. }
  intros [_ [-> | ->]]; rewrite length_app; cbn [length]; lia.
Qed.

Lemma remove_tokens_holds cs ts cur :
  Forall word cs -> holds ts cur -> holds (filter (fun t => t ∉ cs) ts) (remove_tokens cs cur).
Proof.
  intros Hcs. revert ts cur. induction Hcs as [|c cs Hc Hcs IH]; intros ts cur H.
  - cbn. assert (filter (fun t => t ∉ []) ts = ts) as ->; [|done].
    clear. induction ts as [|t ts IH]; [done|]. rewrite filter_cons_True by apply not_elem_of_nil. by rewrite IH.
  - cbn [remove_tokens fold_left].
    assert (filter (fun t => t ∉ c :: cs) ts = filter (fun t => t ∉ cs) (filter (fun t => t <> c) ts)) as ->.
    { rewrite list_filter_filter. apply list_filter_iff. intros t. rewrite not_elem_of_cons. tauto. }
    apply IH, remove_token_holds; [done|done|by apply holds_length].
Qed.

Lemma assign_names v n : is_element n = true -> Forall word v ->
  class_names (assign_class (join_space v) n) = v /\ is_element (assign_class (join_space v) n) = true.
Proof.
  intros Hn Hv. unfold assign_class, class_names. destruct (decide _) as [Heq|_].
  - by rewrite Heq, tokens_join.
  - unfold getClass. cbn. by rewrite Hn, tokens_join.
Qed.

Lemma addClass_names v n : is_element n = true ->
  class_names (addClass_node v n) = fold_left add_name (tokens v) (class_names n) /\
  is_element (addClass_node v n) = true.
Proof.
  intros Hn. unfold addClass_node. rewrite Hn.
  pose proof (add_tokens_holds _ _ _ (tokens_words v) (holds_spaced _ (tokens_words (getClass n)))) as H.
  fold (stripAndCollapse (getClass n)) in H. rewrite (strip_holds _ _ H).
  apply assign_names; [done|apply H].
Qed.

Lemma removeClass_names v n : is_element n = true ->
  class_names (removeClass_node v n) = filter (fun t => t ∉ tokens v) (class_names n) /\
  is_element (removeClass_node v n) = true.
Proof.
  intros Hn. unfold removeClass_node. rewrite Hn.
  pose proof (remove_tokens_holds _ _ _ (tokens_words v) (holds_spaced _ (tokens_words (getClass n)))) as H.
  fold (stripAndCollapse (getClass n)) in H. rewrite (strip_holds _ _ H).
  apply assign_names; [done|apply H].
Qed.

Lemma hasClass_names c n : is_element n = true -> word c ->
  hasClass_node c n = bool_decide (c ∈ class_names n).
Proof.
  intros Hn Hc. unfold hasClass_node. rewrite Hn. cbn [andb].
  pose proof (indexOf_holds c _ _ Hc (holds_spaced _ (tokens_words (getClass n)))) as H.
  fold (stripAndCollapse (getClass n)) in H. unfold class_names.
  destruct (bool_decide_reflect (c ∈ tokens (getClass n))) as [Hin|Hin].
  - destruct (indexOf _ _) eqn:He; [done|]. by destruct (proj1 H eq_refl).
  - by rewrite (proj2 H Hin).
Qed.

Lemma toggle_names v n : is_element n = true ->
  class_names (fold_left toggle_token (tokens v) n) = fold_left toggle_name (tokens v) (class_names n).
Proof.
  pose proof (tokens_words v) as Hv. revert n. induction Hv as [|c cs Hc Hcs IH]; intros n Hn; [done|].
  assert (tokens c = [c]) as Htc.
  { change c with (join_space [c]) at 1. apply tokens_join. by constructor. }
  cbn [fold_left]. unfold toggle_token at 2, toggle_name at 2. rewrite hasClass_names by done.
  destruct (removeClass_names c n Hn) as [Hr1 Hr2]. destruct (addClass_names c n Hn) as [Ha1 Ha2].
  rewrite Htc in Hr1, Ha1. cbn [fold_left] in Ha1. unfold add_name in Ha1.
  destruct (decide (c ∈ class_names n)) as [Hin|Hin].
  - rewrite bool_decide_eq_true_2 by done. rewrite IH, Hr1 by done. f_equal.
    apply list_filter_iff. intros t. by rewrite list_elem_of_singleton.
  - rewrite bool_decide_eq_false_2 by done. by rewrite IH, Ha1.
Qed.

Lemma each_node_lookup f els d e : NoDup els ->
  each_node f els d e = if decide (e ∈ els) then f (d e) else d e.
Proof.
  unfold each_node. intros Hnd. revert d. induction Hnd as [|x els Hx Hnd IH]; intros d; [done|].
  cbn [fold_left]. rewrite IH. unfold on_node. destruct (decide (e = x)) as [->|Hn].
  - rewrite decide_False by done. by rewrite decide_True by left.
  - destruct (decide (e ∈ els)).
    + by rewrite decide_True by (by right).
    + rewrite decide_False; [done|]. by rewrite elem_of_cons; intros [?|?].
Qed.

(** C35. The four operations on class attributes, whatever blanks the
    attributes and the arguments contain, implement sets of names: [addClass]
    appends the missing names to every element of the collection, [removeClass]
    removes all occurrences of its names, [toggleClass] does one or the other
    name by name, [hasClass] is membership; other elements are untouched. *)
Theorem class_names_refine (v : jstr) (els : list nat) (d : document_) (e : nat)
    (Hels : NoDup els) (He : is_element (d e) = true) :
  class_names (addClass v els d e)
  = (if decide (e ∈ els) then fold_left add_name (tokens v) (class_names (d e)) else class_names (d e)) /\
  class_names (removeClass v els d e)
  = (if decide (e ∈ els) then filter (fun c => c ∉ tokens v) (class_names (d e)) else class_names (d e)) /\
  class_names (toggleClass_string v els d e)
  = (if decide (e ∈ els) then fold_left toggle_name (tokens v) (class_names (d e)) else class_names (d e)) /\
  (forall c, word c -> hasClass c [e] d = bool_decide (c ∈ class_names (d e))).
Proof.
  split_and!.
  - unfold addClass. destruct (decide (v = [])) as [->|_]; [by destruct (decide _)|].
    rewrite each_node_lookup by done. destruct (decide _); [by apply addClass_names|done].
  - unfold removeClass. destruct (decide (v = [])) as [->|_].
    + destruct (decide _); [|done]. symmetry. induction (class_names (d e)) as [|t ts IH]; [done|].
      by rewrite filter_cons_True, IH by apply not_elem_of_nil.
    + rewrite each_node_lookup by done. destruct (decide _); [by apply removeClass_names|done].
  - unfold toggleClass_string. rewrite each_node_lookup by done. destruct (decide _); [by apply toggle_names|done].
  - intros c Hc. unfold hasClass. cbn [existsb]. rewrite orb_false_r. by apply hasClass_names.
Qed.

(** A button with an untidy class attribute. *)
Definition demo_document : document_ := fun e =>
  {| is_element := true; class_attr := Some (str "  btn   btn-default btn ");
     saved_class := None |}.

Lemma class_names_refine_witness :
  class_names (addClass (str "active btn") [1; 2]%nat demo_document 1%nat)
  = (if decide (1%nat ∈ [1; 2]%nat) then fold_left add_name (tokens (str "active btn")) (class_names (demo_document 1%nat))
     else class_names (demo_document 1%nat)) /\
  class_names (removeClass (str "active btn") [1; 2]%nat demo_document 1%nat)
  = (if decide (1%nat ∈ [1; 2]%nat) then filter (fun c => c ∉ tokens (str "active btn")) (class_names (demo_document 1%nat))
     else class_names (demo_document 1%nat)) /\
  class_names (toggleClass_string (str "active btn") [1; 2]%nat demo_document 1%nat)
  = (if decide (1%nat ∈ [1; 2]%nat) then fold_left toggle_name (tokens (str "active btn")) (class_names (demo_document 1%nat))
     else class_names (demo_document 1%nat)) /\
  (forall c, word c -> hasClass c [1%nat] demo_document = bool_decide (c ∈ class_names (demo_document 1%nat))).
Proof.
  apply class_names_refine; [|reflexivity].
  apply NoDup_cons. split; [by intros ?%list_elem_of_singleton|]. apply NoDup_singleton.
Defined.

Example class_attr_tidied :
  class_attr (addClass (str "active btn") [1%nat] demo_document 1%nat)
  = Some (str "btn btn-default btn active").
Proof. vm_compute. reflexivity. Qed.
