(* ===== verification/Widget.v ===== *)
(** The widget factory's base (jquery-ui.js): [$.widget.extend], the options of
    an instance, the classes it tracks on elements, and the handlers it binds.

    Class attributes are those of ClassNames.v.  An instance and the document
    it works on form one state. *)
From Stdlib Require Import String.
From S2P Require Import Prelude JsNumber JsMath JsString ClassNames.

(** ** Option values *)

(** A value of an options hash.  Plain objects are cloned by [extend]; arrays,
    functions, elements and instances are passed by reference. *)
Inductive ovalue :=
  | OUndefined
  | ONull
  | OBool (b : bool)
  | ONum (n : number)
  | OStr (s : jstr)
  | ORef (id : nat)
  | OObj (props : list (jstr * ovalue)).

(** A plain object: its own enumerable properties in the order of insertion. *)
Abbreviation hash := (list (jstr * ovalue)).

Definition truthy (v : ovalue) : bool :=
  match v with
  | OUndefined | ONull => false
  | OBool b => b
  | ONum n => negb (is_nan n) && negb (num_eqb n (num_of_Z 0))
  | OStr s => negb (bool_decide (s = []))
  | ORef _ | OObj _ => true
  end.

Fixpoint get_prop (k : jstr) (h : hash) : ovalue :=
  match h with
  | [] => OUndefined
  | (k', v) :: h => if decide (k = k') then v else get_prop k h
  end.

Fixpoint set_prop (k : jstr) (v : ovalue) (h : hash) : hash :=
  match h with
  | [] => [(k, v)]
  | (k', w) :: h => if decide (k = k') then (k, v) :: h else (k', w) :: set_prop k v h
  end.

(** The properties of a value that [for ( key in value )] visits. *)
Definition props_of (v : ovalue) : hash := match v with OObj h => h | _ => [] end.

(** How deep plain objects are nested. *)
Fixpoint depth (v : ovalue) : nat :=
  match v with
  | OObj h => S ((fix go (h : hash) : nat := match h with [] => O | (_, v) :: h => Nat.max (depth v) (go h) end) h)
  | _ => O
  end.

(** [$.widget.extend( target, input )]; the fuel bounds the nesting of plain
    objects. *)
Fixpoint extend_into (fuel : nat) (target input : hash) : hash :=
  match fuel with
  | O => target
  | S fuel =>
      fold_left (fun target '(key, value) =>
        match value with
        | OUndefined => target
        | OObj h =>
            set_prop key (OObj
              (match get_prop key target with
               | OObj t => extend_into fuel (extend_into fuel [] t) h
               | _ => extend_into fuel [] h
               end)) target
        | _ => set_prop key value target
        end) input target
  end.

Definition hash_depth (h : hash) : nat := depth (OObj h).

(** [$.widget.extend( target, input1, ... )] *)
Definition widget_extend (target : hash) (inputs : list hash) : hash :=
  fold_left (fun target input => extend_into (Nat.max (hash_depth target) (hash_depth input)) target input) inputs target.

(** ** The option method *)

(** [key.split( "." )] *)
Fixpoint split_dots_go (word s : jstr) : list jstr :=
  match s with
  | [] => [word]
  | c :: s => if c =? 46 then word :: split_dots_go [] s else split_dots_go (word ++ [c]) s
  end.
Definition split_dots (s : jstr) : list jstr := split_dots_go [] s.

(** A property of any value: primitives have none of their own here. *)
Definition read (k : jstr) (v : ovalue) : ovalue := get_prop k (props_of v).

(** [v === undefined ? null : v] *)
Definition or_null (v : ovalue) : ovalue := match v with OUndefined => ONull | _ => v end.

(** The walk [curOption = curOption[ parts[ i ] ]] and the final read. *)
Fixpoint read_path (path : list jstr) (v : ovalue) : ovalue :=
  match path with
  | [] => v
  | k :: path => read_path path (read k v)
  end.

(** The same walk creating what is missing, and the final assignment; setting a
    property of a primitive has no effect. *)
Fixpoint write_path (path : list jstr) (x : ovalue) (h : hash) : hash :=
  match path with
  | [] => h
  | [k] => set_prop k x h
  | k :: path =>
      let cur := get_prop k h in
      if truthy cur then
        match cur with OObj h' => set_prop k (OObj (write_path path x h')) h | _ => h end
      else set_prop k (OObj (write_path path x [])) h
  end.

(** [option( key )] *)
Definition option_get (options : hash) (key : jstr) : ovalue :=
  match split_dots key with
  | [] => ONull
  | [k] => or_null (get_prop k options)
  | k :: path => or_null (read_path path (OObj (widget_extend [] [props_of (get_prop k options)])))
  end.

(** The hash that [option( key, value )] passes to [_setOptions]. *)
Definition option_hash (options : hash) (key : jstr) (value : ovalue) : hash :=
  match split_dots key with
  | [] => []
  | [k] => [(k, value)]
  | k :: path => [(k, OObj (write_path path value (widget_extend [] [props_of (get_prop k options)])))]
  end.

(** ** Instances *)

(** What a handler bound by [_on] does. *)
Inductive whandler :=
  | HUntrack                  (* _untrackClassesElement *)
  | HDestroy                  (* the remove handler of _createWidget *)
  | HHoverIn | HHoverOut | HFocusIn | HFocusOut
  | HUser (f : nat).

#[export] Instance whandler_eq_dec : EqDecision whandler.
Proof. solve_decision. Defined.

Record binding := { b_element : nat; b_event : jstr; b_suppress : bool; b_handler : whandler }.

Record widget := {
  w_fullName : jstr;
  w_element : nat;
  w_options : hash;
  w_lookup : list (jstr * list nat);      (* classesElementLookup *)
  w_bindings : list nat;
  w_hoverable : list nat;
  w_focusable : list nat;
  w_handlers : list binding;              (* bound with the instance's namespace *)
  w_doc : document_;
  w_called : list nat;                    (* user handlers run so far *)
}.
#[export] Instance eta_widget : Eta widget := fun w => {|
  w_fullName := w_fullName w; w_element := w_element w; w_options := w_options w; w_lookup := w_lookup w;
  w_bindings := w_bindings w; w_hoverable := w_hoverable w; w_focusable := w_focusable w;
  w_handlers := w_handlers w; w_doc := w_doc w; w_called := w_called w |}.

(** [a.add( b )] and [a.not( b )] on collections. *)
Definition add_els (a b : list nat) : list nat := a ++ filter (fun e => e ∉ a) (remove_dups b).
Definition not_els (a b : list nat) : list nat := filter (fun e => e ∉ b) a.

(** The entry of a class in [classesElementLookup]. *)
Fixpoint look (c : jstr) (l : list (jstr * list nat)) : list nat :=
  match l with
  | [] => []
  | (c', els) :: l => if decide (c = c') then els else look c l
  end.
Fixpoint put (c : jstr) (els : list nat) (l : list (jstr * list nat)) : list (jstr * list nat) :=
  match l with
  | [] => [(c, els)]
  | (c', els') :: l => if decide (c = c') then (c, els) :: l else (c', els') :: put c els l
  end.

(** ** Handlers *)

(** [_on( suppressDisabledCheck, element, handlers )] *)
Definition on_ (suppress : bool) (els : list nat) (hs : list (jstr * whandler)) (w : widget) : widget :=
  w <| w_bindings := add_els (w_bindings w) els |>
    <| w_handlers := w_handlers w ++ flat_map (fun '(ev, h) => map (fun e =>
         {| b_element := e; b_event := ev; b_suppress := suppress; b_handler := h |}) els) hs |>.

(** [_off( element, eventName )]; [None] is all events. *)
Definition off_matches (els : list nat) (ev : option jstr) (b : binding) : bool :=
  bool_decide (b_element b ∈ els) && match ev with None => true | Some ev => bool_decide (b_event b = ev) end.
Definition off_ (els : list nat) (ev : option jstr) (w : widget) : widget :=
  w <| w_handlers := filter (fun b => off_matches els ev b = false) (w_handlers w) |>
    <| w_bindings := not_els (w_bindings w) els |>
    <| w_focusable := not_els (w_focusable w) els |>
    <| w_hoverable := not_els (w_hoverable w) els |>.

(** ** Classes *)

(** The options given to [_classes]. *)
Record class_options := {
  co_element : list nat; co_keys : option jstr; co_extra : option jstr;
  co_classes : hash; co_add : bool }.

(** [this.options.classes || {}] *)
Definition classes_option (w : widget) : hash := props_of (get_prop (str "classes") (w_options w)).

(** [processClassString]; theme classes are strings. *)
Definition process_class (o : class_options) (check : bool) (acc : widget * list jstr) (c : jstr) : widget * list jstr :=
  let '(w, full) := acc in
  let current := look c (w_lookup w) in
  let current := if co_add o then add_els current (co_element o) else not_els current (co_element o) in
  (w <| w_lookup := put c current (w_lookup w) |>,
   full ++ [c] ++ (if check then match get_prop c (co_classes o) with OStr ((_ :: _) as s) => [s] | _ => [] end else [])).

(** [s.match( /\S+/g ) || []]; class keys hold no blanks besides those of
    [rnothtmlwhite]. *)
Definition class_words (s : option jstr) : list jstr :=
  match s with Some s => tokens s | None => [] end.

(** [_classes( options )]: the text of the classes to toggle. *)
Definition classes_ (o : class_options) (w : widget) : widget * jstr :=
  let w := on_ false (co_element o) [(str "remove", HUntrack)] w in
  let '(w, full) := fold_left (process_class o true) (class_words (co_keys o)) (w, []) in
  let '(w, full) := fold_left (process_class o false) (class_words (co_extra o)) (w, full) in
  (w, join_space full).

(** [_toggleClass( element, keys, extra, add )] *)
Definition toggleClass_ (els : list nat) (keys extra : option jstr) (add : bool) (w : widget) : widget :=
  let '(w, text) := classes_ {| co_element := els; co_keys := keys; co_extra := extra;
                                co_classes := classes_option w; co_add := add |} w in
  w <| w_doc := toggleClass_state text add els (w_doc w) |>.
Definition addClass_ els keys extra w := toggleClass_ els keys extra true w.
Definition removeClass_ els keys extra w := toggleClass_ els keys extra false w.

(** [_untrackClassesElement] for an event on [e] *)
Definition untrack (e : nat) (w : widget) : widget :=
  w <| w_lookup := map (fun '(c, els) => (c, not_els els [e])) (w_lookup w) |>.

(** ** Setting options *)

(** [a === b] on option values; two plain objects are two objects. *)
Definition strict_equal (a b : ovalue) : bool :=
  match a, b with
  | OUndefined, OUndefined | ONull, ONull => true
  | OBool x, OBool y => Bool.eqb x y
  | ONum x, ONum y => num_eqb x y
  | OStr x, OStr y => bool_decide (x = y)
  | ORef x, ORef y => (x =? y)%nat
  | _, _ => false
  end.

(** [_setOptionClasses( value )]: one key, and all of them *)
Definition set_class (value : hash) (w : widget) (kv : jstr * ovalue) : widget :=
  let '(classKey, v) := kv in
  let currentElements := look classKey (w_lookup w) in
  if strict_equal v (get_prop classKey (classes_option w)) || bool_decide (currentElements = []) then w
  else
    let w := removeClass_ currentElements (Some classKey) None w in
    let '(w, text) := classes_ {| co_element := currentElements; co_keys := Some classKey; co_extra := None;
                                  co_classes := value; co_add := true |} w in
    w <| w_doc := addClass text currentElements (w_doc w) |>.
Definition setOptionClasses (value : hash) (w : widget) : widget := fold_left (set_class value) value w.

(** [_setOptionDisabled( value )] *)
Definition setOptionDisabled (value : bool) (w : widget) : widget :=
  let w := toggleClass_ [w_element w] (Some (w_fullName w ++ str "-disabled")) None value w in
  if value then
    let w := removeClass_ (w_hoverable w) None (Some (str "ui-state-hover")) w in
    removeClass_ (w_focusable w) None (Some (str "ui-state-focus")) w
  else w.

(** [_setOption( key, value )] *)
Definition setOption (key : jstr) (value : ovalue) (w : widget) : widget :=
  let w := if decide (key = str "classes") then setOptionClasses (props_of value) w else w in
  let w := w <| w_options := set_prop key value (w_options w) |> in
  if decide (key = str "disabled") then setOptionDisabled (truthy value) w else w.

(** [_setOptions( options )] *)
Definition setOptions (options : hash) (w : widget) : widget :=
  fold_left (fun w '(key, value) => setOption key value w) options w.

(** [option( key, value )], [option( hash )], [enable()] and [disable()] *)
Definition set_option (key : jstr) (value : ovalue) (w : widget) : widget :=
  setOptions (option_hash (w_options w) key value) w.
Definition enable (w : widget) : widget := setOptions [(str "disabled", OBool false)] w.
Definition disable (w : widget) : widget := setOptions [(str "disabled", OBool true)] w.

(** ** Interaction states *)

(** [_hoverable( element )] and [_focusable( element )] *)
Definition hoverable_ (els : list nat) (w : widget) : widget :=
  on_ false els [(str "mouseenter", HHoverIn); (str "mouseleave", HHoverOut)]
    (w <| w_hoverable := add_els (w_hoverable w) els |>).
Definition focusable_ (els : list nat) (w : widget) : widget :=
  on_ false els [(str "focusin", HFocusIn); (str "focusout", HFocusOut)]
    (w <| w_focusable := add_els (w_focusable w) els |>).

(** ** Life cycle *)

(** [destroy()] without the widget's own [_destroy]. *)
Definition destroy (w : widget) : widget :=
  let w := fold_left (fun w '(key, els) => removeClass_ els (Some key) None w) (w_lookup w) w in
  let w := w <| w_handlers := filter (fun b => b_element b <> w_element w) (w_handlers w) |> in
  w <| w_handlers := filter (fun b => b_element b ∉ w_bindings w) (w_handlers w) |>.

(** [_createWidget( options, element )] up to [_create]. *)
Definition createWidget (fullName : jstr) (element : nat) (proto created options : hash) (d : document_) : widget :=
  let w := {| w_fullName := fullName; w_element := element; w_options := []; w_lookup := []; w_bindings := [];
              w_hoverable := []; w_focusable := []; w_handlers := []; w_doc := d; w_called := [] |} in
  let w := on_ true [element] [(str "remove", HDestroy)] w in
  w <| w_options := widget_extend [] [proto; created; options] |>.

(** ... and after it. *)
Definition created (w : widget) : widget :=
  let disabled := get_prop (str "disabled") (w_options w) in
  if truthy disabled then setOptionDisabled (truthy disabled) w else w.

(** ** Events *)

(** The body of a handler, called on element [e]. *)
Definition run_handler (h : whandler) (e : nat) (w : widget) : widget :=
  match h with
  | HUntrack => untrack e w
  | HDestroy => if decide (e = w_element w) then destroy w else w
  | HHoverIn => addClass_ [e] None (Some (str "ui-state-hover")) w
  | HHoverOut => removeClass_ [e] None (Some (str "ui-state-hover")) w
  | HFocusIn => addClass_ [e] None (Some (str "ui-state-focus")) w
  | HFocusOut => removeClass_ [e] None (Some (str "ui-state-focus")) w
  | HUser f => w <| w_called := w_called w ++ [f] |>
  end.

(** [handlerProxy] *)
Definition proxy (b : binding) (w : widget) : widget :=
  if negb (b_suppress b)
     && (strict_equal (get_prop (str "disabled") (w_options w)) (OBool true)
         || hasClass (str "ui-state-disabled") [b_element b] (w_doc w))
  then w else run_handler (b_handler b) (b_element b) w.

(** An event on [e]: the handlers bound when it is delivered, in order. *)
Definition fire_event (e : nat) (ev : jstr) (w : widget) : widget :=
  fold_left (fun w b => proxy b w) (filter (fun b => b_element b = e /\ b_event b = ev) (w_handlers w)) w.

(** [_trigger]: the type of the event, and the result. *)
Definition lower (c : Z) : Z := if (65 <=? c) && (c <=? 90) then c + 32 else c.
Definition trigger_type (prefix type : jstr) : jstr :=
  map lower (if decide (type = prefix) then type else prefix ++ type).
Definition trigger_result (callback_returned_false default_prevented : bool) : bool :=
  negb (callback_returned_false || default_prevented).
