(* ===== verification/WidgetProps.v ===== *)
(** The base of the widget factory: how options override defaults and are set
    and read back, and what an instance leaves behind when it is destroyed. *)
From Stdlib Require Import String.
From S2P Require Import Prelude JsNumber JsString ClassNames Widget.

(** ** Options *)

(** Objects with distinct property names, all the way down. *)
Inductive wf_value : ovalue -> Prop :=
  | wf_obj h : NoDup (map fst h) -> Forall (fun kv => wf_value (snd kv)) h -> wf_value (OObj h)
  | wf_leaf v : (forall h, v <> OObj h) -> wf_value v.
Abbreviation wf_hash h := (wf_value (OObj h)).

Definition scalar_value (v : ovalue) : Prop := forall h, v <> OObj h.

Lemma wf_obj_inv h : wf_hash h -> NoDup (map fst h) /\ Forall (fun kv => wf_value (snd kv)) h.
Proof. inversion 1 as [h' Hnd Hall|v Hv]; subst; [done|by destruct (Hv h)]. Qed.

Lemma wf_nil : wf_hash [].
Proof. by constructor; constructor. Qed.

Lemma get_set_prop k k' v h : get_prop k' (set_prop k v h) = if decide (k' = k) then v else get_prop k' h.
Proof.
  induction h as [|[k1 v1] h IH]; cbn; [done|]. destruct (decide (k = k1)) as [->|Hn]; cbn.
  - by destruct (decide (k' = k1)).
  - rewrite IH. destruct (decide (k' = k1)) as [->|]; [|done]. by rewrite decide_False by congruence.
Qed.

Lemma get_prop_absent k h : k ∉ map fst h -> get_prop k h = OUndefined.
Proof.
  induction h as [|[k1 v1] h IH]; cbn; [done|]. intros Hk%not_elem_of_cons. destruct Hk as [Hn Hk].
  by rewrite decide_False, IH.
Qed.

Lemma get_prop_in k h : get_prop k h <> OUndefined -> (k, get_prop k h) ∈ h.
Proof.
  induction h as [|[k1 v1] h IH]; cbn; [done|]. destruct (decide (k = k1)) as [->|]; [by left|].
  intros Hk. right. by apply IH.
Qed.

Lemma wf_get k h : wf_hash h -> wf_value (get_prop k h).
Proof.
  intros [_ Hall]%wf_obj_inv. induction Hall as [|[k1 v1] h Hv Hall IH]; cbn; [by constructor|].
  by destruct (decide (k = k1)).
Qed.

Lemma keys_set_prop k v h : map fst (set_prop k v h) = if decide (k ∈ map fst h) then map fst h else map fst h ++ [k].
Proof.
  induction h as [|[k1 v1] h IH]; [done|]. cbn [set_prop map fst]. destruct (decide (k = k1)) as [->|Hn].
  - by rewrite decide_True by left.
  - cbn [map fst]. rewrite IH. destruct (decide (k ∈ map fst h)).
    + by rewrite decide_True by (by right).
    + rewrite decide_False; [done|]. by intros [?|?]%elem_of_cons.
Qed.

Lemma wf_set_prop k v h : wf_value v -> wf_hash h -> wf_hash (set_prop k v h).
Proof.
  intros Hv [Hnd Hall]%wf_obj_inv. constructor.
  - rewrite keys_set_prop. destruct (decide _) as [|Hn]; [done|]. apply NoDup_app. split; [done|]. split.
    + intros x Hx ->%list_elem_of_singleton. done.
    + apply NoDup_singleton.
  - clear Hnd. induction Hall as [|[k1 v1] h Hv1 Hall IH]; cbn; [by constructor|].
    destruct (decide (k = k1)); by constructor.
Qed.

(** The value of a property after one input. *)
Definition merged (n : nat) (tv v : ovalue) : ovalue :=
  match v with
  | OUndefined => tv
  | OObj h => OObj (match tv with OObj t => extend_into n (extend_into n [] t) h | _ => extend_into n [] h end)
  | _ => v
  end.

Lemma get_extend n t h k :
  NoDup (map fst h) -> get_prop k (extend_into (S n) t h) = merged n (get_prop k t) (get_prop k h).
Proof.
  cbn [extend_into]. revert t. induction h as [|[k1 v1] h IH]; intros t Hnd; [done|].
  cbn [map fst] in Hnd. apply NoDup_cons in Hnd as [Hk1 Hnd]. cbn [fold_left get_prop].
  rewrite IH by done.
  assert (get_prop k (match v1 with
     | OUndefined => t
     | OObj h => set_prop k1 (OObj (match get_prop k1 t with
                 | OObj t => extend_into n (extend_into n [] t) h | _ => extend_into n [] h end)) t
     | _ => set_prop k1 v1 t end) = if decide (k = k1) then merged n (get_prop k t) v1 else get_prop k t) as ->.
  { destruct v1; rewrite ?get_set_prop; destruct (decide (k = k1)) as [->|]; done. }
  destruct (decide (k = k1)) as [->|]; [|done]. by rewrite (get_prop_absent k1 h) by done.
Qed.

Lemma depth_cons k v h : hash_depth ((k, v) :: h) = Nat.max (S (depth v)) (hash_depth h).
Proof. unfold hash_depth. cbn. lia. Qed.

Lemma depth_get k h hv : get_prop k h = OObj hv -> (S (hash_depth hv) <= hash_depth h)%nat.
Proof.
  induction h as [|[k1 v1] h IH]; [done|]. cbn [get_prop]. rewrite depth_cons. destruct (decide (k = k1)).
  - intros ->. unfold hash_depth. lia.
  - intros Hk%IH. lia.
Qed.

Lemma depth_set k v h : (hash_depth (set_prop k v h) <= Nat.max (S (depth v)) (hash_depth h))%nat.
Proof.
  induction h as [|[k1 v1] h IH]; cbn [set_prop]; [rewrite depth_cons; lia|].
  destruct (decide (k = k1)); rewrite !depth_cons; lia.
Qed.

Lemma read_undefined p : read_path p OUndefined = OUndefined.
Proof. induction p as [|k p IH]; [done|]. exact IH. Qed.

Lemma read_scalar k p v : scalar_value v -> read_path (k :: p) v = OUndefined.
Proof. intros Hv. cbn. destruct v; try apply read_undefined. by destruct (Hv props). Qed.

(** A clone reads like the original. *)
Lemma read_clone p n h :
  wf_hash h -> (hash_depth h <= n)%nat -> scalar_value (read_path p (OObj h)) ->
  read_path p (OObj (extend_into n [] h)) = read_path p (OObj h).
Proof.
  revert n h. induction p as [|k p IH]; intros n h Hwf Hn Hs; [by destruct (Hs h)|].
  destruct n as [|n]; [unfold hash_depth in Hn; cbn in Hn; lia|].
  cbn [read_path read props_of] in *. unfold read in *. cbn [props_of] in *.
  rewrite get_extend by apply (wf_obj_inv _ Hwf). cbn [get_prop].
  pose proof (wf_get k h Hwf) as Hk. destruct (get_prop k h) as [| | | | | |hv] eqn:Hg; cbn [merged]; try done.
  apply IH; [done| |done]. apply depth_get in Hg. lia.
Qed.

(** What the input defines wins. *)
Lemma read_extend_defined p n t h x :
  wf_hash h -> (hash_depth h <= n)%nat -> read_path p (OObj h) = x -> scalar_value x -> x <> OUndefined ->
  read_path p (OObj (extend_into n t h)) = x.
Proof.
  revert n t h. induction p as [|k p IH]; intros n t h Hwf Hn Hx Hs Hd; [subst; by destruct (Hs h)|].
  destruct n as [|n]; [unfold hash_depth in Hn; cbn in Hn; lia|].
  cbn [read_path] in *. unfold read in *. cbn [props_of] in *.
  rewrite get_extend by apply (wf_obj_inv _ Hwf). pose proof (wf_get k h Hwf) as Hk.
  destruct (get_prop k h) as [| | | | | |hv] eqn:Hg; cbn [merged]; try done.
  - by rewrite read_undefined in Hx; subst.
  - assert (hash_depth hv <= n)%nat by (apply depth_get in Hg; lia). by destruct (get_prop k t); apply IH.
Qed.

(** The input says nothing about the path. *)
Fixpoint missing (p : list jstr) (h : hash) : Prop :=
  match p with
  | [] => False
  | k :: p => match get_prop k h with OUndefined => True | OObj h => missing p h | _ => False end
  end.

Lemma wf_extend n t h : wf_hash t -> wf_hash h -> wf_hash (extend_into n t h).
Proof.
  revert t h. induction n as [|n IH]; intros t h Ht Hh; [done|]. cbn [extend_into].
  apply wf_obj_inv in Hh as [_ Hall]. revert t Ht. induction Hall as [|[k v] h Hv Hall IHh]; intros t Ht; [done|].
  cbn [fold_left]. apply IHh. pose proof (wf_get k t Ht) as Hk. cbn in Hv.
  destruct v; try done; apply wf_set_prop; try done.
  destruct (get_prop k t); repeat apply IH; try done; apply wf_nil.
Qed.

Lemma depth_extend n t h : (hash_depth (extend_into n t h) <= Nat.max (hash_depth t) (hash_depth h))%nat.
Proof.
  revert t h. induction n as [|n IH]; intros t h; [cbn; lia|]. cbn [extend_into]. revert t.
  induction h as [|[k v] h IHh]; intros t; [cbn [fold_left]; lia|]. cbn [fold_left].
  etrans; [apply IHh|]. rewrite depth_cons.
  destruct v as [| |b|x|s|r|hv]; try lia; try (pose proof (depth_set k) as Hd; etrans;
    [apply Nat.max_le_compat_r, Hd|cbn; lia]).
  etrans; [apply Nat.max_le_compat_r, depth_set|].
  change (depth (OObj hv)) with (hash_depth hv).
  enough (match get_prop k t with
          | OObj t0 => depth (OObj (extend_into n (extend_into n [] t0) hv))
          | _ => depth (OObj (extend_into n [] hv)) end <= Nat.max (hash_depth t - 1) (hash_depth hv))%nat as He.
  { destruct (get_prop k t); unfold hash_depth in *; lia. }
  assert (hash_depth [] = 1%nat) as H0 by done. assert (1 <= hash_depth hv)%nat as H1 by (unfold hash_depth; cbn; lia).
  destruct (get_prop k t) as [| | | | | |t0] eqn:Hg;
    try (pose proof (IH [] hv) as Hi; unfold hash_depth at 1 in Hi; lia).
  pose proof (IH (extend_into n [] t0) hv) as Hi. pose proof (IH [] t0) as Hj. apply depth_get in Hg.
  assert (1 <= hash_depth t0)%nat by (unfold hash_depth; cbn; lia).
  unfold hash_depth at 1 in Hi. lia.
Qed.

(** ... and leaves what it does not mention. *)
Lemma read_extend_missing p n t h :
  wf_hash h -> wf_hash t -> (Nat.max (hash_depth t) (hash_depth h) <= n)%nat -> missing p h ->
  scalar_value (read_path p (OObj t)) ->
  read_path p (OObj (extend_into n t h)) = read_path p (OObj t).
Proof.
  revert n t h. induction p as [|k p IH]; intros n t h Hwf Hwt Hn Hm Hs; [done|].
  destruct n as [|n]; [unfold hash_depth in Hn; cbn in Hn; lia|].
  cbn [read_path missing] in *. unfold read in *. cbn [props_of] in *.
  rewrite get_extend by apply (wf_obj_inv _ Hwf). pose proof (wf_get k h Hwf) as Hk. pose proof (wf_get k t Hwt) as Ht.
  destruct (get_prop k h) as [| | | | | |hv] eqn:Hg; cbn [merged]; try done.
  assert (hash_depth hv <= n)%nat as Hdv by (apply depth_get in Hg; lia).
  assert (hash_depth [] = 1%nat) as H0 by done. assert (1 <= hash_depth hv)%nat as H1 by (unfold hash_depth; cbn; lia).
  assert (forall v, scalar_value v -> read_path p (OObj (extend_into n [] hv)) = read_path p v) as Hnil.
  { intros v Hv. destruct p as [|k' p]; [done|]. rewrite (read_scalar k' p v Hv).
    assert (read_path (k' :: p) (OObj []) = OUndefined) as Hu by (cbn; by rewrite read_undefined).
    rewrite IH; [done|done|apply wf_nil|lia|done|by rewrite Hu]. }
  destruct (get_prop k t) as [| | | | | |t0] eqn:Hgt; try (by apply Hnil).
  apply depth_get in Hgt. pose proof (depth_extend n [] t0).
  rewrite IH; try done.
  - apply read_clone; [done|lia|done].
  - apply wf_extend; [apply wf_nil|done].
  - lia.
  - rewrite read_clone; [done|done|lia|done].
Qed.

(** [$.widget.extend] of the defaults and the options a widget is created
    with: at every path, however deep, where the options define a value that
    is not a plain object, that value is found; where they say nothing, the
    value of the defaults; the recursion needs no more than the nesting of the
    objects. *)
Theorem options_override (t h : hash) (p : list jstr) (Ht : wf_hash t) (Hh : wf_hash h) :
  let result := OObj (widget_extend [] [t; h]) in
  (forall x, read_path p (OObj h) = x -> scalar_value x -> x <> OUndefined -> read_path p result = x) /\
  (missing p h -> scalar_value (read_path p (OObj t)) -> read_path p result = read_path p (OObj t)).
Proof.
  intros result. unfold result, widget_extend. cbn [fold_left].
  set (n := Nat.max (hash_depth []) (hash_depth t)). set (t1 := extend_into n [] t).
  set (m := Nat.max (hash_depth t1) (hash_depth h)). split.
  - intros x Hx Hs Hd. apply read_extend_defined; [done|unfold m; lia|done..].
  - intros Hm Hs. assert (read_path p (OObj t1) = read_path p (OObj t)) as Hr.
    { apply read_clone; [done|unfold n; lia|done]. }
    rewrite read_extend_missing; [done|done|apply wf_extend; [apply wf_nil|done]|unfold m; lia|done|by rewrite Hr].
Qed.

(** ** Setting and reading an option *)

(** Every value on the way is an object or one that is replaced by one. *)
Fixpoint walkable (p : list jstr) (h : hash) : Prop :=
  match p with
  | [] => False
  | [k] => True
  | k :: p => match get_prop k h with OObj h => walkable p h | v => truthy v = false end
  end.

(** Neither path leads through the other. *)
Fixpoint diverges (p q : list jstr) : Prop :=
  match p, q with
  | k :: p, k' :: q => k <> k' \/ diverges p q
  | _, _ => False
  end.

Lemma write_path_cons k k' p x h :
  write_path (k :: k' :: p) x h =
    let cur := get_prop k h in
    if truthy cur then match cur with OObj h' => set_prop k (OObj (write_path (k' :: p) x h')) h | _ => h end
    else set_prop k (OObj (write_path (k' :: p) x [])) h.
Proof. done. Qed.

Lemma walkable_nil k p : walkable (k :: p) [].
Proof. by destruct p. Qed.

Lemma read_write p x h : walkable p h -> read_path p (OObj (write_path p x h)) = x.
Proof.
  revert h. induction p as [|k p IH]; intros h Hw; [done|]. destruct p as [|k' p].
  - cbn. unfold read. cbn. by rewrite get_set_prop, decide_True.
  - rewrite write_path_cons. cbv zeta. change (walkable (k :: k' :: p) h)
      with (match get_prop k h with OObj h => walkable (k' :: p) h | v => truthy v = false end) in Hw.
    assert (forall h' g, read_path (k :: k' :: p) (OObj (set_prop k (OObj h') g)) = read_path (k' :: p) (OObj h')) as Hr.
    { intros h' g. cbn [read_path]. unfold read at 2. cbn [props_of]. by rewrite get_set_prop, decide_True. }
    destruct (truthy (get_prop k h)) eqn:Ht; [|rewrite Hr; apply IH, walkable_nil].
    destruct (get_prop k h) as [| |b|n|s|r|h'] eqn:Hg; try (by rewrite Hw in Ht). rewrite Hr. by apply IH.
Qed.

Lemma read_nil k p : read_path (k :: p) (OObj []) = OUndefined.
Proof. cbn. apply read_undefined. Qed.

Lemma read_write_other p q x h :
  diverges p q -> read_path q (OObj (write_path p x h)) = read_path q (OObj h).
Proof.
  revert q h. induction p as [|k p IH]; intros q h Hd; [done|]. destruct q as [|k2 q]; [done|].
  cbn [diverges] in Hd. destruct (decide (k = k2)) as [<-|Hn].
  - destruct Hd as [?|Hd]; [done|]. destruct p as [|k' p]; [done|]. destruct q as [|k3 q]; [done|].
    rewrite write_path_cons. cbv zeta.
    assert (forall h' g, read_path (k :: k3 :: q) (OObj (set_prop k (OObj h') g)) = read_path (k3 :: q) (OObj h')) as Hr.
    { intros h' g. cbn [read_path]. unfold read at 2. cbn [props_of]. by rewrite get_set_prop, decide_True. }
    assert (forall g, read_path (k :: k3 :: q) (OObj g) = read_path (k3 :: q) (get_prop k g)) as Hg by done.
    assert (forall v, scalar_value v -> read_path (k3 :: q) v = read_path (k3 :: q) (OObj [])) as Hs.
    { intros v Hv. by rewrite read_nil, read_scalar. }
    rewrite (Hg h). destruct (truthy (get_prop k h)) eqn:Ht.
    + destruct (get_prop k h) eqn:Hk; rewrite ?Hr; try (by rewrite Hg, Hk). by apply IH.
    + rewrite Hr, IH by done. symmetry. apply Hs. intros h' Hk. by rewrite Hk in Ht.
  - assert (forall v g, read_path (k2 :: q) (OObj (set_prop k v g)) = read_path (k2 :: q) (OObj g)) as Hr.
    { intros v g. cbn [read_path]. unfold read. cbn [props_of]. by rewrite get_set_prop, decide_False by congruence. }
    destruct p as [|k' p]; [apply Hr|]. rewrite write_path_cons. cbv zeta.
    destruct (truthy _); [destruct (get_prop k h); try done|]; apply Hr.
Qed.

Lemma wf_write p x h : wf_value x -> wf_hash h -> wf_hash (write_path p x h).
Proof.
  intros Hx. revert h. induction p as [|k p IH]; intros h Hh; [done|]. destruct p as [|k' p]; [by apply wf_set_prop|].
  rewrite write_path_cons. cbv zeta. pose proof (wf_get k h Hh) as Hk.
  destruct (truthy _); [destruct (get_prop k h); try done|]; apply wf_set_prop; try done; apply IH; [done|apply wf_nil].
Qed.

Lemma walkable_clone p n h : wf_hash h -> (hash_depth h <= n)%nat -> walkable p h -> walkable p (extend_into n [] h).
Proof.
  revert n h. induction p as [|k p IH]; intros n h Hwf Hn Hw; [done|]. destruct p as [|k' p]; [done|].
  destruct n as [|n]; [unfold hash_depth in Hn; cbn in Hn; lia|].
  change (match get_prop k h with OObj h => walkable (k' :: p) h | v => truthy v = false end) in Hw.
  change (match get_prop k (extend_into (S n) [] h) with OObj h => walkable (k' :: p) h | v => truthy v = false end).
  rewrite get_extend by apply (wf_obj_inv _ Hwf). pose proof (wf_get k h Hwf) as Hk. cbn [get_prop].
  destruct (get_prop k h) eqn:Hg; cbn [merged]; try done. apply IH; [done|apply depth_get in Hg; lia|done].
Qed.

(** The operations on classes do not touch the options. *)
Lemma fold_left_keeps {A B C} (P : A -> C) (f : A -> B -> A) l a :
  (forall a b, P (f a b) = P a) -> P (fold_left f l a) = P a.
Proof. intros Hf. revert a. induction l as [|b l IH]; intros a; [done|]. cbn. by rewrite IH. Qed.

Lemma process_options o check l acc : w_options (fold_left (process_class o check) l acc).1 = w_options acc.1.
Proof. apply (fold_left_keeps (fun acc => w_options acc.1)). by intros [w full] c. Qed.

Lemma classes_options o w : w_options (classes_ o w).1 = w_options w.
Proof.
  unfold classes_. destruct (fold_left (process_class o true) _ _) as [w1 f1] eqn:H1.
  destruct (fold_left (process_class o false) _ _) as [w2 f2] eqn:H2. cbn [fst].
  change w2 with (w2, f2).1. rewrite <- H2, process_options. cbn [fst].
  change w1 with (w1, f1).1. by rewrite <- H1, process_options.
Qed.

Lemma toggle_options els keys extra add w : w_options (toggleClass_ els keys extra add w) = w_options w.
Proof.
  unfold toggleClass_. pose proof (classes_options {| co_element := els; co_keys := keys; co_extra := extra;
    co_classes := classes_option w; co_add := add |} w) as H. by destruct (classes_ _ _).
Qed.

Lemma setOptionClasses_options value w : w_options (setOptionClasses value w) = w_options w.
Proof.
  apply (fold_left_keeps w_options). clear w. intros w [k v]. unfold set_class.
  destruct (strict_equal v (get_prop k (classes_option w)) || bool_decide (look k (w_lookup w) = [])); [done|].
  match goal with |- context [ classes_ ?o ?w' ] => pose proof (classes_options o w') as H; destruct (classes_ o w') end.
  cbn in *. rewrite H. apply toggle_options.
Qed.

Lemma setOptionDisabled_options b w : w_options (setOptionDisabled b w) = w_options w.
Proof. unfold setOptionDisabled, removeClass_. destruct b; by rewrite !toggle_options. Qed.

Lemma setOption_options key v w : w_options (setOption key v w) = set_prop key v (w_options w).
Proof.
  unfold setOption. cbv zeta. set (w1 := if decide (key = str "classes") then _ else w).
  assert (w_options w1 = w_options w) as H1 by (unfold w1; case_decide; [apply setOptionClasses_options|done]).
  case_decide; rewrite ?setOptionDisabled_options; cbn [w_options set_field]; by rewrite H1.
Qed.

(** Setting an option by a dotted path and reading it back: the value is
    found, every other option of the widget is as before, and so is every value
    of the same option that the path does not lead through. *)
Theorem option_set_get (w : widget) (key k : jstr) (path : list jstr) (x : ovalue)
    (Hkey : split_dots key = k :: path) (Hw : wf_hash (w_options w)) (Hx : scalar_value x) (Hd : x <> OUndefined)
    (Hwalk : path = [] \/ walkable path (props_of (get_prop k (w_options w)))) :
  let o := w_options w in
  let o' := w_options (set_option key x w) in
  option_get o' key = x /\
  (forall k', k' <> k -> get_prop k' o' = get_prop k' o) /\
  (forall q, diverges path q -> scalar_value (read_path q (OObj (props_of (get_prop k o)))) ->
    read_path q (get_prop k o') = read_path q (OObj (props_of (get_prop k o)))).
Proof.
  intros o o'.
  assert (exists v, o' = set_prop k v o /\ (path = [] -> v = x) /\ (path <> [] ->
    v = OObj (write_path path x (widget_extend [] [props_of (get_prop k o)])))) as (v & Ho' & Hv1 & Hv2).
  { unfold o', set_option, option_hash. rewrite Hkey. destruct path as [|k2 path]; cbn [setOptions fold_left];
      rewrite setOption_options; by eexists. }
  set (h := props_of (get_prop k o)) in *. set (c := widget_extend [] [h]) in *.
  assert (wf_hash h) as Hh.
  { unfold h. pose proof (wf_get k o Hw) as H. destruct (get_prop k o); try apply wf_nil. done. }
  assert (wf_hash c) as Hc by (apply wf_extend; [apply wf_nil|done]).
  assert (wf_value x) as Hwx by (by apply wf_leaf).
  split_and!.
  - unfold option_get. rewrite Hkey, Ho', get_set_prop, decide_True by done.
    destruct path as [|k2 path]; [rewrite Hv1 by done; by destruct x|].
    rewrite Hv2 by done. cbn [props_of]. destruct Hwalk as [?|Hwalk]; [done|].
    assert (read_path (k2 :: path) (OObj (write_path (k2 :: path) x c)) = x) as Hr.
    { apply read_write, walkable_clone; [done|lia|done]. }
    unfold widget_extend. cbn [fold_left].
    rewrite read_clone; [rewrite Hr; by destruct x|by apply wf_write|lia|by rewrite Hr].
  - intros k' Hk'. by rewrite Ho', get_set_prop, decide_False.
  - intros q Hq Hs. rewrite Ho', get_set_prop, decide_True by done.
    destruct path as [|k2 path]; [done|]. rewrite Hv2, read_write_other by done.
    apply read_clone; [done|lia|done].
Qed.

(** ** The classes of an instance *)

Lemma tokens_go_space w a b : tokens_go w (a ++ 32 :: b) = tokens_go w a ++ tokens b.
Proof.
  revert w. induction a as [|c a IH]; intros w; cbn; [done|].
  destruct (is_white c); rewrite IH; [by rewrite <- app_assoc|done].
Qed.

Lemma tokens_join_space l c : c ∈ tokens (join_space l) <-> exists s, s ∈ l /\ c ∈ tokens s.
Proof.
  induction l as [|s l IH]; [split; [by intros ?%elem_of_nil|by intros (? & ?%elem_of_nil & _)]|].
  destruct l as [|s2 l].
  - cbn [join_space]. split; [intros Hc; exists s; by split; [left|]|]. by intros (s' & ->%list_elem_of_singleton & ?).
  - change (join_space (s :: s2 :: l)) with (s ++ 32 :: join_space (s2 :: l)).
    unfold tokens at 1. rewrite tokens_go_space, elem_of_app, IH. fold (tokens s).
    split.
    + intros [Hc|(s' & Hs & Hc)]; [exists s; split; [left|done]|exists s'; split; [by right|done]].
    + intros (s' & [->|Hs]%elem_of_cons & Hc); [by left|right; by exists s'].
Qed.

Lemma tokens_word c : word c -> tokens c = [c].
Proof. intros Hc. change c with (join_space [c]) at 1. apply tokens_join. by constructor. Qed.

Lemma look_put c c' els l : look c' (put c els l) = if decide (c' = c) then els else look c' l.
Proof.
  induction l as [|[c1 e1] l IH]; cbn; [done|]. destruct (decide (c = c1)) as [->|Hn]; cbn.
  - by destruct (decide (c' = c1)).
  - rewrite IH. destruct (decide (c' = c1)) as [->|]; [|done]. by rewrite decide_False by congruence.
Qed.

Lemma elem_of_add_els e a b : e ∈ add_els a b <-> e ∈ a \/ e ∈ b.
Proof.
  unfold add_els. rewrite elem_of_app, list_elem_of_filter, elem_of_remove_dups.
  destruct (decide (e ∈ a)); naive_solver.
Qed.

Lemma elem_of_not_els e a b : e ∈ not_els a b <-> e ∈ a /\ e ∉ b.
Proof. unfold not_els. rewrite list_elem_of_filter. naive_solver. Qed.

(** The theme classes of a key. *)
Definition theme (classes : hash) (k : jstr) : jstr :=
  match get_prop k classes with OStr s => s | _ => [] end.

(** What is there after something is added to it or removed from it. *)
Definition changed (add : bool) (was touched : Prop) : Prop := if add then was \/ touched else was /\ ~ touched.
#[export] Instance changed_proper add : Proper (iff ==> iff ==> iff) (changed add).
Proof. intros p p' Hp q q' Hq. unfold changed. destruct add; by rewrite Hp, Hq. Qed.

Lemma process_class_spec o check l w full :
  let '(w', full') := fold_left (process_class o check) l (w, full) in
  w_doc w' = w_doc w /\
  (forall k e, e ∈ look k (w_lookup w') <-> changed (co_add o) (e ∈ look k (w_lookup w)) (k ∈ l /\ e ∈ co_element o)) /\
  (forall s, s ∈ full' <-> s ∈ full \/ exists k, k ∈ l /\ (s = k \/ check = true /\ s = theme (co_classes o) k /\ s <> [])) /\
  w_bindings w' = w_bindings w /\ w_handlers w' = w_handlers w /\ w_element w' = w_element w /\
  w_hoverable w' = w_hoverable w /\ w_focusable w' = w_focusable w.
Proof.
  revert w full. induction l as [|c l IH]; intros w full; cbn [fold_left].
  { split_and!; try done.
    - intros k e. unfold changed. destruct (co_add o); rewrite elem_of_nil; tauto.
    - intros s. split; [by left|]. intros [?|(k & ?%elem_of_nil & _)]; done. }
  unfold process_class at 2. cbv zeta.
  match goal with |- context [ fold_left _ l (?a, ?b) ] => specialize (IH a b); destruct (fold_left _ l (a, b)) as [w' full'] end.
  cbn [w_doc w_lookup w_bindings w_handlers w_element w_hoverable w_focusable set_field] in IH.
  destruct IH as (Hd & Hl & Hf & Hr). split; [exact Hd|]. split; [|split; [|exact Hr]].
  - intros k e. rewrite Hl, look_put. unfold changed.
    destruct (decide (k = c)) as [->|]; destruct (co_add o);
      rewrite ?elem_of_cons, ?elem_of_add_els, ?elem_of_not_els; naive_solver.
  - intros s. rewrite Hf, !elem_of_app, list_elem_of_singleton. unfold theme.
    assert ((s ∈ (if check then match get_prop c (co_classes o) with OStr ((_ :: _) as s) => [s] | _ => [] end else [])) <->
      check = true /\ s = match get_prop c (co_classes o) with OStr s => s | _ => [] end /\ s <> []) as ->.
    { destruct check; [|by split; [intros ?%elem_of_nil|intros [? _]]].
      destruct (get_prop c (co_classes o)) as [| | | |[|x t]| |]; rewrite ?list_elem_of_singleton, ?elem_of_nil; naive_solver. }
    setoid_rewrite elem_of_cons. naive_solver.
Qed.

Definition elements (d : document_) : Prop := forall e, is_element (d e) = true.

Lemma each_node_elements f els d :
  (forall n, is_element n = true -> is_element (f n) = true) -> elements d -> elements (each_node f els d).
Proof.
  intros Hf. unfold each_node. revert d. induction els as [|x els IH]; intros d Hd; [done|]. cbn. apply IH.
  intros e. unfold on_node. destruct (decide (e = x)); [apply Hf, Hd|apply Hd].
Qed.

Lemma elem_of_fold_add c cs ts : c ∈ fold_left add_name cs ts <-> c ∈ ts \/ c ∈ cs.
Proof.
  revert ts. induction cs as [|x cs IH]; intros ts; cbn [fold_left].
  - split; [by left|by intros [?|?%elem_of_nil]].
  - rewrite IH, elem_of_cons. unfold add_name. destruct (decide (x ∈ ts)).
    + naive_solver.
    + rewrite elem_of_app, list_elem_of_singleton. naive_solver.
Qed.

Lemma each_node_changed f add v els d e c :
  (forall n, is_element n = true -> is_element (f n) = true /\
    (c ∈ class_names (f n) <-> changed add (c ∈ class_names n) (c ∈ tokens v))) ->
  elements d ->
  c ∈ class_names (each_node f els d e) <-> changed add (c ∈ class_names (d e)) (e ∈ els /\ c ∈ tokens v).
Proof.
  intros Hf. unfold each_node. revert d. induction els as [|x els IH]; intros d Hd; cbn [fold_left].
  - unfold changed. destruct add; rewrite elem_of_nil; tauto.
  - rewrite IH.
    + unfold on_node. destruct (Hf (d x) (Hd x)) as [_ Hx]. unfold changed in *.
      destruct (decide (e = x)) as [->|]; destruct add; rewrite ?elem_of_cons, ?Hx; naive_solver.
    + intros e'. unfold on_node. destruct (decide (e' = x)); [apply Hf, Hd|apply Hd].
Qed.

Lemma toggle_state_names v add els d e c :
  elements d ->
  c ∈ class_names (toggleClass_state v add els d e)
  <-> changed add (c ∈ class_names (d e)) (e ∈ els /\ c ∈ tokens v).
Proof.
  intros Hd. unfold toggleClass_state, addClass, removeClass, changed.
  assert (forall P : Prop, (P <-> P \/ e ∈ els /\ c ∈ @nil jstr) /\ (P <-> P /\ ~ (e ∈ els /\ c ∈ @nil jstr))) as Hnil.
  { intros P. rewrite elem_of_nil. tauto. }
  destruct add, (decide (v = [])) as [->|Hv]; [exact (proj1 (Hnil _))| |exact (proj2 (Hnil _))|].
  - apply (each_node_changed _ true); [|done]. intros m Hm. destruct (addClass_names v m Hm) as [-> ->].
    split; [done|]. apply elem_of_fold_add.
  - apply (each_node_changed _ false); [|done]. intros m Hm. destruct (removeClass_names v m Hm) as [-> ->].
    split; [done|]. rewrite list_elem_of_filter. unfold changed. tauto.
Qed.

Lemma toggle_state_elements v add els d : elements d -> elements (toggleClass_state v add els d).
Proof.
  intros Hd. unfold toggleClass_state, addClass, removeClass.
  destruct add, (decide (v = [])) as [|Hv]; try done; (apply each_node_elements; [|done]); intros m Hm;
    [by apply addClass_names|by apply removeClass_names].
Qed.

(** A class name the keys and extra classes of a call stand for. *)
Definition touches (classes : hash) (keys extra : option jstr) (c : jstr) : Prop :=
  (exists k, k ∈ class_words keys /\ (c = k \/ c ∈ tokens (theme classes k))) \/ c ∈ class_words extra.

Lemma class_words_word s : Forall word (class_words s).
Proof. destruct s; [apply tokens_words|constructor]. Qed.

Lemma classes_spec o w :
  let '(w', text) := classes_ o w in
  w_doc w' = w_doc w /\
  (forall k e, e ∈ look k (w_lookup w') <-> changed (co_add o) (e ∈ look k (w_lookup w))
     ((k ∈ class_words (co_keys o) \/ k ∈ class_words (co_extra o)) /\ e ∈ co_element o)) /\
  (forall c, c ∈ tokens text <-> touches (co_classes o) (co_keys o) (co_extra o) c) /\
  w_bindings w' = add_els (w_bindings w) (co_element o) /\
  w_handlers w' = w_handlers w ++ map (fun e =>
    {| b_element := e; b_event := str "remove"; b_suppress := false; b_handler := HUntrack |}) (co_element o) /\
  w_element w' = w_element w /\ w_hoverable w' = w_hoverable w /\ w_focusable w' = w_focusable w.
Proof.
  unfold classes_. set (w0 := on_ false (co_element o) _ w).
  pose proof (process_class_spec o true (class_words (co_keys o)) w0 []) as H1.
  destruct (fold_left _ _ (w0, [])) as [w1 f1]. destruct H1 as (D1 & L1 & F1 & B1 & X1 & E1 & P1 & Q1).
  pose proof (process_class_spec o false (class_words (co_extra o)) w1 f1) as H2.
  destruct (fold_left _ _ (w1, f1)) as [w2 f2]. destruct H2 as (D2 & L2 & F2 & B2 & X2 & E2 & P2 & Q2).
  split; [by rewrite D2, D1|]. split; [|split].
  - intros k e. rewrite L2. specialize (L1 k e). unfold changed in *. change (w_lookup w0) with (w_lookup w) in L1.
    destruct (co_add o); rewrite L1; tauto.
  - intros c. rewrite tokens_join_space. unfold touches. pose proof (class_words_word (co_keys o)) as Wk.
    pose proof (class_words_word (co_extra o)) as We. rewrite Forall_forall in Wk, We. split.
    + intros (s & Hs & Hc). apply F2 in Hs as [Hs|(k & Hk & [->|[? _]])]; [|right|done].
      * apply F1 in Hs as [?%elem_of_nil|(k & Hk & [->|(_ & -> & _)])]; [done| |].
        -- rewrite (tokens_word k) in Hc by (by apply Wk). apply list_elem_of_singleton in Hc as ->. left. eauto.
        -- left. eauto.
      * rewrite (tokens_word k) in Hc by (by apply We). by apply list_elem_of_singleton in Hc as ->.
    + intros [(k & Hk & [->|Hc])|Hc].
      * exists k. rewrite (tokens_word k) by (by apply Wk). split; [|by left]. apply F2. left. apply F1. right. eauto.
      * exists (theme (co_classes o) k). split; [|done]. apply F2. left. apply F1. right. exists k. split; [done|]. right.
        split_and!; [done|done|]. intros Hn. rewrite Hn in Hc. by apply elem_of_nil in Hc.
      * exists c. rewrite (tokens_word c) by (by apply We). split; [|by left]. apply F2. right. eauto.
  - rewrite B2, B1, X2, X1, E2, E1, P2, P1, Q2, Q1. unfold w0, on_. cbn. by rewrite app_nil_r.
Qed.

Lemma put_words c els l : word c -> Forall word (map fst l) -> Forall word (map fst (put c els l)).
Proof.
  intros Hc. induction l as [|[c1 e1] l IH]; cbn; [by constructor|]. intros [H1 H2]%Forall_cons.
  destruct (decide (c = c1)); cbn; constructor; auto.
Qed.

Lemma process_words o check l acc :
  Forall word l -> Forall word (map fst (w_lookup acc.1)) ->
  Forall word (map fst (w_lookup (fold_left (process_class o check) l acc).1)).
Proof.
  intros Hl. revert acc. induction Hl as [|c l Hc Hl IH]; intros [w full] Hw; [done|].
  cbn [fold_left]. apply IH. cbn. by apply put_words.
Qed.

Lemma classes_words o w :
  Forall word (map fst (w_lookup w)) -> Forall word (map fst (w_lookup (classes_ o w).1)).
Proof.
  intros Hw. unfold classes_. set (w0 := on_ false (co_element o) _ w).
  pose proof (process_words o true (class_words (co_keys o)) (w0, []) (class_words_word _) Hw) as H1.
  destruct (fold_left (process_class o true) _ _) as [w1 f1].
  pose proof (process_words o false (class_words (co_extra o)) (w1, f1) (class_words_word _) H1) as H2.
  by destruct (fold_left (process_class o false) _ _) as [w2 f2].
Qed.

(** ** What an instance leaves on the page *)

(** Handlers are bound to tracked elements, and those of the base that undo
    things only to the removal of an element. *)
Definition handlers_ok (w : widget) : Prop := forall b, b ∈ w_handlers w ->
  b_element b ∈ w_bindings w /\ (b_handler b = HUntrack \/ b_handler b = HDestroy -> b_event b = str "remove").

(** Every class name an element has gained is that of a tracked key, or in its
    theme; [T] is the theme. *)
Record tracked (d0 : document_) (T : jstr -> jstr) (w : widget) : Prop := {
  tr_elements : elements (w_doc w);
  tr_words : Forall word (map fst (w_lookup w));
  tr_names : forall e c, c ∈ class_names (w_doc w e) -> c ∈ class_names (d0 e) \/
    exists k, e ∈ look k (w_lookup w) /\ (c = k \/ c ∈ tokens (T k));
  tr_handlers : handlers_ok w;
}.

Lemma handlers_on w suppress els hs :
  handlers_ok w -> (forall ev h, (ev, h) ∈ hs -> h = HUntrack \/ h = HDestroy -> ev = str "remove") ->
  handlers_ok (on_ suppress els hs w).
Proof.
  intros Hw Hhs b. unfold on_. cbn. rewrite elem_of_app. intros [Hb|Hb].
  - destruct (Hw b Hb) as [H1 H2]. split; [apply elem_of_add_els; by left|done].
  - apply list_elem_of_In, in_flat_map in Hb as ([ev h] & Hev & Hb). apply in_map_iff in Hb as (e & <- & He).
    cbn. split; [apply elem_of_add_els; right; by apply list_elem_of_In|]. apply Hhs. by apply list_elem_of_In.
Qed.

Lemma handlers_same w w' :
  w_bindings w' = w_bindings w -> w_handlers w' = w_handlers w -> handlers_ok w -> handlers_ok w'.
Proof. intros Hb Hh Hw b. rewrite Hb, Hh. apply Hw. Qed.

Lemma handlers_classes o w : handlers_ok w -> handlers_ok (classes_ o w).1.
Proof.
  intros Hw. pose proof (classes_spec o w) as H. destruct (classes_ o w) as [w' text].
  destruct H as (_ & _ & _ & Hb & Hh & _). cbn [fst].
  eapply handlers_same; [..|apply (handlers_on w false (co_element o) [(str "remove", HUntrack)] Hw)].
  - done.
  - rewrite Hh. unfold on_. cbn. by rewrite app_nil_r.
  - by intros ev h [= -> ->]%list_elem_of_singleton _.
Qed.

(** The classes of a call, then their change on the elements. *)
Definition apply_classes (o : class_options) (w : widget) : widget :=
  let '(w, text) := classes_ o w in
  w <| w_doc := toggleClass_state text (co_add o) (co_element o) (w_doc w) |>.

(** It keeps track, when the theme is the one given at its keys and a class it
    takes away as an extra one has no theme. *)
Lemma apply_tracked d0 T o w :
  (forall k, k ∈ class_words (co_keys o) -> T k = theme (co_classes o) k) ->
  (co_add o = false -> forall k, k ∈ class_words (co_extra o) -> k ∈ class_words (co_keys o) \/ T k = []) ->
  tracked d0 T w -> tracked d0 T (apply_classes o w).
Proof.
  intros Hkeys Hextra [He Hw Hn Hh]. unfold apply_classes.
  pose proof (classes_spec o w) as Hs. pose proof (classes_words o w Hw) as Hw'. pose proof (handlers_classes o w Hh) as Hh'.
  destruct (classes_ o w) as [w1 text]. destruct Hs as (Hd & Hl & Ht & _). cbn [fst] in Hw', Hh'.
  split; cbn [w_doc w_lookup set_field]; [rewrite Hd; by apply toggle_state_elements|done| |exact Hh'].
  intros e c. rewrite Hd, toggle_state_names by done. rewrite Ht. intros Hc.
  unfold changed in Hc, Hl. destruct (co_add o) eqn:Hadd.
  - destruct Hc as [Hc|[Hin Hc]].
    + destruct (Hn e c Hc) as [?|(k & Hk & Hck)]; [by left|right]. exists k. split; [|done]. apply Hl. by left.
    + right. destruct Hc as [(k & Hk & Hck)|Hk].
      * exists k. split; [apply Hl; right; split; [by left|done]|]. by rewrite Hkeys.
      * exists c. split; [apply Hl; right; split; [by right|done]|by left].
  - destruct Hc as [Hc Hno]. destruct (Hn e c Hc) as [?|(k & Hk & Hck)]; [by left|right]. exists k. split; [|done].
    apply Hl. split; [done|]. intros [Hks Hin]. apply Hno. split; [done|].
    destruct Hks as [Hks|Hks]; [left; exists k; by rewrite <- Hkeys|].
    destruct Hck as [->|Hck]; [by right|].
    destruct (Hextra eq_refl k Hks) as [Hks'|HT]; [left; exists k; rewrite <- Hkeys by done; eauto|].
    rewrite HT in Hck. by apply elem_of_nil in Hck.
Qed.

Lemma toggle_tracked d0 T els keys extra add w :
  (forall k, k ∈ class_words keys -> T k = theme (classes_option w) k) ->
  (add = false -> forall k, k ∈ class_words extra -> k ∈ class_words keys \/ T k = []) ->
  tracked d0 T w -> tracked d0 T (toggleClass_ els keys extra add w).
Proof.
  intros Hk He Hw. apply (apply_tracked d0 T {| co_element := els; co_keys := keys; co_extra := extra;
    co_classes := classes_option w; co_add := add |} w); done.
Qed.

(** Only the theme of tracked keys matters. *)
Lemma tracked_theme d0 T T' w :
  (forall k e, e ∈ look k (w_lookup w) -> T' k = T k) -> tracked d0 T w -> tracked d0 T' w.
Proof.
  intros HT [He Hw Hn Hh]. split; try done. intros e c Hc. destruct (Hn e c Hc) as [?|(k & Hk & Hck)]; [by left|right].
  exists k. split; [done|]. by rewrite (HT k e).
Qed.

Lemma tracked_same d0 T w w' :
  w_doc w' = w_doc w -> w_lookup w' = w_lookup w -> handlers_ok w' -> tracked d0 T w -> tracked d0 T w'.
Proof. intros Hd Hl Hh' [He Hw Hn Hh]. split; rewrite ?Hd, ?Hl; done. Qed.

Lemma look_key k l : look k l <> [] -> k ∈ map fst l.
Proof.
  induction l as [|[k1 e1] l IH]; cbn; [done|]. destruct (decide (k = k1)) as [->|]; [by left|].
  intros H. right. by apply IH.
Qed.

Definition string_of (v : ovalue) : jstr := match v with OStr s => s | _ => [] end.

Lemma strict_equal_theme v v' : strict_equal v v' = true -> string_of v = string_of v'.
Proof. destruct v, v'; try done. cbn. by intros ->%bool_decide_eq_true. Qed.

(** The theme while the entries [pre] of a new value have been applied. *)
Definition mixed (pre : list jstr) (value old : hash) (k : jstr) : jstr :=
  if decide (k ∈ pre) then theme value k else theme old k.

Lemma get_prop_nodup k v h : NoDup (map fst h) -> (k, v) ∈ h -> get_prop k h = v.
Proof.
  induction h as [|[k1 v1] h IH]; cbn; [by intros _ ?%elem_of_nil|]. intros [Hk Hnd]%NoDup_cons.
  intros [[= -> ->]|Hin]%elem_of_cons; [by rewrite decide_True|].
  rewrite decide_False; [by apply IH|]. intros ->. apply Hk, list_elem_of_In, in_map_iff.
  exists (k1, v). split; [done|]. by apply list_elem_of_In.
Qed.

Lemma set_class_tracked d0 pre value old kv w :
  let T := mixed pre value old in
  get_prop kv.1 value = kv.2 -> kv.1 ∉ pre -> classes_option w = old -> tracked d0 T w ->
  tracked d0 (mixed (kv.1 :: pre) value old) (set_class value w kv) /\ classes_option (set_class value w kv) = old.
Proof.
  destruct kv as [k v]. intros T. cbn [fst snd]. intros Hv Hk Ho Hw.
  assert (forall w', (forall k' e, e ∈ look k' (w_lookup w') -> k' = k -> theme value k = theme old k) ->
    tracked d0 T w' -> tracked d0 (mixed (k :: pre) value old) w') as Hstep.
  { intros w' Hl. apply tracked_theme. intros k' e He. unfold T, mixed.
    destruct (decide (k' = k)) as [->|Hn]; [rewrite decide_True by left; rewrite decide_False by done; by eapply Hl|].
    destruct (decide (k' ∈ pre)); [by rewrite decide_True by (by right)|].
    rewrite decide_False; [done|]. by intros [?|?]%elem_of_cons. }
  unfold set_class.
  destruct (strict_equal v (get_prop k (classes_option w))) eqn:Heq; cbn [orb].
  { split; [|done]. apply Hstep; [|done]. intros k' e _ _. unfold theme. rewrite <- Ho, Hv.
    by apply strict_equal_theme. }
  case_bool_decide as Hl.
  { split; [|done]. apply Hstep; [|done]. intros k' e He ->. rewrite Hl in He. by apply elem_of_nil in He. }
  set (els := look k (w_lookup w)) in *. set (w1 := removeClass_ els (Some k) None w).
  assert (word k) as Hword by (pose proof (tr_words _ _ _ Hw) as HF; rewrite Forall_forall in HF; by apply HF, look_key).
  assert (class_words (Some k) = [k]) as Hkw by (by apply tokens_word).
  assert (tracked d0 T w1) as H1.
  { apply toggle_tracked; [|by intros _ k' ?%elem_of_nil|done]. intros k'. rewrite Hkw, Ho.
    intros ->%list_elem_of_singleton. unfold T, mixed. by rewrite decide_False. }
  assert (forall e, e ∉ look k (w_lookup w1)) as Hgone.
  { intros e. unfold w1, removeClass_, toggleClass_.
    match goal with |- context [ classes_ ?o w ] => pose proof (classes_spec o w) as Hs; destruct (classes_ o w) as [w2 t] end.
    destruct Hs as (_ & Hlk & _). cbn [w_lookup set_field]. rewrite Hlk. cbn [co_add co_keys co_element]. unfold changed. rewrite Hkw. intros [Hin Hno].
    apply Hno. split; [left; by apply list_elem_of_singleton|done]. }
  split.
  - change (tracked d0 (mixed (k :: pre) value old) (apply_classes {| co_element := els; co_keys := Some k; co_extra := None;
      co_classes := value; co_add := true |} w1)).
    apply apply_tracked; [|done|].
    + intros k'. cbn [co_keys]. rewrite Hkw. intros ->%list_elem_of_singleton. unfold mixed. by rewrite decide_True by left.
    + apply Hstep; [|done]. intros k' e He ->. by apply Hgone in He.
  - match goal with |- context [ classes_ ?o ?w' ] => pose proof (classes_options o w') as H; destruct (classes_ o w') end.
    unfold classes_option in *. cbn in *. rewrite H. unfold w1, removeClass_. by rewrite toggle_options.
Qed.

Lemma setOptionClasses_tracked d0 value w :
  NoDup (map fst value) -> tracked d0 (theme (classes_option w)) w ->
  tracked d0 (mixed (map fst value) value (classes_option w)) (setOptionClasses value w).
Proof.
  intros Hnd Hw. unfold setOptionClasses. set (old := classes_option w) in *.
  assert (forall l pre w, (forall kv, kv ∈ l -> get_prop kv.1 value = kv.2) -> NoDup (map fst l) ->
    (forall kv, kv ∈ l -> kv.1 ∉ pre) -> classes_option w = old -> tracked d0 (mixed pre value old) w ->
    tracked d0 (mixed (rev (map fst l) ++ pre) value old) (fold_left (set_class value) l w)) as Hloop.
  { clear. induction l as [|kv l IH]; intros pre w1 Hl Hnd Hpre Ho Hw; [done|].
    cbn [map fst] in Hnd. apply NoDup_cons in Hnd as [Hkv Hnd]. cbn [fold_left map rev].
    destruct (set_class_tracked d0 pre value old kv w1) as [H1 H2]; [apply Hl; left|apply Hpre; left|done|done|].
    rewrite <- app_assoc. apply IH; [intros ? ?; apply Hl; by right|done| |done|done].
    intros kv' Hin [Heq|Hp]%elem_of_cons; [|by apply (Hpre kv'); [right|]].
    apply Hkv. rewrite <- Heq. apply list_elem_of_In, in_map. by apply list_elem_of_In. }
  specialize (Hloop value [] w). rewrite app_nil_r in Hloop.
  apply tracked_theme with (T := mixed (rev (map fst value)) value old).
  - intros k e _. unfold mixed. assert (k ∈ rev (map fst value) <-> k ∈ map fst value) as Hr.
    { rewrite !list_elem_of_In. symmetry. apply in_rev. }
    destruct (decide (k ∈ map fst value)), (decide (k ∈ rev (map fst value))); tauto.
  - apply Hloop; [|done|by intros ? _ ?%elem_of_nil|done|done].
    intros [k v] Hin. by apply get_prop_nodup.
Qed.

(** ** The operations of an instance *)

Inductive wop :=
  | WAdd (els : list nat) (keys extra : option jstr)
  | WRemove (els : list nat) (keys extra : option jstr)
  | WHoverable (els : list nat)
  | WFocusable (els : list nat)
  | WOn (suppress : bool) (els : list nat) (hs : list (jstr * nat))
  | WOff (els : list nat)
  | WOption (key : jstr) (value : ovalue)
  | WEvent (e : nat) (ev : jstr).

Definition wstep (x : wop) (w : widget) : widget :=
  match x with
  | WAdd els keys extra => addClass_ els keys extra w
  | WRemove els keys extra => removeClass_ els keys extra w
  | WHoverable els => hoverable_ els w
  | WFocusable els => focusable_ els w
  | WOn suppress els hs => on_ suppress els (map (fun p => (p.1, HUser p.2)) hs) w
  | WOff els => off_ els None w
  | WOption key value => setOption key value w
  | WEvent e ev => fire_event e ev w
  end.

(** The interaction states have no theme classes of their own. *)
Definition plain_states (classes : hash) : Prop :=
  theme classes (str "ui-state-hover") = [] /\ theme classes (str "ui-state-focus") = [].

(** When an operation keeps the account of the classes: an extra class that is
    removed has no theme, a new option [classes] mentions every key that has a
    theme now, and the elements stay in the document. *)
Definition wok (x : wop) (w : widget) : Prop :=
  match x with
  | WRemove _ _ extra => forall k, k ∈ class_words extra -> theme (classes_option w) k = []
  | WOption key value =>
      (key = str "classes" -> NoDup (map fst (props_of value)) /\
         forall c, c ∉ map fst (props_of value) -> theme (classes_option w) c = []) /\
      (key = str "disabled" -> plain_states (classes_option w))
  | WEvent _ ev => ev <> str "remove" /\ plain_states (classes_option w)
  | _ => True
  end.

Inductive wreach (w0 : widget) : widget -> Prop :=
  | wr_start : wreach w0 w0
  | wr_step x w : wreach w0 w -> wok x w -> wreach w0 (wstep x w).

Definition in_step (d0 : document_) (w : widget) : Prop := tracked d0 (theme (classes_option w)) w.

Lemma theme_absent k h : k ∉ map fst h -> theme h k = [].
Proof. intros Hk. unfold theme. by rewrite get_prop_absent. Qed.

Lemma toggle_classes els keys extra add w :
  classes_option (toggleClass_ els keys extra add w) = classes_option w.
Proof. unfold classes_option. by rewrite toggle_options. Qed.

Lemma toggle_in_step d0 els keys extra add w :
  (add = false -> forall k, k ∈ class_words extra -> theme (classes_option w) k = []) ->
  in_step d0 w -> in_step d0 (toggleClass_ els keys extra add w).
Proof.
  intros He Hw. unfold in_step. rewrite toggle_classes. apply toggle_tracked; [done| |done].
  intros Ha k Hk. right. by apply He.
Qed.

Lemma state_words s : word s -> forall k, k ∈ class_words (Some s) -> k = s.
Proof. intros Hs k. cbn. rewrite tokens_word by done. by intros ->%list_elem_of_singleton. Qed.

Lemma hover_word : word (str "ui-state-hover").
Proof. by split; [|repeat constructor]. Qed.
Lemma focus_word : word (str "ui-state-focus").
Proof. by split; [|repeat constructor]. Qed.

(** Removing an interaction state. *)
Lemma state_in_step d0 els s w :
  s = str "ui-state-hover" \/ s = str "ui-state-focus" -> plain_states (classes_option w) ->
  in_step d0 w -> in_step d0 (removeClass_ els None (Some s) w).
Proof.
  intros Hs [Hh Hf] Hw. apply toggle_in_step; [|done]. intros _ k Hk.
  destruct Hs as [-> | ->]; apply state_words in Hk as ->; try done; [apply hover_word|apply focus_word].
Qed.

Lemma setOptionDisabled_in_step d0 b w :
  plain_states (classes_option w) -> in_step d0 w -> in_step d0 (setOptionDisabled b w).
Proof.
  intros Hp Hw. unfold setOptionDisabled.
  assert (in_step d0 (toggleClass_ [w_element w] (Some (w_fullName w ++ str "-disabled")) None b w)) as H1
    by (apply toggle_in_step; [by intros _ k ?%elem_of_nil|done]).
  destruct b; [|done]. apply state_in_step; [by right| |apply state_in_step; [by left| |done]].
  - unfold removeClass_. by rewrite !toggle_classes.
  - by rewrite toggle_classes.
Qed.

Lemma handlers_options key v w : handlers_ok w -> handlers_ok (w <| w_options := set_prop key v (w_options w) |>).
Proof. done. Qed.

Lemma setOption_in_step d0 key v w : wok (WOption key v) w -> in_step d0 w -> in_step d0 (setOption key v w).
Proof.
  intros [Hcl Hdis] Hw. unfold setOption. cbv zeta.
  set (w1 := if decide (key = str "classes") then _ else w). set (w2 := w1 <| w_options := _ |>).
  assert (w_options w1 = w_options w) as Ho1 by (unfold w1; case_decide; [apply setOptionClasses_options|done]).
  assert (in_step d0 w2) as H2.
  { unfold in_step. assert (classes_option w2 = if decide (key = str "classes") then props_of v else classes_option w) as Hco.
    { unfold classes_option, w2. cbn [w_options set_field]. rewrite get_set_prop, Ho1.
      destruct (decide (str "classes" = key)); case_decide; congruence || done. }
    apply (tracked_same _ _ w1); [done|done| |].
    - apply handlers_options. unfold w1. case_decide as Hk; [|apply Hw].
      apply (setOptionClasses_tracked d0 (props_of v) w); [by apply Hcl|exact Hw].
    - rewrite Hco. unfold w1. case_decide as Hk; [|exact Hw].
      destruct (Hcl Hk) as [Hnd Hcov]. eapply tracked_theme; [|by apply setOptionClasses_tracked].
      intros k e _. unfold mixed. case_decide as Hin; [done|]. by rewrite Hcov, theme_absent. }
  case_decide as Hk; [|done]. apply setOptionDisabled_in_step; [|done].
  unfold classes_option, w2. cbn [w_options set_field]. rewrite get_set_prop, Ho1, decide_False; [by apply Hdis|].
  by rewrite Hk.
Qed.

Lemma proxy_in_step d0 b w :
  (b_handler b = HUntrack \/ b_handler b = HDestroy -> False) -> plain_states (classes_option w) ->
  in_step d0 w -> in_step d0 (proxy b w) /\ classes_option (proxy b w) = classes_option w.
Proof.
  intros Hb Hp Hw. unfold proxy. destruct (_ && _); [done|]. unfold run_handler, addClass_.
  destruct (b_handler b); try (exfalso; tauto).
  - by split; [apply toggle_in_step|apply toggle_classes].
  - split; [apply state_in_step; [by left|done|done]|apply toggle_classes].
  - by split; [apply toggle_in_step|apply toggle_classes].
  - split; [apply state_in_step; [by right|done|done]|apply toggle_classes].
  - split; [|done]. apply (tracked_same _ _ w); [done|done|apply Hw|exact Hw].
Qed.

Lemma event_in_step d0 e ev w :
  ev <> str "remove" -> plain_states (classes_option w) -> in_step d0 w -> in_step d0 (fire_event e ev w).
Proof.
  intros Hev Hp Hw. unfold fire_event.
  assert (forall b, b ∈ filter (fun b => b_element b = e /\ b_event b = ev) (w_handlers w) ->
    b_handler b = HUntrack \/ b_handler b = HDestroy -> False) as Hl.
  { intros b [[_ He] Hb]%list_elem_of_filter Hh. apply Hev. rewrite <- He. by apply (tr_handlers _ _ _ Hw). }
  revert Hl. generalize (filter (fun b => b_element b = e /\ b_event b = ev) (w_handlers w)). intros l.
  revert w Hp Hw. induction l as [|b l IH]; intros w Hp Hw Hl; [done|]. cbn [fold_left].
  destruct (proxy_in_step d0 b w) as [H1 H2]; [apply Hl; left|done|done|].
  apply IH; [by rewrite H2|done|]. intros b' Hb'. apply Hl. by right.
Qed.

Lemma on_in_step d0 suppress els hs w :
  (forall ev h, (ev, h) ∈ hs -> h <> HUntrack /\ h <> HDestroy) -> in_step d0 w -> in_step d0 (on_ suppress els hs w).
Proof.
  intros Hhs Hw. apply (tracked_same _ _ w); [done|done| |exact Hw]. apply handlers_on; [apply Hw|].
  intros ev h Hin Hh. destruct (Hhs ev h Hin). tauto.
Qed.

Lemma wstep_in_step d0 x w : wok x w -> in_step d0 w -> in_step d0 (wstep x w).
Proof.
  intros Hok Hw. destruct x as [els keys extra|els keys extra|els|els|suppress els hs|els|key v|e ev]; cbn [wstep].
  - by apply toggle_in_step.
  - apply toggle_in_step; [|done]. intros _. exact Hok.
  - apply on_in_step; [|apply (tracked_same _ _ w); [done|done|apply Hw|exact Hw]].
    intros ev h [[= -> ->]|[= -> ->]%list_elem_of_singleton]%elem_of_cons; done.
  - apply on_in_step; [|apply (tracked_same _ _ w); [done|done|apply Hw|exact Hw]].
    intros ev h [[= -> ->]|[= -> ->]%list_elem_of_singleton]%elem_of_cons; done.
  - apply on_in_step; [|done]. intros ev h Hin. apply list_elem_of_In, in_map_iff in Hin as ([ev' f] & [= <- <-] & _). done.
  - apply (tracked_same _ _ w); [done|done| |exact Hw]. intros b. unfold off_. cbn. intros [Hm Hb]%list_elem_of_filter.
    destruct (tr_handlers _ _ _ Hw b Hb) as [H1 H2]. split; [|done]. apply elem_of_not_els. split; [done|].
    intros Hin. unfold off_matches in Hm. by rewrite bool_decide_eq_true_2 in Hm.
  - by apply setOption_in_step.
  - destruct Hok. by apply event_in_step.
Qed.

Lemma wreach_in_step d0 w0 w : in_step d0 w0 -> wreach w0 w -> in_step d0 w.
Proof. intros H0. induction 1 as [|x w Hr IH Hok]; [done|]. by apply wstep_in_step. Qed.

(** ** Destruction *)

Lemma look_in k e l : e ∈ look k l -> exists els, (k, els) ∈ l /\ e ∈ els.
Proof.
  induction l as [|[k1 e1] l IH]; cbn; [by intros ?%elem_of_nil|]. destruct (decide (k = k1)) as [->|].
  - intros He. exists e1. split; [by left|done].
  - intros (els & Hin & He)%IH. exists els. split; [by right|done].
Qed.

Lemma remove_key_names els k w e c :
  elements (w_doc w) -> word k ->
  c ∈ class_names (w_doc (removeClass_ els (Some k) None w) e) ->
  c ∈ class_names (w_doc w e) /\ ~ (e ∈ els /\ (c = k \/ c ∈ tokens (theme (classes_option w) k))).
Proof.
  intros Hel Hk. unfold removeClass_, toggleClass_.
  match goal with |- context [ classes_ ?o w ] => pose proof (classes_spec o w) as Hs; destruct (classes_ o w) as [w2 t] end.
  destruct Hs as (Hd & _ & Ht & _). cbn [w_doc set_field]. rewrite Hd, toggle_state_names by done. rewrite Ht.
  intros [Hc Hno]. split; [done|]. intros [He Hck]. apply Hno. split; [done|]. left. exists k.
  split; [|done]. cbn. rewrite tokens_word by done. by left.
Qed.

(** The loop of [destroy]. *)
Lemma destroy_loop d0 l w :
  Forall word (map fst l) -> elements (w_doc w) -> handlers_ok w ->
  (forall e c, c ∈ class_names (w_doc w e) -> c ∈ class_names (d0 e) \/
    exists k els, (k, els) ∈ l /\ e ∈ els /\ (c = k \/ c ∈ tokens (theme (classes_option w) k))) ->
  let w' := fold_left (fun w '(key, els) => removeClass_ els (Some key) None w) l w in
  (forall e c, c ∈ class_names (w_doc w' e) -> c ∈ class_names (d0 e)) /\ handlers_ok w' /\ w_element w' = w_element w.
Proof.
  revert w. induction l as [|[k els] l IH]; intros w Hl Hel Hh Hn; cbn [fold_left].
  - split; [|done]. intros e c Hc. destruct (Hn e c Hc) as [|(k & els & ?%elem_of_nil & _)]; done.
  - cbn [map fst] in Hl. apply Forall_cons in Hl as [Hk Hl]. set (w1 := removeClass_ els (Some k) None w).
    assert (elements (w_doc w1) /\ handlers_ok w1 /\ w_element w1 = w_element w) as (He1 & Hh1 & Hw1).
    { unfold w1, removeClass_, toggleClass_.
      match goal with |- context [ classes_ ?o w ] => pose proof (classes_spec o w) as Hs;
        pose proof (handlers_classes o w Hh) as Hh'; destruct (classes_ o w) as [w2 t] end.
      destruct Hs as (Hd & _ & _ & _ & _ & Hwe & _). cbn [fst] in Hh'. split; [|split; [exact Hh'|exact Hwe]].
      cbn [w_doc set_field]. rewrite Hd. by apply toggle_state_elements. }
    destruct (IH w1) as (H1 & H2 & H3); [done|done|done| |by rewrite H3].
    intros e c Hc. apply remove_key_names in Hc as [Hc Hno]; [|done|done].
    destruct (Hn e c Hc) as [?|(k' & els' & [[= -> ->]|Hin]%elem_of_cons & He & Hck)]; [by left| |].
    + exfalso. by apply Hno.
    + right. exists k', els'. split_and!; [done|done|]. unfold w1, removeClass_. by rewrite toggle_classes.
Qed.

(** C34. An instance cleans up after itself if it is used with care: when it has
    added, removed, re-themed and toggled classes with the pointer and the focus
    and bound and unbound handlers in the steps that [wok] admits, then after
    [destroy] no element has a class it did not have before the widget was made,
    and none of the instance's handlers is bound any more.  [wok] leaves out
    removing an extra class that has a theme of its own, replacing the option
    [classes] by one without a key that has a theme, themes for the two states of
    interaction, and removing elements from the document; unbinding is that of
    all events of an element.  Without this care classes and handlers stay:
    [replaced_theme_stays] and [partial_off_leaks]. *)
Theorem destroy_restores (fullName : jstr) (element : nat) (proto created_ options : hash) (d0 : document_) (w : widget)
    (Hd : elements d0) (Hw : wreach (createWidget fullName element proto created_ options d0) w) :
  (forall e c, c ∈ class_names (w_doc (destroy w) e) -> c ∈ class_names (d0 e)) /\ w_handlers (destroy w) = [].
Proof.
  assert (in_step d0 w) as [He Hk Hn Hh].
  { eapply wreach_in_step; [|exact Hw]. split; cbn; [done|constructor|by left|].
    intros b ->%list_elem_of_singleton. cbn. split; [by left|done]. }
  destruct (destroy_loop d0 (w_lookup w) w) as (H1 & H2 & _); [done|done|done| |].
  { intros e c Hc. destruct (Hn e c Hc) as [?|(k & Hin & Hck)]; [by left|right].
    apply look_in in Hin as (els & Hin & He'). by exists k, els. }
  unfold destroy. cbv zeta. set (w1 := fold_left _ (w_lookup w) w) in *. split; [exact H1|].
  cbn [w_handlers w_bindings w_element set_field].
  destruct (filter _ (filter _ (w_handlers w1))) as [|b l] eqn:Hf; [done|exfalso].
  assert (b ∈ b :: l) as Hb by left. rewrite <- Hf in Hb.
  apply list_elem_of_filter in Hb as [Hno Hb]. apply list_elem_of_filter in Hb as [_ Hb].
  apply Hno. by apply H2.
Qed.

(** ** The slider of the client *)

Definition demo_proto : hash :=
  [(str "classes", OObj [(str "ui-slider", OStr (str "ui-corner-all"));
                         (str "ui-slider-range", OStr (str "ui-corner-all ui-widget-header"))]);
   (str "disabled", OBool false); (str "max", ONum (num_of_Z 100)); (str "value", ONum (num_of_Z 0))].
Definition demo_options : hash :=
  [(str "max", ONum (num_of_Z 10000)); (str "classes", OObj [(str "ui-slider", OStr (str "mine"))])].
Definition demo_page : document_ := fun e =>
  {| is_element := true; class_attr := Some (str "row"); saved_class := None |}.
Definition demo_widget : widget := createWidget (str "ui-slider") 0 demo_proto [] demo_options demo_page.

Ltac wf_demo := repeat first [apply wf_leaf; by intros ? | apply wf_obj | apply NoDup_nil; done
  | apply NoDup_cons; split; [by intros H; repeat (apply elem_of_cons in H as [H|H]; [discriminate H|]); apply elem_of_nil in H|]
  | apply Forall_nil; done | apply Forall_cons; split].

Lemma demo_proto_wf : wf_hash demo_proto.
Proof. unfold demo_proto. cbn. wf_demo. Qed.
Lemma demo_options_wf : wf_hash demo_options.
Proof. unfold demo_options. cbn. wf_demo. Qed.

Lemma options_override_witness :
  let result := OObj (widget_extend [] [demo_proto; demo_options]) in
  read_path [str "classes"; str "ui-slider"] result = OStr (str "mine") /\
  read_path [str "classes"; str "ui-slider-range"] result = OStr (str "ui-corner-all ui-widget-header").
Proof.
  intros result.
  pose proof (options_override demo_proto demo_options [str "classes"; str "ui-slider"] demo_proto_wf demo_options_wf) as [H1 _].
  pose proof (options_override demo_proto demo_options [str "classes"; str "ui-slider-range"] demo_proto_wf demo_options_wf) as [_ H2].
  split; [by apply H1|by apply H2].
Defined.

Lemma option_set_get_witness :
  let w := demo_widget in
  let o := w_options w in
  let o' := w_options (set_option (str "classes.ui-slider-handle") (OStr (str "round")) w) in
  option_get o' (str "classes.ui-slider-handle") = OStr (str "round") /\
  (forall k', k' <> str "classes" -> get_prop k' o' = get_prop k' o) /\
  (forall q, diverges [str "ui-slider-handle"] q -> scalar_value (read_path q (OObj (props_of (get_prop (str "classes") o)))) ->
    read_path q (get_prop (str "classes") o') = read_path q (OObj (props_of (get_prop (str "classes") o)))).
Proof.
  apply option_set_get; [by vm_compute| |done|done|by right].
  apply wf_extend; [apply wf_extend; [apply wf_extend; [apply wf_nil|exact demo_proto_wf]|apply wf_nil]|exact demo_options_wf].
Defined.

Definition demo_hovered : widget :=
  wstep (WEvent 1 (str "mouseenter")) (wstep (WHoverable [1%nat])
    (wstep (WAdd [0%nat] (Some (str "ui-slider")) (Some (str "ui-widget"))) demo_widget)).

Lemma demo_plain w : classes_option w = classes_option demo_widget -> plain_states (classes_option w).
Proof. unfold plain_states. intros ->. split; vm_compute; reflexivity. Qed.

Lemma demo_reach : wreach demo_widget demo_hovered.
Proof.
  apply wr_step; [apply wr_step; [apply wr_step; [apply wr_start|exact I]|exact I]|].
  split; [discriminate|]. apply demo_plain. vm_compute. reflexivity.
Qed.

Lemma destroy_restores_witness :
  (forall e c, c ∈ class_names (w_doc (destroy demo_hovered) e) -> c ∈ class_names (demo_page e)) /\
  w_handlers (destroy demo_hovered) = [].
Proof.
  exact (destroy_restores (str "ui-slider") 0 demo_proto [] demo_options demo_page demo_hovered
    (fun e => eq_refl) demo_reach).
Defined.

(** Before [destroy], the classes are there. *)
Example demo_classes :
  class_names (w_doc demo_hovered 0%nat) = [str "row"; str "ui-slider"; str "mine"; str "ui-widget"] /\
  class_names (w_doc demo_hovered 1%nat) = [str "row"; str "ui-state-hover"].
Proof. split; vm_compute; reflexivity. Qed.

(** Replacing the whole option [classes] by one that does not mention a key
    leaves the old theme of that key on the page, even after [destroy]. *)
Example replaced_theme_stays :
  let w := setOption (str "classes") (OObj []) (addClass_ [0%nat] (Some (str "ui-slider")) None demo_widget) in
  class_names (w_doc (destroy w) 0%nat) = [str "row"; str "mine"].
Proof. vm_compute. reflexivity. Qed.

(** Unbinding one event of an element makes [destroy] forget the others. *)
Example partial_off_leaks :
  let w := off_ [1%nat] (Some (str "mouseenter")) (hoverable_ [1%nat] demo_widget) in
  map b_event (w_handlers (destroy w)) = [str "mouseleave"].
Proof. vm_compute. reflexivity. Qed.

(** Every change of classes binds one more handler to the element. *)
Lemma toggle_binds els keys extra add w :
  length (w_handlers (toggleClass_ els keys extra add w)) = (length (w_handlers w) + length els)%nat.
Proof.
  unfold toggleClass_.
  match goal with |- context [ classes_ ?o w ] => pose proof (classes_spec o w) as Hs; destruct (classes_ o w) as [w2 t] end.
  destruct Hs as (_ & _ & _ & _ & Hh & _). cbn [w_handlers set_field]. by rewrite Hh, length_app, length_map.
Qed.
