(* ===== verification/Bridge.v ===== *)
(** [$.widget.bridge] (jquery-ui.js): the method a widget adds to collections,
    [$( elements ).name( options )] and [$( elements ).name( "method", ... )].

    The bridge is modelled over an interface for the instances behind it; the
    base widget of Widget.v implements the interface, all its instances sharing
    one document. *)
From Stdlib Require Import String.
From S2P Require Import Prelude JsNumber JsMath JsString ClassNames Widget.

(** ** What the bridge needs from a widget *)

(** What a method returned: the instance or [undefined], a collection, or any
    other value. *)
Inductive answer (V : Type) :=
  | AChain
  | ACollection (els : list nat)
  | AValue (v : V).
Arguments AChain {V}. Arguments ACollection {V} els. Arguments AValue {V} v.

(** [I] are instances, [V] values, [W] the page; [E] what a method may throw. *)
Class BridgeHost (I V E W : Type) := {
  data_of : nat -> W -> option I;                                (* $.data( this, fullName ) *)
  is_method : jstr -> I -> W -> bool;                            (* $.isFunction( instance[ options ] ) *)
  call : jstr -> list V -> I -> W -> W * (E + answer V);
  set_options : hash -> I -> W -> W;                             (* instance.option( options || {} ) *)
  init_ : I -> W -> W;                                           (* instance._init() *)
  construct : hash -> nat -> W -> W;                             (* $.data( this, fullName, new object( options, this ) ) *)
}.

(** The laws: a constructor registers its instance and leaves the others, and
    setting options registers nothing. *)
Class BridgeLaws (I V E W : Type) `{BridgeHost I V E W} := {
  construct_new o e w : is_Some (data_of e (construct o e w));
  construct_other o e e' w : e' <> e -> data_of e' (construct o e w) = data_of e' w;
  set_options_data o i e w : data_of e (set_options o i w) = data_of e w;
  init_data i e w : data_of e (init_ i w) = data_of e w;
}.

(** What a call of the bridge yields. *)
Inductive returned (I V : Type) :=
  | RThis                             (* the collection itself *)
  | RPushed (els : list nat)          (* another collection on top of it *)
  | RValue (v : V)
  | RInstance (i : option I).         (* an instance, or undefined *)
Arguments RThis {I V}. Arguments RPushed {I V} els. Arguments RValue {I V} v. Arguments RInstance {I V} i.

Inductive bridge_error (E : Type) :=
  | PriorToInit (name method : jstr)  (* cannot call methods on name prior to initialization *)
  | NoSuchMethod (name method : jstr)
  | Thrown (err : E).
Arguments PriorToInit {E}. Arguments NoSuchMethod {E}. Arguments Thrown {E}.

(** ** The bridge *)

Section bridge.
Context {I V E W : Type} {host : BridgeHost I V E W}.
Implicit Types (w : W) (i : I).

(** [options.charAt( 0 ) === "_"] *)
Definition is_private (method : jstr) : bool := bool_decide (take 1 method = [95]).

(** One round of [this.each] for a method call: go on, or stop with a result. *)
Definition method_step (name method : jstr) (args : list V) (e : nat) (w : W)
    : W * option (bridge_error E + returned I V) :=
  if decide (method = str "instance") then (w, Some (inr (RInstance (data_of e w))))
  else
    match data_of e w with
    | None => (w, Some (inl (PriorToInit name method)))
    | Some i =>
        if negb (is_method method i w) || is_private method then (w, Some (inl (NoSuchMethod name method)))
        else
          let '(w, r) := call method args i w in
          (w, match r with
              | inl err => Some (inl (Thrown err))
              | inr AChain => None
              | inr (ACollection els) => Some (inr (RPushed els))
              | inr (AValue v) => Some (inr (RValue v))
              end)
    end.

Fixpoint method_each (name method : jstr) (args : list V) (els : list nat) (w : W)
    : W * (bridge_error E + returned I V) :=
  match els with
  | [] => (w, inr RThis)
  | e :: els =>
      match method_step name method args e w with
      | (w, Some r) => (w, r)
      | (w, None) => method_each name method args els w
      end
  end.

(** [$.fn[ name ]( "method", args... )] *)
Definition bridge_method (name method : jstr) (args : list V) (els : list nat) (w : W)
    : W * (bridge_error E + returned I V) :=
  if decide (els = [] /\ method = str "instance") then (w, inr (RInstance None))
  else method_each name method args els w.

(** [$.fn[ name ]( options, hashes... )]: without options an empty hash. *)
Definition init_step (options : hash) (w : W) (e : nat) : W :=
  match data_of e w with
  | Some i => init_ i (set_options options i w)
  | None => construct options e w
  end.
Definition bridge_init (options : hash) (hashes : list hash) (els : list nat) (w : W) : W * returned I V :=
  (fold_left (init_step (widget_extend options hashes)) els w, RThis).

End bridge.

(** ** The base widget behind the bridge *)

(** The instances by their element, and the document they share. *)
Record widgets := { instances : nat -> option widget; shared_doc : document_ }.

(** Running an operation of the instance of element [e]. *)
Definition on_instance (f : widget -> widget) (e : nat) (w : widgets) : widgets :=
  match instances w e with
  | None => w
  | Some i =>
      let i := f (i <| w_doc := shared_doc w |>) in
      {| instances := fun e' => if decide (e' = e) then Some i else instances w e'; shared_doc := w_doc i |}
  end.

(** The data of the instance goes with [destroy]. *)
Definition drop_data (e : nat) (w : widgets) : widgets :=
  {| instances := fun e' => if decide (e' = e) then None else instances w e'; shared_doc := shared_doc w |}.

Definition public_methods : list jstr :=
  [str "destroy"; str "widget"; str "option"; str "enable"; str "disable"].

(** The public methods of [$.Widget.prototype]; arguments are option values. *)
Definition call_base (method : jstr) (args : list ovalue) (e : nat) (w : widgets) : widgets * (Empty_set + answer ovalue) :=
  if decide (method = str "destroy") then (drop_data e (on_instance destroy e w), inr AChain)
  else if decide (method = str "widget") then (w, inr (ACollection [e]))
  else if decide (method = str "enable") then (on_instance enable e w, inr AChain)
  else if decide (method = str "disable") then (on_instance disable e w, inr AChain)
  else
    let options := from_option w_options [] (instances w e) in
    match args with
    | [] => (w, inr (AValue (OObj (widget_extend [] [options]))))
    | [OStr key] =>
        (w, inr (match option_get options key with OUndefined => AChain | v => AValue v end))
    | [OObj h] => (on_instance (setOptions h) e w, inr AChain)
    | OStr key :: v :: _ => (on_instance (set_option key v) e w, inr AChain)
    | _ => (w, inr AChain)
    end.

#[export] Instance base_host (fullName : jstr) (proto : hash) : BridgeHost nat ovalue Empty_set widgets := {
  data_of e w := (fun _ => e) <$> instances w e;
  is_method m e w := bool_decide (m ∈ public_methods);
  call := call_base;
  set_options h e w := on_instance (setOptions h) e w;
  init_ _ w := w;
  construct o e w :=
    let i := created (createWidget fullName e proto [] o (shared_doc w)) in
    {| instances := fun e' => if decide (e' = e) then Some i else instances w e'; shared_doc := w_doc i |};
}.

#[export] Instance base_laws fullName proto : BridgeLaws nat ovalue Empty_set widgets (H := base_host fullName proto).
Proof.
  split; cbn.
  - intros o e w. by rewrite decide_True.
  - intros o e e' w Hn. by rewrite decide_False.
  - intros o i e w. unfold on_instance. destruct (instances w i) as [x|] eqn:Hx; cbn; [|done].
    case_decide as He; [subst; by rewrite Hx|done].
  - done.
Qed.
