(* ===== verification/BridgeProps.v ===== *)
(** What the bridge of a widget guarantees: at most one instance per element,
    methods run element by element up to the first result, and the options of
    the base widget are set on a whole collection and read back. *)
From Stdlib Require Import String.
From S2P Require Import Prelude JsNumber JsString ClassNames Widget WidgetProps Bridge.

(** ** Initialisation *)

Section laws.
Context {I V E W : Type} {host : BridgeHost I V E W} {laws : BridgeLaws I V E W}.
Implicit Types (w : W).

Lemma init_step_data o w e e' :
  data_of e' (init_step o w e) = data_of e' w \/ (e' = e /\ data_of e' w = None).
Proof.
  unfold init_step. destruct (data_of e w) as [i|] eqn:Hi.
  - left. by rewrite init_data, set_options_data.
  - destruct (decide (e' = e)) as [->|Hn]; [by right|left]. by apply construct_other.
Qed.

Lemma init_step_some o w e : is_Some (data_of e (init_step o w e)).
Proof.
  unfold init_step. destruct (data_of e w) as [i|] eqn:Hi.
  - by rewrite init_data, set_options_data, Hi.
  - apply construct_new.
Qed.

Lemma init_step_keeps o w e e' i : data_of e' w = Some i -> data_of e' (init_step o w e) = Some i.
Proof. intros Hi. destruct (init_step_data o w e e') as [->|[_ Hn]]; [done|congruence]. Qed.

Lemma init_fold_keeps o els w e i : data_of e w = Some i -> data_of e (fold_left (init_step o) els w) = Some i.
Proof. revert w. induction els as [|e1 els IH]; intros w Hi; cbn; [done|]. by apply IH, init_step_keeps. Qed.

(** Every element gets an instance, an instance that was there stays, and the
    elements outside the collection are left alone. *)
Lemma bridge_init_data o hashes els w :
  let w' := (bridge_init o hashes els w).1 in
  (forall e, e ∈ els -> is_Some (data_of e w')) /\
  (forall e i, data_of e w = Some i -> data_of e w' = Some i) /\
  (forall e, e ∉ els -> data_of e w' = data_of e w).
Proof.
  cbn. set (opts := widget_extend o hashes). clearbody opts. split_and!.
  - intros e. revert w. induction els as [|e1 els IH]; intros w; [by intros ?%elem_of_nil|cbn].
    intros [->|He]%elem_of_cons; [|by apply IH].
    destruct (init_step_some opts w e1) as [i Hi]. exists i. by apply init_fold_keeps.
  - intros e i. apply init_fold_keeps.
  - intros e. revert w. induction els as [|e1 els IH]; intros w; [done|cbn].
    intros [Hn He]%not_elem_of_cons. rewrite IH by done.
    destruct (init_step_data opts w e1 e) as [->|[? _]]; done.
Qed.

(** ** Method calls *)

(** The method ran on every element of the list and none stopped the loop. *)
Fixpoint chained (name method : jstr) (args : list V) (els : list nat) (w w' : W) : Prop :=
  match els with
  | [] => w' = w
  | e :: els => exists w1, method_step name method args e w = (w1, None) /\ chained name method args els w1 w'
  end.

(** A method call on a collection runs element by element: it returns the
    collection itself exactly when the method ran on every element and chained,
    and otherwise the first result other than the instance, after the method
    ran on the elements before and on none behind.  That result is an error
    when the element has no instance or the method does not exist or is
    private, and then nothing is called on that element. *)
Theorem bridge_method_first (name method : jstr) (args : list V) (els : list nat) (w w' : W)
    (r : bridge_error E + returned I V)
    (Hm : method <> str "instance") (Hcall : bridge_method name method args els w = (w', r)) :
  (r = inr RThis /\ chained name method args els w w') \/
  (r <> inr RThis /\ exists pre e post w1, els = pre ++ e :: post /\ chained name method args pre w w1 /\
    match data_of e w1 with
    | None => r = inl (PriorToInit name method) /\ w' = w1
    | Some i =>
        if is_method method i w1 && negb (is_private method)
        then exists x, call method args i w1 = (w', x) /\
             match x with
             | inl err => r = inl (Thrown err)
             | inr AChain => False
             | inr (ACollection c) => r = inr (RPushed c)
             | inr (AValue v) => r = inr (RValue v)
             end
        else r = inl (NoSuchMethod name method) /\ w' = w1
    end).
Proof.
  unfold bridge_method in Hcall. rewrite decide_False in Hcall by (by intros [_ ?]).
  revert w Hcall. induction els as [|e els IH]; intros w; cbn [method_each]; [intros [= -> ->]; by left|].
  destruct (method_step name method args e w) as [w1 [r1|]] eqn:Hs.
  - intros [= -> ->]. right. unfold method_step in Hs. rewrite decide_False in Hs by done.
    assert (r <> inr RThis /\ match data_of e w with
      | None => r = inl (PriorToInit name method) /\ w' = w
      | Some i => if is_method method i w && negb (is_private method)
          then exists x, call method args i w = (w', x) /\ match x with
             | inl err => r = inl (Thrown err) | inr AChain => False
             | inr (ACollection c) => r = inr (RPushed c) | inr (AValue v) => r = inr (RValue v) end
          else r = inl (NoSuchMethod name method) /\ w' = w end) as [Hr Hd].
    { destruct (data_of e w) as [i|]; [|by simplify_eq].
      destruct (is_method method i w); cbn [negb orb andb] in *; [|by simplify_eq].
      destruct (is_private method); cbn [negb orb andb] in *; [by simplify_eq|].
      destruct (call method args i w) as [w2 [err|[|c|v]]]; simplify_eq; (split; [done|by eexists]). }
    split; [done|]. by exists [], e, els, w.
  - intros Hrest. destruct (IH w1 Hrest) as [[-> Hc]|(Hr & pre & e1 & post & w2 & -> & Hc & Hx)].
    + left. split; [done|]. by exists w1.
    + right. split; [done|]. exists (e :: pre), e1, post, w2. split; [done|]. split; [by exists w1|done].
Qed.

End laws.

(** ** The options of a collection of base widgets *)

Section base.
Context (fullName : jstr) (proto : hash).
#[local] Existing Instance base_host.
#[local] Existing Instance base_laws.
Notation host := (base_host fullName proto).

Definition options_at (e : nat) (w : widgets) : option hash := w_options <$> instances w e.

Lemma on_instance_options key v e w e' :
  options_at e' (on_instance (set_option key v) e w)
  = if decide (e' = e) then (fun i => w_options (set_option key v (i <| w_doc := shared_doc w |>))) <$> instances w e
    else options_at e' w.
Proof.
  unfold options_at, on_instance. destruct (instances w e) as [i|] eqn:Hi; cbn; [by case_decide|].
  case_decide; [subst; by rewrite Hi|done].
Qed.

Lemma set_simple_option key v i : split_dots key = [key] ->
  w_options (set_option key v i) = set_prop key v (w_options i).
Proof. intros Hk. unfold set_option, option_hash. rewrite Hk. cbn. apply setOption_options. Qed.

Lemma set_prop_twice k v h : set_prop k v (set_prop k v h) = set_prop k v h.
Proof.
  induction h as [|[k1 v1] h IH]; cbn; [by rewrite decide_True|].
  case_decide as Hd; cbn; [by rewrite decide_True|]. by rewrite decide_False, IH.
Qed.

Lemma set_option_each key v els w :
  split_dots key = [key] -> (forall e, e ∈ els -> is_Some (instances w e)) ->
  exists w', method_each (host := host) fullName (str "option") [OStr key; v] els w = (w', inr RThis) /\
    (forall e, options_at e w' = if decide (e ∈ els) then set_prop key v <$> options_at e w else options_at e w) /\
    (forall e, is_Some (instances w e) -> is_Some (instances w' e)).
Proof.
  intros Hk. revert w. induction els as [|e els IH]; intros w Hin; cbn [method_each].
  - exists w. split_and!; [done| |done]. intros e. by rewrite decide_False by (by intros ?%elem_of_nil).
  - destruct (Hin e) as [i Hi]; [by left|].
    assert (method_step (host := host) fullName (str "option") [OStr key; v] e w
            = (on_instance (set_option key v) e w, None)) as Hs.
    { unfold method_step. rewrite decide_False by done. cbn [data_of base_host]. rewrite Hi. cbn. done. }
    rewrite Hs. set (w1 := on_instance (set_option key v) e w).
    assert (forall e', is_Some (instances w e') -> is_Some (instances w1 e')) as Hsome.
    { intros e' Hs'. unfold w1, on_instance. rewrite Hi. cbn. case_decide; [by eexists|done]. }
    destruct (IH w1) as (w' & Hw' & Ho & Hs'). { intros e' He'. apply Hsome, Hin. by right. }
    exists w'. split; [done|]. split; [|by intros e' ?%Hsome%Hs'].
    intros e'. rewrite Ho. unfold w1. rewrite on_instance_options, Hi. cbn [fmap option_fmap option_map].
    rewrite set_simple_option by done. cbn [w_options set_field].
    destruct (decide (e' = e)) as [->|Hn].
    + rewrite (decide_True (P := e ∈ e :: els)) by (by left). unfold options_at. rewrite Hi. cbn.
      case_decide; [by rewrite set_prop_twice|done].
    + destruct (decide (e' ∈ els)) as [He|He].
      * by rewrite decide_True by (by right).
      * by rewrite decide_False by (by intros [?|?]%elem_of_cons).
Qed.

(** An option set on a whole collection is read back from every element of
    it: after [$( els ).name()] made the instances and
    [$( els ).name( "option", key, value )] returned the collection,
    [$( e ).name( "option", key )] returns the value for each [e] of the
    collection, and every other option is what it was. *)
Theorem bridge_option_roundtrip (options : hash) (els : list nat) (key : jstr) (v : ovalue) (w0 : widgets)
    (Hkey : split_dots key = [key]) (Hv : v <> OUndefined) :
  let w1 := (bridge_init (host := host) options [] els w0).1 in
  exists w2, bridge_method (host := host) fullName (str "option") [OStr key; v] els w1 = (w2, inr RThis) /\
    forall e, e ∈ els ->
      bridge_method (host := host) fullName (str "option") [OStr key] [e] w2 = (w2, inr (RValue v)) /\
      forall k, k <> key -> (get_prop k <$> options_at e w2) = (get_prop k <$> options_at e w1).
Proof.
  intros w1. destruct (bridge_init_data (host := host) options [] els w0) as (Hnew & _ & _). fold w1 in Hnew. clearbody w1.
  assert (forall e, e ∈ els -> is_Some (instances w1 e)) as Hin.
  { intros e He. destruct (Hnew e He) as [i Hi]. cbn in Hi. destruct (instances w1 e) eqn:Hx; [by eexists|discriminate Hi]. }
  destruct (set_option_each key v els w1 Hkey Hin) as (w2 & Hset & Ho & Hsome). exists w2.
  unfold bridge_method. rewrite !decide_False by (by intros [_ ?]). split; [done|]. intros e He.
  destruct (Hsome e (Hin e He)) as [i2 Hi2]. destruct (Hin e He) as [i1 Hi1].
  pose proof (Ho e) as Hoe. rewrite decide_True in Hoe by done. unfold options_at in Hoe |- *. rewrite Hi2, Hi1 in *.
  cbn in Hoe. injection Hoe as Hoe. split.
  - rewrite decide_False by (by intros [? _]). cbn [method_each]. unfold method_step. rewrite decide_False by done.
    cbn [data_of base_host]. rewrite Hi2. cbn [fmap option_fmap option_map is_method].
    replace (negb _ || _) with false by done. change (call (BridgeHost := host) (str "option") [OStr key] e w2) with (call_base (str "option") [OStr key] e w2).
    unfold call_base. rewrite !decide_False by done. rewrite Hi2. cbn [from_option].
    unfold option_get. rewrite Hkey, Hoe, get_set_prop, decide_True by done. by destruct v.
  - intros k Hk. cbn. by rewrite Hoe, get_set_prop, decide_False.
Qed.

End base.

(** ** Two sliders on a page *)

Definition no_widgets : widgets := {| instances := fun _ => None; shared_doc := demo_page |}.

Lemma bridge_option_roundtrip_witness :
  let h := base_host (str "ui-slider") demo_proto in
  let w1 := (bridge_init (host := h) demo_options [] [3%nat; 5%nat] no_widgets).1 in
  exists w2, bridge_method (host := h) (str "ui-slider") (str "option") [OStr (str "value"); ONum (num_of_Z 7)] [3%nat; 5%nat] w1
      = (w2, inr RThis) /\
    forall e, e ∈ [3%nat; 5%nat] ->
      bridge_method (host := h) (str "ui-slider") (str "option") [OStr (str "value")] [e] w2
        = (w2, inr (RValue (ONum (num_of_Z 7)))) /\
      forall k, k <> str "value" -> (get_prop k <$> options_at e w2) = (get_prop k <$> options_at e w1).
Proof.
  exact (bridge_option_roundtrip (str "ui-slider") demo_proto demo_options [3%nat; 5%nat] (str "value")
    (ONum (num_of_Z 7)) no_widgets ltac:(vm_compute; reflexivity) ltac:(discriminate)).
Defined.

(** The second element has no instance: the first is disabled, then the call
    throws. *)
Definition one_widget : widgets :=
  (bridge_init (host := base_host (str "ui-slider") demo_proto) demo_options [] [3%nat] no_widgets).1.
Definition half_disabled : widgets :=
  (bridge_method (host := base_host (str "ui-slider") demo_proto) (str "slider") (str "disable") [] [3%nat; 5%nat] one_widget).1.

Lemma half_disabled_throws :
  bridge_method (host := base_host (str "ui-slider") demo_proto) (str "slider") (str "disable") [] [3%nat; 5%nat] one_widget
  = (half_disabled, inl (PriorToInit (str "slider") (str "disable"))) /\
  get_prop (str "disabled") <$> options_at 3 half_disabled = Some (OBool true).
Proof.
  split; [|vm_compute; reflexivity]. unfold half_disabled, bridge_method. rewrite decide_False by (by intros [? _]).
  cbn [method_each]. unfold method_step at 1 3. rewrite !decide_False by done.
  assert (data_of (BridgeHost := base_host (str "ui-slider") demo_proto) 3 one_widget = Some 3%nat) as -> by (vm_compute; reflexivity).
  replace (negb _ || _) with false by (vm_compute; reflexivity).
  set (p := call _ _ _ _). assert (p = (on_instance disable 3 one_widget, inr AChain)) as -> by done.
  unfold method_step. rewrite !decide_False by done.
  assert (data_of (BridgeHost := base_host (str "ui-slider") demo_proto) 5 (on_instance disable 3 one_widget) = None) as ->
    by (vm_compute; reflexivity). done.
Qed.

Lemma bridge_method_first_witness :
  let r : bridge_error Empty_set + returned nat ovalue := inl (PriorToInit (str "slider") (str "disable")) in
  let h := base_host (str "ui-slider") demo_proto in
  (r = inr RThis /\ chained (host := h) (str "slider") (str "disable") [] [3%nat; 5%nat] one_widget half_disabled) \/
  (r <> inr RThis /\ exists pre e post w1, [3%nat; 5%nat] = pre ++ e :: post /\
    chained (host := h) (str "slider") (str "disable") [] pre one_widget w1 /\
    match data_of (BridgeHost := h) e w1 with
    | None => r = inl (PriorToInit (str "slider") (str "disable")) /\ half_disabled = w1
    | Some i =>
        if is_method (BridgeHost := h) (str "disable") i w1 && negb (is_private (str "disable"))
        then exists x, call (BridgeHost := h) (str "disable") [] i w1 = (half_disabled, x) /\
             match x with
             | inl err => r = inl (Thrown err)
             | inr AChain => False
             | inr (ACollection c) => r = inr (RPushed c)
             | inr (AValue v) => r = inr (RValue v)
             end
        else r = inl (NoSuchMethod (str "slider") (str "disable")) /\ half_disabled = w1
    end).
Proof.
  exact (bridge_method_first (host := base_host (str "ui-slider") demo_proto) (str "slider") (str "disable") []
    [3%nat; 5%nat] one_widget half_disabled (inl (PriorToInit (str "slider") (str "disable")))
    ltac:(discriminate) (proj1 half_disabled_throws)).
Defined.
