(* ===== verification/JsDate.v ===== *)
(** JavaScript dates: the proleptic Gregorian calendar of ECMAScript, a local
    time zone as an interface, and the Date operations the date picker calls.

    A Date is its time value, the milliseconds since 1 January 1970 UTC; what makes
    or changes a Date returns [None] when the result is invalid. *)
From S2P Require Import Prelude.

(** ** The calendar *)

(** DayFromYear *)
Definition day_from_year (y : Z) : Z :=
  365 * (y - 1970) + (y - 1969) / 4 - (y - 1901) / 100 + (y - 1601) / 400.

Definition is_leap (y : Z) : bool := (y mod 4 =? 0) && negb (y mod 100 =? 0) || (y mod 400 =? 0).

(** YearFromTime, of a day number: the year the day lies in is at most one away
    from the quotient by the mean length of a year. *)
Definition year_of_day (d : Z) : Z :=
  let g := 400 * d / 146097 + 1970 in
  if day_from_year (g + 1) <=? d then g + 1 else if d <? day_from_year g then g - 1 else g.

(** The days of the year before the month [m]. *)
Definition days_before (leap : bool) (m : Z) : Z :=
  match m with
  | 0 => 0 | 1 => 31 | 2 => if leap then 60 else 59
  | 3 => if leap then 91 else 90 | 4 => if leap then 121 else 120 | 5 => if leap then 152 else 151
  | 6 => if leap then 182 else 181 | 7 => if leap then 213 else 212 | 8 => if leap then 244 else 243
  | 9 => if leap then 274 else 273 | 10 => if leap then 305 else 304 | 11 => if leap then 335 else 334
  | _ => if leap then 366 else 365
  end.

Definition days_in_month (y m : Z) : Z := days_before (is_leap y) (m + 1) - days_before (is_leap y) m.

(** MonthFromTime, of the day within the year. *)
Definition month_of (leap : bool) (n : Z) : Z :=
  if n <? days_before leap 1 then 0 else if n <? days_before leap 2 then 1
  else if n <? days_before leap 3 then 2 else if n <? days_before leap 4 then 3
  else if n <? days_before leap 5 then 4 else if n <? days_before leap 6 then 5
  else if n <? days_before leap 7 then 6 else if n <? days_before leap 8 then 7
  else if n <? days_before leap 9 then 8 else if n <? days_before leap 10 then 9
  else if n <? days_before leap 11 then 10 else 11.

(** MakeDay *)
Definition make_day (year month date : Z) : Z :=
  let y := year + month / 12 in
  day_from_year y + days_before (is_leap y) (month mod 12) + (date - 1).

Definition day_month (d : Z) : Z :=
  let y := year_of_day d in month_of (is_leap y) (d - day_from_year y).
Definition day_date (d : Z) : Z :=
  let y := year_of_day d in
  d - day_from_year y - days_before (is_leap y) (day_month d) + 1.

(** WeekDay: 1 January 1970 was a Thursday. *)
Definition week_day (d : Z) : Z := (d + 4) mod 7.

(** ** Facts of the calendar *)

Lemma day_from_year_step y : day_from_year (y + 1) = day_from_year y + if is_leap y then 366 else 365.
Proof.
  unfold day_from_year, is_leap.
  destruct (Z.eqb_spec (y mod 4) 0), (Z.eqb_spec (y mod 100) 0), (Z.eqb_spec (y mod 400) 0); cbn [negb andb orb];
    Z.to_euclidean_division_equations; lia.
Qed.

Lemma day_from_year_mono y y' : y < y' -> day_from_year y + 365 <= day_from_year y'.
Proof. intros Hy. unfold day_from_year. Z.to_euclidean_division_equations. lia. Qed.

Lemma year_of_day_spec d : day_from_year (year_of_day d) <= d < day_from_year (year_of_day d + 1).
Proof.
  unfold year_of_day. set (g := 400 * d / 146097 + 1970).
  assert (day_from_year (g - 1) <= d < day_from_year (g + 2)) as Hg.
  { unfold g, day_from_year. Z.to_euclidean_division_equations. lia. }
  destruct (Z.leb_spec (day_from_year (g + 1)) d); [replace (g + 1 + 1) with (g + 2) by lia; lia|].
  destruct (Z.ltb_spec d (day_from_year g)); [replace (g - 1 + 1) with g by lia; lia|lia].
Qed.

Lemma year_of_day_unique d y : day_from_year y <= d < day_from_year (y + 1) -> year_of_day d = y.
Proof.
  intros Hy. pose proof (year_of_day_spec d) as Hs.
  destruct (Z.lt_trichotomy (year_of_day d) y) as [H|[H|H]]; [|done|].
  - destruct (Z.eq_dec (year_of_day d + 1) y) as [<-|]; [lia|].
    pose proof (day_from_year_mono (year_of_day d + 1) y). lia.
  - destruct (Z.eq_dec (y + 1) (year_of_day d)) as [He|]; [rewrite <- He in Hs; lia|].
    pose proof (day_from_year_mono (y + 1) (year_of_day d)). lia.
Qed.

Lemma month_cases (P : Z -> Prop) :
  P 0 -> P 1 -> P 2 -> P 3 -> P 4 -> P 5 -> P 6 -> P 7 -> P 8 -> P 9 -> P 10 -> P 11 ->
  forall m, 0 <= m < 12 -> P m.
Proof.
  intros P0 P1 P2 P3 P4 P5 P6 P7 P8 P9 P10 P11 m Hm.
  destruct (decide (m < 6)).
  - assert (m = 0 \/ m = 1 \/ m = 2 \/ m = 3 \/ m = 4 \/ m = 5) as [->|[->|[->|[->|[->| ->]]]]] by lia; done.
  - assert (m = 6 \/ m = 7 \/ m = 8 \/ m = 9 \/ m = 10 \/ m = 11) as [->|[->|[->|[->|[->| ->]]]]] by lia; done.
Qed.

(** Evaluates the table at known months. *)
Ltac eval_days :=
  repeat match goal with
  | |- context [ days_before ?l ?m ] =>
      let v := eval vm_compute in (days_before l m) in progress change (days_before l m) with v
  end.
Ltac split_ltb :=
  repeat match goal with |- context [ Z.ltb ?a ?b ] => destruct (Z.ltb_spec a b); [eval_days; lia|] end.

Lemma month_of_spec (leap : bool) n : 0 <= n < 365 + (if leap then 1 else 0) ->
  0 <= month_of leap n < 12 /\ days_before leap (month_of leap n) <= n < days_before leap (month_of leap n + 1).
Proof. intros Hn. destruct leap; cbn [month_of days_before]; unfold month_of; cbn [days_before]; split_ltb; eval_days; lia. Qed.

Lemma month_of_unique leap n m : 0 <= m < 12 -> days_before leap m <= n < days_before leap (m + 1) -> month_of leap n = m.
Proof.
  intros Hm. revert m Hm. apply (month_cases (fun m => _ -> month_of leap n = m)); destruct leap;
    eval_days; intros Hn; unfold month_of; cbn [days_before]; split_ltb; lia.
Qed.

Lemma days_in_month_range y m : 0 <= m < 12 -> 28 <= days_in_month y m <= 31.
Proof. unfold days_in_month. destruct (is_leap y); revert m; apply month_cases; eval_days; lia. Qed.

Lemma days_before_range (leap : bool) m : 0 <= m < 12 ->
  0 <= days_before leap m /\ days_before leap (m + 1) <= 365 + (if leap then 1 else 0).
Proof. destruct leap; revert m; apply month_cases; eval_days; lia. Qed.

Lemma days_before_mono leap j m : 0 <= j <= m -> m < 12 -> days_before leap j <= days_before leap m.
Proof.
  intros Hj Hm. assert (forall x, 0 <= x < 12 -> days_before leap x <= days_before leap (x + 1)) as Hs.
  { destruct leap; apply month_cases; eval_days; lia. }
  assert (forall k, j + Z.of_nat k < 12 -> days_before leap j <= days_before leap (j + Z.of_nat k)) as Hk.
  { induction k as [|k IH]; intros Hk; [by rewrite Z.add_0_r|].
    replace (j + Z.of_nat (S k)) with (j + Z.of_nat k + 1) by lia.
    etransitivity; [apply IH; lia|apply Hs; lia]. }
  replace m with (j + Z.of_nat (Z.to_nat (m - j))) by lia. apply Hk. lia.
Qed.

(** The calendar date of a day number that was made from a calendar date. *)
Lemma make_day_fields y m d : 0 <= m < 12 -> 1 <= d <= days_in_month y m ->
  let n := make_day y m d in year_of_day n = y /\ day_month n = m /\ day_date n = d.
Proof.
  intros Hm Hd n.
  assert (n = day_from_year y + days_before (is_leap y) m + (d - 1)) as Hn.
  { unfold n, make_day. rewrite Z.div_small, Z.mod_small by lia. by rewrite Z.add_0_r. }
  pose proof (days_before_range (is_leap y) m Hm) as Hb. pose proof (day_from_year_step y) as Hs.
  unfold days_in_month in Hd.
  assert (year_of_day n = y) as Hy.
  { apply year_of_day_unique. rewrite Hs. destruct (is_leap y); lia. }
  split; [done|]. assert (day_month n = m) as Hmo.
  { unfold day_month. cbv zeta. rewrite Hy. apply month_of_unique; lia. }
  split; [done|]. unfold day_date. cbv zeta. rewrite Hy, Hmo. lia.
Qed.

(** Every day number is made from its own calendar date. *)
Lemma day_fields n :
  0 <= day_month n < 12 /\ 1 <= day_date n <= days_in_month (year_of_day n) (day_month n) /\
  make_day (year_of_day n) (day_month n) (day_date n) = n.
Proof.
  pose proof (year_of_day_spec n) as Hy. pose proof (day_from_year_step (year_of_day n)) as Hs.
  destruct (month_of_spec (is_leap (year_of_day n)) (n - day_from_year (year_of_day n))) as [Hm Hd].
  { destruct (is_leap _); lia. }
  assert (day_month n = month_of (is_leap (year_of_day n)) (n - day_from_year (year_of_day n))) as Hmo by done.
  rewrite <- Hmo in *. split; [done|]. split.
  - unfold days_in_month, day_date. cbv zeta. lia.
  - unfold make_day. rewrite Z.div_small, Z.mod_small, Z.add_0_r by done. unfold day_date. cbv zeta. lia.
Qed.

Lemma make_day_add y m d k : make_day y m (d + k) = make_day y m d + k.
Proof. unfold make_day. cbv zeta. lia. Qed.

(** ** Local time *)

Definition msPerHour : Z := 3600000.
Definition msPerDay : Z := 86400000.

(** The time zone of the browser: the local time of a time value, and the time
    value of a local time. *)
Class Zone := { local_time : Z -> Z; utc_time : Z -> Z }.

(** TimeClip: Dates reach a hundred million days from 1970; beyond, a Date is
    invalid, its time value NaN, here [None]. *)
Definition maxTime : Z := 8640000000000000.
Definition time_clip (t : Z) : option Z := if Z.abs t <=? maxTime then Some t else None.

Section date.
Context `{Zone}.

(** The getters, of a valid date. *)
Definition local_day (t : Z) : Z := local_time t / msPerDay.
Definition getFullYear (t : Z) : Z := year_of_day (local_day t).
Definition getMonth (t : Z) : Z := day_month (local_day t).
Definition getDate (t : Z) : Z := day_date (local_day t).
Definition getDay (t : Z) : Z := week_day (local_day t).
Definition getHours (t : Z) : Z := (local_time t mod msPerDay) / msPerHour.

(** [new Date( year, month, date )]: two-digit years are of the 20th century. *)
Definition new_Date (year month date : Z) : option Z :=
  let yr := if (0 <=? year) && (year <=? 99) then 1900 + year else year in
  time_clip (utc_time (make_day yr month date * msPerDay)).

(** [date.setHours( h )] keeps minutes, seconds and milliseconds;
    [setMinutes( 0 )], [setSeconds( 0 )] and [setMilliseconds( 0 )] do not.  The
    date is valid, but what it is set to need not be. *)
Definition setHours (h : Z) (t : Z) : option Z :=
  time_clip (utc_time (local_day t * msPerDay + h * msPerHour + local_time t mod msPerHour)).
Definition setMinutes_0 (t : Z) : option Z :=
  time_clip (utc_time (local_day t * msPerDay + getHours t * msPerHour + local_time t mod 60000)).
Definition setSeconds_0 (t : Z) : option Z := time_clip (utc_time (local_time t / 60000 * 60000 + local_time t mod 1000)).
Definition setMilliseconds_0 (t : Z) : option Z := time_clip (utc_time (local_time t / 1000 * 1000)).

(** [date.setDate( d )] and [date.setMonth( m )] keep the time of the day. *)
Definition setDate (d : Z) (t : Z) : option Z :=
  time_clip (utc_time (make_day (getFullYear t) (getMonth t) d * msPerDay + local_time t mod msPerDay)).
Definition setMonth (m : Z) (t : Z) : option Z :=
  time_clip (utc_time (make_day (getFullYear t) m (getDate t) * msPerDay + local_time t mod msPerDay)).

(** ** Clocks

    A zone may be any: clocks are put forward and back, and places have changed
    to the other side of the date line, where a whole day is missing.  What a
    theorem needs of the clock it says of the days it is about. *)

(** There is a Date of that local time, and the clock shows it. *)
Definition on_clock (l : Z) : Prop := Z.abs (utc_time l) <= maxTime /\ local_time (utc_time l) = l.

(** There are Dates at the beginning of the day, and if the clock skips part of
    its first hour it is put forward by less than twelve hours. *)
Definition day_begins (d : Z) : Prop := forall s, 0 <= s < msPerHour ->
  let l := d * msPerDay + s in Z.abs (utc_time l) <= maxTime /\ l <= local_time (utc_time l) < l + 12 * msPerHour.

(** Every day of the year begins so, and the last day before it and the first one
    after it, and the offsets from universal time at their midnights are at most
    ten hours apart. *)
Definition regular_year (y : Z) : Prop := forall d, day_from_year y - 1 <= d <= day_from_year (y + 1) ->
  day_begins d /\
  Z.abs ((utc_time (d * msPerDay) - d * msPerDay) - (utc_time ((day_from_year y - 1) * msPerDay) - (day_from_year y - 1) * msPerDay))
    <= 10 * msPerHour.

Lemma day_begins_at d s : day_begins d -> 0 <= s < msPerHour ->
  let t := utc_time (d * msPerDay + s) in time_clip t = Some t /\ local_day t = d /\ s <= local_time t - d * msPerDay < s + 12 * msPerHour.
Proof.
  intros Hd Hs t. destruct (Hd s Hs) as [Hc Hl]. fold t in Hc, Hl. split.
  - unfold time_clip. by replace (Z.abs t <=? maxTime) with true by lia.
  - split; [|lia]. unfold local_day. symmetry. apply Z.div_unique with (local_time t - d * msPerDay); unfold msPerDay, msPerHour in *; lia.
Qed.

(** A date made from a calendar date has that calendar date. *)
Lemma new_Date_day y m d : ~ 0 <= y <= 99 -> day_begins (make_day y m d) ->
  exists t, new_Date y m d = Some t /\ t = utc_time (make_day y m d * msPerDay) /\ local_day t = make_day y m d /\
    0 <= local_time t - make_day y m d * msPerDay < 12 * msPerHour.
Proof.
  intros Hy Hb. destruct (day_begins_at _ 0 Hb ltac:(unfold msPerHour; lia)) as (Hc & Hd & Hl). rewrite Z.add_0_r in Hc, Hd, Hl.
  eexists. unfold new_Date. replace ((0 <=? y) && (y <=? 99)) with false by lia. split_and!; [exact Hc|done|done|lia|lia].
Qed.

End date.

(** Universal time. *)
Definition zone_utc : Zone := {| local_time t := t; utc_time t := t |}.
Lemma utc_day_begins d : Z.abs d <= 99999999 -> @day_begins zone_utc d.
Proof. intros Hd s Hs. cbn. unfold maxTime, msPerDay, msPerHour in *. lia. Qed.
Lemma utc_regular_year y : Z.abs (day_from_year y) <= 99990000 -> @regular_year zone_utc y.
Proof.
  intros Hy d Hd. split; [|cbn; unfold msPerHour; lia]. apply utc_day_begins. rewrite day_from_year_step in Hd. destruct (is_leap y); lia.
Qed.
