(* ===== verification/DateFormat.v ===== *)
(** [$.datepicker.formatDate] and [$.datepicker.parseDate] (jquery-ui.js), the
    characters a format admits, and ISO week numbers. *)
From Stdlib Require Import String.
From S2P Require Import Prelude JsNumber JsMath JsString JsDate.

(** ** Texts *)

(** [new RegExp( "^\\d{min,size}" )]: the digits at the start, [size] at most. *)
Definition is_digit (c : Z) : bool := (48 <=? c) && (c <=? 57).
Fixpoint take_digits (size : nat) (s : jstr) : jstr :=
  match size, s with
  | S size, c :: s => if is_digit c then c :: take_digits size s else []
  | _, _ => []
  end.

(** The white space of [\s]. *)
Definition is_space (c : Z) : bool :=
  ((9 <=? c) && (c <=? 13)) || (c =? 32) || (c =? 160) || (c =? 5760) || ((8192 <=? c) && (c <=? 8202))
  || (c =? 8232) || (c =? 8233) || (c =? 8239) || (c =? 8287) || (c =? 12288) || (c =? 65279).

(** [toLowerCase] of ASCII text. *)
Definition lower_char (c : Z) : Z := if (65 <=? c) && (c <=? 90) then c + 32 else c.
Definition toLowerCase (s : jstr) : jstr := map lower_char s.

(** [parseInt( s, 10 )]; [None] is NaN. *)
Fixpoint skip_spaces (s : jstr) : jstr :=
  match s with c :: s' => if is_space c then skip_spaces s' else s | [] => [] end.
Definition parseInt (s : jstr) : option Z :=
  let s := skip_spaces s in
  let '(neg, s) := match s with
                   | c :: s' => if c =? 45 then (true, s') else if c =? 43 then (false, s') else (false, s)
                   | [] => (false, [])
                   end in
  let ds := take_digits (length s) s in
  match ds with
  | [] => None
  | _ => (fun n => if neg : bool then - n else n) <$> digits_value 10 0 ds
  end.

(** [while ( num.length < len ) { num = "0" + num; }] *)
Fixpoint pad_left (fuel len : nat) (s : jstr) : jstr :=
  match fuel with
  | O => s
  | S fuel => if (length s <? len)%nat then pad_left fuel len (48 :: s) else s
  end.

(** The text of an integral Number below 10^21: the shortest digits that round to
    it, the closest to it among them, and zeros. *)
Definition shortest (x : number) (v : Z) (scale : Z) : option Z :=
  let candidates := [v / scale * scale; (v / scale + 1) * scale] in
  match filter (fun c => num_eqb (num_of_Z c) x = true) candidates with
  | [] => None
  | [c] => Some c
  | c :: c' :: _ => Some (if v - c <=? c' - v then c else c')
  end.
Fixpoint shortest_digits (fuel : nat) (x : number) (v scale : Z) : Z :=
  match fuel with
  | O => v
  | S fuel => match shortest x v scale with Some c => c | None => shortest_digits fuel x v (scale / 10) end
  end.
Definition number_text (x : number) : jstr :=
  let v := num_trunc x in
  if v <? 0 then str "-" ++ int_to_string 10 (shortest_digits 21 (num_opp x) (- v) (10 ^ 20))
  else int_to_string 10 (shortest_digits 21 x v (10 ^ 20)).

(** ** Settings *)

Inductive cutoff := CutNumber (n : Z) | CutString (s : jstr).

(** The settings of a call; [None] where the property is missing. *)
Record date_settings := {
  shortYearCutoff : option cutoff;
  dayNamesShort : option (list jstr); dayNames : option (list jstr);
  monthNamesShort : option (list jstr); monthNames : option (list jstr);
}.

(** The texts in [regional]. *)
Definition default_monthNames : list jstr := map str
  ["January"; "February"; "March"; "April"; "May"; "June"; "July"; "August"; "September"; "October"; "November"; "December"]%string.
Definition default_monthNamesShort : list jstr := map str
  ["Jan"; "Feb"; "Mar"; "Apr"; "May"; "Jun"; "Jul"; "Aug"; "Sep"; "Oct"; "Nov"; "Dec"]%string.
Definition default_dayNames : list jstr := map str
  ["Sunday"; "Monday"; "Tuesday"; "Wednesday"; "Thursday"; "Friday"; "Saturday"]%string.
Definition default_dayNamesShort : list jstr := map str
  ["Sun"; "Mon"; "Tue"; "Wed"; "Thu"; "Fri"; "Sat"]%string.
Definition default_cutoff : cutoff := CutString (str "+10").

Definition no_settings : date_settings :=
  {| shortYearCutoff := None; dayNamesShort := None; dayNames := None; monthNamesShort := None; monthNames := None |}.

(** [( settings ? settings.dayNames : null ) || this._defaults.dayNames], etc. *)
Definition day_names (long : bool) (s : date_settings) : list jstr :=
  if long then default default_dayNames (dayNames s) else default default_dayNamesShort (dayNamesShort s).
Definition month_names (long : bool) (s : date_settings) : list jstr :=
  if long then default default_monthNames (monthNames s) else default default_monthNamesShort (monthNamesShort s).

(** The cutoff: zero and the empty string count as missing. *)
Definition cutoff_setting (s : date_settings) : cutoff :=
  match shortYearCutoff s with
  | None | Some (CutNumber 0) | Some (CutString []) => default_cutoff
  | Some c => c
  end.

(** ** Formats *)

Definition quote : Z := 39.

(** [lookAhead( match )] at a position: whether the next character of the format
    is the same; if so it is skipped. *)
Definition lookAhead (match_ : Z) (rest : jstr) : bool :=
  match rest with c :: _ => c =? match_ | [] => false end.
Definition skip1 (rest : jstr) : jstr := match rest with _ :: rest' => rest' | [] => rest end.

(** The letters of a format: d D o m M y @ ! *)
Definition is_directive (c : Z) : bool :=
  existsb (Z.eqb c) [100; 68; 111; 109; 77; 121; 64; 33].
(** [formatDate] does not look ahead after @ and ! *)
Definition is_pure (c : Z) : bool := (c =? 64) || (c =? 33).

(** [_ticksTo1970] *)
Definition ticksTo1970 : number :=
  num_mul (num_of_Z (((1970 - 1) * 365 + 1970 / 4 - 1970 / 100 + 1970 / 400) * 24 * 60 * 60)) (num_of_Z 10000000).

(** The standard formats. *)
Definition ATOM : jstr := str "yy-mm-dd".
Definition COOKIE : jstr := str "D, dd M yy".
Definition ISO_8601 : jstr := str "yy-mm-dd".
Definition RFC_822 : jstr := str "D, d M y".
Definition RFC_850 : jstr := str "DD, dd-M-y".
Definition RFC_1036 : jstr := str "D, d M y".
Definition RFC_1123 : jstr := str "D, d M yy".
Definition RFC_2822 : jstr := str "D, d M yy".
Definition RSS : jstr := str "D, d M y".
Definition TICKS : jstr := str "!".
Definition TIMESTAMP : jstr := str "@".
Definition W3C : jstr := str "yy-mm-dd".
Definition standard_formats : list jstr :=
  [ATOM; COOKIE; ISO_8601; RFC_822; RFC_850; RFC_1036; RFC_1123; RFC_2822; RSS; TICKS; TIMESTAMP; W3C].
Definition default_dateFormat : jstr := str "mm/dd/yy".

Section format.
Context `{Zone}.

(** ** formatDate *)

(** The text of an integral Number; [None] is NaN. *)
Definition num_text (n : option Z) : jstr := match n with Some n => int_to_string 10 n | None => str "NaN" end.

(** [formatNumber( match, value, len )] after its look-ahead *)
Definition formatNumber (doubled : bool) (value : option Z) (len : nat) : jstr :=
  let num := num_text value in
  if doubled then pad_left len len num else num.

(** [longNames[ value ]] or [shortNames[ value ]], appended to a string *)
Definition formatName (names : list jstr) (value : option Z) : jstr :=
  default (str "undefined") (v ← value; names !! Z.to_nat v).

(** The days between two dates as [Math.round( ( a - b ) / 86400000 )]. *)
Definition round_days (ms : Z) : Z := num_trunc (num_round (num_div (num_of_Z ms) (num_of_Z 86400000))).

(** The day of the year, as the directive o computes it. *)
Definition day_of_year (date : Z) : option Z :=
  a ← new_Date (getFullYear date) (getMonth date) (getDate date);
  b ← new_Date (getFullYear date) 0 0;
  Some (round_days (a - b)).

(** One directive, of a date that may be invalid. *)
Definition format_item (s : date_settings) (date : option Z) (c : Z) (doubled : bool) : jstr :=
  if c =? 100 then formatNumber doubled (getDate <$> date) 2
  else if c =? 68 then formatName (day_names doubled s) (getDay <$> date)
  else if c =? 111 then formatNumber doubled (date ≫= day_of_year) 3
  else if c =? 109 then formatNumber doubled ((fun d => getMonth d + 1) <$> date) 2
  else if c =? 77 then formatName (month_names doubled s) (getMonth <$> date)
  else if c =? 121 then
    if doubled then num_text (getFullYear <$> date)
    else
      let y := (fun d => Z.rem (getFullYear d) 100) <$> date in
      (if default false ((fun y => y <? 10) <$> y) then str "0" else []) ++ num_text y
  else if c =? 64 then num_text date
  else match date with
       | Some t => number_text (num_add (num_mul (num_of_Z t) (num_of_Z 10000)) ticksTo1970)
       | None => str "NaN"
       end.

(** The loop over the format. *)
Fixpoint format_loop (s : date_settings) (date : option Z) (format : jstr) (literal : bool) : jstr :=
  match format with
  | [] => []
  | c :: rest =>
      if literal then
        if c =? quote then
          if lookAhead quote rest then quote :: format_loop s date (skip1 rest) true
          else format_loop s date rest false
        else c :: format_loop s date rest true
      else if is_directive c then
        let doubled := negb (is_pure c) && lookAhead c rest in
        format_item s date c doubled ++ format_loop s date (if doubled then skip1 rest else rest) false
      else if c =? quote then
        if lookAhead quote rest then quote :: format_loop s date (skip1 rest) false
        else format_loop s date rest true
      else c :: format_loop s date rest false
  end.

(** [formatDate( format, date, settings )]; the date is null or a Date object,
    which may be invalid. *)
Definition formatDate (format : jstr) (date : option (option Z)) (s : date_settings) : jstr :=
  match date with Some date => format_loop s date format false | None => [] end.

(** ** parseDate *)

Inductive parse_error :=
  | InvalidArguments
  | MissingNumber (position : nat)
  | UnknownName (position : nat)
  | UnexpectedLiteral (position : nat)
  | ExtraCharacters (extra : jstr)
  | InvalidDate
  | Unfinished.      (* no exception: the loop over the months does not end *)

(** The variables of [parseDate]; a field is [None] when it is NaN. *)
Record parsed := { iValue : nat; year : option Z; month : option Z; day : option Z; doy : Z }.
#[export] Instance eta_parsed : Eta parsed := fun p =>
  {| iValue := iValue p; year := year p; month := month p; day := day p; doy := doy p |}.

Definition initial_parsed : parsed :=
  {| iValue := 0; year := Some (-1); month := Some (-1); day := Some (-1); doy := -1 |}.

(** The number of digits of a directive. *)
Definition number_size (match_ : Z) (doubled : bool) : nat :=
  if match_ =? 64 then 14 else if match_ =? 33 then 20
  else if (match_ =? 121) && doubled then 4 else if match_ =? 111 then 3 else 2.

(** [getNumber( match )] after its look-ahead: the number and the new position *)
Definition getNumber (match_ : Z) (doubled : bool) (value : jstr) (p : parsed) : parse_error + (Z * parsed) :=
  let size := number_size match_ doubled in
  let minSize := if match_ =? 121 then size else 1%nat in
  let num := take_digits size (drop (iValue p) value) in
  if (length num <? minSize)%nat then inl (MissingNumber (iValue p))
  else match digits_value 10 0 num with
       | None => inl (MissingNumber (iValue p))
       | Some n => inr (n, p <| iValue := (iValue p + length num)%nat |>)
       end.

(** [names.sort( ... )]: longer names first, names of one length in order. *)
Fixpoint insert_name (x : nat * jstr) (l : list (nat * jstr)) : list (nat * jstr) :=
  match l with
  | [] => [x]
  | y :: l' => if (length (snd x) <=? length (snd y))%nat then y :: insert_name x l' else x :: l
  end.
Definition sort_names (names : list jstr) : list (nat * jstr) :=
  fold_left (fun l x => insert_name x l) (imap pair names) [].

(** [getName( match, shortNames, longNames )] after its look-ahead *)
Definition name_at (value : jstr) (pos : nat) (name : jstr) : bool :=
  bool_decide (toLowerCase (take (length name) (drop pos value)) = toLowerCase name).
Definition getName (names : list jstr) (value : jstr) (p : parsed) : parse_error + (Z * parsed) :=
  match List.find (fun x => name_at value (iValue p) (snd x)) (sort_names names) with
  | None => inl (UnknownName (iValue p))
  | Some (index, name) => inr (Z.of_nat index + 1, p <| iValue := (iValue p + length name)%nat |>)
  end.

(** [checkLiteral()] against the character [c] of the format *)
Definition checkLiteral (c : Z) (value : jstr) (p : parsed) : parse_error + parsed :=
  if bool_decide (value !! iValue p = Some c) then inr (p <| iValue := S (iValue p) |>)
  else inl (UnexpectedLiteral (iValue p)).

(** [new Date( ( ticks - this._ticksTo1970 ) / 10000 )]; [None] is an invalid
    date. *)
Definition date_of_ticks (ticks : Z) : option Z :=
  time_clip (num_trunc (num_div (num_sub (num_of_Z ticks) ticksTo1970) (num_of_Z 10000))).

Definition set_date (date : option Z) (p : parsed) : parsed :=
  p <| year := getFullYear <$> date |> <| month := (fun d => getMonth d + 1) <$> date |> <| day := getDate <$> date |>.

Definition sum_bind {E A B} (x : E + A) (f : A -> E + B) : E + B :=
  match x with inl e => inl e | inr a => f a end.

(** One directive. *)
Definition parse_item (s : date_settings) (value : jstr) (c : Z) (doubled : bool) (p : parsed) : parse_error + parsed :=
  if c =? 100 then sum_bind (getNumber c doubled value p) (fun '(n, p) => inr (p <| day := Some n |>))
  else if c =? 68 then sum_bind (getName (day_names doubled s) value p) (fun '(_, p) => inr p)
  else if c =? 111 then sum_bind (getNumber c doubled value p) (fun '(n, p) => inr (p <| doy := n |>))
  else if c =? 109 then sum_bind (getNumber c doubled value p) (fun '(n, p) => inr (p <| month := Some n |>))
  else if c =? 77 then sum_bind (getName (month_names doubled s) value p) (fun '(n, p) => inr (p <| month := Some n |>))
  else if c =? 121 then sum_bind (getNumber c doubled value p) (fun '(n, p) => inr (p <| year := Some n |>))
  else if c =? 64 then sum_bind (getNumber c doubled value p) (fun '(n, p) => inr (set_date (Some n) p))
  else sum_bind (getNumber c doubled value p) (fun '(n, p) => inr (set_date (date_of_ticks n) p)).

(** The loop over the format. *)
Fixpoint parse_loop (s : date_settings) (value format : jstr) (literal : bool) (p : parsed) : parse_error + parsed :=
  match format with
  | [] => inr p
  | c :: rest =>
      if literal then
        if c =? quote then
          if lookAhead quote rest
          then sum_bind (checkLiteral quote value p) (parse_loop s value (skip1 rest) true)
          else parse_loop s value rest false p
        else sum_bind (checkLiteral c value p) (parse_loop s value rest true)
      else if is_directive c then
        let doubled := lookAhead c rest in
        sum_bind (parse_item s value c doubled p) (parse_loop s value (if doubled then skip1 rest else rest) false)
      else if c =? quote then
        if lookAhead quote rest
        then sum_bind (checkLiteral quote value p) (parse_loop s value (skip1 rest) false)
        else parse_loop s value rest true p
      else sum_bind (checkLiteral c value p) (parse_loop s value rest false)
  end.

(** [_daylightSavingAdjust( date )] of a valid date *)
Definition daylightSavingAdjust (date : Z) : option Z :=
  setHours (if 12 <? getHours date then getHours date + 2 else 0) date.
(** [_daylightSavingAdjust( new Date( year, month, day ) )] *)
Definition day_start (year month day : Z) : option Z := new_Date year month day ≫= daylightSavingAdjust.

(** [_getDaysInMonth( year, month )]; [None] is NaN. *)
Definition getDaysInMonth (year month : Z) : option Z := (fun date => 32 - getDate date) <$> day_start year month 32.

(** The loop over the months of a day of the year: a month has 28 days at least,
    so that 36 rounds bring down any number of three digits.  With a NaN the loop
    does not end. *)
Fixpoint month_loop (fuel : nat) (year month day : Z) : option (Z * Z) :=
  match fuel with
  | O => None
  | S fuel =>
      dim ← getDaysInMonth year (month - 1);
      if day <=? dim then Some (month, day) else month_loop fuel year (month + 1) (day - dim)
  end.

(** The full year of what was read: the current one when there is none, and two
    digits are completed according to the cutoff. *)
Definition full_year (s : date_settings) (now : Z) (y : Z) : Z :=
  let this_year := getFullYear now in
  let cut := match cutoff_setting s with
             | CutNumber n => Some n
             | CutString t => (fun n => Z.rem this_year 100 + n) <$> parseInt t
             end in
  if y =? -1 then this_year
  else if y <? 100 then
    y + this_year - Z.rem this_year 100 + (if default false ((fun cut => y <=? cut) <$> cut) then 0 else -100)
  else y.

(** The date of what was read. *)
Definition finish_date (s : date_settings) (now : Z) (p : parsed) : parse_error + Z :=
  let year := full_year s now <$> year p in
  let month_day :=
    if -1 <? doy p then
      match year with
      | None => None
      | Some y => match month_loop 36 y 1 (doy p) with Some (m, d) => Some (Some m, Some d) | None => None end
      end
    else Some (month p, day p) in
  match month_day with
  | None => inl Unfinished
  | Some (month, day) =>
      match year, month, day with
      | Some y, Some m, Some d =>
          match day_start y (m - 1) d with
          | Some date =>
              if (getFullYear date =? y) && (getMonth date + 1 =? m) && (getDate date =? d) then inr date
              else inl InvalidDate
          | None => inl InvalidDate
          end
      | _, _, _ => inl InvalidDate
      end
  end.

(** [/^\s+/.test( extra )] *)
Definition check_extra (value : jstr) (p : parsed) : parse_error + parsed :=
  match drop (iValue p) value with
  | [] => inr p
  | (c :: _) as extra => if is_space c then inr p else inl (ExtraCharacters extra)
  end.

(** [parseDate( format, value, settings )] at the time [now]; [None] as the
    format or the value is null. *)
Definition parseDate (now : Z) (format value : option jstr) (s : date_settings) : parse_error + option Z :=
  match format, value with
  | Some format, Some value =>
      if decide (value = []) then inr None
      else
        sum_bind (parse_loop s value format false initial_parsed) (fun p =>
        sum_bind (check_extra value p) (fun p =>
        sum_bind (finish_date s now p) (fun date => inr (Some date))))
  | _, _ => inl InvalidArguments
  end.

(** ** The characters of a format *)

Definition all_digits : jstr := str "0123456789".

(** [_possibleChars( format )]; [None] accepts anything. *)
Fixpoint possible_loop (format : jstr) (literal : bool) (chars : jstr) : option jstr :=
  match format with
  | [] => Some chars
  | c :: rest =>
      if literal then
        if c =? quote then
          if lookAhead quote rest then possible_loop (skip1 rest) true (chars ++ [quote])
          else possible_loop rest false chars
        else possible_loop rest true (chars ++ [c])
      else if existsb (Z.eqb c) [100; 109; 121; 64] then possible_loop rest false (chars ++ all_digits)
      else if (c =? 68) || (c =? 77) then None
      else if c =? quote then
        if lookAhead quote rest then possible_loop (skip1 rest) false (chars ++ [quote])
        else possible_loop rest true chars
      else possible_loop rest false (chars ++ [c])
  end.
Definition possibleChars (format : jstr) : option jstr := possible_loop format false [].

(** ** Weeks *)

(** [iso8601Week( date )]; [None] is NaN. *)
Definition iso8601Week (date : Z) : option Z :=
  checkDate ← setDate (getDate date + 4 - (if getDay date =? 0 then 7 else getDay date)) date;
  let time := checkDate in
  checkDate ← setMonth 0 checkDate;
  checkDate ← setDate 1 checkDate;
  Some (round_days (time - checkDate) / 7 + 1).

(** [noWeekends( date )] *)
Definition noWeekends (date : Z) : bool := (0 <? getDay date) && (getDay date <? 6).

End format.
