(* ===== verification/DateFormatProps.v ===== *)
(** What the date formats guarantee: a format reads as a list of items for
    printing and for parsing alike, and a date printed by a format that
    determines it is parsed back to the same day. *)
From Stdlib Require Import String.
From S2P Require Import Prelude JsNumber JsMath JsString JsDate DateFormat.

(** ** Formats as lists of items *)

Inductive item := Lit (c : Z) | Dir (c : Z) (doubled : bool).
#[export] Instance item_eq_dec : EqDecision item.
Proof. solve_decision. Defined.

Fixpoint items (format : jstr) (literal : bool) : list item :=
  match format with
  | [] => []
  | c :: rest =>
      if literal then
        if c =? quote then
          if lookAhead quote rest then Lit quote :: items (skip1 rest) true else items rest false
        else Lit c :: items rest true
      else if is_directive c then
        Dir c (lookAhead c rest) :: items (if lookAhead c rest then skip1 rest else rest) false
      else if c =? quote then
        if lookAhead quote rest then Lit quote :: items (skip1 rest) false else items rest true
      else Lit c :: items rest false
  end.

(** A format by strong induction on its length, for the skipped characters. *)
Lemma format_ind (P : jstr -> Prop) :
  P [] -> (forall c rest, P rest -> P (skip1 rest) -> P (c :: rest)) -> forall f, P f.
Proof.
  intros H0 HS f. assert (P f /\ P (skip1 f)) as [H _]; [|done].
  induction f as [|c f [IH1 IH2]]; [done|]. split; [by apply HS|done].
Qed.

Section tokens.
Context `{Zone}.
Implicit Types (s : date_settings) (date : option Z).


(** A doubled @ or ! is one item for the parser only. *)
Definition plain_item (i : item) : bool := match i with Dir c true => negb (is_pure c) | _ => true end.





End tokens.

(** ** Numbers in texts *)

Definition digit_text (s : jstr) : Prop := Forall (fun c => is_digit c = true) s.

Lemma digits_digit_text fuel z : 0 <= z -> digit_text (digits fuel 10 z).
Proof.
  revert z. induction fuel as [|fuel IH]; intros z Hz; cbn [digits]; [constructor|].
  apply Forall_app. split; [destruct (z <? 10); [constructor|apply IH, Z.div_pos; lia]|].
  constructor; [|constructor]. pose proof (Z.mod_pos_bound z 10 ltac:(lia)).
  unfold is_digit, digit_char. replace (z mod 10 <? 10) with true by lia. lia.
Qed.

Lemma length_digits_le fuel z k : 0 <= z < 10 ^ Z.of_nat (S k) -> (length (digits fuel 10 z) <= S k)%nat.
Proof.
  revert z k. induction fuel as [|fuel IH]; intros z k Hz; cbn [digits length]; [lia|].
  rewrite length_app. cbn [length]. destruct (Z.ltb_spec z 10); cbn [length]; [lia|].
  destruct k as [|k]; [cbn in Hz; lia|].
  rewrite (Nat2Z.inj_succ (S k)), Z.pow_succ_r in Hz by lia.
  pose proof (IH (z / 10) k ltac:(split; [apply Z.div_pos; lia|apply Z.div_lt_upper_bound; lia])). lia.
Qed.

(** A natural number in a text: digits, as many as it takes, with its value. *)
Lemma number_text_spec n k : 0 <= n < 10 ^ Z.of_nat (S k) ->
  let t := int_to_string 10 n in
  digit_text t /\ (1 <= length t <= S k)%nat /\ digits_value 10 0 t = Some n.
Proof.
  intros Hn t. assert (t = digits (S (Z.to_nat (Z.log2 n))) 10 n) as Ht.
  { unfold t, int_to_string. replace (n <? 0) with false by lia. by rewrite Z.abs_eq by lia. }
  split; [rewrite Ht; apply digits_digit_text; lia|]. split; [|apply int_to_string_value; lia].
  rewrite Ht. split; [cbn [digits]; rewrite length_app; cbn; lia|by apply length_digits_le].
Qed.

Lemma pad_left_spec len fuel s : (len <= fuel + length s)%nat ->
  pad_left fuel len s = repeat 48 (len - length s) ++ s.
Proof.
  revert s. induction fuel as [|fuel IH]; intros s Hf; cbn [pad_left].
  - by replace (len - length s)%nat with O by lia.
  - destruct (Nat.ltb_spec (length s) len).
    + rewrite IH by (cbn; lia). cbn [length]. replace (len - length s)%nat with (S (len - S (length s)))%nat by lia.
      cbn [repeat]. rewrite (repeat_cons _ 48), <- app_assoc. done.
    + by replace (len - length s)%nat with O by lia.
Qed.

Lemma padded_value k s : digits_value 10 0 (repeat 48 k ++ s) = digits_value 10 0 s.
Proof. induction k as [|k IH]; [done|]. cbn. exact IH. Qed.

Lemma padded_digit_text k s : digit_text s -> digit_text (repeat 48 k ++ s).
Proof. intros Hs. apply Forall_app. split; [|done]. induction k; constructor; done. Qed.



(** [formatNumber] writes a text [getNumber] reads. *)
Lemma formatNumber_spec doubled n len k : 0 <= n < 10 ^ Z.of_nat (S k) -> len = S k ->
  let t := formatNumber doubled (Some n) len in
  digit_text t /\ (1 <= length t <= len)%nat /\ (doubled = true -> length t = len) /\ digits_value 10 0 t = Some n.
Proof.
  intros Hn -> t. destruct (number_text_spec n k Hn) as (Hd & Hl & Hv). unfold t, formatNumber. cbn [num_text].
  destruct doubled; [|done]. rewrite pad_left_spec by lia. rewrite length_app, repeat_length, padded_value.
  split_and!; [by apply padded_digit_text|lia|lia|lia|done].
Qed.

(** ** Names in texts *)

Definition prefix_free (names : list jstr) : bool :=
  forallb (fun x => forallb (fun y => (fst x =? fst y)%nat || negb (is_prefix (toLowerCase (snd x)) (toLowerCase (snd y))))
    (imap pair names)) (imap pair names).
Definition name_head (x : jstr) : bool := match x with c :: _ => negb (is_digit c) | [] => false end.
Definition good_names (n : nat) (names : list jstr) : bool :=
  (length names =? n)%nat && forallb name_head names && prefix_free names.







(** ** Dates of a zone *)

Section zone.
Context `{Zone}.
Implicit Types (date : Z).

Lemma date_fields date :
  0 <= getMonth date < 12 /\ 1 <= getDate date <= days_in_month (getFullYear date) (getMonth date) /\
  make_day (getFullYear date) (getMonth date) (getDate date) = local_day date.
Proof. apply day_fields. Qed.





Lemma make_day_year y m d : 0 <= m < 12 -> make_day y m d - day_from_year y = days_before (is_leap y) m + d - 1.
Proof. intros Hm. unfold make_day. rewrite Z.div_small, Z.mod_small, Z.add_0_r by lia. lia. Qed.



End zone.

(** ** Printing and parsing *)

Section roundtrip.
Context `{Zone}.
Context (s : date_settings) (date : Z).
Notation Y := (getFullYear date).
Notation M := (getMonth date).
Notation D := (getDate date).

(** Items whose text ends where no digit follows. *)
Definition variable_item (i : item) : bool :=
  match i with
  | Lit _ => false
  | Dir c doubled => (c =? 64) || (negb doubled && existsb (Z.eqb c) [100; 111; 109])
  end.
Definition starts_plain (i : item) : bool :=
  match i with Lit c => negb (is_digit c) | Dir c _ => (c =? 68) || (c =? 77) end.
Fixpoint separated (l : list item) : bool :=
  match l with
  | i :: ((j :: _) as l') => (negb (variable_item i) || starts_plain j) && separated l'
  | _ => true
  end.





Context (HY : 1000 <= Y <= 9999).








(** ** What a format determines *)

Definition says (c : Z) (its : list item) : bool :=
  existsb (fun i => match i with Dir c' _ => c' =? c | Lit _ => false end) its.
Definition determines (its : list item) : bool :=
  says 64 its || (says 121 its && (says 111 its || ((says 109 its || says 77 its) && says 100 its))).











End roundtrip.

(** ** The standard formats *)

(** Every standard format but the ticks determines the day and separates its
    numbers, and the default names are good. *)
Lemma standard_formats_good :
  forallb (fun f => bool_decide (f = TICKS) || (separated (items f false) && determines (items f false)))
    (default_dateFormat :: standard_formats) = true /\
  forallb (fun long => good_names 7 (day_names long no_settings) && good_names 12 (month_names long no_settings)) [true; false] = true.
Proof. split; vm_compute; reflexivity. Qed.

(** 4 July 2026 at noon, in universal time. *)
Definition demo_date : Z := 1783166400000.
#[local] Existing Instance zone_utc.






Example demo_formatted : formatDate RFC_850 (Some (Some demo_date)) no_settings = str "Saturday, 04-Jul-26".
Proof. vm_compute. reflexivity. Qed.
Example demo_ticks : formatDate TICKS (Some (Some demo_date)) no_settings = str "639187632000000000" /\
  parseDate demo_date (Some TICKS) (Some (str "639187632000000000")) no_settings = inr (Some 1783123200000).
Proof. split; vm_compute; reflexivity. Qed.
Example demo_invalid : parseDate demo_date (Some default_dateFormat) (Some (str "02/31/2026")) no_settings = inl InvalidDate.
Proof. vm_compute. reflexivity. Qed.
(** Ticks outside the range of dates together with a day of the year: the loop
    over the months does not end. *)
Example demo_unfinished :
  parseDate demo_date (Some (str "! o")) (Some (str "99999999999999999999 1")) no_settings = inl Unfinished.
Proof. vm_compute. reflexivity. Qed.

(** ** The characters of a format *)

Section possible.
Context `{Zone} (s : date_settings) (date : Z).

Lemma possible_grows format literal chars out :
  possible_loop format literal chars = Some out -> forall c, c ∈ chars -> c ∈ out.
Proof.
  revert literal chars. induction format as [|c rest IH1 IH2] using format_ind; intros literal chars; cbn [possible_loop].
  - by intros [= ->].
  - assert (forall x l, x ∈ chars -> x ∈ chars ++ l) as Happ by (intros; apply elem_of_app; by left).
    repeat case_match; try discriminate; intros Hp x Hx;
      first [by eapply IH1, Happ|by eapply IH2, Happ|by eapply IH1|by eapply IH2].
Qed.

Lemma digit_possible t chars : digit_text t -> Forall (fun c => c ∈ chars ++ all_digits) t.
Proof.
  intros Ht. eapply Forall_impl; [exact Ht|]. intros c Hc. apply elem_of_app. right.
  unfold is_digit in Hc. change all_digits with [48; 49; 50; 51; 52; 53; 54; 55; 56; 57].
  rewrite !elem_of_cons. lia.
Qed.

(** Items the character filter knows. *)
Definition typable (i : item) : bool :=
  plain_item i && match i with Dir c _ => negb (existsb (Z.eqb c) [111; 33]) | Lit _ => true end.

Lemma numeric_text c doubled : 0 <= date < 10 ^ 15 -> 0 <= getFullYear date < 10 ^ 6 ->
  existsb (Z.eqb c) [100; 109; 121; 64] = true -> digit_text (format_item s (Some date) c doubled).
Proof.
  intros Hdate HY Hc. destruct (date_fields date) as (Hm & Hd & _).
  pose proof (days_in_month_range (getFullYear date) (getMonth date) Hm) as Hdim.
  assert (c ∈ [100; 109; 121; 64]) as Hin.
  { apply existsb_exists in Hc as (x & Hin & ->%Z.eqb_eq). by apply list_elem_of_In. }
  repeat (apply elem_of_cons in Hin as [->|Hin]); [..|by apply elem_of_nil in Hin]; unfold format_item;
    cbn [Z.eqb Pos.eqb fmap option_fmap option_map num_text default from_option id].
  - destruct (formatNumber_spec doubled (getDate date) 2 1) as (Ht & _); [cbn; lia|done|done].
  - destruct (formatNumber_spec doubled (getMonth date + 1) 2 1) as (Ht & _); [cbn; lia|done|done].
  - destruct doubled; [destruct (number_text_spec (getFullYear date) 5) as (Ht & _); [cbn; lia|done]|].
    rewrite Z.rem_mod_nonneg by lia. pose proof (Z.mod_pos_bound (getFullYear date) 100 ltac:(lia)).
    destruct (number_text_spec (getFullYear date mod 100) 1) as (Ht & _); [cbn; lia|].
    destruct (_ <? 10); [by constructor|done].
  - destruct (number_text_spec date 14) as (Ht & _); [cbn; lia|done].
Qed.

Context (Hdate : 0 <= date < 10 ^ 15) (HY : 0 <= getFullYear date < 10 ^ 6).

Lemma possible_char format literal chars c out :
  possible_loop format literal (chars ++ [c]) = Some out -> c ∈ out.
Proof. intros Hp. eapply possible_grows; [exact Hp|]. apply elem_of_app. right. by left. Qed.

Lemma possible_digits format literal chars t out : digit_text t ->
  possible_loop format literal (chars ++ all_digits) = Some out -> Forall (fun c => c ∈ out) t.
Proof.
  intros Ht Hp. eapply Forall_impl; [exact (digit_possible t chars Ht)|].
  intros c Hc. by eapply possible_grows.
Qed.

Lemma possible_format format literal chars out :
  possible_loop format literal chars = Some out -> forallb typable (items format literal) = true ->
  Forall (fun c => c ∈ out) (format_loop s (Some date) format literal).
Proof.
  revert literal chars. induction format as [|c rest IH1 IH2] using format_ind; intros literal chars; [constructor|].
  cbn [possible_loop items format_loop]. destruct literal.
  - destruct (c =? quote) eqn:Hc; [destruct (lookAhead quote rest)|]; cbn [forallb typable andb]; intros Hp Ht;
      try (constructor; [by eapply possible_char|]); eauto.
  - destruct (existsb (Z.eqb c) [100; 109; 121; 64]) eqn:Hnum.
    + assert (is_directive c = true) as ->.
      { unfold is_directive. cbn in Hnum |- *. destruct (c =? 100), (c =? 109), (c =? 121), (c =? 64); done || (by rewrite ?orb_true_r). }
      cbn [forallb]. intros Hp [Hty Ht]%andb_true_iff. apply Forall_app. split.
      * eapply possible_digits; [by apply numeric_text|exact Hp].
      * destruct (lookAhead c rest) eqn:Hla; cbn [andb negb].
        -- destruct rest as [|c' rest]; [done|]. cbn [lookAhead] in Hla. apply Z.eqb_eq in Hla as ->.
           cbn [skip1] in *. cbn [possible_loop] in Hp. rewrite Hnum in Hp.
           apply andb_true_iff in Hty as [Hpure _]. cbn [plain_item] in Hpure. rewrite Hpure. cbn [andb]. by eapply IH2.
        -- rewrite andb_false_r. by eapply IH1.
    + destruct ((c =? 68) || (c =? 77)) eqn:Hname; [done|].
      destruct (is_directive c) eqn:Hdir.
      * intros _ [[_ Hty]%andb_true_iff _]%andb_true_iff. exfalso. cbn in Hty, Hdir, Hnum. clear IH1 IH2.
        destruct (c =? 100), (c =? 68), (c =? 111), (c =? 109), (c =? 77), (c =? 121), (c =? 64), (c =? 33); done.
      * destruct (c =? quote) eqn:Hc; [destruct (lookAhead quote rest)|]; cbn [forallb typable andb]; intros Hp Ht;
          try (constructor; [by eapply possible_char|]); eauto.
Qed.

(** The characters an input is limited to are enough: whatever the date, each
    character of the date printed by the format is one the user may type, for
    formats with @, d, m, y, names and literal text. *)
Theorem possible_chars_suffice (format : jstr) (chars : jstr)
    (Hchars : possibleChars format = Some chars) (Ht : forallb typable (items format false) = true) :
  Forall (fun c => c ∈ chars) (formatDate format (Some (Some date)) s).
Proof. exact (possible_format format false [] chars Hchars Ht). Qed.
End possible.

(** For the day of the year and for ticks they are not: the digits are missing. *)
Lemma day_of_year_not_typable : possibleChars (str "yy-oo") = Some (all_digits ++ all_digits ++ str "-oo") /\
  possibleChars (str "o") = Some (str "o") /\ possibleChars TICKS = Some (str "!").
Proof. split_and!; vm_compute; reflexivity. Qed.

Lemma possible_chars_suffice_witness :
  Forall (fun c => c ∈ all_digits ++ all_digits ++ str "/" ++ all_digits ++ all_digits ++ str "/" ++ all_digits ++ all_digits)
    (formatDate default_dateFormat (Some (Some demo_date)) no_settings).
Proof.
  apply (possible_chars_suffice no_settings demo_date); [split; [discriminate|reflexivity]|vm_compute; split; [discriminate|reflexivity]|..];
    vm_compute; reflexivity.
Defined.

(** ** Weeks *)

Section weeks.
Context `{Zone}.

(** The calendar of ISO 8601: weeks begin on Monday, and the first week of a
    year is the one with 4 January. *)
Definition monday (d : Z) : Z := d - (d + 3) mod 7.
Definition first_monday (y : Z) : Z := monday (day_from_year y + 3).

(** The day whose number the code takes, and its year: the Thursday of the week. *)
Definition thursday (d : Z) : Z := monday d + 3.

Lemma on_clock_day d k : 0 <= k < msPerDay -> on_clock (d * msPerDay + k) ->
  let t := utc_time (d * msPerDay + k) in time_clip t = Some t /\ local_day t = d /\ local_time t mod msPerDay = k.
Proof.
  intros Hk [Hc Hl] t. fold t in Hc, Hl. split; [unfold time_clip; by replace (Z.abs t <=? maxTime) with true by lia|].
  unfold local_day. rewrite Hl. unfold msPerDay in *. split; symmetry; [by apply Z.div_unique with k; lia|by apply Z.mod_unique with d; lia].
Qed.

(** C39. [iso8601Week] computes the week number of ISO 8601: the day lies in the
    week that begins that number of weeks, less one, after the first Monday of
    its ISO year.  The code goes from the date to the Thursday of its week, to the
    same day of January and to 1 January, keeping the time of the day; the
    theorem holds if the clock shows that time on these three days and its
    offsets from universal time on the first and the last of them are at most ten
    hours apart (so that no change to the other side of the date line lies
    between). *)
Theorem iso8601Week_correct (date : Z) :
  let d := local_day date in
  let k := local_time date mod msPerDay in
  let t := thursday d in
  let january := day_from_year (year_of_day t) in
  on_clock (t * msPerDay + k) -> on_clock ((january + day_date t - 1) * msPerDay + k) -> on_clock (january * msPerDay + k) ->
  Z.abs ((utc_time (t * msPerDay + k) - t * msPerDay) - (utc_time (january * msPerDay + k) - january * msPerDay)) <= 10 * msPerHour ->
  exists y, first_monday y <= d < first_monday (y + 1) /\ iso8601Week date = Some ((d - first_monday y) / 7 + 1).
Proof.
  intros d k t january Hc1 Hc2 Hc3 Heven. unfold iso8601Week. set (wd := if getDay date =? 0 then 7 else getDay date).
  assert (0 <= k < msPerDay) as Hk by (apply Z.mod_pos_bound; unfold msPerDay; lia).
  destruct (on_clock_day t k Hk Hc1) as (E1 & Hd1 & Hm1). set (c1 := utc_time (t * msPerDay + k)) in *.
  assert (setDate (getDate date + 4 - wd) date = Some c1) as ->.
  { unfold setDate. rewrite <- E1. do 4 f_equal. replace (getDate date + 4 - wd) with (getDate date + (4 - wd)) by lia.
    rewrite make_day_add. destruct (date_fields date) as (_ & _ & ->). fold d. unfold t, thursday, monday.
    unfold wd, getDay, week_day. fold d. destruct (Z.eqb_spec ((d + 4) mod 7) 0); Z.to_euclidean_division_equations; lia. }
  cbn [mbind option_bind].
  set (y := year_of_day t) in *. destruct (day_fields t) as (Hmo & Hda & Hmake). fold y in Hda, Hmake.
  pose proof (days_in_month_range y (day_month t) Hmo) as Hdim.
  assert (make_day y 0 (day_date t) = january + day_date t - 1) as Hj.
  { pose proof (make_day_year y 0 (day_date t) ltac:(lia)) as Hmd. replace (days_before (is_leap y) 0) with 0 in Hmd by (by destruct (is_leap y)). unfold january. lia. }
  destruct (on_clock_day _ k Hk Hc2) as (E2 & Hd2 & Hm2). rewrite <- Hj in E2, Hd2, Hm2. set (c2 := utc_time _) in E2, Hd2, Hm2.
  assert (setMonth 0 c1 = Some c2) as ->.
  { unfold setMonth, getFullYear, getDate. by rewrite Hd1, Hm1. }
  cbn [mbind option_bind].
  destruct (make_day_fields y 0 (day_date t)) as (HY2 & HM2 & _).
  { lia. } { unfold days_in_month. destruct (is_leap y); eval_days; lia. }
  destruct (on_clock_day january k Hk Hc3) as (E3 & _). set (c3 := utc_time (january * msPerDay + k)) in *.
  assert (setDate 1 c2 = Some c3) as ->.
  { unfold setDate, getFullYear, getMonth. rewrite Hd2, Hm2, HY2, HM2, <- E3. unfold c3. do 4 f_equal.
    pose proof (make_day_year y 0 1 ltac:(lia)) as Hmd. replace (days_before (is_leap y) 0) with 0 in Hmd by (by destruct (is_leap y)). unfold january. lia. }
  cbn [mbind option_bind].
  pose proof (year_of_day_spec t) as Hyt. fold y in Hyt. pose proof (day_from_year_step y) as Hstep.
  assert (round_days (c1 - c3) = t - january) as ->.
  { unfold round_days. unfold january in *. apply num_round_near; unfold msPerDay, msPerHour, safe in *; destruct (is_leap y); lia. }
  exists y. clear - Hyt Hstep. clearbody y. unfold january, first_monday, t, thursday, monday in *.
  rewrite Hstep in *. set (j := day_from_year y) in *. clearbody j d.
  enough ((d - (d + 3) mod 7 + 3 - j) / 7 + 1 = (d - (j + 3 - (j + 3 + 3) mod 7)) / 7 + 1 /\
    j + 3 - (j + 3 + 3) mod 7 <= d < j + (if is_leap y then 366 else 365) + 3 - (j + (if is_leap y then 366 else 365) + 3 + 3) mod 7) as [-> ?] by done.
  destruct (is_leap y); split; Z.to_euclidean_division_equations; lia.
Qed.
End weeks.

Lemma iso8601Week_correct_witness :
  (let d := local_day 1783190000000 in
   exists y, first_monday y <= d < first_monday (y + 1) /\ iso8601Week 1783190000000 = Some ((d - first_monday y) / 7 + 1)) /\
  iso8601Week 1783190000000 = Some 27.
Proof.
  split; [|vm_compute; reflexivity].
  apply (iso8601Week_correct 1783190000000); [split; vm_compute; [discriminate|reflexivity]..|vm_compute; discriminate].
Defined.

Example iso_week_of_2027 : new_Date 2027 0 1 ≫= iso8601Week = Some 53.
Proof. vm_compute. reflexivity. Qed.
(** A week at the end of time. *)
Example iso_week_invalid : iso8601Week 8640000000000000 = Some 37 /\ iso8601Week (- 8640000000000000) = None.
Proof. split; vm_compute; reflexivity. Qed.
