(* ===== verification/Datepicker.v ===== *)
(** The state of a date picker (jquery-ui.js, [Datepicker.prototype]): the
    selected and the current date, dates given as offsets, the bounds minDate
    and maxDate, navigation by months, picking a day, and the text of the input.

    [now] is the time of the call.  A Date is [Some t] or, when it is invalid,
    [None]; a variable that can also be null is an option of that.  The fields of
    an instance are Numbers, [None] for NaN.  Drawing the calendar, which moves
    drawMonth and drawYear, and showing or hiding it are not modelled. *)
From Stdlib Require Import String.
From S2P Require Import Prelude JsNumber JsString JsDate DateFormat.

(** ** Settings *)

(** A date in the settings: null, a text, a number of days, a Date. *)
Inductive date_spec := SNull | SText (s : jstr) | SDays (n : Z) | SDate (t : option Z).

(** The settings of an instance; [None] is undefined. *)
Record settings := {
  dateFormat : option jstr;
  defaultDate : option date_spec;
  minDate : option date_spec;
  maxDate : option date_spec;
  texts : date_settings;
  yearRange : option jstr;
  gotoCurrent : option bool;
  numberOfMonths : option (Z * Z);
  showCurrentAtPos : option Z;
}.

Definition default_yearRange : jstr := str "c-10:c+10".

Record inst := {
  selectedDay : option Z; selectedMonth : option Z; selectedYear : option Z;
  drawMonth : option Z; drawYear : option Z;
  currentDay : option Z; currentMonth : option Z; currentYear : option Z;
  input_val : jstr;                 (* inst.input.val() *)
  lastVal : option jstr;
  inst_settings : settings;
  notified : list (option Z * option Z);   (* calls of onChangeMonthYear: year, month *)
}.
#[export] Instance eta_inst : Eta inst := fun i => {|
  selectedDay := selectedDay i; selectedMonth := selectedMonth i; selectedYear := selectedYear i;
  drawMonth := drawMonth i; drawYear := drawYear i;
  currentDay := currentDay i; currentMonth := currentMonth i; currentYear := currentYear i;
  input_val := input_val i; lastVal := lastVal i; inst_settings := inst_settings i; notified := notified i |}.

(** [_newInst( target )] *)
Definition newInst (value : jstr) (s : settings) : inst :=
  {| selectedDay := Some 0; selectedMonth := Some 0; selectedYear := Some 0; drawMonth := Some 0; drawYear := Some 0;
     currentDay := Some 0; currentMonth := Some 0; currentYear := Some 0; input_val := value; lastVal := None;
     inst_settings := s; notified := [] |}.

(** [_get( inst, name )] *)
Definition get_ {A} (field : settings -> option A) (dflt : A) (i : inst) : A := default dflt (field (inst_settings i)).

Section datepicker.
Context `{Zone} (now : Z).

(** [_getFormatConfig( inst )]; a cutoff that is NaN counts as missing. *)
Definition getFormatConfig (i : inst) : date_settings :=
  let s := texts (inst_settings i) in
  {| shortYearCutoff :=
       match default default_cutoff (shortYearCutoff s) with
       | CutNumber n => Some (CutNumber n)
       | CutString t => (fun n => CutNumber (Z.rem (getFullYear now) 100 + n)) <$> parseInt t
       end;
     dayNamesShort := Some (day_names false s); dayNames := Some (day_names true s);
     monthNamesShort := Some (month_names false s); monthNames := Some (month_names true s) |}.

(** A Number that counts as true. *)
Definition truthy (n : option Z) : bool := match n with Some n => negb (n =? 0) | None => false end.
(** [a < b] of two Dates. *)
Definition before (a b : option Z) : bool := match a, b with Some a, Some b => a <? b | _, _ => false end.
(** [new Date( year, month, day )] with daylight saving adjusted, and
    [_getDaysInMonth], of Numbers that may be NaN. *)
Definition start_of_day (year month day : option Z) : option Z := year ← year; month ← month; day ← day; day_start year month day.
Definition days_of_month (year month : option Z) : option Z := year ← year; month ← month; getDaysInMonth year month.
(** [Math.min( a, b )], [a + b] *)
Definition num_min (a b : option Z) : option Z := a ← a; b ← b; Some (Z.min a b).
Definition num_plus (a : option Z) (b : Z) : option Z := a ← a; Some (a + b).

(** [_getDate( inst )] *)
Definition getDate_ (i : inst) : option (option Z) :=
  if negb (truthy (currentYear i)) || bool_decide (input_val i = []) then None
  else Some (start_of_day (currentYear i) (currentMonth i) (currentDay i)).

(** ** Dates given as offsets *)

(** One match of [/([+\-]?[0-9]+)\s*(d|D|w|W|m|M|y|Y)?/] at the start of a text:
    the number, the unit, and the rest. *)
Definition match_offset (s : jstr) : option (Z * Z * jstr) :=
  let '(sign, s1) := match s with
                     | c :: s' => if (c =? 43) || (c =? 45) then ([c], s') else ([], s)
                     | [] => ([], s)
                     end in
  let ds := take_digits (length s1) s1 in
  match ds, parseInt (sign ++ ds) with
  | _ :: _, Some n =>
      let rest := skip_spaces (drop (length ds) s1) in
      match rest with
      | u :: rest' => if existsb (Z.eqb u) [100; 68; 119; 87; 109; 77; 121; 89] then Some (n, u, rest') else Some (n, 100, rest)
      | [] => Some (n, 100, [])
      end
  | _, _ => None
  end.

(** [pattern.exec( offset )], again and again; a round consumes a character. *)
Fixpoint scan_offsets (fuel : nat) (s : jstr) : list (Z * Z) :=
  match fuel with
  | O => []
  | S fuel =>
      match match_offset s with
      | Some (n, u, rest) => (n, u) :: scan_offsets fuel rest
      | None => match s with [] => [] | _ :: s' => scan_offsets fuel s' end
      end
  end.

(** The switch over the unit. *)
Definition apply_offset (ymd : Z * Z * option Z) (offset : Z * Z) : Z * Z * option Z :=
  let '(year, month, day) := ymd in
  let '(n, u) := offset in
  if (u =? 100) || (u =? 68) then (year, month, num_plus day n)
  else if (u =? 119) || (u =? 87) then (year, month, num_plus day (n * 7))
  else if (u =? 109) || (u =? 77) then (year, month + n, num_min day (getDaysInMonth year (month + n)))
  else (year + n, month, num_min day (getDaysInMonth (year + n) month)).

(** [offsetNumeric( offset )] and [offsetString( offset )] *)
Definition offsetNumeric (offset : Z) : option Z := setDate (getDate now + offset) now.
Definition offsetString (i : inst) (offset : jstr) : option (option Z) :=
  match parseDate now (Some (get_ dateFormat default_dateFormat i)) (Some offset) (getFormatConfig i) with
  | inr d => Some <$> d
  | inl _ =>
      let date := default (Some now) (if bool_decide (take 1 (toLowerCase offset) = str "c") then getDate_ i else None) in
      Some (date ← date;
            let '(year, month, day) := fold_left apply_offset (scan_offsets (length offset) offset)
              (getFullYear date, getMonth date, Some (getDate date)) in
            day ← day; new_Date year month day)
  end.

(** The time of the day is cleared. *)
Definition midnight_of (date : option Z) : option Z :=
  date ← date; date ← setHours 0 date; date ← setMinutes_0 date; date ← setSeconds_0 date; date ← setMilliseconds_0 date;
  daylightSavingAdjust date.

(** [_determineDate( inst, date, defaultDate )] *)
Definition determineDate (i : inst) (date : date_spec) (default_ : option (option Z)) : option (option Z) :=
  let newDate := match date with
                 | SNull | SText [] => default_
                 | SText s => offsetString i s
                 | SDays n => Some (offsetNumeric n)
                 | SDate t => Some t
                 end in
  let newDate := match newDate with Some None => default_ | _ => newDate end in
  midnight_of <$> newDate.

(** ** Bounds *)

(** [_getMinMaxDate( inst, "min" )] and ["max"] *)
Definition getMinDate (i : inst) : option (option Z) := determineDate i (get_ minDate SNull i) None.
Definition getMaxDate (i : inst) : option (option Z) := determineDate i (get_ maxDate SNull i) None.

(** [_restrictMinMax( inst, date )] *)
Definition restrictMinMax (i : inst) (date : option Z) : option Z :=
  let newDate := match getMinDate i with Some mn => if before date mn then mn else date | None => date end in
  match getMaxDate i with Some mx => if before mx newDate then mx else newDate | None => newDate end.

(** [_getDefaultDate( inst )]; with a default [_determineDate] does not return
    null. *)
Definition getDefaultDate (i : inst) : option Z :=
  restrictMinMax i (default (Some now) (determineDate i (get_ defaultDate SNull i) (Some (Some now)))).

(** ** The selected date *)

Definition notifyChange (i : inst) : inst :=
  i <| notified := notified i ++ [(selectedYear i, num_plus (selectedMonth i) 1)] |>.

Inductive period := PDay | PMonth | PYear.
#[export] Instance period_eq_dec : EqDecision period.
Proof. solve_decision. Defined.

(** Writing a date into the fields. *)
Definition select (date : option Z) (i : inst) : inst :=
  i <| selectedDay := getDate <$> date |>
    <| drawMonth := getMonth <$> date |> <| selectedMonth := getMonth <$> date |>
    <| drawYear := getFullYear <$> date |> <| selectedYear := getFullYear <$> date |>.

(** [_adjustInstDate( inst, offset, period )]; without a period the offset is
    not used. *)
Definition adjustInstDate (offset : Z) (p : option period) (i : inst) : inst :=
  let year := num_plus (selectedYear i) (if decide (p = Some PYear) then offset else 0) in
  let month := num_plus (selectedMonth i) (if decide (p = Some PMonth) then offset else 0) in
  let day := num_plus (num_min (selectedDay i) (days_of_month year month)) (if decide (p = Some PDay) then offset else 0) in
  let date := restrictMinMax i (start_of_day year month day) in
  let i := select date i in
  if decide (p = Some PMonth \/ p = Some PYear) then notifyChange i else i.

(** [_setDateFromField( inst, noDefault )] *)
Definition setDateFromField (noDefault : bool) (i : inst) : inst :=
  if decide (Some (input_val i) = lastVal i) then i
  else
    let dates := input_val i in
    let i := i <| lastVal := Some dates |> in
    let defaultDate := getDefaultDate i in
    let '(date, dates) :=
      match parseDate now (Some (get_ dateFormat default_dateFormat i)) (Some dates) (getFormatConfig i) with
      | inr d => (default defaultDate (Some <$> d), dates)
      | inl _ => (defaultDate, if noDefault then [] else dates)
      end in
    let i := select date i in
    let given := negb (bool_decide (dates = [])) in
    let i := i <| currentDay := (if given then getDate <$> date else Some 0) |>
               <| currentMonth := (if given then getMonth <$> date else Some 0) |>
               <| currentYear := (if given then getFullYear <$> date else Some 0) |> in
    adjustInstDate 0 None i.

(** [_formatDate( inst )] without a day: the selected date becomes the current
    one, and its text. *)
Definition formatDate_ (i : inst) : inst * jstr :=
  let i := i <| currentDay := selectedDay i |> <| currentMonth := selectedMonth i |> <| currentYear := selectedYear i |> in
  (i, formatDate (get_ dateFormat default_dateFormat i)
        (Some (start_of_day (currentYear i) (currentMonth i) (currentDay i))) (getFormatConfig i)).

(** [a !== b] of two Numbers *)
Definition num_differ (a b : option Z) : bool := match a, b with Some a, Some b => negb (a =? b) | _, _ => true end.

(** [_setDate( inst, date, noChange )] *)
Definition setDate_ (date : date_spec) (noChange : bool) (i : inst) : inst :=
  let clear := match date with SNull | SText [] | SDays 0 => true | _ => false end in
  let origMonth := selectedMonth i in
  let origYear := selectedYear i in
  let newDate := restrictMinMax i (default (Some now) (determineDate i date (Some (Some now)))) in
  let i := select newDate i in
  let i := i <| currentDay := getDate <$> newDate |> <| currentMonth := getMonth <$> newDate |> <| currentYear := getFullYear <$> newDate |> in
  let i := if (num_differ origMonth (selectedMonth i) || num_differ origYear (selectedYear i)) && negb noChange
           then notifyChange i else i in
  let i := adjustInstDate 0 None i in
  if clear then i <| input_val := [] |> else let '(i, text) := formatDate_ i in i <| input_val := text |>.

(** [_adjustDate( id, offset, period )]; a disabled picker does nothing. *)
Definition adjustDate (disabled : bool) (offset : Z) (p : option period) (i : inst) : inst :=
  if disabled then i
  else adjustInstDate (offset + (if decide (p = Some PMonth) then get_ showCurrentAtPos 0 i else 0)) p i.

(** [_gotoToday( id )] *)
Definition gotoToday (disabled : bool) (i : inst) : inst :=
  let i := if get_ gotoCurrent false i && truthy (currentDay i) then
             i <| selectedDay := currentDay i |> <| drawMonth := currentMonth i |> <| selectedMonth := currentMonth i |>
               <| drawYear := currentYear i |> <| selectedYear := currentYear i |>
           else select (Some now) i in
  adjustDate disabled 0 None (notifyChange i).

(** [_selectMonthYear( id, select, period )] with the value chosen *)
Definition selectMonthYear (disabled : bool) (value : Z) (p : period) (i : inst) : inst :=
  let i := match p with
           | PMonth => i <| selectedMonth := Some value |> <| drawMonth := Some value |>
           | _ => i <| selectedYear := Some value |> <| drawYear := Some value |>
           end in
  adjustDate disabled 0 None (notifyChange i).

(** ** Picking a day *)

(** Whether [_generateHTML] marks the cell of [printDate] as not selectable: the
    day is of another month and those cannot be selected, beforeShowDay refuses
    it, or it is out of bounds. *)
Definition unselectable (i : inst) (otherMonth refused : bool) (printDate : Z) : bool :=
  otherMonth || refused
  || match getMinDate i with Some mn => before (Some printDate) mn | None => false end
  || match getMaxDate i with Some mx => before mx (Some printDate) | None => false end.

(** [_selectDay( id, month, year, td )]: [day] is the text of the link in the cell,
    undefined if there is none, which counts as NaN in a date.  [_selectDate]
    writes the text to the field; onSelect and the change event are left out. *)
Definition selectDay (unselectable disabled : bool) (month year : Z) (day : option Z) (i : inst) : inst :=
  if unselectable || disabled then i
  else
    let i := i <| selectedDay := day |> <| currentDay := day |>
               <| selectedMonth := Some month |> <| currentMonth := Some month |>
               <| selectedYear := Some year |> <| currentYear := Some year |> in
    i <| input_val := formatDate (get_ dateFormat default_dateFormat i) (Some (start_of_day (Some year) (Some month) day)) (getFormatConfig i) |>.

(** [_clearDate( id )] *)
Definition clearDate (i : inst) : inst := i <| input_val := [] |>.

(** ** The range of the calendar *)

(** [_getFirstDayOfMonth( year, month )] *)
Definition getFirstDayOfMonth (year month : Z) : option Z := getDay <$> new_Date year month 1.

(** The parts of the year range: [parseInt( part, 10 )], relative to this year
    when it has a sign; [None] is NaN. *)
Definition range_year (part : jstr) : option Z :=
  (fun n => if existsb (fun c => (c =? 43) || (c =? 45)) part then n + getFullYear now else n) <$> parseInt part.

(** [years.split( ":" )] *)
Fixpoint split_colon (part s : jstr) : list jstr :=
  match s with
  | [] => [part]
  | c :: s => if c =? 58 then part :: split_colon [] s else split_colon (part ++ [c]) s
  end.

(** [!year || ...]: zero, NaN and no range admit everything. *)
Definition year_bound (y : option Z) (ok : Z -> bool) : bool :=
  match y with Some y => (y =? 0) || ok y | None => true end.

(** [_isInRange( inst, date )]; a range without a colon throws, and is not
    considered here. *)
Definition isInRange (i : inst) (date : option Z) : bool :=
  let years := get_ yearRange default_yearRange i in
  let '(minYear, maxYear) :=
    match split_colon [] years with
    | a :: b :: _ => if decide (years = []) then (None, None) else (range_year a, range_year b)
    | _ => (None, None)
    end in
  let holds (test : Z -> bool) := match date with Some date => test date | None => false end in
  match getMinDate i with Some mn => match mn with Some mn => holds (fun date => mn <=? date) | None => false end | None => true end
  && match getMaxDate i with Some mx => match mx with Some mx => holds (fun date => date <=? mx) | None => false end | None => true end
  && year_bound minYear (fun y => holds (fun date => y <=? getFullYear date))
  && year_bound maxYear (fun y => holds (fun date => getFullYear date <=? y)).

(** [_canAdjustMonth( inst, offset, curYear, curMonth )] *)
Definition canAdjustMonth (i : inst) (offset curYear curMonth : Z) : bool :=
  let '(rows, cols) := get_ numberOfMonths (1, 1) i in
  let date := day_start curYear (curMonth + (if offset <? 0 then offset else rows * cols)) 1 in
  let date := if offset <? 0 then
                date ← date; days ← getDaysInMonth (getFullYear date) (getMonth date); setDate days date
              else date in
  isInRange i date.

End datepicker.
