(* ===== verification/DatepickerProps.v ===== *)
(** What a date picker guarantees: the selected date stays between minDate and
    maxDate, and navigation moves by whole months. *)
From Stdlib Require Import String.
From S2P Require Import Prelude JsNumber JsString JsDate DateFormat DateFormatProps Datepicker.

Section props.
Context `{Zone}.
Implicit Types (i j : inst) (date t now : Z).

(** The selected fields are the calendar date of [t]. *)
Definition selected_at t i : Prop :=
  selectedDay i = Some (getDate t) /\ selectedMonth i = Some (getMonth t) /\ selectedYear i = Some (getFullYear t).

Lemma select_at t i : selected_at t (select (Some t) i).
Proof. done. Qed.

(** ** Bounds *)

(** A date setting that does not depend on the current date of the picker. *)
Definition fixed_spec (d : date_spec) : Prop :=
  match d with SText s => take 1 (toLowerCase s) <> str "c" | _ => True end.
Definition fixed_bounds (s : settings) : Prop :=
  fixed_spec (default SNull (minDate s)) /\ fixed_spec (default SNull (maxDate s)).

Lemma offsetString_settings now i j s : inst_settings i = inst_settings j -> take 1 (toLowerCase s) <> str "c" ->
  offsetString now i s = offsetString now j s.
Proof. intros Hs Hc. unfold offsetString, get_, getFormatConfig. rewrite Hs. by rewrite bool_decide_eq_false_2. Qed.

Lemma determine_settings now i j d dflt : inst_settings i = inst_settings j -> fixed_spec d ->
  determineDate now i d dflt = determineDate now j d dflt.
Proof.
  intros Hs Hd. unfold determineDate. destruct d as [|[|c s]|n|t]; try done.
  by rewrite (offsetString_settings now i j).
Qed.

Lemma bounds_settings now i j : inst_settings i = inst_settings j -> fixed_bounds (inst_settings i) ->
  getMinDate now i = getMinDate now j /\ getMaxDate now i = getMaxDate now j.
Proof.
  intros Hs [Hmn Hmx]. unfold getMinDate, getMaxDate, get_. rewrite <- Hs.
  split; by apply determine_settings.
Qed.

(** Times that are not after maxDate, nor before minDate unless the bounds exclude
    each other, as the bounds are at the time [now]. *)
Definition bounded now i t : Prop :=
  (forall mx, getMaxDate now i = Some (Some mx) -> t <= mx) /\
  (forall mn, getMinDate now i = Some (Some mn) -> (forall mx, getMaxDate now i = Some (Some mx) -> mn <= mx) -> mn <= t).

(** The selected date is within the bounds, or its day is NaN. *)
Definition within now i : Prop := selectedDay i = None \/ exists t, selected_at t i /\ bounded now i t.

Lemma restrict_bounded now i (date : option Z) t : restrictMinMax now i date = Some t -> bounded now i t.
Proof.
  unfold restrictMinMax, bounded. destruct (getMinDate now i) as [[mn|]|], (getMaxDate now i) as [[mx|]|], date as [d|]; cbn;
    intros Hr; split; intros; simplify_eq; repeat case_match; simplify_eq; try lia;
    match goal with Hx : forall _, _ -> _ |- _ => pose proof (Hx _ eq_refl); lia end.
Qed.

Lemma within_fields now i j : within now i -> inst_settings i = inst_settings j -> fixed_bounds (inst_settings i) ->
  (selectedDay i, selectedMonth i, selectedYear i) = (selectedDay j, selectedMonth j, selectedYear j) -> within now j.
Proof.
  intros Hw Hs Hf [= H1' H2' H3']. destruct Hw as [Hn|(t & (Hd & Hm & Hy) & Hmx & Hmn)]; [left; congruence|right].
  destruct (bounds_settings now i j Hs Hf) as [H1 H2].
  exists t. unfold bounded. rewrite <- H1, <- H2. unfold selected_at. by rewrite <- H1', <- H2', <- H3'.
Qed.

Lemma select_within now i (date : option Z) : fixed_bounds (inst_settings i) -> within now (select (restrictMinMax now i date) i).
Proof.
  intros Hf. destruct (restrictMinMax now i date) as [t|] eqn:Hr; [|by left]. right. exists t. split; [done|].
  destruct (bounds_settings now i (select (Some t) i) eq_refl Hf) as [H1 H2]. unfold bounded. rewrite <- H1, <- H2.
  by eapply restrict_bounded.
Qed.

Lemma adjust_within now offset p i : fixed_bounds (inst_settings i) ->
  within now (adjustInstDate now offset p i) /\ inst_settings (adjustInstDate now offset p i) = inst_settings i.
Proof.
  intros Hf. unfold adjustInstDate. cbv zeta. set (c := start_of_day _ _ _). pose proof (select_within now i c Hf) as Hw.
  case_decide; (split; [|done]); [|done]. by apply (within_fields now (select (restrictMinMax now i c) i)).
Qed.

(** What can happen to a picker that is not disabled.  A cell that is picked was
    drawn, for the date [printDate], at the time [drawn]. *)
Inductive dop :=
  | OType (s : jstr)                              (* the user edits the text *)
  | OField (noDefault : bool)                     (* the text is read *)
  | OSet (d : date_spec) (noChange : bool)
  | OMove (offset : Z) (p : period)
  | OToday
  | OChoose (value : Z) (p : period)
  | OPick (drawn printDate : Z) (otherMonth refused link : bool)
  | OClear.
Definition dstep now (x : dop) i : inst :=
  match x with
  | OType s => i <| input_val := s |>
  | OField nd => setDateFromField now nd i
  | OSet d nc => setDate_ now d nc i
  | OMove offset p => adjustDate now false offset (Some p) i
  | OToday => gotoToday now false i
  | OChoose value p => selectMonthYear now false value p i
  | OPick drawn t otherMonth refused link =>
      selectDay now (unselectable drawn i otherMonth refused t) false (getMonth t) (getFullYear t) (if link then Some (getDate t) else None) i
  | OClear => clearDate i
  end.
(** The time whose bounds count: that of the last operation that selects, and for a
    cell that of the drawing. *)
Definition dtime now (x : dop) i (before : Z) : Z :=
  match x with
  | OType _ | OClear => before
  | OField _ => if decide (Some (input_val i) = lastVal i) then before else now
  | OPick drawn t otherMonth refused _ => if unselectable drawn i otherMonth refused t then before else drawn
  | _ => now
  end.
(** The operations with the times at which they are called. *)
Fixpoint drun (ops : list (Z * dop)) (i : inst) (since : Z) : inst * Z :=
  match ops with [] => (i, since) | (now, x) :: ops => drun ops (dstep now x i) (dtime now x i since) end.

(** A picker as it is opened on its field. *)
Definition opened now (value : jstr) (s : settings) : inst := setDateFromField now false (newInst value s).

Ltac by_adjust Hf :=
  match goal with
  | |- within ?now (adjustInstDate ?now ?o ?p ?k) /\ _ => destruct (adjust_within now o p k) as [? ->]; [exact Hf|by split]
  end.

Lemma field_within now nd i since : fixed_bounds (inst_settings i) -> within since i ->
  within (dtime now (OField nd) i since) (setDateFromField now nd i) /\ inst_settings (setDateFromField now nd i) = inst_settings i.
Proof. intros Hf Hw. unfold setDateFromField, dtime. case_decide; [done|]. cbv zeta. case_match. by_adjust Hf. Qed.

Lemma set_within now d nc i : fixed_bounds (inst_settings i) ->
  within now (setDate_ now d nc i) /\ inst_settings (setDate_ now d nc i) = inst_settings i.
Proof.
  intros Hf. unfold setDate_. cbv zeta. set (j := if (_ && _) then _ else _).
  assert (inst_settings j = inst_settings i) as Hj by (unfold j; by case_match).
  destruct (adjust_within now 0 None j) as [Hw' Hs']; [by rewrite Hj|]. rewrite Hj in Hs'.
  assert (fixed_bounds (inst_settings (adjustInstDate now 0 None j))) as Hf' by (by rewrite Hs').
  case_match; (split; [by apply (within_fields now (adjustInstDate now 0 None j))|done]).
Qed.

Lemma pick_within now drawn t otherMonth refused link i since : fixed_bounds (inst_settings i) -> within since i ->
  within (dtime now (OPick drawn t otherMonth refused link) i since) (dstep now (OPick drawn t otherMonth refused link) i) /\
  inst_settings (dstep now (OPick drawn t otherMonth refused link) i) = inst_settings i.
Proof.
  intros Hf Hw. cbn [dstep dtime]. unfold selectDay. destruct (unselectable _ _ _ _ _) eqn:Hu; [done|]. cbn [orb]. cbv zeta.
  split; [|done]. destruct link; [|by left]. right. exists t. split; [done|].
  match goal with |- bounded _ ?k _ => destruct (bounds_settings drawn i k eq_refl Hf) as [H1 H2] end. unfold bounded. rewrite <- H1, <- H2.
  unfold unselectable in Hu. apply orb_false_iff in Hu as [[_ Hmn]%orb_false_iff Hmx].
  split; [intros mx Hx; rewrite Hx in Hmx|intros mn Hx _; rewrite Hx in Hmn]; cbn in *; lia.
Qed.

Lemma dstep_within now x i since : fixed_bounds (inst_settings i) -> within since i ->
  within (dtime now x i since) (dstep now x i) /\ inst_settings (dstep now x i) = inst_settings i.
Proof.
  intros Hf Hw. destruct x as [s|nd|d nc|offset p| |value p|drawn t om rf lk|]; cbn [dstep].
  - split; [by apply (within_fields since i)|done].
  - by apply field_within.
  - by apply set_within.
  - cbn [dtime]. unfold adjustDate. by_adjust Hf.
  - cbn [dtime]. unfold gotoToday, adjustDate. cbv zeta. set (j := if (_ && _) then _ else _).
    assert (inst_settings j = inst_settings i) as Hj by (unfold j; by case_match).
    clearbody j. rewrite <- Hj in Hf |- *. by_adjust Hf.
  - cbn [dtime]. unfold selectMonthYear, adjustDate. cbv zeta. set (j := match p with PMonth => _ | _ => _ end).
    assert (inst_settings j = inst_settings i) as Hj by (unfold j; by case_match).
    clearbody j. rewrite <- Hj in Hf |- *. by_adjust Hf.
  - by apply pick_within.
  - split; [by apply (within_fields since i)|done].
Qed.

(** C37. The date picker never selects a date outside its bounds: after it is
    opened, and after every sequence of typing, clearing, reading the field,
    setting a date, moving by days, months or years, going to today, choosing a
    month or year and picking a day that the calendar shows, each at its own time,
    either the selected day is NaN or the selected day, month and year are those of
    a date that is not after maxDate, and not before minDate unless the bounds
    exclude each other, where relative bounds are those of the time of the last
    operation that selected (for a picked day, of the time the calendar was
    drawn).  The settings stay the same, the picker is enabled, and no bound is
    relative to the current date of the field (a text that begins with c). *)
Theorem selection_within_bounds (start : Z) (value : jstr) (s : settings) (ops : list (Z * dop)) (Hf : fixed_bounds s) :
  within (snd (drun ops (opened start value s) start)) (fst (drun ops (opened start value s) start)).
Proof.
  assert (within start (opened start value s) /\ inst_settings (opened start value s) = s) as [Hw Hs].
  { unfold opened, setDateFromField. rewrite decide_False by done. cbv zeta. case_match. by_adjust Hf. }
  revert Hw Hs. generalize (opened start value s) as i. generalize start as since. induction ops as [|[now x] ops IH]; intros since i Hw Hs; cbn [drun]; [done|].
  destruct (dstep_within now x i since) as [Hw' Hs']; [by rewrite Hs|done|]. apply IH; [done|]. by rewrite Hs'.
Qed.

(** ** Navigation *)


End props.

(** ** A picker on 4 July 2026 *)

#[local] Existing Instance zone_utc.

Definition demo_settings : settings :=
  {| dateFormat := None; defaultDate := None; minDate := Some (SDays (-7)); maxDate := Some (SText (str "+1m +1w"));
     texts := no_settings; yearRange := None; gotoCurrent := None; numberOfMonths := None; showCurrentAtPos := None |}.
Definition free_settings : settings :=
  {| dateFormat := Some COOKIE; defaultDate := None; minDate := None; maxDate := None;
     texts := no_settings; yearRange := None; gotoCurrent := None; numberOfMonths := None; showCurrentAtPos := None |}.

(** Ten days later the bounds have moved. *)
Definition demo_ops : list (Z * dop) :=
  [(demo_date, OMove 5 PMonth); (demo_date + 10 * msPerDay, OType (str "01/31/2020")); (demo_date + 10 * msPerDay, OField false)].
Definition fields (i : inst) : option Z * option Z * option Z := (selectedYear i, selectedMonth i, selectedDay i).

Lemma selection_within_bounds_witness :
  (let r := drun demo_ops (opened demo_date (str "07/20/2026") demo_settings) demo_date in within (snd r) (fst r)) /\
  fields (opened demo_date (str "07/20/2026") demo_settings) = (Some 2026, Some 6, Some 20) /\
  fields (fst (drun (take 1 demo_ops) (opened demo_date (str "07/20/2026") demo_settings) demo_date)) = (Some 2026, Some 7, Some 11) /\
  fields (fst (drun demo_ops (opened demo_date (str "07/20/2026") demo_settings) demo_date)) = (Some 2026, Some 6, Some 7).
Proof.
  split; [|split_and!; vm_compute; reflexivity].
  apply (selection_within_bounds demo_date (str "07/20/2026") demo_settings demo_ops). split; [exact I|discriminate].
Defined.



(** Beyond the last date a picker can be moved, and it does not come back. *)
Example moved_to_nan :
  fields (fst (drun [(demo_date, OMove 4000000 PMonth); (demo_date, OMove (-4000000) PMonth)] (opened demo_date [] free_settings) demo_date)) = (None, None, None).
Proof. vm_compute. reflexivity. Qed.

(** A cell of another month that can be selected but is not shown has no link: a
    click on it selects a day that is NaN, and the text of the field is made of
    NaN and undefined. *)
Example empty_cell_picked :
  let i := dstep demo_date (OPick demo_date (demo_date + 30 * msPerDay) false false false) (opened demo_date [] free_settings) in
  fields i = (Some 2026, Some 7, None) /\ input_val i = str "undefined, NaN undefined NaN".
Proof. split; vm_compute; reflexivity. Qed.
