(* ===== verification/DataCache.v ===== *)
(** [Data] (jquery-3.2.0.js): the caches that [jQuery.data] and the private data
    keep on elements and objects, as objects on a heap that callers may hold.

    A cache is a plain object: a key without an own property reads the member of
    [Object.prototype] of that name, if there is one.  The theorem compares the
    caches with maps from keys to values. *)
From Stdlib Require Import String.
From S2P Require Import Prelude JsString ClassNames Objects.

(** ** Keys *)

(** [jQuery.camelCase( string )]: the prefix of [rmsPrefix], then every letter
    behind a dash ([rdashAlpha], [fcamelCase]). *)
Definition strip_ms (s : jstr) : jstr := if is_prefix (str "-ms-") s then drop 1 s else s.
Definition is_lower (c : Z) : bool := (97 <=? c) && (c <=? 122).
Fixpoint hump (s : jstr) : jstr :=
  match s with
  | [] => []
  | c :: rest =>
      if c =? 45 then
        match rest with
        | l :: rest' => if is_lower l then (l - 32) :: hump rest' else c :: hump rest
        | [] => [c]
        end
      else c :: hump rest
  end.
Definition camelCase (s : jstr) : jstr := hump (strip_ms s).

(** ** Owners and caches *)

(** What an owner is, by its [nodeType]. *)
Inductive owner_kind := Element | Document | OtherNode | PlainObject.

Definition acceptData (k : owner_kind) : bool := match k with OtherNode => false | _ => true end.

Section data.
Context {V : Type}.

(** A cache: its own properties; [None] is the value undefined. *)
Abbreviation cache_object := (list (jstr * option V)).

Fixpoint lookup_prop (k : jstr) (c : cache_object) : option (option V) :=
  match c with
  | [] => None
  | (k', v) :: c => if decide (k = k') then Some v else lookup_prop k c
  end.
(** [cache[ k ] = v], for every name but [__proto__]. *)
Fixpoint assign_prop (k : jstr) (v : option V) (c : cache_object) : cache_object :=
  match c with
  | [] => [(k, v)]
  | (k', w) :: c => if decide (k = k') then (k, v) :: c else (k', w) :: assign_prop k v c
  end.
Fixpoint delete_prop (k : jstr) (c : cache_object) : cache_object :=
  match c with
  | [] => []
  | (k', v) :: c => if decide (k = k') then delete_prop k c else (k', v) :: delete_prop k c
  end.

(** What reading a property gives: a value, or a member of [Object.prototype]. *)
Inductive read := Value (v : option V) | Member (b : builtin).
Definition read_prop (k : jstr) (c : cache_object) : read :=
  match lookup_prop k c with
  | Some v => Value v
  | None => match inherited k with Some b => Member b | None => Value None end
  end.
(** [k in cache] *)
Definition has_prop (k : jstr) (c : cache_object) : bool :=
  match lookup_prop k c, inherited k with None, None => false | _, _ => true end.

(** The owners' property [this.expando], and the cache objects. *)
Record data := { kind : nat -> owner_kind; expando : nat -> option nat; heap : nat -> cache_object; fresh : nat }.
#[local] Instance eta_data : Eta data := fun d =>
  {| kind := kind d; expando := expando d; heap := heap d; fresh := fresh d |}.

Definition update {A} (f : nat -> A) (i : nat) (a : A) : nat -> A := fun j => if decide (j = i) then a else f j.

(** [cache( owner )]: the cache object, made when there is none; an owner that
    cannot have data gets an object of its own each time. *)
Definition cache (owner : nat) (d : data) : data * nat :=
  match expando d owner with
  | Some l => (d, l)
  | None =>
      let l := fresh d in
      let d := d <| heap := update (heap d) l [] |> <| fresh := S l |> in
      (if acceptData (kind d owner) then d <| expando := update (expando d) owner (Some l) |> else d, l)
  end.

(** A key whose assignment replaces the prototype of the cache instead. *)
Definition proto_key (k : jstr) : bool := bool_decide (camelCase k = str "__proto__").

(** [set( owner, key, value )] and [set( owner, { properties } )]; what an
    assignment to [__proto__] does is not modelled ([None]). *)
Definition set_props (owner : nat) (props : cache_object) (d : data) : option (data * nat) :=
  if existsb (fun p => proto_key p.1) props then None
  else
    let '(d, l) := cache owner d in
    Some (d <| heap := update (heap d) l (fold_left (fun c '(k, v) => assign_prop (camelCase k) v c) props (heap d l)) |>, l).
Definition set_ (owner : nat) (key : jstr) (value : option V) (d : data) : option (data * nat) :=
  set_props owner [(key, value)] d.

(** [get( owner, key )] *)
Definition get_key (owner : nat) (key : jstr) (d : data) : read :=
  match expando d owner with
  | Some l => read_prop (camelCase key) (heap d l)
  | None => Value None
  end.

(** [get( owner )] is the cache object. *)
Definition get_all (owner : nat) (d : data) : data * nat := cache owner d.

(** [access( owner, key, value )] with a string key: what is read, or the value
    that was set, or the key if that was undefined. *)
Inductive accessed := Got (r : read) | Stored (v : V) | TheKey (key : jstr).
Definition access (owner : nat) (key : jstr) (value : option V) (d : data) : option (data * accessed) :=
  match value with
  | None =>
      if decide (key = []) then '(d, _) ← set_ owner key None d; Some (d, TheKey key)
      else Some (d, Got (get_key owner key d))
  | Some v => '(d, _) ← set_ owner key value d; Some (d, Stored v)
  end.

(** What can be removed: everything, the keys of a string, an array of keys. *)
Inductive removed := RAll | RString (key : jstr) | RArray (keys : list jstr).
#[export] Instance removed_eq_dec : EqDecision removed.
Proof. solve_decision. Defined.

(** The keys a string stands for: itself when there is such a property, and
    otherwise its words; it was camel-cased as a whole. *)
Definition keys_of (key : jstr) (c : cache_object) : list jstr :=
  let key := camelCase key in
  if has_prop key c then [key] else tokens key.

(** [while ( i-- ) { delete cache[ key[ i ] ]; }] *)
Definition delete_keys (keys : list jstr) (c : cache_object) : cache_object :=
  fold_left (fun c k => delete_prop k c) (rev keys) c.

(** The cache without the keys. *)
Definition without (key : removed) (c : cache_object) : cache_object :=
  match key with
  | RAll => c
  | RString s => delete_keys (keys_of s c) c
  | RArray ks => delete_keys (map camelCase ks) c
  end.

(** [remove( owner, key )]; the cache is detached when it is empty. *)
Definition remove (owner : nat) (key : removed) (d : data) : data :=
  match expando d owner with
  | None => d
  | Some l =>
      let c := without key (heap d l) in
      let d := d <| heap := update (heap d) l c |> in
      if bool_decide (key = RAll) || (length c =? 0)%nat then d <| expando := update (expando d) owner None |> else d
  end.

(** [hasData( owner )] *)
Definition hasData (owner : nat) (d : data) : bool :=
  match expando d owner with Some l => negb (bool_decide (length (heap d l) = 0%nat)) | None => false end.

(** ** Well-formed stores *)

(** Caches are allocated, and each belongs to one owner that accepts data. *)
Record data_ok (d : data) : Prop := {
  ok_fresh o l : expando d o = Some l -> (l < fresh d)%nat;
  ok_inj o o' l : expando d o = Some l -> expando d o' = Some l -> o = o';
  ok_accept o l : expando d o = Some l -> acceptData (kind d o) = true;
}.

Lemma lookup_assign k k' v c : lookup_prop k' (assign_prop k v c) = if decide (k' = k) then Some v else lookup_prop k' c.
Proof.
  induction c as [|[k1 v1] c IH]; cbn; [done|]. destruct (decide (k = k1)) as [->|Hn]; cbn.
  - by destruct (decide (k' = k1)).
  - rewrite IH. destruct (decide (k' = k1)) as [->|]; [|done]. by rewrite decide_False by congruence.
Qed.

Lemma lookup_delete k k' c : lookup_prop k' (delete_prop k c) = if decide (k' = k) then None else lookup_prop k' c.
Proof.
  induction c as [|[k1 v1] c IH]; cbn; [by case_decide|].
  destruct (decide (k = k1)) as [<-|Hn]; cbn; rewrite IH; repeat case_decide; congruence.
Qed.

Lemma lookup_delete_keys ks k c : lookup_prop k (delete_keys ks c) = if decide (k ∈ ks) then None else lookup_prop k c.
Proof.
  unfold delete_keys.
  assert (forall l c, lookup_prop k (fold_left (fun c k => delete_prop k c) l c)
    = if decide (k ∈ l) then None else lookup_prop k c) as Hl.
  { induction l as [|x l IH]; intros c'; cbn; [by rewrite decide_False by (by intros ?%elem_of_nil)|].
    rewrite IH, lookup_delete. repeat case_decide; try done; set_solver. }
  rewrite Hl. apply decide_ext. rewrite !list_elem_of_In. symmetry. apply in_rev.
Qed.

(** ** What the owners have *)

(** The own properties in the cache of an owner, if it has a cache. *)
Definition view (d : data) (owner : nat) : option cache_object := heap d <$> expando d owner.

Lemma cache_spec owner d : data_ok d -> let '(d', l) := cache owner d in
  data_ok d' /\ kind d' = kind d /\
  expando d' owner = (if acceptData (kind d owner) then Some l else None) /\
  (forall o, expando d' o = Some l -> o = owner) /\ heap d' l = default [] (view d owner) /\
  (forall o, view d' o = if decide (o = owner /\ acceptData (kind d owner) = true) then Some (default [] (view d owner)) else view d o).
Proof.
  intros [Hf Hi Ha]. unfold cache, view. destruct (expando d owner) as [l0|] eqn:He.
  - rewrite (Ha _ _ He). split_and!; try done.
    + intros o Ho. by eapply Hi.
    + intros o. cbn. case_decide as Hd; [|done]. destruct Hd as [-> _]. by rewrite He.
  - cbv zeta. set (d1 := (d <| heap := update (heap d) (fresh d) [] |>) <| fresh := S (fresh d) |>).
    change (kind d1 owner) with (kind d owner).
    assert (forall o l, expando d o = Some l -> heap d1 l = heap d l) as Hh.
    { intros o l Ho%Hf. unfold d1, update. cbn. by rewrite decide_False by lia. }
    assert (heap d1 (fresh d) = []) as Hnew by (unfold d1, update; cbn; by rewrite decide_True).
    assert (forall o, heap d1 <$> expando d o = heap d <$> expando d o) as Hv.
    { intros o. destruct (expando d o) as [l|] eqn:Ho; [|done]. cbn [fmap option_fmap option_map]. by rewrite (Hh o l). }
    destruct (acceptData (kind d owner)) eqn:Hacc; cbn [kind expando heap fresh set_field] in *; unfold update.
    + split_and!; try done.
      * split; cbn; unfold update.
        -- intros o l. case_decide; [intros [= <-]; lia|intros Ho%Hf; lia].
        -- intros o o' l. repeat case_decide; try (subst; done || congruence).
           ++ intros [= <-] Ho%Hf. lia.
           ++ intros Ho%Hf [= <-]. lia.
           ++ apply Hi.
        -- intros o l. case_decide; [by subst|apply Ha].
      * by rewrite decide_True.
      * intros o. case_decide; [done|]. intros Ho%Hf. lia.
      * intros o. case_decide as Ho; [subst; rewrite decide_True by done; cbn [fmap option_fmap option_map]; by rewrite Hnew|].
        rewrite decide_False by tauto. apply Hv.
    + split_and!; try done.
      * split; cbn; [intros o l Ho%Hf; lia|apply Hi|apply Ha].
      * intros o Ho%Hf. lia.
      * intros o. rewrite decide_False by (by intros [_ ?]). apply Hv.
Qed.

Lemma set_props_spec owner ps d d' l : data_ok d -> set_props owner ps d = Some (d', l) ->
  data_ok d' /\ kind d' = kind d /\
  forall o, view d' o =
    if decide (o = owner /\ acceptData (kind d owner) = true)
    then Some (fold_left (fun c '(k, v) => assign_prop (camelCase k) v c) ps (default [] (view d owner)))
    else view d o.
Proof.
  intros Hok. unfold set_props. destruct (existsb _ ps); [done|]. pose proof (cache_spec owner d Hok) as Hc.
  destruct (cache owner d) as [d1 l1]. destruct Hc as ([Hf Hi Ha] & Hk & He & Hl & Hh & Hv). intros [= <- <-].
  split; [by split|]. split; [exact Hk|]. intros o. unfold view at 1. cbn [expando heap set_field].
  destruct (expando d1 o) as [l|] eqn:Ho.
  - cbn. unfold update. destruct (decide (l = l1)) as [->|Hne].
    + pose proof (Hl _ Ho) as ->. rewrite He in Ho. destruct (acceptData (kind d owner)); [|done].
      rewrite decide_True by done. by rewrite Hh.
    + assert (~ (o = owner /\ acceptData (kind d owner) = true)) as Hn.
      { intros [-> Hacc]. rewrite Hacc, Ho in He. congruence. }
      rewrite decide_False by done. specialize (Hv o). rewrite decide_False in Hv by done. rewrite <- Hv. unfold view. by rewrite Ho.
  - specialize (Hv o). unfold view in Hv at 1. rewrite Ho in Hv. cbn in *. by case_decide.
Qed.

Lemma remove_spec owner r d : data_ok d ->
  data_ok (remove owner r d) /\ kind (remove owner r d) = kind d /\
  forall o, view (remove owner r d) o =
    if decide (o = owner) then
      c ← view d owner; if decide (r = RAll \/ without r c = []) then None else Some (without r c)
    else view d o.
Proof.
  intros [Hf Hi Ha]. unfold remove, view. destruct (expando d owner) as [l|] eqn:He.
  2:{ split; [by split|]. split; [done|]. intros o. case_decide; [|done]. subst. by rewrite He. }
  cbv zeta. set (c := without r (heap d l)). set (d1 := d <| heap := update (heap d) l c |>).
  assert (forall o, o <> owner -> heap d1 <$> expando d o = heap d <$> expando d o) as Hv.
  { intros o Hne. destruct (expando d o) as [l'|] eqn:Ho; [|done]. cbn [fmap option_fmap option_map]. f_equal. unfold d1, update. cbn. rewrite decide_False; [done|].
    intros ->. by apply Hne, (Hi _ _ l). }
  assert (heap d1 l = c) as Hc by (unfold d1, update; cbn; by rewrite decide_True).
  assert (bool_decide (r = RAll) || (length c =? 0)%nat = bool_decide (r = RAll \/ c = [])) as ->.
  { apply eq_true_iff_eq. rewrite orb_true_iff, !bool_decide_eq_true, Nat.eqb_eq. by rewrite length_zero_iff_nil. }
  case_bool_decide as Hd.
  - split; [|split; [done|]].
    + split; cbn; unfold update; intros *; repeat case_decide; try done; [apply Hf|apply Hi|apply Ha].
    + intros o. change (heap (d1 <| expando := update (expando d1) owner None |>)) with (heap d1).
      change (expando (d1 <| expando := update (expando d1) owner None |>)) with (update (expando d) owner None).
      unfold update. case_decide as Ho; [|by apply Hv]. cbn. fold c. by rewrite decide_True.
  - split; [by split|]. split; [done|]. intros o. case_decide as Ho; [|by apply Hv]. subst.
    assert (heap d1 <$> expando d1 owner = Some c) as -> by (change (expando d1) with (expando d); by rewrite He, <- Hc).
    cbn [fmap option_fmap option_map mbind option_bind]. fold c. by rewrite decide_False.
Qed.

(** ** Refinement *)

Inductive data_op :=
  | DSet (owner : nat) (props : cache_object)
  | DAccess (owner : nat) (key : jstr) (value : option V)
  | DGet (owner : nat)
  | DRemove (owner : nat) (r : removed).

Definition data_step (d : data) (x : data_op) : option data :=
  match x with
  | DSet o ps => fst <$> set_props o ps d
  | DAccess o key v => fst <$> access o key v d
  | DGet o => Some (get_all o d).1
  | DRemove o r => Some (remove o r d)
  end.
Definition data_run (ops : list data_op) (d : data) : option data :=
  fold_left (fun d x => d ≫= fun d => data_step d x) ops (Some d).

(** No operation assigns to [__proto__]. *)
Definition proto_free (x : data_op) : Prop :=
  match x with
  | DSet _ ps => Forall (fun p => proto_key p.1 = false) ps
  | DAccess _ key (Some _) => proto_key key = false
  | _ => True
  end.

(** The specification: an owner has no cache, or a map from keys to values. *)
Abbreviation spec := (nat -> option (gmap jstr (option V))).
Definition spec_set (ks : nat -> owner_kind) (owner : nat) (ps : cache_object) (m : spec) : spec := fun o =>
  if decide (o = owner /\ acceptData (ks owner) = true)
  then Some (fold_left (fun g '(key, v) => <[camelCase key := v]> g) ps (default ∅ (m owner))) else m o.
(** The keys that are removed: a string names itself if it is a key, and its
    words otherwise. *)
Definition removes (r : removed) (g : gmap jstr (option V)) (k : jstr) : Prop :=
  match r with
  | RAll => True
  | RString s => if decide (is_Some (g !! camelCase s)) then k = camelCase s else k ∈ tokens (camelCase s)
  | RArray ks => exists key, key ∈ ks /\ k = camelCase key
  end.
#[export] Instance removes_dec r g k : Decision (removes r g k).
Proof.
  destruct r as [|s|ks]; cbn; [apply _|destruct (decide _); apply _|].
  destruct (decide (k ∈ map camelCase ks)) as [H|H]; rewrite list_elem_of_fmap in H; [left|right]; naive_solver.
Defined.
Definition spec_remove (owner : nat) (r : removed) (m : spec) : spec := fun o =>
  if decide (o = owner) then
    g ← m owner; let g' := filter (fun p => ~ removes r g p.1) g in if decide (g' = ∅) then None else Some g'
  else m o.
Definition spec_step (ks : nat -> owner_kind) (x : data_op) (m : spec) : spec :=
  match x with
  | DSet o ps => spec_set ks o ps m
  | DAccess o key (Some v) => spec_set ks o [(key, Some v)] m
  | DAccess o key None => if decide (key = []) then spec_set ks o [([], None)] m else m
  | DGet o => spec_set ks o [] m
  | DRemove o r => spec_remove o r m
  end.

Definition new_data (ks : nat -> owner_kind) : data := {| kind := ks; expando := fun _ => None; heap := fun _ => []; fresh := 0 |}.

(** ** Simulation *)

Definition represents (c : cache_object) (g : gmap jstr (option V)) : Prop := forall k, lookup_prop k c = g !! k.
Definition simulates (ks : nat -> owner_kind) (d : data) (m : spec) : Prop :=
  data_ok d /\ kind d = ks /\ forall o, option_Forall2 represents (view d o) (m o).

Lemma represents_nil c g : represents c g -> c = [] <-> g = ∅.
Proof.
  intros Hr. split.
  - intros ->. apply map_empty. intros k. by rewrite <- Hr.
  - intros ->. destruct c as [|[k v] c]; [done|]. specialize (Hr k). cbn in Hr. by rewrite decide_True, lookup_empty in Hr.
Qed.

Lemma represents_fold ps c g : represents c g ->
  represents (fold_left (fun c '(k, v) => assign_prop (camelCase k) v c) ps c) (fold_left (fun g '(key, v) => <[camelCase key := v]> g) ps g).
Proof.
  revert c g. induction ps as [|[key v] ps IH]; intros c g Hr; cbn [fold_left]; [done|]. apply IH. intros k.
  rewrite lookup_assign, lookup_insert, Hr. repeat case_decide; congruence.
Qed.

(** The name of a member of [Object.prototype] is one word. *)
Lemma inherited_word k b : inherited k = Some b -> tokens k = [k].
Proof.
  unfold inherited. destruct (List.find _ _) as [[k' b']|] eqn:Hf; [|done]. intros _.
  apply find_some in Hf as [Hin Hk%bool_decide_eq_true]. cbn in Hk. subst k'. cbn in Hin.
  repeat destruct Hin as [[= <- _]|Hin]; try (vm_compute; reflexivity). done.
Qed.

Lemma represents_without r c g : represents c g -> represents (without r c) (filter (fun p => ~ removes r g p.1) g) \/ r = RAll.
Proof.
  intros Hr. destruct r as [|s|ks]; [by right|left; intros k..]; cbn [without];
    rewrite lookup_delete_keys, Hr; symmetry; (destruct (g !! k) as [v|] eqn:Hk; [|rewrite map_lookup_filter, Hk; cbn; by case_decide]).
  - assert (k ∈ keys_of s c <-> removes (RString s) g k) as Hiff.
    { unfold keys_of, has_prop, removes. rewrite Hr. destruct (g !! camelCase s) as [v'|].
      - rewrite decide_True by done. apply list_elem_of_singleton.
      - rewrite decide_False by (by intros [? ?]). destruct (inherited (camelCase s)) as [b|] eqn:Hb; [by rewrite (inherited_word _ b)|done]. }
    case_decide as Hd; [apply map_lookup_filter_None; right|apply map_lookup_filter_Some]; [intros ? _ Hn; by apply Hn, Hiff|by rewrite <- Hiff].
  - assert (k ∈ map camelCase ks <-> removes (RArray ks) g k) as Hiff by (cbn; rewrite list_elem_of_fmap; naive_solver).
    case_decide as Hd; [apply map_lookup_filter_None; right|apply map_lookup_filter_Some]; [intros ? _ Hn; by apply Hn, Hiff|by rewrite <- Hiff].
Qed.

Lemma represents_default c g : option_Forall2 represents c g -> represents (default [] c) (default ∅ g).
Proof. intros []; [done|]. intros k. cbn. by rewrite lookup_empty. Qed.

Lemma simulates_set ks d m o ps : Forall (fun p => proto_key p.1 = false) ps -> simulates ks d m ->
  exists d' l, set_props o ps d = Some (d', l) /\ simulates ks d' (spec_set ks o ps m).
Proof.
  intros Hps (Hok & <- & Hm). destruct (set_props o ps d) as [[d' l]|] eqn:Hs.
  - exists d', l. split; [done|]. destruct (set_props_spec o ps d d' l Hok Hs) as (Hok' & Hk & Hv). split; [done|]. split; [done|].
    intros o'. rewrite Hv. unfold spec_set. destruct (decide (o' = o /\ _)); [|apply Hm]. constructor. by apply represents_fold, represents_default.
  - exfalso. unfold set_props in Hs. destruct (existsb _ ps) eqn:He; [|by destruct (cache o d)].
    apply existsb_exists in He as (p & Hin & Hp). rewrite Forall_forall in Hps. rewrite Hps in Hp by (by apply list_elem_of_In). done.
Qed.

Lemma simulates_step ks d m x : proto_free x -> simulates ks d m ->
  exists d', data_step d x = Some d' /\ simulates ks d' (spec_step ks x m).
Proof.
  intros Hx Hsim. destruct x as [o ps|o key [v|]|o|o r]; cbn [data_step spec_step].
  - destruct (simulates_set ks d m o ps Hx Hsim) as (d' & l & -> & Hs). by exists d'.
  - destruct (simulates_set ks d m o [(key, Some v)]) as (d' & l & Hs & Hs'); [by constructor|done|].
    exists d'. split; [|done]. unfold access, set_. by rewrite Hs.
  - unfold access. case_decide as Hk; [|by exists d]. subst.
    destruct (simulates_set ks d m o [([], None)]) as (d' & l & Hs & Hs'); [by constructor|done|].
    exists d'. split; [|done]. unfold set_. by rewrite Hs.
  - exists (get_all o d).1. split; [done|]. destruct Hsim as (Hok & <- & Hm). pose proof (cache_spec o d Hok) as Hc. unfold get_all.
    destruct (cache o d) as [d' l]. destruct Hc as (Hok' & Hk & _ & _ & _ & Hv). split; [done|]. split; [done|].
    intros o'. cbn [fst]. rewrite Hv. unfold spec_set. destruct (decide (o' = o /\ _)); [|apply Hm]. constructor. cbn. apply represents_default, Hm.
  - exists (remove o r d). split; [done|]. destruct Hsim as (Hok & <- & Hm). destruct (remove_spec o r d Hok) as (Hok' & Hk & Hv).
    split; [done|]. split; [done|]. intros o'. rewrite Hv. unfold spec_remove. destruct (decide (o' = o)); [|apply Hm].
    destruct (Hm o) as [c g Hr|]; cbn; [|constructor]. destruct (represents_without r c g Hr) as [Hw| ->].
    + assert (r = RAll \/ without r c = [] <-> filter (fun p => ~ removes r g p.1) g = ∅) as Hiff.
      { rewrite <- (represents_nil _ _ Hw). split; [|by right]. intros [->|]; [|done]. cbn in *.
        rewrite (represents_nil _ _ Hw). apply map_empty. intros k. apply map_lookup_filter_None. right. intros ? _ Hn. by apply Hn. }
      destruct (decide (r = RAll \/ _)) as [H1|H1]; rewrite Hiff in H1; [rewrite decide_True by done|rewrite decide_False by done]; by constructor.
    + rewrite decide_True by (by left). rewrite decide_True; [constructor|]. apply map_empty. intros k.
      apply map_lookup_filter_None. right. intros ? _ Hn. by apply Hn.
Qed.

Lemma hasData_view owner d : hasData owner d = true <-> exists c, view d owner = Some c /\ c <> [].
Proof.
  unfold hasData, view. destruct (expando d owner) as [l|]; cbn; [|naive_solver].
  rewrite negb_true_iff, bool_decide_eq_false. rewrite length_zero_iff_nil. naive_solver.
Qed.

(** C40. The data caches implement maps from camel-cased keys to values, one for each
    owner that has a cache.  Every sequence of set, access, get and remove on any
    owners that does not assign to [__proto__] runs, and afterwards a key reads
    the value it has in the map of its owner; a key that is not in the map reads
    the member of [Object.prototype] of its name, if the owner has a cache, and
    otherwise undefined; [hasData] says whether the map has any key; and nodes
    that accept no data have none. *)
Theorem data_refines (ks : nat -> owner_kind) (ops : list data_op) : Forall proto_free ops ->
  exists d, data_run ops (new_data ks) = Some d /\
  let m := fold_left (fun m x => spec_step ks x m) ops (fun _ => None) in
  (forall o key, get_key o key d =
     match m o with
     | None => Value None
     | Some g => match g !! camelCase key, inherited (camelCase key) with
                 | Some v, _ => Value v
                 | None, Some b => Member b
                 | None, None => Value None
                 end
     end) /\
  (forall o, hasData o d = true <-> exists g, m o = Some g /\ g <> ∅) /\
  (forall o, acceptData (ks o) = false -> hasData o d = false).
Proof.
  intros Hops.
  assert (forall d m, simulates ks d m -> exists d', data_run ops d = Some d' /\ simulates ks d' (fold_left (fun m x => spec_step ks x m) ops m)) as Hrun.
  { induction Hops as [|x ops Hx Hops IH]; intros d m Hsim; [by exists d|]. destruct (simulates_step ks d m x Hx Hsim) as (d' & Hs & Hs').
    destruct (IH d' _ Hs') as (d2 & Hr & Hs2). exists d2. split; [|done]. unfold data_run in *. cbn [fold_left mbind option_bind]. by rewrite Hs. }
  destruct (Hrun (new_data ks) (fun _ => None)) as (d & Hr & Hok & Hk & Hm).
  { split; [by split|]. split; [done|]. intros o. constructor. }
  exists d. split; [done|]. cbv zeta. split_and!.
  - intros o key. unfold get_key. specialize (Hm o). unfold view in Hm. destruct (expando d o) as [l|]; inversion Hm as [c g Hg|]; subst; [|done].
    unfold read_prop. rewrite Hg. by destruct (g !! camelCase key), (inherited (camelCase key)).
  - intros o. rewrite hasData_view. destruct (Hm o) as [c g Hg|]; [|naive_solver]. pose proof (represents_nil c g Hg). naive_solver.
  - intros o Ho. unfold hasData. destruct (expando d o) as [l|] eqn:He; [|done].
    pose proof (ok_accept d Hok _ _ He) as Ha. rewrite Hk in Ha. congruence.
Qed.
End data.

Definition demo_ops : list (data_op (V := Z)) :=
  [DSet 0 [(str "my-key", Some 1); (str "color", Some 2)]; DAccess 1 (str "my-key") (Some 3); DRemove 0 (RString (str "color"))].
Lemma data_refines_witness : exists d, data_run demo_ops (new_data (fun _ => Element)) = Some d /\
  get_key 0 (str "my-key") d = Value (Some 1) /\ get_key 0 (str "color") d = Value None /\ get_key 0 (str "toString") d = Member B_toString.
Proof.
  destruct (data_refines (fun _ => Element) demo_ops) as (d & Hr & Hg & _).
  - repeat constructor.
  - exists d. split; [exact Hr|]. by rewrite !Hg.
Defined.

(** A vendor prefix is stripped at the start of a string of keys only, so that
    a second key with the prefix is not removed. *)
Example second_ms_key_stays :
  exists d, data_run [DSet 0 [(str "color", Some 2); (str "-ms-flow", Some 1)]; DRemove 0 (RString (str "color -ms-flow"))]
      (new_data (fun _ => Element)) = Some d /\
    get_key 0 (str "-ms-flow") d = Value (Some 1) /\ get_key 0 (str "color") d = Value None.
Proof. eexists. split; [vm_compute; reflexivity|]. split; reflexivity. Qed.

(** Who holds the cache object of an owner sees what is set later, and keeps it
    when the data is removed. *)
Example held_cache :
  let '(d, l) := get_all 0 (new_data (fun _ => Element)) in
  (fun d => (heap d.1 l, heap (remove 0 RAll d.1) l, hasData 0 (remove 0 RAll d.1))) <$> set_ 0 (str "ui-slider") (Some 7) d
  = Some ([(str "uiSlider", Some 7)], [(str "uiSlider", Some 7)], false).
Proof. vm_compute. done. Qed.
