(* ===== verification/Position.v ===== *)
(** [$.fn.position] and [$.ui.position] (jquery-ui.js): where an element is put
    next to another one, and what happens when it does not fit.

    The measures of the document are arguments.  The horizontal and the vertical
    axis go through the same code with other names; an axis is one record. *)
From Stdlib Require Import String.
From S2P Require Import Prelude JsNumber JsMath JsString ClassNames.

(** ** Options as texts *)

(** [s.split( " " )] *)
Fixpoint split_space_go (part s : jstr) : list jstr :=
  match s with
  | [] => [part]
  | c :: s => if c =? 32 then part :: split_space_go [] s else split_space_go (part ++ [c]) s
  end.
Definition split_space (s : jstr) : list jstr := split_space_go [] s.

(** [rhorizontal.test( s )] and [rvertical.test( s )] *)
Definition contains (p s : jstr) : bool := match indexOf p s with Some _ => true | None => false end.
Definition rhorizontal (s : jstr) : bool := contains (str "left") s || contains (str "center") s || contains (str "right") s.
Definition rvertical (s : jstr) : bool := contains (str "top") s || contains (str "center") s || contains (str "bottom") s.

Definition is_digit_char (c : Z) : bool := (48 <=? c) && (c <=? 57).
Fixpoint digits_prefix (s : jstr) : jstr :=
  match s with c :: s => if is_digit_char c then c :: digits_prefix s else [] | [] => [] end.

(** An offset: sign, digits, digits behind the point, and whether it is a
    percentage. *)
Record offset_text := { minus : bool; whole : jstr; fraction : jstr; percent_sign : bool }.

(** [roffset] at the start of a text. *)
Definition offset_here (s : jstr) : option offset_text :=
  match s with
  | c :: s =>
      if (c =? 43) || (c =? 45) then
        let w := digits_prefix s in
        match w with
        | [] => None
        | _ =>
            let rest := drop (length w) s in
            let f := match rest with d :: r => if d =? 46 then digits_prefix r else [] | [] => [] end in
            let rest := match f with [] => rest | _ => drop (S (length f)) rest end in
            Some {| minus := c =? 45; whole := w; fraction := f;
                    percent_sign := match rest with p :: _ => p =? 37 | [] => false end |}
        end
      else None
  | [] => None
  end.
(** [roffset.exec( s )]: the first match. *)
Fixpoint roffset (s : jstr) : option offset_text :=
  match offset_here s with
  | Some o => Some o
  | None => match s with [] => None | _ :: s => roffset s end
  end.

(** [rposition.exec( s )[ 0 ]]; without a match it throws. *)
Definition is_word_char (c : Z) : bool :=
  is_digit_char c || ((65 <=? c) && (c <=? 90)) || ((97 <=? c) && (c <=? 122)) || (c =? 95).
Fixpoint word_prefix (s : jstr) : jstr :=
  match s with c :: s => if is_word_char c then c :: word_prefix s else [] | [] => [] end.
Definition rposition (s : jstr) : option jstr := match word_prefix s with [] => None | w => Some w end.

(** The two positions of an option [my] or [at]. *)
Definition two_positions (option_ : jstr) : jstr * jstr :=
  let pos := match split_space option_ with
             | [p] => if rhorizontal p then [p; str "center"]
                      else if rvertical p then [str "center"; p] else [str "center"; str "center"]
             | pos => pos
             end in
  let p0 := default [] (pos !! 0%nat) in
  let p1 := default [] (pos !! 1%nat) in
  (if rhorizontal p0 then p0 else str "center", if rvertical p1 then p1 else str "center").

(** An option after normalisation: the names and the offsets. *)
Record placement := { names : jstr * jstr; offsets : option offset_text * option offset_text }.
Definition normalise (option_ : jstr) : option placement :=
  let '(h, v) := two_positions option_ in
  match rposition h, rposition v with
  | Some nh, Some nv => Some {| names := (nh, nv); offsets := (roffset h, roffset v) |}
  | _, _ => None
  end.

(** ** Numbers *)

Definition zero : number := num_of_Z 0.
Definition two : number := num_of_Z 2.

(** [parseFloat( offset )]: decimal digits. *)
Definition offset_value (o : offset_text) : number :=
  let n := default 0 (digits_value 10 0 (whole o ++ fraction o)) in
  let x := match fraction o with [] => num_of_Z n | f => num_div (num_of_Z n) (num_of_Z (10 ^ Z.of_nat (length f))) end in
  if minus o then num_opp x else x.

(** One entry of [getOffsets( offsets, width, height )]; no offset is 0. *)
Definition getOffset (o : option offset_text) (size : number) : number :=
  match o with
  | None => num_mul zero (num_of_Z 1)
  | Some o => num_mul (offset_value o) (if percent_sign o then num_div size (num_of_Z 100) else num_of_Z 1)
  end.
Definition getOffsets (o : option offset_text * option offset_text) (width height : number) : number * number :=
  (getOffset (fst o) width, getOffset (snd o) height).

(** ** Measures *)

Record point := { left : number; top : number }.
Record dimensions := { width : number; height : number; origin : point }.

(** [getDimensions( elem )], by what the target is. *)
Inductive target :=
  | TDocument (w h : number)
  | TWindow (w h scrollTop scrollLeft : number)
  | TEvent (pageX pageY : number)
  | TElement (outerWidth outerHeight : number) (offset : point).
Definition getDimensions (t : target) : dimensions :=
  match t with
  | TDocument w h => {| width := w; height := h; origin := {| left := zero; top := zero |} |}
  | TWindow w h st sl => {| width := w; height := h; origin := {| left := sl; top := st |} |}
  | TEvent x y => {| width := zero; height := zero; origin := {| left := x; top := y |} |}
  | TElement w h o => {| width := w; height := h; origin := o |}
  end.

(** [getWithinInfo( element )], of the measures of the element. *)
Record within_info := {
  isWindow : bool; isDocument : bool;
  w_offset : point; scrollLeft : number; scrollTop : number;
  w_width : number; w_height : number;
}.
Definition getWithinInfo (isWindow isDocument : bool) (offset : point) (scrollLeft scrollTop w h : number) : within_info :=
  {| isWindow := isWindow; isDocument := isDocument;
     w_offset := if negb isWindow && negb isDocument then offset else {| left := zero; top := zero |};
     scrollLeft := scrollLeft; scrollTop := scrollTop; w_width := w; w_height := h |}.

(** [getScrollInfo( within )], of the CSS properties and the width of a scroll
    bar. *)
Definition has_overflow (overflow : jstr) (size scrollSize : number) : bool :=
  bool_decide (overflow = str "scroll") || (bool_decide (overflow = str "auto") && num_ltb size scrollSize).
Definition getScrollInfo (w : within_info) (overflowX overflowY : jstr) (scrollWidth scrollHeight scrollbarWidth : number) : number * number :=
  let overflowX := if isWindow w || isDocument w then [] else overflowX in
  let overflowY := if isWindow w || isDocument w then [] else overflowY in
  (if has_overflow overflowY (w_height w) scrollHeight then scrollbarWidth else zero,
   if has_overflow overflowX (w_width w) scrollWidth then scrollbarWidth else zero).

(** ** Collisions on one axis *)

Record axis := {
  ax_isWindow : bool;
  ax_scroll : number;          (* within.scrollLeft *)
  ax_offset : number;          (* within.offset.left *)
  ax_extent : number;          (* within.width *)
  ax_margin : number;          (* collisionPosition.marginLeft *)
  ax_collision : number;       (* collisionWidth *)
  ax_elem : number;            (* elemWidth *)
  ax_target : number;          (* targetWidth *)
  ax_shift : number;           (* offset[ 0 ] *)
  ax_my : jstr; ax_at : jstr;
  ax_low : jstr; ax_high : jstr; (* left and right, top and bottom *)
}.

(** The edge of within: [within.isWindow ? within.scrollLeft : within.offset.left] *)
Definition within_edge (a : axis) : number := if ax_isWindow a then ax_scroll a else ax_offset a.

(** [fit.left( position, data )] and [fit.top] *)
Definition fit (pos : number) (a : axis) : number :=
  let withinOffset := within_edge a in
  let outer := ax_extent a in
  let collisionPos := num_sub pos (ax_margin a) in
  let overLow := num_sub withinOffset collisionPos in
  let overHigh := num_sub (num_sub (num_add collisionPos (ax_collision a)) outer) withinOffset in
  if num_ltb outer (ax_collision a) then
    if num_ltb zero overLow && num_leb overHigh zero then
      let newOverHigh := num_sub (num_sub (num_add (num_add pos overLow) (ax_collision a)) outer) withinOffset in
      num_add pos (num_sub overLow newOverHigh)
    else if num_ltb zero overHigh && num_leb overLow zero then withinOffset
    else if num_ltb overHigh overLow then num_sub (num_add withinOffset outer) (ax_collision a)
    else withinOffset
  else if num_ltb zero overLow then num_add pos overLow
  else if num_ltb zero overHigh then num_sub pos overHigh
  else num_max (num_sub pos collisionPos) pos.

(** [myOffset], [atOffset] and [offset] of [flip]: the other side of both. *)
Definition flip_my (a : axis) : number :=
  if decide (ax_my a = ax_low a) then num_opp (ax_elem a)
  else if decide (ax_my a = ax_high a) then ax_elem a else zero.
Definition flip_at (a : axis) : number :=
  if decide (ax_at a = ax_low a) then ax_target a
  else if decide (ax_at a = ax_high a) then num_opp (ax_target a) else zero.
Definition flip_offset (a : axis) : number := num_mul (num_of_Z (-2)) (ax_shift a).

(** [flip.left( position, data )] and [flip.top] *)
Definition flip (pos : number) (a : axis) : number :=
  let withinOffset := num_add (ax_offset a) (ax_scroll a) in
  let outer := ax_extent a in
  let offsetLow := within_edge a in
  let collisionPos := num_sub pos (ax_margin a) in
  let overLow := num_sub collisionPos offsetLow in
  let overHigh := num_sub (num_sub (num_add collisionPos (ax_collision a)) outer) offsetLow in
  let shifted from := num_add (num_add (num_add from (flip_my a)) (flip_at a)) (flip_offset a) in
  let moved := num_add pos (num_add (num_add (flip_my a) (flip_at a)) (flip_offset a)) in
  if num_ltb overLow zero then
    let newOverHigh := num_sub (num_sub (num_add (shifted pos) (ax_collision a)) outer) withinOffset in
    if num_ltb newOverHigh zero || num_ltb newOverHigh (num_abs overLow) then moved else pos
  else if num_ltb zero overHigh then
    let newOverLow := num_sub (shifted (num_sub pos (ax_margin a))) offsetLow in
    if num_ltb zero newOverLow || num_ltb (num_abs newOverLow) overHigh then moved else pos
  else pos.

(** [flipfit.left] and [flipfit.top] *)
Definition flipfit (pos : number) (a : axis) : number := fit (flip pos a) a.

(** [$.ui.position[ collision ]]; any other word leaves the position alone. *)
Definition collide (collision : jstr) (pos : number) (a : axis) : number :=
  if decide (collision = str "fit") then fit pos a
  else if decide (collision = str "flip") then flip pos a
  else if decide (collision = str "flipfit") then flipfit pos a
  else pos.

(** ** Positioning an element *)

(** What is measured of the element. *)
Record element_info := {
  elemWidth : number; elemHeight : number;
  marginLeft : number; marginRight : number; marginTop : number; marginBottom : number;
}.

(** [basePosition.left += ...]: the anchor of a size by its name. *)
Definition anchor (name high : jstr) (size : number) : number :=
  if decide (name = high) then size
  else if decide (name = str "center") then num_div size two else zero.

Definition base_position (at_ : placement) (d : dimensions) : point :=
  let '(ox, oy) := getOffsets (offsets at_) (width d) (height d) in
  {| left := num_add (num_add (left (origin d)) (anchor (fst (names at_)) (str "right") (width d))) ox;
     top := num_add (num_add (top (origin d)) (anchor (snd (names at_)) (str "bottom") (height d))) oy |}.

(** The position of the element before collisions. *)
Definition my_position (my : placement) (base : point) (e : element_info) : point :=
  let '(ox, oy) := getOffsets (offsets my) (elemWidth e) (elemHeight e) in
  {| left := num_add (num_sub (left base) (anchor (fst (names my)) (str "right") (elemWidth e))) ox;
     top := num_add (num_sub (top base) (anchor (snd (names my)) (str "bottom") (elemHeight e))) oy |}.

Definition left_axis (my at_ : placement) (d : dimensions) (w : within_info) (scroll : number) (e : element_info) : axis :=
  {| ax_isWindow := isWindow w; ax_scroll := scrollLeft w; ax_offset := left (w_offset w); ax_extent := w_width w;
     ax_margin := marginLeft e;
     ax_collision := num_add (num_add (num_add (elemWidth e) (marginLeft e)) (marginRight e)) scroll;
     ax_elem := elemWidth e; ax_target := width d;
     ax_shift := num_add (getOffset (fst (offsets at_)) (width d)) (getOffset (fst (offsets my)) (elemWidth e));
     ax_my := fst (names my); ax_at := fst (names at_); ax_low := str "left"; ax_high := str "right" |}.
Definition top_axis (my at_ : placement) (d : dimensions) (w : within_info) (scroll : number) (e : element_info) : axis :=
  {| ax_isWindow := isWindow w; ax_scroll := scrollTop w; ax_offset := top (w_offset w); ax_extent := w_height w;
     ax_margin := marginTop e;
     ax_collision := num_add (num_add (num_add (elemHeight e) (marginTop e)) (marginBottom e)) scroll;
     ax_elem := elemHeight e; ax_target := height d;
     ax_shift := num_add (getOffset (snd (offsets at_)) (height d)) (getOffset (snd (offsets my)) (elemHeight e));
     ax_my := snd (names my); ax_at := snd (names at_); ax_low := str "top"; ax_high := str "bottom" |}.

(** The collision options: one word stands for both axes. *)
Definition collision_words (collision : jstr) : jstr * jstr :=
  match split_space (if decide (collision = []) then str "flip" else collision) with
  | [c] => (c, c)
  | c0 :: c1 :: _ => (c0, c1)
  | [] => ([], [])
  end.

(** [position( options )]: where the element goes; [None] is an exception. *)
Definition position (my at_ collision : jstr) (t : target) (w : within_info) (scroll : number * number) (e : element_info) : option point :=
  let at_ := match t with TEvent _ _ => str "left top" | _ => at_ end in
  match normalise my, normalise at_ with
  | Some my, Some at_ =>
      let d := getDimensions t in
      let p := my_position my (base_position at_ d) e in
      let '(cx, cy) := collision_words collision in
      Some {| left := collide cx (left p) (left_axis my at_ d w (fst scroll) e);
              top := collide cy (top p) (top_axis my at_ d w (snd scroll) e) |}
  | _, _ => None
  end.

(** The feedback given to [options.using]. *)
Definition feedback (d : dimensions) (e : element_info) (p : point) : jstr * jstr * jstr :=
  let l := num_sub (left (origin d)) (left p) in
  let r := num_sub (num_add l (width d)) (elemWidth e) in
  let t := num_sub (top (origin d)) (top p) in
  let b := num_sub (num_add t (height d)) (elemHeight e) in
  let horizontal := if num_ltb r zero then str "left" else if num_ltb zero l then str "right" else str "center" in
  let vertical := if num_ltb b zero then str "top" else if num_ltb zero t then str "bottom" else str "middle" in
  let horizontal := if num_ltb (width d) (elemWidth e) && num_ltb (num_abs (num_add l r)) (width d) then str "center" else horizontal in
  let vertical := if num_ltb (height d) (elemHeight e) && num_ltb (num_abs (num_add t b)) (height d) then str "middle" else vertical in
  let important := if num_ltb (num_max (num_abs t) (num_abs b)) (num_max (num_abs l) (num_abs r))
                   then str "horizontal" else str "vertical" in
  (horizontal, vertical, important).
