(* ===== verification/PositionProps.v ===== *)
(** Where [position] puts an element: the anchors meet, [fit] keeps the element
    inside, and [flip] changes sides only when that helps. *)
From Stdlib Require Import String.
From S2P Require Import Prelude JsNumber JsMath JsString ClassNames Position.

(** ** Coordinates that are integers *)

(** Whole coordinates on a page, where the arithmetic of numbers is exact. *)
Definition coord (z : Z) : Prop := Z.abs z <= 2 ^ 40.

Record zaxis := {
  za_isWindow : bool; za_scroll : Z; za_offset : Z; za_extent : Z; za_margin : Z; za_collision : Z;
  za_elem : Z; za_target : Z; za_shift : Z; za_my : jstr; za_at : jstr; za_low : jstr; za_high : jstr;
}.
Definition axis_of (a : zaxis) : axis :=
  {| ax_isWindow := za_isWindow a; ax_scroll := num_of_Z (za_scroll a); ax_offset := num_of_Z (za_offset a);
     ax_extent := num_of_Z (za_extent a); ax_margin := num_of_Z (za_margin a); ax_collision := num_of_Z (za_collision a);
     ax_elem := num_of_Z (za_elem a); ax_target := num_of_Z (za_target a); ax_shift := num_of_Z (za_shift a);
     ax_my := za_my a; ax_at := za_at a; ax_low := za_low a; ax_high := za_high a |}.
Definition coords (a : zaxis) : Prop :=
  coord (za_scroll a) /\ coord (za_offset a) /\ coord (za_extent a) /\ coord (za_margin a) /\ coord (za_collision a) /\
  coord (za_elem a) /\ coord (za_target a) /\ coord (za_shift a).

Definition edge (a : zaxis) : Z := if za_isWindow a then za_scroll a else za_offset a.

Lemma edge_num a : within_edge (axis_of a) = num_of_Z (edge a).
Proof. unfold within_edge, edge. cbn. by destruct (za_isWindow a). Qed.

(** An integer up to the sign of zero. *)
Definition near (z : Z) (x : number) : Prop := x = num_of_Z z \/ (z = 0 /\ x = S754_zero true).

Lemma near_num z : near z (num_of_Z z).
Proof. by left. Qed.

Lemma near_opp z : safe z -> near (- z) (num_opp (num_of_Z z)).
Proof. intros Hz. destruct (Z.eq_dec z 0) as [->|Hn]; [by right|left]. by apply num_opp_Z. Qed.

Lemma add_minus_zero x : safe x -> num_add (num_of_Z x) (S754_zero true) = num_of_Z x /\ num_add (S754_zero true) (num_of_Z x) = num_of_Z x.
Proof.
  intros Hx. destruct (Z.eq_dec x 0) as [->|Hn]; [done|]. by destruct (safe_repr x Hx Hn) as (m & e & -> & _).
Qed.

Lemma near_add a b x y : near a x -> near b y -> safe a -> safe b -> safe (a + b) -> near (a + b) (num_add x y).
Proof.
  intros [->|[-> ->]] [->|[-> ->]] Ha Hb Hab.
  - left. by apply num_add_Z.
  - left. rewrite Z.add_0_r. by apply add_minus_zero.
  - left. by apply add_minus_zero.
  - by right.
Qed.

Lemma near_mul_neg2 z : safe z -> safe (-2 * z) -> near (-2 * z) (num_mul (num_of_Z (-2)) (num_of_Z z)).
Proof.
  intros Hz H2. destruct (Z.eq_dec z 0) as [->|Hn]; [by right|left]. apply num_mul_Z; done || lia.
Qed.

Lemma add_near p z x : near z x -> safe p -> safe z -> safe (p + z) -> num_add (num_of_Z p) x = num_of_Z (p + z).
Proof. intros [->|[-> ->]] Hp Hz Hpz; [by apply num_add_Z|]. rewrite Z.add_0_r. by apply add_minus_zero. Qed.

Ltac safe_coord := unfold coords, coord, safe in *; lia.
(** Computes with coordinates. *)
Ltac num_simpl :=
  unfold zero in *;
  repeat first
    [ rewrite num_add_Z by safe_coord | rewrite num_sub_Z by safe_coord | rewrite num_mul_Z by safe_coord
    | rewrite num_ltb_Z by safe_coord | rewrite num_leb_Z by safe_coord | rewrite num_max_Z by safe_coord
    | rewrite num_abs_Z by safe_coord ].

(** ** fit *)

Lemma fit_num p a : coord p -> coords a ->
  let wo := edge a in
  let cp := p - za_margin a in
  let overLow := wo - cp in
  let overHigh := cp + za_collision a - za_extent a - wo in
  fit (num_of_Z p) (axis_of a) = num_of_Z (
    if za_extent a <? za_collision a then
      if (0 <? overLow) && (overHigh <=? 0) then p + (overLow - (p + overLow + za_collision a - za_extent a - wo))
      else if (0 <? overHigh) && (overLow <=? 0) then wo
      else if overHigh <? overLow then wo + za_extent a - za_collision a else wo
    else if 0 <? overLow then p + overLow else if 0 <? overHigh then p - overHigh else Z.max (p - cp) p).
Proof.
  intros Hp Ha wo cp overLow overHigh. assert (coord wo) as Hw by (unfold wo, edge; destruct (za_isWindow a); safe_coord).
  unfold fit. cbv zeta. rewrite edge_num. fold wo. cbn [ax_extent ax_margin ax_collision axis_of].
  unfold overHigh, overLow, cp in *. clearbody wo. num_simpl. by repeat case_match.
Qed.

(** [fit] keeps an element inside: when the element with its margins is not
    larger than the box, and the box does not begin left of the origin, the new
    position is the closest one at which the element lies inside, so that a
    position inside is kept.  A larger element is aligned with the end of the
    box it sticks out of least, that is with the beginning unless it sticks out
    there by more than at the other end. *)
Theorem fit_clamps (p : Z) (a : zaxis) (Hp : coord p) (Ha : coords a) (Hw : 0 <= edge a) :
  let low := edge a - (p - za_margin a) in
  let high := p - za_margin a + za_collision a - (edge a + za_extent a) in
  fit (num_of_Z p) (axis_of a) = num_of_Z (
    if za_collision a <=? za_extent a
    then Z.max (edge a + za_margin a) (Z.min p (edge a + za_extent a - za_collision a + za_margin a))
    else if high <? low then edge a + za_extent a - za_collision a else edge a).
Proof.
  intros low high. rewrite fit_num by done. cbv zeta. unfold low, high. set (wo := edge a) in *. clearbody wo. f_equal.
  repeat match goal with
  | |- context [ Z.ltb ?x ?y ] => destruct (Z.ltb_spec x y)
  | |- context [ Z.leb ?x ?y ] => destruct (Z.leb_spec x y)
  end; cbn [andb orb]; lia.
Qed.

(** ** flip *)

(** The distance by which [flip] moves, and how far an element sticks out. *)
Definition flip_distance (a : zaxis) : Z :=
  (if decide (za_my a = za_low a) then - za_elem a else if decide (za_my a = za_high a) then za_elem a else 0)
  + (if decide (za_at a = za_low a) then za_target a else if decide (za_at a = za_high a) then - za_target a else 0)
  - 2 * za_shift a.
Definition over_low (p : Z) (a : zaxis) : Z := Z.max 0 (edge a - (p - za_margin a)).
Definition over_high (p : Z) (a : zaxis) : Z := Z.max 0 (p - za_margin a + za_collision a - (edge a + za_extent a)).

Lemma flip_parts a : coords a ->
  exists m t, near m (flip_my (axis_of a)) /\ near t (flip_at (axis_of a)) /\
    near (-2 * za_shift a) (flip_offset (axis_of a)) /\ coord m /\ coord t /\ flip_distance a = m + t - 2 * za_shift a.
Proof.
  intros Ha. unfold flip_my, flip_at, flip_offset, flip_distance, zero. cbn [ax_my ax_at ax_low ax_high ax_elem ax_target ax_shift axis_of].
  pose proof (near_mul_neg2 (za_shift a) ltac:(safe_coord) ltac:(safe_coord)).
  pose proof (near_opp (za_elem a) ltac:(safe_coord)). pose proof (near_opp (za_target a) ltac:(safe_coord)).
  repeat case_decide; do 2 eexists; (split_and!; [done || apply near_num|done || apply near_num|done|safe_coord|safe_coord|done]).
Qed.

Lemma flip_shifted x a : coords a -> Z.abs x <= 2 ^ 43 ->
  num_add (num_add (num_add (num_of_Z x) (flip_my (axis_of a))) (flip_at (axis_of a))) (flip_offset (axis_of a))
  = num_of_Z (x + flip_distance a).
Proof.
  intros Ha Hx. destruct (flip_parts a Ha) as (m & t & Hm & Ht & Ho & Hcm & Hct & ->).
  rewrite (add_near x m _ Hm) by safe_coord. rewrite (add_near _ t _ Ht) by safe_coord.
  rewrite (add_near _ (-2 * za_shift a) _ Ho) by safe_coord. apply f_equal. lia.
Qed.

Lemma flip_moved p a : coords a -> Z.abs p <= 2 ^ 43 ->
  num_add (num_of_Z p) (num_add (num_add (flip_my (axis_of a)) (flip_at (axis_of a))) (flip_offset (axis_of a)))
  = num_of_Z (p + flip_distance a).
Proof.
  intros Ha Hp. destruct (flip_parts a Ha) as (m & t & Hm & Ht & Ho & Hcm & Hct & ->).
  assert (near (m + t + -2 * za_shift a) (num_add (num_add (flip_my (axis_of a)) (flip_at (axis_of a))) (flip_offset (axis_of a)))) as Hn.
  { apply near_add; [apply near_add; try done; safe_coord|done|safe_coord..]. }
  rewrite (add_near p _ _ Hn) by safe_coord. apply f_equal. lia.
Qed.

Lemma flip_num p a : coord p -> coords a ->
  let overLow := p - za_margin a - edge a in
  let overHigh := p - za_margin a + za_collision a - za_extent a - edge a in
  let p' := p + flip_distance a in
  flip (num_of_Z p) (axis_of a) = num_of_Z (
    if overLow <? 0 then
      let newOverHigh := p' + za_collision a - za_extent a - (za_offset a + za_scroll a) in
      if (newOverHigh <? 0) || (newOverHigh <? Z.abs overLow) then p' else p
    else if 0 <? overHigh then
      let newOverLow := p' - za_margin a - edge a in
      if (0 <? newOverLow) || (Z.abs newOverLow <? overHigh) then p' else p
    else p).
Proof.
  intros Hp Ha overLow overHigh p'. assert (coord (edge a)) as Hw by (unfold edge; destruct (za_isWindow a); safe_coord).
  unfold flip. cbv zeta. rewrite edge_num. cbn [ax_extent ax_margin ax_collision ax_offset ax_scroll axis_of].
  assert (Z.abs (flip_distance a) <= 2 ^ 42) as Hd.
  { destruct (flip_parts a Ha) as (m & t & _ & _ & _ & Hm & Ht & ->). safe_coord. }
  unfold p', overLow, overHigh. set (wo := edge a) in *. clearbody wo.
  rewrite (num_sub_Z p (za_margin a)) by safe_coord.
  rewrite !flip_shifted, flip_moved by safe_coord. num_simpl.
  replace (p - za_margin a + flip_distance a) with (p + flip_distance a - za_margin a) by lia.
  by repeat case_match.
Qed.

(** [flip] changes sides only when that helps: for an element without
    margins that is not larger than the box, in a window or in a box that is not
    scrolled, and whose mirrored position lies inwards, either the position is
    kept, or it moves to the mirrored position and sticks out by less than
    before; a position that sticks out nowhere is kept. *)
Theorem flip_improves (p : Z) (a : zaxis) (Hp : coord p) (Ha : coords a) (Hm : za_margin a = 0)
    (Hw : za_offset a + za_scroll a = edge a) (Hfits : za_collision a <= za_extent a)
    (Hlow : 0 < over_low p a -> 0 < flip_distance a) (Hhigh : 0 < over_high p a -> flip_distance a < 0) :
  exists p', flip (num_of_Z p) (axis_of a) = num_of_Z p' /\
    (p' = p \/ (p' = p + flip_distance a /\ over_low p' a + over_high p' a < over_low p a + over_high p a)).
Proof.
  rewrite flip_num by done. cbv zeta. eexists. split; [reflexivity|]. unfold over_low, over_high in *.
  rewrite Hw, Hm in *. set (dist := flip_distance a) in *. clearbody dist. set (wo := edge a) in *. clearbody wo.
  repeat match goal with |- context [ Z.ltb ?x ?y ] => destruct (Z.ltb_spec x y) end;
    cbn [orb]; try (left; lia); right; (split; [lia|]); lia.
Qed.

(** ** Anchors *)

(** What a name stands for on an axis: the beginning, the middle, the end. *)
Definition anchor_twice (name high : jstr) (size : Z) : Z :=
  if decide (name = high) then 2 * size else if decide (name = str "center") then size else 0.

Lemma anchor_num name high size : coord size -> 0 <= size -> size mod 2 = 0 ->
  exists k, anchor name high (num_of_Z size) = num_of_Z k /\ 2 * k = anchor_twice name high size /\ coord k.
Proof.
  intros Hc H0 Heven. unfold anchor, anchor_twice, two, zero. repeat case_decide.
  - by exists size.
  - exists (size / 2). assert (size = size / 2 * 2) as Hs by (pose proof (Z.div_mod size 2 ltac:(lia)); lia).
    split; [|split; [lia|unfold coord in *; lia]].
    rewrite Hs at 1. apply num_div_exact; unfold coord, safe in *; lia.
  - exists 0. done.
Qed.

(** An offset that is a whole number of pixels. *)
Definition whole_offset (o : option offset_text) (k : Z) : Prop :=
  match o with
  | None => k = 0
  | Some o => fraction o = [] /\ percent_sign o = false /\
      exists n, digits_value 10 0 (whole o) = Some n /\ 0 <= n /\ k = (if minus o then - n else n)
  end.

Lemma near_times_one k x : near k x -> safe k -> near k (num_mul x (num_of_Z 1)).
Proof.
  intros [->|[-> ->]] Hk; [|by right]. left. destruct (Z.eq_dec k 0) as [->|Hn]; [done|].
  rewrite num_mul_Z by (done || lia || (unfold safe in *; lia)). f_equal; lia.
Qed.

Lemma getOffset_near o k size : whole_offset o k -> coord k -> near k (getOffset o size).
Proof.
  destruct o as [o|]; cbn; [|by intros ->; left]. intros (Hf & Hp & n & Hn & Hn0 & ->) Hk. rewrite Hp.
  apply near_times_one; [|unfold coord, safe in *; destruct (minus o); lia].
  unfold offset_value. rewrite Hf, app_nil_r, Hn. cbn [from_option id].
  destruct (minus o); [apply near_opp; unfold coord, safe in *; lia|apply near_num].
Qed.

(** One axis: the anchor of the target, then the anchor of the element. *)
Lemma axis_aligned t ts es at_name my_name high at_off my_off ka km k1 k2 :
  coord t -> coord ka -> coord km -> coord k1 -> coord k2 ->
  anchor at_name high (num_of_Z ts) = num_of_Z k1 -> anchor my_name high (num_of_Z es) = num_of_Z k2 ->
  near ka at_off -> near km my_off ->
  num_add (num_sub (num_add (num_add (num_of_Z t) (anchor at_name high (num_of_Z ts))) at_off)
                   (anchor my_name high (num_of_Z es))) my_off = num_of_Z (t + k1 + ka - k2 + km).
Proof.
  intros Ht Hka Hkm Hk1 Hk2 -> -> Hna Hnm. rewrite num_add_Z by safe_coord.
  rewrite (add_near _ ka _ Hna) by safe_coord. rewrite num_sub_Z by safe_coord. by rewrite (add_near _ km _ Hnm) by safe_coord.
Qed.

(** The anchors meet: without collision handling the point of the element
    that [my] names, on either axis its beginning, middle or end, is put on the
    point of the target that [at] names, moved by the offsets of both. *)
Theorem position_aligned (my at_ : jstr) (pm pa : placement) (tw th tx ty ew eh axo ayo mxo myo : Z)
    (w : within_info) (scroll : number * number) (e : element_info)
    (Hmy : normalise my = Some pm) (Hat : normalise at_ = Some pa)
    (Hcoords : Forall coord [tw; th; tx; ty; ew; eh; axo; ayo; mxo; myo])
    (Heven : Forall (fun z => 0 <= z /\ z mod 2 = 0) [tw; th; ew; eh])
    (Hew : elemWidth e = num_of_Z ew) (Heh : elemHeight e = num_of_Z eh)
    (Hao : whole_offset (fst (offsets pa)) axo /\ whole_offset (snd (offsets pa)) ayo)
    (Hmo : whole_offset (fst (offsets pm)) mxo /\ whole_offset (snd (offsets pm)) myo) :
  let t := TElement (num_of_Z tw) (num_of_Z th) {| left := num_of_Z tx; top := num_of_Z ty |} in
  exists x y, position my at_ (str "none") t w scroll e = Some {| left := num_of_Z x; top := num_of_Z y |} /\
    2 * x + anchor_twice (fst (names pm)) (str "right") ew
      = 2 * tx + anchor_twice (fst (names pa)) (str "right") tw + 2 * (axo + mxo) /\
    2 * y + anchor_twice (snd (names pm)) (str "bottom") eh
      = 2 * ty + anchor_twice (snd (names pa)) (str "bottom") th + 2 * (ayo + myo).
Proof.
  intros t. repeat match goal with H : Forall _ (_ :: _) |- _ => apply Forall_cons in H as [? H] end.
  destruct Hao as [Hax Hay], Hmo as [Hmx Hmy'].
  destruct (anchor_num (fst (names pa)) (str "right") tw) as (k1 & E1 & T1 & C1); [done|naive_solver..|].
  destruct (anchor_num (snd (names pa)) (str "bottom") th) as (k2 & E2 & T2 & C2); [done|naive_solver..|].
  destruct (anchor_num (fst (names pm)) (str "right") ew) as (k3 & E3 & T3 & C3); [done|naive_solver..|].
  destruct (anchor_num (snd (names pm)) (str "bottom") eh) as (k4 & E4 & T4 & C4); [done|naive_solver..|].
  exists (tx + k1 + axo - k3 + mxo), (ty + k2 + ayo - k4 + myo). split; [|lia].
  unfold position, t. rewrite Hmy, Hat. change (collision_words (str "none")) with (str "none", str "none").
  cbv beta iota zeta. unfold collide. rewrite !decide_False by discriminate.
  unfold my_position, base_position, getOffsets.
  cbn [getDimensions left top origin width height fst snd]. rewrite Hew, Heh. do 2 f_equal.
  - apply axis_aligned; try done; by apply getOffset_near.
  - apply axis_aligned; try done; by apply getOffset_near.
Qed.

(** ** Examples *)

Definition demo_axis : zaxis :=
  {| za_isWindow := true; za_scroll := 100; za_offset := 0; za_extent := 800; za_margin := 0; za_collision := 200;
     za_elem := 200; za_target := 50; za_shift := 0; za_my := str "left"; za_at := str "right"; za_low := str "left"; za_high := str "right" |}.
Lemma demo_coords : coords demo_axis.
Proof. unfold coords, coord. cbn. lia. Qed.

Lemma fit_clamps_witness :
  let p := 850 in
  let low := edge demo_axis - (p - za_margin demo_axis) in
  let high := p - za_margin demo_axis + za_collision demo_axis - (edge demo_axis + za_extent demo_axis) in
  fit (num_of_Z p) (axis_of demo_axis) = num_of_Z (
    if za_collision demo_axis <=? za_extent demo_axis
    then Z.max (edge demo_axis + za_margin demo_axis)
           (Z.min p (edge demo_axis + za_extent demo_axis - za_collision demo_axis + za_margin demo_axis))
    else if high <? low then edge demo_axis + za_extent demo_axis - za_collision demo_axis else edge demo_axis).
Proof. apply fit_clamps; [vm_compute; discriminate|exact demo_coords|vm_compute; discriminate]. Defined.

Lemma flip_improves_witness :
  exists p', flip (num_of_Z 850) (axis_of demo_axis) = num_of_Z p' /\
    (p' = 850 \/ (p' = 850 + flip_distance demo_axis /\
       over_low p' demo_axis + over_high p' demo_axis < over_low 850 demo_axis + over_high 850 demo_axis)).
Proof.
  apply flip_improves; [vm_compute; discriminate|exact demo_coords|reflexivity|reflexivity|vm_compute; discriminate| |];
    vm_compute; [discriminate|reflexivity].
Defined.

Lemma position_aligned_witness :
  let t := TElement (num_of_Z 60) (num_of_Z 20) {| left := num_of_Z 300; top := num_of_Z 40 |} in
  let e := {| elemWidth := num_of_Z 100; elemHeight := num_of_Z 30; marginLeft := zero; marginRight := zero;
              marginTop := zero; marginBottom := zero |} in
  let w := getWithinInfo true false {| left := zero; top := zero |} zero zero (num_of_Z 800) (num_of_Z 600) in
  exists x y, position (str "right top+4") (str "center-10 bottom") (str "none") t w (zero, zero) e
      = Some {| left := num_of_Z x; top := num_of_Z y |} /\
    2 * x + anchor_twice (str "right") (str "right") 100 = 2 * 300 + anchor_twice (str "center") (str "right") 60 + 2 * (-10 + 0) /\
    2 * y + anchor_twice (str "top") (str "bottom") 30 = 2 * 40 + anchor_twice (str "bottom") (str "bottom") 20 + 2 * (0 + 4).
Proof.
  apply (position_aligned (str "right top+4") (str "center-10 bottom")
    {| names := (str "right", str "top"); offsets := (None, Some {| minus := false; whole := str "4"; fraction := []; percent_sign := false |}) |}
    {| names := (str "center", str "bottom"); offsets := (Some {| minus := true; whole := str "10"; fraction := []; percent_sign := false |}, None) |}).
  - vm_compute. reflexivity.
  - vm_compute. reflexivity.
  - repeat constructor; discriminate.
  - repeat constructor; discriminate.
  - reflexivity.
  - reflexivity.
  - split; [|reflexivity]. split; [reflexivity|]. split; [reflexivity|]. exists 10. split; [reflexivity|]. split; [discriminate|reflexivity].
  - split; [reflexivity|]. split; [reflexivity|]. split; [reflexivity|]. exists 4. split; [reflexivity|]. split; [discriminate|reflexivity].
Defined.

(** With the same side in [my] and [at] the mirrored position can lie further
    out, and [flip] takes it. *)
Example flip_further_out :
  let a := {| za_isWindow := true; za_scroll := 0; za_offset := 0; za_extent := 800; za_margin := 0; za_collision := 200;
              za_elem := 200; za_target := 50; za_shift := 0; za_my := str "left"; za_at := str "left";
              za_low := str "left"; za_high := str "right" |} in
  flip (num_of_Z (-20)) (axis_of a) = num_of_Z (-170).
Proof. vm_compute. reflexivity. Qed.

(** A box that begins left of the origin: [fit] moves an element out of it. *)
Example fit_moves_out :
  let a := {| za_isWindow := false; za_scroll := 0; za_offset := -500; za_extent := 400; za_margin := 0; za_collision := 100;
              za_elem := 100; za_target := 50; za_shift := 0; za_my := str "left"; za_at := str "left";
              za_low := str "left"; za_high := str "right" |} in
  fit (num_of_Z (-300)) (axis_of a) = num_of_Z 0.
Proof. vm_compute. reflexivity. Qed.
