(* ===== verification/Events.v ===== *)
(** The event system of jQuery (jquery-3.2.0.js): [jQuery.event], [on], [one],
    [off], [trigger], and the mapped events mouseenter and focusin.

    Handlers are functions with an identity, on which jQuery keeps its guid; what
    they do is an argument of the operations that run them.  Elements are
    numbers; their tree and the selector engine are an interface.  Event types
    that name a property of [Object.prototype] are left out. *)
From Stdlib Require Import String.
From S2P Require Import Prelude JsString ClassNames DataCache.

(** ** Event names *)

(** [rtypenamespace.exec( s )]: the type, and the namespaces when there are any.
    The texts are tokens, without line breaks. *)
Definition type_part (s : jstr) : jstr := take_until 46 s.
Definition namespace_part (s : jstr) : option jstr :=
  match drop (length (type_part s)) s with
  | _ :: c :: r => Some (c :: r)
  | _ => None
  end.

(** [s.split( "." )] and [l.join( "." )] *)
Fixpoint split_dot_go (part s : jstr) : list jstr :=
  match s with
  | [] => [part]
  | c :: s => if c =? 46 then part :: split_dot_go [] s else split_dot_go (part ++ [c]) s
  end.
Definition split_dot (s : jstr) : list jstr := split_dot_go [] s.
Fixpoint join_dot (l : list jstr) : jstr :=
  match l with
  | [] => []
  | [x] => x
  | x :: l => x ++ 46 :: join_dot l
  end.

(** [l.sort()]: by code units. *)
Fixpoint str_leb (s t : jstr) : bool :=
  match s, t with
  | [], _ => true
  | _ :: _, [] => false
  | a :: s, b :: t => (a <? b) || ((a =? b) && str_leb s t)
  end.
Fixpoint insert_name (x : jstr) (l : list jstr) : list jstr :=
  match l with
  | [] => [x]
  | y :: r => if str_leb x y then x :: l else y :: insert_name x r
  end.
Definition sort_names (l : list jstr) : list jstr := foldr insert_name [] l.

(** [( tmp[ 2 ] || "" ).split( "." ).sort()] *)
Definition namespaces_of (token : jstr) : list jstr := sort_names (split_dot (default [] (namespace_part token))).

(** [new RegExp( "(^|\\.)" + namespaces.join( "\\.(?:.*\\.|)" ) + "(\\.|$)" ).test( s )]
    for namespaces without operators of regular expressions: the rest of a text
    behind each of its dots, the pattern at the start of a text, and anywhere. *)
Fixpoint after_dots (s : jstr) : list jstr :=
  match s with
  | [] => []
  | c :: s => if c =? 46 then s :: after_dots s else after_dots s
  end.
Fixpoint pattern_here (ns : list jstr) (s : jstr) : bool :=
  match ns with
  | [] => true
  | n :: ns =>
      is_prefix n s &&
      match ns, drop (length n) s with
      | [], [] => true
      | [], c :: _ => c =? 46
      | _, [] => false
      | _, c :: r => (c =? 46) && existsb (pattern_here ns) (r :: after_dots r)
      end
  end.
Definition namespace_test (ns : list jstr) (s : jstr) : bool := existsb (pattern_here ns) (s :: after_dots s).

(** ** Special events *)

(** What an entry of [jQuery.event.special] does before a trigger, and after. *)
Inductive trigger_hook := FocusHook | BlurHook | ClickHook.
Record special_event := {
  delegateType : option jstr;
  bindType : option jstr;
  noBubble : bool;
  trigger_ : option trigger_hook;   (* special.trigger *)
  link_default : bool;              (* special._default: not for links *)
  unload_result : bool;             (* special.postDispatch *)
  hover : bool;                     (* special.handle *)
  capture_focus : option jstr;      (* setup and teardown: capture this type on the document *)
}.
Definition no_special : special_event :=
  {| delegateType := None; bindType := None; noBubble := false; trigger_ := None; link_default := false;
     unload_result := false; hover := false; capture_focus := None |}.
#[export] Instance eta_special : Eta special_event := fun s =>
  {| delegateType := delegateType s; bindType := bindType s; noBubble := noBubble s; trigger_ := trigger_ s;
     link_default := link_default s; unload_result := unload_result s; hover := hover s; capture_focus := capture_focus s |}.

(** mouseenter and the like: bound as [fix_], run by event-time checks. *)
Definition hover_special (fix_ : jstr) : special_event :=
  no_special <| delegateType := Some fix_ |> <| bindType := Some fix_ |> <| hover := true |>.

(** [jQuery.event.special[ type ] || {}]; [focusin] is [support.focusin]. *)
Definition special (focusin : bool) (type : jstr) : special_event :=
  if decide (type = str "load") then no_special <| noBubble := true |>
  else if decide (type = str "focus") then no_special <| trigger_ := Some FocusHook |> <| delegateType := Some (str "focusin") |>
  else if decide (type = str "blur") then no_special <| trigger_ := Some BlurHook |> <| delegateType := Some (str "focusout") |>
  else if decide (type = str "click") then no_special <| trigger_ := Some ClickHook |> <| link_default := true |>
  else if decide (type = str "beforeunload") then no_special <| unload_result := true |>
  else if decide (type = str "mouseenter") then hover_special (str "mouseover")
  else if decide (type = str "mouseleave") then hover_special (str "mouseout")
  else if decide (type = str "pointerenter") then hover_special (str "pointerover")
  else if decide (type = str "pointerleave") then hover_special (str "pointerout")
  else if decide (type = str "focusin") then if focusin then no_special else no_special <| capture_focus := Some (str "focus") |>
  else if decide (type = str "focusout") then if focusin then no_special else no_special <| capture_focus := Some (str "blur") |>
  else no_special.

#[export] Instance owner_kind_eq_dec : EqDecision owner_kind.
Proof. solve_decision. Defined.

(** ** The document *)

(** Elements, the document and the window, as the event system sees them. *)
Class Dom := {
  node_kind : nat -> owner_kind;               (* nodeType *)
  is_text : nat -> bool;                       (* nodeType is 3 *)
  is_comment : nat -> bool;                    (* nodeType is 8 *)
  parentNode : nat -> option nat;
  depth : nat -> nat;                          (* the number of nodes above *)
  document : nat;
  window : nat;
  ownerDocument : nat -> option nat;
  isWindow : nat -> bool;
  can_listen : nat -> bool;                    (* addEventListener exists *)
  disabled : nat -> bool;
  is_link : nat -> bool;                       (* nodeName( elem, "a" ) *)
  checkable : nat -> bool;                     (* a checkbox or radio input *)
  has_method : nat -> jstr -> bool;            (* elem[ type ] is a function *)
  contains : nat -> nat -> bool;               (* jQuery.contains *)
  focusin_support : bool;                      (* support.focusin *)
  valid_selector : jstr -> bool;
  needsContext : jstr -> bool;                 (* jQuery.expr.match.needsContext *)
  find_self : jstr -> nat -> nat -> bool;      (* jQuery.find( sel, this, null, [ cur ] ).length *)
  find_index : jstr -> nat -> nat -> bool;     (* jQuery( sel, this ).index( cur ) > -1 *)
}.

(** ** Handlers *)

Section events.
Context {K V U : Type} `{!EqDecision K} {dom : Dom}.

(** A function: one of the user's, or the library's [returnFalse].  [Once f] is
    the wrapper that [one] makes for [f]; it has the guid of [f]. *)
Inductive func := User (k : K) | ReturnFalse.
Inductive handler := Plain (f : func) | Once (f : func).
Definition fn_of (h : handler) : func := match h with Plain f | Once f => f end.
#[export] Instance func_eq_dec : EqDecision func.
Proof. solve_decision. Defined.

Record handleObj := {
  h_type : jstr; h_origType : jstr; h_data : option V; h_handler : handler; h_guid : Z;
  h_selector : option jstr; h_needsContext : bool; h_namespace : jstr;
}.

(** [handlers] with its [delegateCount], and the private data of an element. *)
Record handler_list := { entries : list handleObj; delegateCount : nat }.
Record elem_data := { events : option (list (jstr * handler_list)); handle : bool }.
#[export] Instance eta_elem_data : Eta elem_data := fun d => {| events := events d; handle := handle d |}.

Record world := {
  elems : nat -> elem_data;             (* dataPriv *)
  listeners : list (nat * jstr);        (* elem.addEventListener( type, elemData.handle ) *)
  focus_count : nat -> jstr -> Z;       (* dataPriv.access( doc, fix ); 0 is undefined *)
  captures : list (nat * jstr);         (* doc.addEventListener( orig, handler, true ) *)
  guids : func -> option Z;             (* handler.guid *)
  next_guid : Z;                        (* jQuery.guid *)
  global_types : list jstr;             (* jQuery.event.global *)
  triggered : option jstr;              (* jQuery.event.triggered *)
  inline : nat -> jstr -> option func;  (* elem[ "on" + type ] *)
  user : U;                             (* everything else *)
}.
#[export] Instance eta_world : Eta world := fun w =>
  {| elems := elems w; listeners := listeners w; focus_count := focus_count w; captures := captures w; guids := guids w;
     next_guid := next_guid w; global_types := global_types w; triggered := triggered w; inline := inline w; user := user w |}.

Definition set_at {A} (f : nat -> A) (e : nat) (a : A) : nat -> A := fun e' => if decide (e' = e) then a else f e'.
Definition set_at2 {A} (f : nat -> jstr -> A) (e : nat) (t : jstr) (a : A) : nat -> jstr -> A :=
  fun e' t' => if decide (e' = e /\ t' = t) then a else f e' t'.

(** A string used as a condition. *)
Definition given (s : option jstr) : bool := match s with Some (_ :: _) => true | _ => false end.

(** ** The data of an element *)

(** Nodes without data get an object that is thrown away. *)
Definition get_data (e : nat) (w : world) : elem_data :=
  if acceptData (node_kind e) then elems w e else {| events := None; handle := false |}.
Definition put_data (e : nat) (d : elem_data) (w : world) : world :=
  if acceptData (node_kind e) then w <| elems := set_at (elems w) e d |> else w.

(** [events[ type ]] and its assignment and deletion. *)
Fixpoint lookup_type (t : jstr) (l : list (jstr * handler_list)) : option handler_list :=
  match l with
  | [] => None
  | (t', h) :: l => if decide (t = t') then Some h else lookup_type t l
  end.
Fixpoint assign_type (t : jstr) (h : handler_list) (l : list (jstr * handler_list)) : list (jstr * handler_list) :=
  match l with
  | [] => [(t, h)]
  | (t', h') :: l => if decide (t = t') then (t, h) :: l else (t', h') :: assign_type t h l
  end.
Definition delete_type (t : jstr) (l : list (jstr * handler_list)) : list (jstr * handler_list) :=
  filter (fun p => fst p <> t) l.

(** The list of an element for a type; [None] when there is none. *)
Definition list_for (e : nat) (t : jstr) (w : world) : option handler_list :=
  lookup_type t (default [] (events (get_data e w))).

(** ** Setup and teardown *)

(** [special.setup.call( elem ) ] of focusin and focusout. *)
Definition doc_of (e : nat) : nat := default e (ownerDocument e).
Definition focus_setup (e : nat) (fix_ orig : jstr) (w : world) : world :=
  let doc := doc_of e in
  let attaches := focus_count w doc fix_ in
  let w := if attaches =? 0 then w <| captures := (doc, orig) :: captures w |> else w in
  w <| focus_count := set_at2 (focus_count w) doc fix_ (attaches + 1) |>.
Definition focus_teardown (e : nat) (fix_ orig : jstr) (w : world) : world :=
  let doc := doc_of e in
  let attaches := focus_count w doc fix_ in
  if attaches <=? 1
  then w <| captures := filter (fun p => p <> (doc, orig)) (captures w) |> <| focus_count := set_at2 (focus_count w) doc fix_ 0 |>
  else w <| focus_count := set_at2 (focus_count w) doc fix_ (attaches - 1) |>.

(** The first handler of a type, and the last. *)
Definition start_listening (e : nat) (t : jstr) (w : world) : world :=
  match capture_focus (special focusin_support t) with
  | Some orig => focus_setup e t orig w
  | None => if can_listen e then w <| listeners := (e, t) :: listeners w |> else w
  end.
Definition stop_listening (e : nat) (t : jstr) (w : world) : world :=
  match capture_focus (special focusin_support t) with
  | Some orig => focus_teardown e t orig w
  | None => w <| listeners := filter (fun p => p <> (e, t)) (listeners w) |>
  end.

(** ** Binding *)

Definition handler_guid (h : handler) (w : world) : option Z := guids w (fn_of h).

(** [if ( !handler.guid ) handler.guid = jQuery.guid++]; [one] does the same for
    the function it wraps. *)
Definition ensure_guid (f : func) (w : world) : world :=
  match guids w f with
  | Some _ => w
  | None => w <| guids := (fun g => if decide (g = f) then Some (next_guid w) else guids w g) |> <| next_guid := next_guid w + 1 |>
  end.

(** [handlers.splice( handlers.delegateCount++, 0, handleObj )] or
    [handlers.push( handleObj )] *)
Definition insert_handler (selector : option jstr) (o : handleObj) (l : handler_list) : handler_list :=
  if given selector
  then {| entries := take (delegateCount l) (entries l) ++ o :: drop (delegateCount l) (entries l);
          delegateCount := S (delegateCount l) |}
  else {| entries := entries l ++ [o]; delegateCount := delegateCount l |}.

(** The type under which handlers are kept:
    [( selector ? special.delegateType : special.bindType ) || type] *)
Definition mapped_type (selector : option jstr) (type : jstr) : jstr :=
  let s := special focusin_support type in
  default type (if given selector then delegateType s else bindType s).

Definition empty_list : handler_list := {| entries := []; delegateCount := 0 |}.

(** One turn of the loop of [add], on the events of the element; a handler
    object given instead of a handler ([handleObjIn]) overrides every field. *)
Definition add_token (e : nat) (h : handler) (g : Z) (data : option V) (selector : option jstr) (objIn : option handleObj)
    (p : list (jstr * handler_list) * world) (token : jstr) : list (jstr * handler_list) * world :=
  let '(evs, w) := p in
  let origType := type_part token in
  if decide (origType = []) then (evs, w)
  else
    let type := mapped_type selector origType in
    let o := default {| h_type := type; h_origType := origType; h_data := data; h_handler := h; h_guid := g; h_selector := selector;
                        h_needsContext := match selector with Some s => given selector && needsContext s | None => false end;
                        h_namespace := join_dot (namespaces_of token) |} objIn in
    let '(l, w) := match lookup_type type evs with
                   | Some l => (l, w)
                   | None => (empty_list, start_listening e type w)
                   end in
    (assign_type type (insert_handler selector o l) evs, w <| global_types := type :: global_types w |>).

(** [( types || "" ).match( rnothtmlwhite ) || [ "" ]] *)
Definition type_tokens (types : jstr) : list jstr := match tokens types with [] => [[]] | l => l end.

(** A handler, or a handler object in its place. *)
Definition handler_parts (hin : handler + handleObj) (selector : option jstr) : handler * option jstr * option handleObj :=
  match hin with
  | inl h => (h, selector, None)
  | inr o => (h_handler o, h_selector o, Some o)
  end.
(** [jQuery.find.matchesSelector( documentElement, selector )], for its
    exception. *)
Definition check_selector (selector : option jstr) : eff world unit :=
  match selector with
  | Some s => if given selector && negb (valid_selector s) then throw (UserError "Syntax error, unrecognized expression") else mret tt
  | None => mret tt
  end.

(** [jQuery.event.add( elem, types, handler, data, selector )] *)
Definition add (e : nat) (types : jstr) (hin : handler + handleObj) (data : option V) (selector : option jstr) : eff world unit :=
  let '(h, selector, objIn) := handler_parts hin selector in
  check_selector selector ;;
  modify (ensure_guid (fn_of h)) ;;
  modify (fun w =>
    let d := get_data e w in
    let g := default 0 (handler_guid h w) in
    let '(evs, w) := fold_left (add_token e h g data selector objIn) (rev (type_tokens types)) (default [] (events d), w) in
    put_data e {| events := Some evs; handle := true |} w).

(** ** Unbinding *)

(** The condition under which [remove] drops a handler. *)
Definition removes (mapped : bool) (origType : jstr) (h : option handler) (ns : option (list jstr)) (selector : option jstr)
    (w : world) (o : handleObj) : bool :=
  (mapped || bool_decide (origType = h_origType o)) &&
  match h with Some h => bool_decide (handler_guid h w = Some (h_guid o)) | None => true end &&
  match ns with Some ns => namespace_test ns (h_namespace o) | None => true end &&
  (negb (given selector) || bool_decide (selector = h_selector o) ||
   (bool_decide (selector = Some (str "**")) && given (h_selector o))).

(** [while ( j-- )]: [handlers.splice( j, 1 )] of those that match. *)
Fixpoint remove_loop (p : handleObj -> bool) (j : nat) (l : handler_list) : handler_list :=
  match j with
  | O => l
  | S j =>
      remove_loop p j
        match entries l !! j with
        | Some o =>
            if p o then {| entries := delete j (entries l);
                           delegateCount := if given (h_selector o) then pred (delegateCount l) else delegateCount l |}
            else l
        | None => l
        end
  end.

Definition update_events (e : nat) (f : list (jstr * handler_list) -> list (jstr * handler_list)) (w : world) : world :=
  let d := get_data e w in
  put_data e (d <| events := f <$> events d |>) w.

(** One turn of the loop of [remove] for a token with a type. *)
Definition remove_typed (e : nat) (mapped : bool) (h : option handler) (selector : option jstr) (w : world) (token : jstr) : world :=
  let origType := type_part token in
  let type := mapped_type selector origType in
  match list_for e type w with
  | None => w
  | Some l =>
      let ns := (fun _ => namespaces_of token) <$> namespace_part token in
      let l' := remove_loop (removes mapped origType h ns selector w) (length (entries l)) l in
      if (0 <? length (entries l))%nat && (length (entries l') =? 0)%nat
      then update_events e (delete_type type) (stop_listening e type w)
      else update_events e (assign_type type l') w
  end.

(** [if ( jQuery.isEmptyObject( events ) ) dataPriv.remove( elem, "handle events" )] *)
Definition drop_empty (e : nat) (w : world) : world :=
  match events (get_data e w) with
  | Some [] => put_data e {| events := None; handle := false |} w
  | _ => w
  end.

(** A token without a type stands for every type of the element. *)
Definition remove_token (e : nat) (mapped : bool) (h : option handler) (selector : option jstr) (w : world) (token : jstr) : world :=
  if decide (type_part token = []) then
    fold_left (fun w type => drop_empty e (remove_typed e true h selector w (type ++ token)))
      (map fst (default [] (events (get_data e w)))) w
  else remove_typed e mapped h selector w token.

(** [jQuery.event.remove( elem, types, handler, selector )] *)
Definition remove (e : nat) (types : jstr) (h : option handler) (selector : option jstr) (w : world) : world :=
  match events (get_data e w) with
  | None => w
  | Some _ => drop_empty e (fold_left (remove_token e false h selector) (rev (type_tokens types)) w)
  end.

(** ** Event objects *)

(** What a user's function returned. *)
Inductive retval := Undefined | False_ | Value (v : V).

(** A native event: its fields, and what has been done to it. *)
Record native := {
  n_type : jstr; n_target : nat; n_relatedTarget : option nat; n_button : Z; n_timeStamp : Z;
  n_prevented : bool; n_stopped : bool; n_stoppedNow : bool; n_returnValue : option retval;
}.
#[export] Instance eta_native : Eta native := fun n =>
  {| n_type := n_type n; n_target := n_target n; n_relatedTarget := n_relatedTarget n; n_button := n_button n;
     n_timeStamp := n_timeStamp n; n_prevented := n_prevented n; n_stopped := n_stopped n; n_stoppedNow := n_stoppedNow n;
     n_returnValue := n_returnValue n |}.

(** [jQuery.Event] *)
Record event := {
  originalEvent : option native;
  ev_type : jstr;
  target : option nat;
  currentTarget : option nat;
  relatedTarget : option nat;
  delegateTarget : option nat;
  ev_data : option V;
  ev_handleObj : option handleObj;
  ev_result : retval;
  ev_namespace : option jstr;             (* own property namespace *)
  rnamespace : option (list jstr);
  isTrigger : Z;
  isSimulated : bool;
  isDefaultPrevented : bool;
  isPropagationStopped : bool;
  isImmediatePropagationStopped : bool;
}.
#[export] Instance eta_event : Eta event := fun e =>
  {| originalEvent := originalEvent e; ev_type := ev_type e; target := target e; currentTarget := currentTarget e;
     relatedTarget := relatedTarget e; delegateTarget := delegateTarget e; ev_data := ev_data e;
     ev_handleObj := ev_handleObj e; ev_result := ev_result e; ev_namespace := ev_namespace e; rnamespace := rnamespace e;
     isTrigger := isTrigger e; isSimulated := isSimulated e; isDefaultPrevented := isDefaultPrevented e;
     isPropagationStopped := isPropagationStopped e; isImmediatePropagationStopped := isImmediatePropagationStopped e |}.

(** [new jQuery.Event( type )] *)
Definition Event_of_type (type : jstr) : event :=
  {| originalEvent := None; ev_type := type; target := None; currentTarget := None; relatedTarget := None;
     delegateTarget := None; ev_data := None; ev_handleObj := None; ev_result := Undefined; ev_namespace := None;
     rnamespace := None; isTrigger := 0; isSimulated := false; isDefaultPrevented := false;
     isPropagationStopped := false; isImmediatePropagationStopped := false |}.

(** [new jQuery.Event( src )]: the target of an event at a text node is its
    parent. *)
Definition Event_of_native (n : native) : event :=
  (Event_of_type (n_type n))
    <| originalEvent := Some n |>
    <| isDefaultPrevented := n_prevented n |>
    <| target := if is_text (n_target n) then parentNode (n_target n) else Some (n_target n) |>
    <| relatedTarget := n_relatedTarget n |>.

(** A call on the native event behind an event, unless it is simulated. *)
Definition on_original (f : native -> native) (ev : event) : event :=
  if isSimulated ev then ev else ev <| originalEvent := f <$> originalEvent ev |>.
Definition preventDefault (ev : event) : event :=
  on_original (fun n => n <| n_prevented := true |>) (ev <| isDefaultPrevented := true |>).
Definition stopPropagation (ev : event) : event :=
  on_original (fun n => n <| n_stopped := true |>) (ev <| isPropagationStopped := true |>).
Definition stopImmediatePropagation (ev : event) : event :=
  stopPropagation (on_original (fun n => n <| n_stoppedNow := true |>) (ev <| isImmediatePropagationStopped := true |>)).

(** ** Dispatch *)

(** [for ( ; cur !== this; cur = cur.parentNode || this )]: the nodes from the
    target up to the one the handlers are bound to. *)
Fixpoint nodes_below (fuel : nat) (this cur : nat) : list nat :=
  match fuel with
  | O => []
  | S fuel => if decide (cur = this) then [] else cur :: nodes_below fuel this (default this (parentNode cur))
  end.

(** The delegated handlers whose selector matches [cur]; [memo] is
    [matchedSelectors]. *)
Definition selector_matches (this cur : nat) (o : handleObj) : bool :=
  let sel := default [] (h_selector o) ++ str " " in
  if h_needsContext o then find_index sel this cur else find_self sel this cur.
Fixpoint match_delegates (this cur : nat) (memo : list (jstr * bool)) (l : list handleObj) : list handleObj :=
  match l with
  | [] => []
  | o :: l =>
      let sel := default [] (h_selector o) in
      let '(b, memo) := match List.find (fun p => bool_decide (fst p = sel)) memo with
                        | Some p => (snd p, memo)
                        | None => let b := selector_matches this cur o in (b, (sel, b) :: memo)
                        end in
      if (b : bool) then o :: match_delegates this cur memo l else match_delegates this cur memo l
  end.

(** [jQuery.event.handlers.call( this, event, handlers )]; [button] is that of
    the original event. *)
Definition handlers (this : nat) (ev : event) (l : handler_list) : list (nat * list handleObj) :=
  let cur := default this (target ev) in
  let click := bool_decide (ev_type ev = str "click") in
  let button := match originalEvent ev with Some n => n_button n | None => 0 end in
  let delegated :=
    if (0 <? delegateCount l)%nat && negb (bool_decide (node_kind cur = PlainObject)) && negb (click && (1 <=? button)) then
      flat_map (fun cur =>
        if bool_decide (node_kind cur = Element) && negb (click && disabled cur) then
          match match_delegates this cur [] (take (delegateCount l) (entries l)) with
          | [] => []
          | m => [(cur, m)]
          end
        else [])
        (nodes_below (S (S (depth cur))) this cur)
    else [] in
  delegated ++ (if (delegateCount l <? length (entries l))%nat then [(this, drop (delegateCount l) (entries l))] else []).

(** ** Running handlers *)

Section run.
(** What the user's functions do, called with [this], the event and the further
    arguments; and what the browser does when a method like [focus] or [click]
    of an element is called. *)
Variable call : K -> nat -> event -> list V -> eff world (retval * event).
Variable native_method : nat -> jstr -> eff world unit.
(** [safeActiveElement()] *)
Variable active_element : world -> option nat.

Definition call_func (f : func) (this : nat) (ev : event) (args : list V) : eff world (retval * event) :=
  match f with
  | User k => call k this ev args
  | ReturnFalse => mret (False_, ev)
  end.

(** [jQuery().off( event )]: unbind the handler that is running. *)
Definition off_event (ev : event) (w : world) : world :=
  match ev_handleObj ev, delegateTarget ev with
  | Some o, Some e =>
      let types := match h_namespace o with [] => h_origType o | ns => h_origType o ++ 46 :: ns end in
      remove e types (Some (h_handler o)) (h_selector o) w
  | _, _ => w
  end.

Definition call_handler (h : handler) (this : nat) (ev : event) (args : list V) : eff world (retval * event) :=
  match h with
  | Plain f => call_func f this ev args
  | Once f => modify (off_event ev) ;; call_func f this ev args
  end.

(** [( jQuery.event.special[ handleObj.origType ] || {} ).handle || handleObj.handler]:
    the hover events run only when the pointer comes from outside. *)
Definition run_handler (o : handleObj) (this : nat) (ev : event) (args : list V) : eff world (retval * event) :=
  let s := special focusin_support (h_origType o) in
  if hover s then
    let outside := match relatedTarget ev with
                   | None => true
                   | Some r => negb (r =? this)%nat && negb (contains this r)
                   end in
    if (outside : bool) then
      '(ret, ev) ← call_handler (h_handler o) this (ev <| ev_type := h_origType o |>) args;
      mret (ret, ev <| ev_type := default [] (bindType s) |>)
    else mret (Undefined, ev)
  else call_handler (h_handler o) this ev args.

(** What follows from the value a handler returned. *)
Definition after_handler (ret : retval) (ev : event) : event :=
  match ret with
  | Undefined => ev
  | False_ => stopPropagation (preventDefault (ev <| ev_result := ret |>))
  | Value _ => ev <| ev_result := ret |>
  end.

(** The inner loop of [dispatch]: the handlers of one element. *)
Fixpoint run_matched (cur : nat) (l : list handleObj) (args : list V) (ev : event) : eff world event :=
  match l with
  | [] => mret ev
  | o :: l =>
      if isImmediatePropagationStopped ev then mret ev
      else if match rnamespace ev with Some ns => namespace_test ns (h_namespace o) | None => true end then
        '(ret, ev) ← run_handler o cur (ev <| ev_handleObj := Some o |> <| ev_data := h_data o |>) args;
        run_matched cur l args (after_handler ret ev)
      else run_matched cur l args ev
  end.

(** The outer loop: element by element. *)
Fixpoint run_queue (q : list (nat * list handleObj)) (args : list V) (ev : event) : eff world event :=
  match q with
  | [] => mret ev
  | (cur, l) :: q =>
      if isPropagationStopped ev then mret ev
      else ev ← run_matched cur l args (ev <| currentTarget := Some cur |>); run_queue q args ev
  end.

(** [special.postDispatch] of beforeunload. *)
Definition post_dispatch (s : special_event) (ev : event) : event :=
  if unload_result s then
    match ev_result ev with
    | Undefined => ev
    | r => ev <| originalEvent := (fun n => n <| n_returnValue := Some r |>) <$> originalEvent ev |>
    end
  else ev.

(** [jQuery.event.dispatch.apply( this, [ event ].concat( args ) )]; a native
    event is wrapped first.  The special events have no [preDispatch]. *)
Definition dispatch (this : nat) (ev : native + event) (args : list V) : eff world (retval * event) :=
  let ev := match ev with inl n => Event_of_native n | inr ev => ev end in
  w ← get;
  let type := ev_type ev in
  let ev := ev <| delegateTarget := Some this |> in
  let q := match list_for this type w with Some l => handlers this ev l | None => [] end in
  ev ← run_queue q args ev;
  let ev := post_dispatch (special focusin_support type) ev in
  mret (ev_result ev, ev).

(** [elemData.handle], the one listener of an element: it ignores the second
    event of a default action. *)
Definition event_handle (this : nat) (ev : native + event) (args : list V) : eff world (retval * event) :=
  w ← get;
  let fixed := match ev with inl n => Event_of_native n | inr ev => ev end in
  if bool_decide (triggered w = Some (ev_type fixed)) then mret (Undefined, fixed) else dispatch this ev args.

(** ** Triggering *)

(** [rfocusMorph.test( s )] *)
Definition rfocusMorph (s : jstr) : bool :=
  bool_decide (s = str "focusinfocus") || bool_decide (s = str "focusoutblur").

(** [special.trigger.apply( elem, data ) === false]: a native method that fires
    the event by itself. *)
Definition trigger_special (elem : nat) (h : option trigger_hook) : eff world bool :=
  w ← get;
  let active := bool_decide (active_element w = Some elem) in
  let '(b, m) := match h with
                 | Some FocusHook => (negb active && has_method elem (str "focus"), str "focus")
                 | Some BlurHook => (active && has_method elem (str "blur"), str "blur")
                 | Some ClickHook => (checkable elem && has_method elem (str "click"), str "click")
                 | None => (false, [])
                 end in
  if (b : bool) then native_method elem m ;; mret true else mret false.

(** [for ( ; cur; cur = cur.parentNode ) eventPath.push( cur )] *)
Fixpoint path_up (fuel : nat) (cur : option nat) : list nat :=
  match fuel, cur with
  | S fuel, Some n => n :: path_up fuel (parentNode n)
  | _, _ => []
  end.
(** [eventPath]; the window follows when the path ends at the document. *)
Definition event_path (elem : nat) (bubble : option jstr) (type : jstr) : list nat :=
  match bubble with
  | None => [elem]
  | Some b =>
      let up := path_up (S (depth elem)) (if rfocusMorph (b ++ type) then Some elem else parentNode elem) in
      let top := List.last up elem in
      elem :: up ++ (if (top =? default document (ownerDocument elem))%nat then [window] else [])
  end.

(** [handle = ontype && cur[ ontype ]]; an event with a colon has none. *)
Definition inline_handler (cur : nat) (type : jstr) (w : world) : option func :=
  if existsb (fun c => c =? 58) type then None
  else if acceptData (node_kind cur) then inline w cur type else None.

(** One element of the path: jQuery's handlers, then the native one. *)
Definition fire_at (cur : nat) (type : jstr) (data : list V) (ev : event) : eff world event :=
  w ← get;
  ev ← match list_for cur (ev_type ev) w with
       | Some _ => if handle (get_data cur w) then '(_, ev) ← event_handle cur (inr ev) data; mret ev else mret ev
       | None => mret ev
       end;
  w ← get;
  match inline_handler cur type w with
  | Some f =>
      '(ret, ev) ← call_func f cur ev data;
      let ev := ev <| ev_result := ret |> in
      mret (match ret with False_ => preventDefault ev | _ => ev end)
  | None => mret ev
  end.
Fixpoint fire_path (types : jstr * jstr) (type : jstr) (path : list nat) (data : list V) (ev : event) : eff world event :=
  match path with
  | [] => mret ev
  | cur :: path =>
      if isPropagationStopped ev then mret ev
      else ev ← fire_at cur type data (ev <| ev_type := fst types |>); fire_path (snd types, snd types) type path data ev
  end.

(** [elem[ type ]()], guarded against handling the event a second time. *)
Definition default_action (elem : nat) (type : jstr) : eff world unit :=
  w ← get;
  let tmp := inline w elem type in
  modify (fun w => match tmp with Some _ => w <| inline := set_at2 (inline w) elem type None |> | None => w end) ;;
  modify (fun w => w <| triggered := Some type |>) ;;
  native_method elem type ;;
  modify (fun w => w <| triggered := None |>) ;;
  modify (fun w => match tmp with Some f => w <| inline := set_at2 (inline w) elem type (Some f) |> | None => w end).

(** The type and the namespaces of what is triggered. *)
Definition trigger_names (what : jstr + event) : jstr * list jstr :=
  let '(type, ns) := match what with
                     | inl type => (type, [])
                     | inr ev => (ev_type ev, match ev_namespace ev with Some ns => split_dot ns | None => [] end)
                     end in
  match split_dot type with
  | t :: ((_ :: _) as rest) => (t, sort_names rest)
  | _ => (type, ns)
  end.

(** The event object of a trigger. *)
Definition trigger_event (what : jstr + event) (type : jstr) (ns : list jstr) (elem : nat) (onlyHandlers : bool) : event :=
  let ev := match what with inl _ => Event_of_type type | inr ev => ev end in
  let name := join_dot ns in
  ev <| isTrigger := if onlyHandlers then 2 else 3 |>
     <| ev_namespace := Some name |>
     <| rnamespace := match name with [] => None | _ => Some ns end |>
     <| ev_result := Undefined |>
     <| target := match target ev with Some t => Some t | None => Some elem end |>.

(** [jQuery.event.trigger( event, data, elem, onlyHandlers )], with the event
    object afterwards. *)
Definition trigger (what : jstr + event) (data : list V) (elem : nat) (onlyHandlers : bool) : eff world (retval * event) :=
  let '(type, ns) := trigger_names what in
  let ev0 := match what with inl _ => Event_of_type type | inr ev => ev end in
  w ← get;
  if is_text elem || is_comment elem then mret (Undefined, ev0)
  else if rfocusMorph (match what with inl t => t | inr ev => ev_type ev end ++ default (str "undefined") (triggered w)) then mret (Undefined, ev0)
  else
    let ev := trigger_event what type ns elem onlyHandlers in
    let s := special focusin_support type in
    handled ← (if onlyHandlers then mret false else trigger_special elem (trigger_ s));
    if (handled : bool) then mret (Undefined, ev)
    else
      let bubble := if negb onlyHandlers && negb (noBubble s) && negb (isWindow elem)
                    then Some (default type (delegateType s)) else None in
      ev ← fire_path (default type (bindType s), default [] bubble) type (event_path elem bubble type) data ev;
      let ev := ev <| ev_type := type |> in
      (if negb onlyHandlers && negb (isDefaultPrevented ev)
          && negb (link_default s && match target ev with Some t => is_link t | None => false end)
          && acceptData (node_kind elem) && negb (existsb (fun c => c =? 58) type) && has_method elem type && negb (isWindow elem)
       then default_action elem type else mret tt) ;;
      mret (ev_result ev, ev).

(** [jQuery.event.simulate( type, elem, event )], on a copy of the event. *)
Definition simulate (type : jstr) (elem : nat) (ev : event) : eff world unit :=
  trigger (inr (ev <| ev_type := type |> <| isSimulated := true |>)) [] elem false ;; mret tt.

(** [jQuery.fn.trigger] and [triggerHandler] *)
Definition fn_trigger (elems : list nat) (what : jstr) (data : list V) : eff world unit :=
  for_each (fun e => trigger (inl what) data e false ;; mret tt) elems.
Definition triggerHandler (elems : list nat) (what : jstr) (data : list V) : eff world retval :=
  match elems with
  | e :: _ => '(ret, _) ← trigger (inl what) data e true; mret ret
  | [] => mret Undefined
  end.
End run.

(** ** The methods of collections *)

(** An argument of [on]: null or undefined, a string, a function, false, any
    other value. *)
Inductive arg := ANull | AText (s : jstr) | AFunc (f : func) | AFalse | AData (v : V).

(** Values that pass through as data. *)
Variable as_data : arg -> option V.

Definition selector_arg (a : arg) : option jstr := match a with AText s => Some s | _ => None end.
Definition func_arg (a : arg) : option func :=
  match a with AFunc f => Some f | AFalse => Some ReturnFalse | _ => None end.

(** The arguments of [on] sorted out: selector, data and function. *)
Definition on_args (selector data fn : arg) : arg * arg * arg :=
  match data, fn with
  | ANull, ANull => (ANull, ANull, selector)
  | _, ANull => match selector with
                | AText _ => (selector, ANull, data)
                | _ => (ANull, selector, data)
                end
  | _, _ => (selector, data, fn)
  end.

(** [on( elem, types, selector, data, fn, one )]; without a function nothing
    happens. *)
Definition on (elems : list nat) (types : jstr) (selector data fn : arg) (one : bool) : eff world unit :=
  let '(selector, data, fn) := on_args selector data fn in
  match func_arg fn with
  | None => mret tt
  | Some f =>
      (if one then modify (ensure_guid f) else mret tt) ;;
      for_each (fun e => add e types (inl (if one then Once f else Plain f)) (as_data data) (selector_arg selector)) elems
  end.
(** [on] with a map from types to handlers. *)
Definition falsy (a : arg) : bool := match a with ANull | AFalse | AText [] => true | _ => false end.
Definition on_map (elems : list nat) (types : list (jstr * arg)) (selector data : arg) (one : bool) : eff world unit :=
  let '(selector, data) := match selector with
                           | AText _ => (selector, data)
                           | _ => (ANull, if falsy data then selector else data)
                           end in
  for_each (fun '(type, fn) => on elems type selector data fn one) types.

(** [off( types, selector, fn )] *)
Definition off (elems : list nat) (types : jstr) (selector fn : arg) : eff world unit :=
  let '(selector, fn) := match selector with AFalse | AFunc _ => (ANull, selector) | _ => (selector, fn) end in
  for_each (fun e => modify (remove e types (Plain <$> func_arg fn) (selector_arg selector))) elems.
(** [off( types-object, selector )] *)
Definition off_map (elems : list nat) (types : list (jstr * arg)) (selector : arg) : eff world unit :=
  for_each (fun '(type, fn) => off elems type selector fn) types.

(** [cloneCopyEvent( src, dest )], the events: the handlers are bound to the
    copy one by one. *)
Definition cloneCopyEvent (src dest : nat) : eff world unit :=
  w ← get;
  match events (get_data src w) with
  | Some evs =>
      if bool_decide (node_kind dest = Element) then
        modify (put_data dest {| events := Some []; handle := false |}) ;;
        for_each (fun '(type, l) => for_each (fun o => add dest type (inr o) None None) (entries l)) evs
      else mret tt
  | None => mret tt
  end.
End events.
