(* ===== verification/EventNames.v ===== *)
(** Namespaces of events: the pattern that selects handlers by namespace accepts
    exactly the handlers that have all the namespaces asked for. *)
From Stdlib Require Import String Sorted.
From S2P Require Import Prelude JsString ClassNames DataCache Events.

(** ** Splitting and joining *)

Definition dotless (s : jstr) : Prop := 46 ∉ s.

Lemma split_dot_go_dotless part s : dotless part -> Forall dotless (split_dot_go part s).
Proof.
  revert part. induction s as [|c s IH]; intros part Hp; cbn; [by constructor|]. destruct (Z.eqb_spec c 46) as [->|].
  - constructor; [done|]. apply IH. unfold dotless. set_solver.
  - apply IH. unfold dotless in *. set_solver.
Qed.
Lemma split_dot_dotless s : Forall dotless (split_dot s).
Proof. apply split_dot_go_dotless. unfold dotless. set_solver. Qed.
Lemma split_dot_go_nonempty part s : split_dot_go part s <> [].
Proof. revert part. induction s as [|c s IH]; intros part; cbn; [done|]. by destruct (c =? 46). Qed.

Lemma split_dot_go_join part s : join_dot (split_dot_go part s) = part ++ s.
Proof.
  revert part. induction s as [|c s IH]; intros part; cbn; [by rewrite app_nil_r|]. destruct (Z.eqb_spec c 46) as [->|].
  - pose proof (split_dot_go_nonempty [] s). specialize (IH []). destruct (split_dot_go [] s) as [|q ps]; [done|].
    cbn [app] in IH. by rewrite <- IH.
  - by rewrite IH, <- app_assoc.
Qed.
Lemma join_split s : join_dot (split_dot s) = s.
Proof. apply split_dot_go_join. Qed.

(** ** Sorting *)

Lemma str_leb_total s t : str_leb s t = true \/ str_leb t s = true.
Proof.
  revert t. induction s as [|a s IH]; intros [|b t]; cbn; auto. destruct (IH t) as [-> | ->].
  all: destruct (Z.ltb_spec a b), (Z.ltb_spec b a), (Z.eqb_spec a b), (Z.eqb_spec b a); subst; cbn; auto; lia.
Qed.
Lemma str_leb_trans s t u : str_leb s t = true -> str_leb t u = true -> str_leb s u = true.
Proof.
  revert t u. induction s as [|a s IH]; intros [|b t] [|c u]; cbn; try done.
  rewrite !orb_true_iff, !andb_true_iff, !Z.ltb_lt, !Z.eqb_eq. intros [?|[-> ?]] [?|[-> ?]]; auto with lia. right. eauto.
Qed.
Lemma str_leb_antisym s t : str_leb s t = true -> str_leb t s = true -> s = t.
Proof.
  revert t. induction s as [|a s IH]; intros [|b t]; cbn; try done.
  rewrite !orb_true_iff, !andb_true_iff, !Z.ltb_lt, !Z.eqb_eq. intros [?|[-> ?]] [?|[? ?]]; try lia. f_equal. auto.
Qed.

Definition ordered (l : list jstr) : Prop := StronglySorted (fun s t => str_leb s t = true) l.

Lemma insert_name_perm x l : insert_name x l ≡ₚ x :: l.
Proof. induction l as [|y l IH]; cbn; [done|]. destruct (str_leb x y); [done|]. rewrite IH. apply Permutation_swap. Qed.
Lemma sort_names_perm l : sort_names l ≡ₚ l.
Proof. induction l as [|x l IH]; [done|]. cbn. by rewrite insert_name_perm, IH. Qed.
Lemma insert_name_ordered x l : ordered l -> ordered (insert_name x l).
Proof.
  induction l as [|y l IH]; intros Hl; cbn; [repeat constructor|]. inversion_clear Hl as [|? ? Hs Hy].
  destruct (str_leb x y) eqn:E.
  - constructor; [by constructor|]. constructor; [done|]. eapply Forall_impl; [exact Hy|]. intros z Hz. by eapply str_leb_trans.
  - constructor; [by apply IH|]. rewrite insert_name_perm. constructor; [|done]. destruct (str_leb_total x y); congruence.
Qed.
Lemma sort_names_ordered l : ordered (sort_names l).
Proof. induction l as [|x l IH]; cbn; [constructor|]. by apply insert_name_ordered. Qed.

(** In ordered lists inclusion is the subsequence relation. *)
Lemma ordered_sublist l k : ordered l -> ordered k -> l ⊆+ k <-> l `sublist_of` k.
Proof.
  intros Hl Hk. split; [|apply sublist_submseteq]. revert l Hl. induction k as [|y k IH]; intros l Hl Hs.
  - apply submseteq_nil_r in Hs as ->. constructor.
  - inversion_clear Hk as [|? ? Hk' Hy]. destruct l as [|x l]; [apply sublist_nil_l|].
    inversion_clear Hl as [|? ? Hl' Hx]. destruct (decide (x = y)) as [->|Hne].
    + constructor. apply IH; [done..|]. by apply submseteq_app_inv_l with (k := [y]) in Hs.
    + constructor. apply IH; [done|by constructor|].
      assert (y ∉ x :: l) as Hn.
      { intros [->|Hin]%elem_of_cons; [done|]. apply Hne. apply str_leb_antisym.
        - rewrite Forall_forall in Hx. by apply Hx.
        - assert (x ∈ y :: k) as Hxk by (eapply elem_of_submseteq; [|done]; left).
          apply elem_of_cons in Hxk as [->|Hxk]; [done|]. rewrite Forall_forall in Hy. by apply Hy. }
      apply submseteq_cons_r in Hs as [?|(l' & Hp & ?)]; [done|]. exfalso. apply Hn. rewrite Hp. left.
Qed.

(** ** The pattern *)

Lemma after_dots_app p s : dotless p -> after_dots (p ++ 46 :: s) = s :: after_dots s.
Proof.
  induction p as [|c p IH]; intros Hp; cbn; [done|]. unfold dotless in *. destruct (Z.eqb_spec c 46); [set_solver|]. apply IH. set_solver.
Qed.
Lemma after_dots_dotless p : dotless p -> after_dots p = [].
Proof. induction p as [|c p IH]; intros Hp; cbn; [done|]. unfold dotless in *. destruct (Z.eqb_spec c 46); [set_solver|]. apply IH. set_solver. Qed.

Lemma namespace_test_cons ns p q ps : dotless p ->
  namespace_test ns (join_dot (p :: q :: ps)) = pattern_here ns (join_dot (p :: q :: ps)) || namespace_test ns (join_dot (q :: ps)).
Proof. intros Hp. unfold namespace_test. change (join_dot (p :: q :: ps)) with (p ++ 46 :: join_dot (q :: ps)). by rewrite after_dots_app. Qed.

(** A prefix that ends at a dot or at the end, and has no dot, is the first part. *)
Definition ends (s : jstr) : bool := match s with [] => true | c :: _ => c =? 46 end.
Lemma prefix_part n p s : dotless n -> dotless p -> ends s = true ->
  is_prefix n (p ++ s) && ends (drop (length n) (p ++ s)) = bool_decide (n = p).
Proof.
  revert p. induction n as [|a n IH]; intros p Hn Hp Hs.
  - destruct p as [|c p]; cbn; [done|]. rewrite bool_decide_eq_false_2 by done. unfold dotless in Hp.
    destruct (Z.eqb_spec c 46); [set_solver|done].
  - destruct p as [|c p]; cbn.
    + rewrite bool_decide_eq_false_2 by done. destruct s as [|c s]; [done|]. cbn in Hs |- *. apply Z.eqb_eq in Hs as ->.
      unfold dotless in Hn. destruct (Z.eqb_spec a 46); [set_solver|done].
    + destruct (Z.eqb_spec a c) as [->|Hne]; cbn.
      * rewrite IH by (done || unfold dotless in *; set_solver). apply bool_decide_ext. naive_solver.
      * rewrite bool_decide_eq_false_2; [done|naive_solver].
Qed.
Lemma is_prefix_self n s : is_prefix n s = true -> s = n ++ drop (length n) s.
Proof.
  revert s. induction n as [|a n IH]; intros [|b s]; cbn; try done. rewrite andb_true_iff, Z.eqb_eq. intros [-> H]. f_equal. by apply IH.
Qed.

Lemma pattern_here_one n ps : dotless n -> Forall dotless ps -> ps <> [] ->
  pattern_here [n] (join_dot ps) = bool_decide (head ps = Some n).
Proof.
  intros Hn Hps Hne. destruct ps as [|p ps]; [done|]. apply Forall_cons in Hps as [Hp Hps]. cbn [head].
  assert (exists s, join_dot (p :: ps) = p ++ s /\ ends s = true) as (s & -> & Hs).
  { destruct ps as [|q ps]; [exists []; by rewrite app_nil_r|]. by exists (46 :: join_dot (q :: ps)). }
  transitivity (is_prefix n (p ++ s) && ends (drop (length n) (p ++ s))).
  - cbn [pattern_here]. f_equal.
  - rewrite prefix_part by done. apply bool_decide_ext. naive_solver.
Qed.
Lemma pattern_here_more n m ns p ps : dotless n -> dotless p ->
  pattern_here (n :: m :: ns) (join_dot (p :: ps)) =
    bool_decide (n = p) && match ps with [] => false | _ => namespace_test (m :: ns) (join_dot ps) end.
Proof.
  intros Hn Hp.
  assert (exists s, join_dot (p :: ps) = p ++ s /\ ends s = true /\ s = match ps with [] => [] | _ => 46 :: join_dot ps end) as (s & -> & Hs & Es).
  { destruct ps as [|q ps]; [exists []; by rewrite app_nil_r|]. by exists (46 :: join_dot (q :: ps)). }
  transitivity (is_prefix n (p ++ s) &&
    match drop (length n) (p ++ s) with [] => false | c :: r => (c =? 46) && namespace_test (m :: ns) r end); [done|].
  pose proof (prefix_part n p s Hn Hp Hs) as Hpart. destruct (decide (n = p)) as [->|Hne].
  - rewrite (bool_decide_eq_true_2 (p = p)) by done. rewrite is_prefix_app, drop_app_length, Es. by destruct ps.
  - rewrite (bool_decide_eq_false_2 (n = p)) in * by done. destruct (is_prefix n (p ++ s)); [|done].
    cbn [andb] in *. destruct (drop (length n) (p ++ s)) as [|c r]; [done|]. cbn [ends] in Hpart. by rewrite Hpart.
Qed.

Lemma namespace_test_sublist ns ps : ns <> [] -> Forall dotless ns -> ps <> [] -> Forall dotless ps ->
  namespace_test ns (join_dot ps) = true <-> ns `sublist_of` ps.
Proof.
  intros Hne Hns Hps Hdp. revert ns Hne Hns. induction ps as [|p ps IH]; intros ns Hne Hns; [done|].
  destruct ns as [|n ns]; [done|]. apply Forall_cons in Hns as [Hn Hns]. apply Forall_cons in Hdp as [Hp Hdp].
  assert (pattern_here (n :: ns) (join_dot (p :: ps)) = true <-> n = p /\ ns `sublist_of` ps) as Hhere.
  { destruct ns as [|m ns].
    - rewrite pattern_here_one by (done || by constructor). rewrite bool_decide_eq_true. cbn. split; [|naive_solver].
      intros [= ->]. split; [done|]. apply sublist_nil_l.
    - rewrite pattern_here_more, andb_true_iff, bool_decide_eq_true by done. destruct ps as [|q ps].
      + split; [naive_solver|]. intros [_ H]. inversion H.
      + rewrite IH by done. done. }
  rewrite sublist_cons_r. destruct ps as [|q ps].
  - assert (namespace_test (n :: ns) (join_dot [p]) = pattern_here (n :: ns) (join_dot [p])) as ->.
    { unfold namespace_test. cbn [join_dot]. rewrite after_dots_dotless by done. cbn [existsb]. by rewrite orb_false_r. }
    rewrite Hhere. split; [naive_solver|]. intros [H|(? & [= <- <-] & ?)]; [inversion H|done].
  - rewrite namespace_test_cons, orb_true_iff, Hhere, IH by (done || by constructor). naive_solver.
Qed.

(** The regular expression built from the namespaces of a type given to
    [off] or [trigger] accepts the namespaces of a bound handler exactly when
    the handler has all of them, in whatever order either was written. *)
Theorem namespace_test_subset (token bound : jstr) :
  namespace_test (namespaces_of token) (join_dot (namespaces_of bound)) = true <->
  split_dot (default [] (namespace_part token)) ⊆+ split_dot (default [] (namespace_part bound)).
Proof.
  unfold namespaces_of.
  set (a := split_dot (default [] (namespace_part token))). set (b := split_dot (default [] (namespace_part bound))).
  assert (forall l, l <> [] -> sort_names l <> []) as Hsort.
  { intros l Hl H. apply Hl. apply Permutation_nil. rewrite <- H. apply sort_names_perm. }
  assert (forall l, Forall dotless l -> Forall dotless (sort_names l)) as Hdot by (intros l; by rewrite sort_names_perm).
  rewrite namespace_test_sublist.
  - rewrite <- ordered_sublist by apply sort_names_ordered. by rewrite !sort_names_perm.
  - apply Hsort, split_dot_go_nonempty.
  - apply Hdot, split_dot_dotless.
  - apply Hsort, split_dot_go_nonempty.
  - apply Hdot, split_dot_dotless.
Qed.

Example namespaces_any_order :
  namespace_test (namespaces_of (str ".b.a")) (join_dot (namespaces_of (str "click.a.c.b"))) = true.
Proof. vm_compute. reflexivity. Qed.
