(* ===== verification/EventsInv.v ===== *)
(** The registry of handlers stays consistent: the lists of an element and their
    delegate counts, the listener behind every list, and the captured focus
    events of a document. *)
From Stdlib Require Import String.
From S2P Require Import Prelude JsString ClassNames DataCache Events EventNames.

Section inv.
Context {K V U : Type} `{!EqDecision K} {dom : Dom}.
Abbreviation hobj := (@handleObj K V).
Abbreviation hlist := (@handler_list K V).
Abbreviation hworld := (@world K V U).
Implicit Types (w : @world K V U) (o : @handleObj K V) (l : hlist) (e : nat) (t : jstr).

(** ** Lists by type *)

Lemma lookup_type_elem t (l : list (jstr * hlist)) : lookup_type t l = None <-> t ∉ map fst l.
Proof. induction l as [|[t' h] l IH]; cbn; [set_solver|]. destruct (decide (t = t')); set_solver. Qed.
Lemma lookup_type_in t h (l : list (jstr * hlist)) : lookup_type t l = Some h -> (t, h) ∈ l.
Proof. induction l as [|[t' h'] l IH]; cbn; [done|]. destruct (decide (t = t')) as [->|]; set_solver. Qed.
Lemma lookup_type_assign t t' h (l : list (jstr * hlist)) :
  lookup_type t (assign_type t' h l) = if decide (t = t') then Some h else lookup_type t l.
Proof.
  induction l as [|[t1 h1] l IH]; cbn; [done|]. destruct (decide (t' = t1)) as [->|]; cbn; [by destruct (decide (t = t1))|].
  rewrite IH. destruct (decide (t = t1)), (decide (t = t')); congruence.
Qed.
Lemma lookup_type_delete t t' (l : list (jstr * hlist)) :
  lookup_type t (delete_type t' l) = if decide (t = t') then None else lookup_type t l.
Proof.
  unfold delete_type. induction l as [|[t1 h1] l IH]; [by cbn; destruct (decide _)|]. rewrite filter_cons. cbn [fst lookup_type].
  destruct (decide (t1 <> t')) as [Hne|Hn%dec_stable]; cbn [lookup_type]; rewrite IH; repeat case_decide; congruence.
Qed.
Lemma keys_assign t h (l : list (jstr * hlist)) x :
  x ∈ map fst (assign_type t h l) <-> x = t \/ x ∈ map fst l.
Proof. induction l as [|[t1 h1] l IH]; cbn; [set_solver|]. destruct (decide (t = t1)) as [->|]; cbn; set_solver. Qed.
Lemma keys_delete t (l : list (jstr * hlist)) x :
  x ∈ map fst (delete_type t l) <-> x <> t /\ x ∈ map fst l.
Proof.
  unfold delete_type. induction l as [|[t1 h1] l IH]; [cbn; set_solver|]. rewrite filter_cons. cbn [fst map].
  destruct (decide (t1 <> t)) as [|Hn%dec_stable]; cbn; set_solver.
Qed.
Lemma assign_type_nodup t h (l : list (jstr * hlist)) : NoDup (map fst l) -> NoDup (map fst (assign_type t h l)).
Proof.
  induction l as [|[t1 h1] l IH]; cbn; [intros _; apply NoDup_singleton|]. intros [Hn Hl]%NoDup_cons.
  destruct (decide (t = t1)) as [->|]; cbn; constructor; try done; [rewrite keys_assign; naive_solver|by apply IH].
Qed.
Lemma delete_type_nodup t (l : list (jstr * hlist)) : NoDup (map fst l) -> NoDup (map fst (delete_type t l)).
Proof.
  unfold delete_type. induction l as [|[t1 h1] l IH]; [constructor|]. intros [Hn Hl]%NoDup_cons. rewrite filter_cons.
  destruct (decide _); cbn; [constructor|]; auto. pose proof (keys_delete t l t1) as Hk. unfold delete_type in Hk. naive_solver.
Qed.

(** What is in the lists after an assignment or a deletion. *)
Lemma elem_assign t h (l : list (jstr * hlist)) t' h' :
  (t', h') ∈ assign_type t h l -> (t', h') = (t, h) \/ (t', h') ∈ l.
Proof. induction l as [|[t1 h1] l IH]; cbn; [set_solver|]. destruct (decide (t = t1)) as [->|]; set_solver. Qed.
Lemma elem_assign' t h (l : list (jstr * hlist)) p : p ∈ assign_type t h l -> p = (t, h) \/ p ∈ l.
Proof. destruct p. apply elem_assign. Qed.
Lemma elem_delete t (l : list (jstr * hlist)) p : p ∈ delete_type t l -> p ∈ l.
Proof. unfold delete_type. rewrite list_elem_of_filter. naive_solver. Qed.

(** ** One list *)

Lemma filter_all {A} (P : A -> Prop) `{!forall a, Decision (P a)} (l : list A) : Forall P l -> filter P l = l.
Proof. induction 1 as [|a l Ha Hl IH]; [done|]. by rewrite filter_cons_True, IH. Qed.
Lemma filter_none {A} (P : A -> Prop) `{!forall a, Decision (P a)} (l : list A) : Forall (fun a => ~ P a) l -> filter P l = [].
Proof. induction 1 as [|a l Ha Hl IH]; [done|]. by rewrite filter_cons_False. Qed.

Definition delegated o : Prop := given (h_selector o) = true.
#[local] Instance delegated_dec o : Decision (delegated o) := decide (_ = _).

Lemma Forall_filter_keep {A} (P Q : A -> Prop) `{!forall a, Decision (P a)} (l : list A) : Forall Q l -> Forall Q (filter P l).
Proof. rewrite !Forall_forall. intros Hl a [_ Ha]%list_elem_of_filter. auto. Qed.

(** Delegated handlers come first, and are counted. *)
Definition list_ok l : Prop :=
  entries l <> [] /\
  exists ds rs, entries l = ds ++ rs /\ delegateCount l = length ds /\ Forall delegated ds /\ Forall (fun o => ~ delegated o) rs.

Lemma insert_handler_ok sel o l : h_selector o = sel ->
  (entries l = [] /\ delegateCount l = 0%nat) \/ list_ok l -> list_ok (insert_handler sel o l).
Proof.
  intros <- Hl. assert (exists ds rs, entries l = ds ++ rs /\ delegateCount l = length ds /\ Forall delegated ds /\
    Forall (fun o => ~ delegated o) rs) as (ds & rs & E & Ec & Hd & Hr).
  { destruct Hl as [[-> ->]|[_ Hl]]; [exists [], []; by repeat constructor|done]. }
  unfold insert_handler, list_ok. destruct (given (h_selector o)) eqn:G; cbn; rewrite E, ?Ec.
  - rewrite take_app_length, drop_app_length. split; [by destruct ds|]. exists (ds ++ [o]), rs. rewrite length_app, <- app_assoc. cbn.
    split_and!; [done|lia| |done]. by apply Forall_app_2; [|repeat constructor].
  - split; [by destruct (ds ++ rs)|]. exists ds, (rs ++ [o]). rewrite app_assoc. split_and!; [done..|].
    apply Forall_app_2; [done|]. repeat constructor. unfold delegated. by rewrite G.
Qed.

Lemma remove_loop_entries p j l : (j <= length (entries l))%nat ->
  entries (remove_loop p j l) = filter (fun o => p o = false) (take j (entries l)) ++ drop j (entries l).
Proof.
  revert l. induction j as [|j IH]; intros l Hj; cbn; [by rewrite take_0, drop_0|].
  destruct (lookup_lt_is_Some_2 (entries l) j) as [o Ho]; [lia|]. rewrite Ho.
  rewrite (take_S_r _ _ _ Ho), filter_app, <- app_assoc. destruct (p o) eqn:Hp.
  - rewrite IH; cbn [entries]; [|rewrite length_delete by (by rewrite Ho); lia].
    rewrite filter_cons_False, filter_nil, delete_take_drop by congruence.
    rewrite take_app_length', drop_app_length' by (rewrite length_take; lia). done.
  - rewrite IH by lia. rewrite filter_cons_True by done. cbn. by rewrite (drop_S _ _ _ Ho).
Qed.

Definition delegates (l : list (@handleObj K V)) : nat := length (filter delegated l).
Lemma delegates_app k k' : delegates (k ++ k') = (delegates k + delegates k')%nat.
Proof. unfold delegates. by rewrite filter_app, length_app. Qed.
Lemma delegates_cons o k : delegates (o :: k) = ((if given (h_selector o) then 1 else 0) + delegates k)%nat.
Proof.
  unfold delegates. destruct (decide (delegated o)) as [Hd|Hd].
  - rewrite filter_cons_True by done. by rewrite Hd.
  - rewrite filter_cons_False by done. apply not_true_is_false in Hd. by rewrite Hd.
Qed.

Lemma remove_loop_count p j l : (j <= length (entries l))%nat -> delegateCount l = delegates (entries l) ->
  delegateCount (remove_loop p j l) = delegates (entries (remove_loop p j l)).
Proof.
  revert l. induction j as [|j IH]; intros l Hj Hc; cbn; [done|].
  destruct (lookup_lt_is_Some_2 (entries l) j) as [o Ho]; [lia|]. rewrite Ho. destruct (p o); [|apply IH; [lia|done]].
  apply IH; cbn [entries delegateCount]; [rewrite length_delete by (by rewrite Ho); lia|].
  rewrite delete_take_drop, Hc.
  assert (delegates (entries l) = delegates (take j (entries l)) + ((if given (h_selector o) then 1 else 0)
    + delegates (drop (S j) (entries l))))%nat as ->.
  { rewrite <- delegates_cons, <- delegates_app. by rewrite (take_drop_middle _ _ _ Ho). }
  rewrite delegates_app. destruct (given (h_selector o)); lia.
Qed.

Lemma partitioned_count l ds rs : entries l = ds ++ rs -> Forall delegated ds -> Forall (fun o => ~ delegated o) rs ->
  delegates (entries l) = length ds.
Proof.
  intros -> Hd Hr. rewrite delegates_app. unfold delegates. rewrite filter_all, filter_none by done. cbn. lia.
Qed.

Lemma remove_loop_ok p l : list_ok l -> entries (remove_loop p (length (entries l)) l) <> [] ->
  list_ok (remove_loop p (length (entries l)) l).
Proof.
  intros (Hne & ds & rs & E & Ec & Hd & Hr) Hne'. split; [done|].
  exists (filter (fun o => p o = false) ds), (filter (fun o => p o = false) rs).
  assert (entries (remove_loop p (length (entries l)) l) = filter (fun o => p o = false) ds ++ filter (fun o => p o = false) rs) as E'.
  { rewrite remove_loop_entries, firstn_all, drop_all, app_nil_r by done. by rewrite E, filter_app. }
  assert (Forall delegated (filter (fun o => p o = false) ds)) by by apply Forall_filter_keep.
  assert (Forall (fun o => ~ delegated o) (filter (fun o => p o = false) rs)) by by apply Forall_filter_keep.
  split_and!; try done. rewrite remove_loop_count; [by eapply partitioned_count|done|].
  rewrite Ec. symmetry. by eapply partitioned_count.
Qed.
(** ** Listeners *)

Definition accepts e : Prop := acceptData (node_kind e) = true.
Abbreviation special_of := (special focusin_support).

(** With [ks] the types an element has handlers for: there is one listener for
    each of them; the focus events that are captured on a document are counted. *)
Definition listening_ok (ks : nat -> jstr -> Prop) w : Prop :=
  (forall e t, accepts e -> capture_focus (special_of t) = None -> (e, t) ∈ listeners w <-> can_listen e = true /\ ks e t) /\
  (forall doc fix_ orig, capture_focus (special_of fix_) = Some orig ->
     exists es, NoDup es /\ (forall e, e ∈ es <-> accepts e /\ doc_of e = doc /\ ks e fix_) /\
       focus_count w doc fix_ = Z.of_nat (length es) /\ ((doc, orig) ∈ captures w <-> es <> [])).

Lemma listening_ext ks ks' w : (forall e t, accepts e -> ks e t <-> ks' e t) -> listening_ok ks w -> listening_ok ks' w.
Proof.
  intros Hk [Hl Hf]. split.
  - intros e t He Hc. rewrite Hl by done. by rewrite Hk.
  - intros doc fix_ orig Hc. destruct (Hf doc fix_ orig Hc) as (es & Hn & Hes & H). exists es. split_and!; try apply H; [done|].
    intros e. rewrite Hes. specialize (Hk e fix_). naive_solver.
Qed.
Lemma listening_same ks w w' : listeners w' = listeners w -> captures w' = captures w -> focus_count w' = focus_count w ->
  listening_ok ks w -> listening_ok ks w'.
Proof. unfold listening_ok. by intros -> -> ->. Qed.

Lemma capture_inj fix1 fix2 orig :
  capture_focus (special_of fix1) = Some orig -> capture_focus (special_of fix2) = Some orig -> fix1 = fix2.
Proof. unfold special. intros H1 H2. repeat (case_decide; [cbn in *; simplify_eq|]); try done. all: destruct focusin_support; cbn in *; congruence. Qed.

Lemma start_listening_ok ks w e t : accepts e -> ~ ks e t -> listening_ok ks w ->
  listening_ok (fun e' t' => ks e' t' \/ (e' = e /\ t' = t)) (start_listening e t w).
Proof.
  intros He Hn [Hl Hf]. unfold start_listening. destruct (capture_focus (special_of t)) as [orig|] eqn:Hc.
  - unfold focus_setup. destruct (Hf (doc_of e) t orig Hc) as (es & Hnd & Hes & Hcount & Hcap).
    split.
    + intros e' t' He' Hc'. destruct (focus_count w (doc_of e) t =? 0); cbn; rewrite Hl by done; naive_solver.
    + intros doc fix_ orig' Hc'. destruct (decide (doc = doc_of e /\ fix_ = t)) as [[-> ->]|Hne].
      * exists (e :: es). assert (orig' = orig) as -> by congruence. split_and!.
        -- constructor; [|done]. rewrite Hes. naive_solver.
        -- intros e'. rewrite elem_of_cons, Hes. naive_solver.
        -- destruct (Z.eqb_spec (focus_count w (doc_of e) t) 0); cbn; unfold set_at2; rewrite decide_True by done; lia.
        -- split; [done|]. intros _. destruct (Z.eqb_spec (focus_count w (doc_of e) t) 0); cbn; [set_solver|]. apply Hcap. by destruct es.
      * destruct (Hf doc fix_ orig' Hc') as (es' & Hnd' & Hes' & Hcount' & Hcap'). exists es'. split_and!; [done|..].
        -- intros e'. rewrite Hes'. naive_solver.
        -- destruct (focus_count w (doc_of e) t =? 0); cbn; unfold set_at2; by rewrite decide_False.
        -- rewrite <- Hcap'. destruct (focus_count w (doc_of e) t =? 0); cbn; [|done]. rewrite elem_of_cons. split; [|naive_solver].
           intros [[= -> ->]|]; [|done]. destruct Hne. split; [done|]. by eapply capture_inj.
  - split.
    + intros e' t' He' Hc'. destruct (can_listen e) eqn:Hcl; cbn; [rewrite elem_of_cons|]; rewrite Hl by done.
      * split; [intros [[= -> ->]|[? ?]]; [split; [done|by right]|split; [done|by left]]|].
        intros [? [?|[-> ->]]]; [by right|by left].
      * split; [intros [? ?]; split; [done|by left]|]. intros [? [?|[-> ->]]]; [done|congruence].
    + intros doc fix_ orig Hc'. destruct (Hf doc fix_ orig Hc') as (es & Hnd & Hes & H). exists es. split_and!; [done|..].
      * assert (fix_ <> t) by congruence. intros e'. rewrite Hes. naive_solver.
      * destruct (can_listen e); apply H.
      * destruct (can_listen e); apply H.
Qed.

Lemma stop_listening_ok ks w e t : accepts e -> ks e t -> listening_ok ks w ->
  listening_ok (fun e' t' => ks e' t' /\ ~ (e' = e /\ t' = t)) (stop_listening e t w).
Proof.
  intros He Hk [Hl Hf]. unfold stop_listening. destruct (capture_focus (special_of t)) as [orig|] eqn:Hc.
  - unfold focus_teardown. destruct (Hf (doc_of e) t orig Hc) as (es & Hnd & Hes & Hcount & Hcap).
    assert (e ∈ es) as Hin by (by rewrite Hes).
    apply list_elem_of_split in Hin as (es1 & es2 & ->).
    apply NoDup_app in Hnd as (Hn1 & Hn12 & [Hn Hn2]%NoDup_cons).
    rewrite length_app in Hcount. cbn in Hcount.
    split.
    + intros e' t' He' Hc'. destruct (focus_count w (doc_of e) t <=? 1); cbn; rewrite Hl by done; naive_solver.
    + intros doc fix_ orig' Hc'. destruct (decide (doc = doc_of e /\ fix_ = t)) as [[-> ->]|Hne].
      * exists (es1 ++ es2). assert (orig' = orig) as -> by congruence. split_and!.
        -- apply NoDup_app. set_solver.
        -- intros e'. specialize (Hes e'). specialize (Hn12 e'). rewrite elem_of_app in *. rewrite elem_of_cons in Hes.
           destruct (decide (e' = e)) as [->|]; [|naive_solver]. split; [|naive_solver]. intros [?|?]; [exfalso; apply Hn12; [done|left]|done].
        -- rewrite length_app. destruct (Z.leb_spec (focus_count w (doc_of e) t) 1); cbn; unfold set_at2; rewrite decide_True by done; lia.
        -- destruct (Z.leb_spec (focus_count w (doc_of e) t) 1); cbn.
           ++ rewrite list_elem_of_filter. split; [naive_solver|]. intros Hne. destruct es1, es2; cbn in *; try done; lia.
           ++ split; [|intros _; apply Hcap; by destruct es1]. intros _ Hnil. rewrite Hcount in *. destruct es1, es2; cbn in *; try done; lia.
      * destruct (Hf doc fix_ orig' Hc') as (es' & Hnd' & Hes' & Hcount' & Hcap'). exists es'. split_and!; [done|..].
        -- intros e'. rewrite Hes'. naive_solver.
        -- destruct (focus_count w (doc_of e) t <=? 1); cbn; unfold set_at2; by rewrite decide_False.
        -- rewrite <- Hcap'. destruct (focus_count w (doc_of e) t <=? 1); cbn; [|done]. rewrite list_elem_of_filter. split; [naive_solver|].
           intros Hin. split; [|done]. intros [= -> ->]. destruct Hne. split; [done|]. by eapply capture_inj.
  - split.
    + intros e' t' He' Hc'. cbn. rewrite list_elem_of_filter, Hl by done. split.
      * intros (Hne & ? & ?). split_and!; [done..|]. intros [-> ->]. done.
      * intros (? & ? & Hne). split; [|done]. intros [= -> ->]. by destruct Hne.
    + intros doc fix_ orig Hc'. destruct (Hf doc fix_ orig Hc') as (es & Hnd & Hes & H). exists es. split_and!; [done|..]; try apply H.
      assert (fix_ <> t) by congruence. intros e'. rewrite Hes. naive_solver.
Qed.
(** ** The registry *)

Definition keys e w : list jstr := map fst (default [] (events (get_data e w))).

(** A type under which handlers are kept. *)
Definition key_ok t : Prop := t <> [] /\ dotless t /\ bindType (special_of t) = None.
Definition typed_ok (p : jstr * hlist) : Prop :=
  key_ok (fst p) /\ list_ok (snd p) /\ Forall (fun o => delegated o -> delegateType (special_of (fst p)) = None) (entries (snd p)).
Definition events_ok (evs : list (jstr * hlist)) : Prop := NoDup (map fst evs) /\ Forall typed_ok evs.
Definition elem_ok (d : @elem_data K V) : Prop :=
  events_ok (default [] (events d)) /\ (handle d = true <-> events d <> None).

Record wf w : Prop := {
  wf_elem e : accepts e -> elem_ok (elems w e);
  wf_listening : listening_ok (fun e t => t ∈ keys e w) w;
}.

Lemma get_data_accepts e w : accepts e -> get_data e w = elems w e.
Proof. intros He. unfold get_data. by rewrite He. Qed.
Lemma put_data_accepts e d w : accepts e -> put_data e d w = w <| elems := set_at (elems w) e d |>.
Proof. intros He. unfold put_data. by rewrite He. Qed.
Lemma get_put_data e e' d w : accepts e -> get_data e' (put_data e d w) = if decide (e' = e) then d else get_data e' w.
Proof.
  intros He. rewrite put_data_accepts by done. unfold get_data. cbn. unfold set_at. destruct (decide (e' = e)) as [->|]; [|done]. by rewrite He.
Qed.
Lemma keys_put_data e e' d w : accepts e ->
  keys e' (put_data e d w) = if decide (e' = e) then map fst (default [] (events d)) else keys e' w.
Proof. intros He. unfold keys. rewrite get_put_data by done. by destruct (decide _). Qed.

Lemma put_data_wf e d w : accepts e -> (forall e', accepts e' -> e' <> e -> elem_ok (elems w e')) -> elem_ok d ->
  listening_ok (fun e' t => if decide (e' = e) then t ∈ map fst (default [] (events d)) else t ∈ keys e' w) w ->
  wf (put_data e d w).
Proof.
  intros He Hw Hd Hl. split.
  - intros e' He'. rewrite put_data_accepts by done. cbn. unfold set_at. destruct (decide (e' = e)); [done|by apply Hw].
  - assert (listening_ok (fun e' t => t ∈ keys e' (put_data e d w)) w) as H'.
    { eapply listening_ext; [|exact Hl]. intros e' t _. cbn. rewrite keys_put_data by done. by destruct (decide _). }
    eapply listening_same; [..|exact H']; by rewrite put_data_accepts.
Qed.

(** *** Binding *)

Lemma capture_key t : dotless t -> t <> [] -> forall sel, key_ok (mapped_type sel t) /\
  (given sel = true -> delegateType (special_of (mapped_type sel t)) = None).
Proof.
  intros Hd Ht sel. unfold mapped_type.
  assert (forall s, dotless s <-> existsb (Z.eqb 46) s = false) as Hdot.
  { induction s as [|c s IH]; cbn [existsb]; [unfold dotless; set_solver|]. rewrite orb_false_iff, <- IH. unfold dotless.
    rewrite not_elem_of_cons, Z.eqb_neq. done. }
  assert (forall b, bindType (special_of t) = Some b -> key_ok b /\ delegateType (special_of b) = None) as Hb.
  { intros b. unfold special at 1. repeat (case_decide; [subst; first [discriminate|destruct focusin_support; discriminate|intros [= <-]]|]); try discriminate.
    all: try (destruct focusin_support; discriminate). all: unfold key_ok; rewrite Hdot; split_and!; done. }
  assert (forall b, delegateType (special_of t) = Some b -> key_ok b /\ delegateType (special_of b) = None) as Hdel.
  { intros b. unfold special at 1. repeat (case_decide; [subst; first [discriminate|destruct focusin_support; discriminate|intros [= <-]]|]); try discriminate.
    all: try (destruct focusin_support; discriminate). all: unfold key_ok; rewrite Hdot; unfold special; destruct focusin_support; split_and!; done. }
  destruct (given sel).
  - destruct (delegateType (special_of t)) as [b|] eqn:E; cbn [default from_option id].
    + by specialize (Hdel b eq_refl) as [? ?].
    + split; [|done]. split_and!; [done..|]. unfold special in *. repeat (case_decide; [subst; try done; try (cbn in E; congruence)|]); try done.
      all: by destruct focusin_support.
  - destruct (bindType (special_of t)) as [b|] eqn:E; cbn [default from_option id].
    + by specialize (Hb b eq_refl) as [? ?].
    + by split.
Qed.
(** The parts of a world that binding and unbinding leave alone. *)
Definition same_user (w w' : hworld) : Prop := user w' = user w /\ inline w' = inline w /\ triggered w' = triggered w.

Lemma start_listening_elems e t w :
  elems (start_listening e t w) = elems w /\ guids (start_listening e t w) = guids w /\ same_user w (start_listening e t w).
Proof.
  unfold start_listening, focus_setup. destruct (capture_focus _).
  - by destruct (focus_count w (doc_of e) t =? 0).
  - by destruct (can_listen e).
Qed.
Lemma stop_listening_elems e t w :
  elems (stop_listening e t w) = elems w /\ guids (stop_listening e t w) = guids w /\ same_user w (stop_listening e t w).
Proof.
  unfold stop_listening, focus_teardown. destruct (capture_focus _); [|done].
  by destruct (focus_count w (doc_of e) t <=? 1).
Qed.

Lemma type_part_dotless s : dotless (type_part s).
Proof.
  unfold type_part, dotless. induction s as [|c s IH]; cbn; [set_solver|]. destruct (Z.eqb_spec c 46); set_solver.
Qed.

(** The events of [e] being assembled, with the rest of the world. *)
Definition assembling e (w0 : hworld) (p : list (jstr * hlist) * hworld) : Prop :=
  events_ok (fst p) /\ elems (snd p) = elems w0 /\
  listening_ok (fun e' t => if decide (e' = e) then t ∈ map fst (fst p) else t ∈ keys e' w0) (snd p).

(** The selector that decides where a handler goes is its own. *)
Definition obj_ok (sel : option jstr) (objIn : option hobj) : Prop :=
  match objIn with Some o => h_selector o = sel | None => True end.

Lemma add_token_ok e h g data sel objIn w0 p token : accepts e -> obj_ok sel objIn ->
  assembling e w0 p -> assembling e w0 (add_token e h g data sel objIn p token).
Proof.
  intros He Hobj. destruct p as [evs w]. intros ([Hnd Hty] & Hel & Hls). cbn [fst snd] in *. unfold add_token.
  destruct (decide (type_part token = [])) as [|Hne]; [by split|].
  destruct (capture_key (type_part token) (type_part_dotless _) Hne sel) as [Hkey Hdel].
  set (type := mapped_type sel (type_part token)) in *. set (o := default _ objIn).
  assert (h_selector o = sel) as Hsel by (subst o; by destruct objIn).
  assert (forall l, (entries l = [] /\ delegateCount l = 0%nat) \/ typed_ok (type, l) -> typed_ok (type, insert_handler sel o l)) as Hins.
  { intros l Hl. split_and!; cbn; [done| |].
    - apply insert_handler_ok; [done|]. destruct Hl as [?|(_ & ? & _)]; auto.
    - assert (Forall (fun o => delegated o -> delegateType (special_of type) = None) (entries l)) as Hent.
      { destruct Hl as [[-> _]|(_ & _ & ?)]; [constructor|done]. }
      assert (delegated o -> delegateType (special_of type) = None) as Ho by (unfold delegated; rewrite Hsel; exact Hdel).
      unfold insert_handler. destruct (given sel); cbn; [|apply Forall_app; split; [done|repeat constructor; exact Ho]].
      rewrite <- (take_drop (delegateCount l) (entries l)) in Hent. apply Forall_app in Hent as [? ?].
      apply Forall_app; split; [done|]. by constructor. }
  assert (forall l, typed_ok (type, insert_handler sel o l) -> events_ok (assign_type type (insert_handler sel o l) evs)) as Hev.
  { intros l Hl. split; [by apply assign_type_nodup|]. rewrite Forall_forall in *. intros [t' l'] [[= -> ->]|Hin]%elem_assign; auto. }
  destruct (lookup_type type evs) as [l|] eqn:Hlk; cbn.
  - split_and!; cbn [fst snd elems]; [|done|].
    + apply Hev, Hins. right. rewrite Forall_forall in Hty. apply Hty. by apply lookup_type_in.
    + eapply (listening_same _ w); [done..|]. eapply listening_ext; [|exact Hls]. intros e' t _. cbn [fst snd]. destruct (decide (e' = e)); [|done].
      rewrite keys_assign. split; [auto|]. intros [->|?]; [|done]. apply list_elem_of_fmap. exists (type, l). split; [done|]. by apply lookup_type_in.
  - pose proof (start_listening_elems e type w) as (Hse & _). split_and!; cbn.
    + apply Hev, Hins. by left.
    + by rewrite Hse.
    + apply lookup_type_elem in Hlk. eapply (listening_same _ (start_listening e type w)); [done..|].
      eapply listening_ext; [|eapply start_listening_ok; [done| |exact Hls]].
      * intros e' t _. cbn [fst snd]. destruct (decide (e' = e)) as [->|]; [rewrite keys_assign|]; naive_solver.
      * cbn beta. by rewrite decide_True.
Qed.

Lemma add_tokens_ok e h g data sel objIn w0 tokens p : accepts e -> obj_ok sel objIn ->
  assembling e w0 p -> assembling e w0 (fold_left (add_token e h g data sel objIn) tokens p).
Proof. intros He Ho. revert p. induction tokens as [|k tokens IH]; intros p Hp; cbn; [done|]. by apply IH, add_token_ok. Qed.

Lemma ensure_guid_wf f w : wf w -> wf (ensure_guid f w).
Proof. intros [He Hl]. unfold ensure_guid. destruct (guids w f); by split. Qed.

Lemma check_selector_same sel w :
  check_selector sel w = (Ok tt, w) \/ exists err, check_selector sel w = (Throw err, w).
Proof. unfold check_selector. destruct sel as [s|]; [destruct (_ && _)|]; eauto. Qed.

Lemma add_wf e types (hin : @handler K + @handleObj K V) data sel w : accepts e -> wf w -> wf (snd (add e types hin data sel w)).
Proof.
  intros He Hw. unfold add. destruct (handler_parts hin sel) as [[h sel'] objIn] eqn:E.
  assert (obj_ok sel' objIn) as Ho by (destruct hin; by simplify_eq/=).
  unfold mbind, eff_bind. destruct (check_selector_same sel' w) as [-> | [err ->]]; [|done].
  cbn. set (w2 := ensure_guid (fn_of h) w). assert (wf w2) as Hw2 by by apply ensure_guid_wf.
  pose proof (add_tokens_ok e h (default 0 (handler_guid h w2)) data sel' objIn w2 (rev (type_tokens types))
    (default [] (events (get_data e w2)), w2) He Ho) as Hasm.
  destruct (fold_left _ _ _) as [evs w3]. cbn. destruct Hasm as ([Hev ?] & Hel & Hl).
  { rewrite get_data_accepts by done. split_and!; cbn; [apply Hw2; done|done|].
    eapply listening_ext, Hw2. intros e' t He'. cbn. unfold keys. destruct (decide (e' = e)) as [->|]; [|done].
    by rewrite get_data_accepts. }
  cbn in *. apply put_data_wf; [done| |by split_and!|].
  - intros e' He' _. rewrite Hel. by apply Hw2.
  - eapply listening_ext, Hl. intros e' t _. cbn. unfold keys, get_data. by rewrite Hel.
Qed.
(** *** Unbinding *)

Lemma list_for_in e t w l : accepts e -> wf w -> list_for e t w = Some l -> typed_ok (t, l).
Proof.
  intros He Hw Hl. destruct (wf_elem w Hw e He) as [[_ Hev] _]. unfold list_for in Hl. rewrite get_data_accepts in Hl by done.
  rewrite Forall_forall in Hev. apply Hev. by apply lookup_type_in.
Qed.

Lemma update_events_wf e (f : list (jstr * hlist) -> list (jstr * hlist)) w w1 : accepts e -> wf w -> elems w1 = elems w ->
  f [] = [] \/ events (elems w e) <> None -> events_ok (f (default [] (events (elems w e)))) ->
  listening_ok (fun e' t => if decide (e' = e) then t ∈ map fst (f (default [] (events (elems w e)))) else t ∈ keys e' w) w1 ->
  wf (update_events e f w1).
Proof.
  intros He Hw Hel Hf Hok Hl. unfold update_events. assert (get_data e w1 = elems w e) as Hg by (by rewrite get_data_accepts, Hel).
  rewrite Hg. apply put_data_wf; [done| | |].
  - intros e' He' _. rewrite Hel. by apply Hw.
  - destruct (wf_elem w Hw e He) as [_ Hh]. split; cbn.
    + destruct (events (elems w e)) as [evs|]; [done|]. split; [constructor|constructor].
    + rewrite Hh. by destruct (events (elems w e)).
  - eapply listening_ext, Hl. intros e' t _. cbn. destruct (decide (e' = e)) as [->|].
    + destruct (events (elems w e)) as [evs|]; [done|]. cbn. destruct Hf as [->|?]; [done|done].
    + unfold keys, get_data. by rewrite Hel.
Qed.

(** What is bound to an element under a type. *)
Definition handlers_of e t w : list hobj := match list_for e t w with Some l => entries l | None => [] end.

Lemma list_for_update e e' t (f : list (jstr * hlist) -> list (jstr * hlist)) w : accepts e -> f [] = [] \/ events (elems w e) <> None ->
  list_for e' t (update_events e f w) =
    if decide (e' = e) then lookup_type t (f (default [] (events (elems w e)))) else list_for e' t w.
Proof.
  intros He Hf. unfold list_for, update_events. rewrite get_put_data by done. destruct (decide (e' = e)) as [->|]; [|done].
  rewrite get_data_accepts by done. cbn. destruct (events (elems w e)) as [evs|]; cbn; [done|]. by destruct Hf as [->|].
Qed.

Lemma remove_typed_wf e mapped h sel w token : accepts e -> wf w -> wf (remove_typed e mapped h sel w token).
Proof.
  intros He Hw. unfold remove_typed. destruct (list_for e _ w) as [l|] eqn:Hl; [|done].
  set (type := mapped_type sel (type_part token)) in *. set (p := removes _ _ _ _ _ _).
  pose proof (list_for_in _ _ _ _ He Hw Hl) as (Hkey & Hlist & Hdel). cbn [fst snd] in *.
  assert (exists evs, events (elems w e) = Some evs /\ lookup_type type evs = Some l) as (evs & Hevs & Hlk).
  { unfold list_for in Hl. rewrite get_data_accepts in Hl by done. destruct (events (elems w e)) as [evs|]; [by exists evs|done]. }
  destruct (wf_elem w Hw e He) as [[Hnd Hty] _]. rewrite Hevs in Hnd, Hty. cbn in Hnd, Hty.
  assert (type ∈ keys e w) as Hin.
  { unfold keys. rewrite get_data_accepts, Hevs by done. apply list_elem_of_fmap. exists (type, l). split; [done|]. by apply lookup_type_in. }
  destruct (_ && _) eqn:Hb.
  - apply (update_events_wf e _ w); [done..| |by rewrite Hevs; right| |]; rewrite ?Hevs; cbn [default from_option id].
    + apply stop_listening_elems.
    + split; [by apply delete_type_nodup|]. rewrite Forall_forall in *. intros q Hq%elem_delete. auto.
    + eapply listening_ext; [|apply (stop_listening_ok (fun e t => t ∈ keys e w)); [done|exact Hin|apply Hw]]. intros e' t _. cbn beta.
      destruct (decide (e' = e)) as [->|Hne]; [|naive_solver]. rewrite keys_delete. unfold keys. rewrite get_data_accepts, Hevs by done. cbn. naive_solver.
  - apply (update_events_wf e _ w); [done..|by rewrite Hevs; right| |]; rewrite Hevs; cbn [default from_option id].
    + split; [by apply assign_type_nodup|]. rewrite Forall_forall in Hty |- *. intros q [-> |Hq]%elem_assign'; [|auto].
      split_and!; cbn; [done| |].
      * apply remove_loop_ok; [done|]. intros Hnil. destruct Hlist as [Hne _]. rewrite Hnil in Hb. by destruct (entries l).
      * rewrite remove_loop_entries, firstn_all, drop_all, app_nil_r by done. by apply Forall_filter_keep.
    + eapply listening_ext, Hw. intros e' t _. cbn beta. destruct (decide (e' = e)) as [->|]; [|done]. rewrite keys_assign.
      unfold keys in *. rewrite get_data_accepts, Hevs in * by done. cbn in *. naive_solver.
Qed.

Lemma drop_empty_wf e w : accepts e -> wf w -> wf (drop_empty e w).
Proof.
  intros He Hw. unfold drop_empty. rewrite get_data_accepts by done. destruct (events (elems w e)) as [[|]|] eqn:Hevs; [|done..].
  apply put_data_wf; [done| | |].
  - intros e' He' _. by apply Hw.
  - split; [split; [constructor|constructor]|done].
  - eapply listening_ext, Hw. intros e' t _. cbn. destruct (decide (e' = e)) as [->|]; [|done].
    unfold keys. by rewrite get_data_accepts, Hevs.
Qed.

(** A fold keeps what each of its steps keeps. *)
Lemma fold_left_holds {A B} (P : A -> Prop) (f : A -> B -> A) (l : list B) a :
  (forall a b, P a -> P (f a b)) -> P a -> P (fold_left f l a).
Proof. intros Hf. revert a. induction l as [|b l IH]; intros a Ha; cbn; auto. Qed.

Lemma remove_token_wf e mapped h sel w token : accepts e -> wf w -> wf (remove_token e mapped h sel w token).
Proof.
  intros He Hw. unfold remove_token. destruct (decide _); [|by apply remove_typed_wf].
  apply (fold_left_holds wf); [|done]. intros w' t Hw'. by apply drop_empty_wf, remove_typed_wf.
Qed.
Lemma remove_wf e types h sel w : accepts e -> wf w -> wf (remove e types h sel w).
Proof.
  intros He Hw. unfold remove. destruct (events _); [|done]. apply drop_empty_wf; [done|].
  apply (fold_left_holds wf); [|done]. intros w' t Hw'. by apply remove_token_wf.
Qed.
End inv.

(** ** A small page for examples: the document 0, the window 1, the body 2, a
    list 3 in it, and an item 4 of the list, the one that matches [li]. *)
Definition demo_dom : Dom := {|
  node_kind n := match n with 0 => Document | 1 => PlainObject | _ => Element end%nat;
  is_text _ := false; is_comment _ := false;
  parentNode n := match n with 2 => Some 0 | 3 => Some 2 | 4 => Some 3 | _ => None end%nat;
  depth n := match n with 2 => 1 | 3 => 2 | 4 => 3 | _ => 0 end%nat;
  document := 0%nat; window := 1%nat;
  ownerDocument n := match n with 0 | 1 => None | _ => Some 0 end%nat;
  isWindow n := (n =? 1)%nat; can_listen _ := true; disabled _ := false; is_link _ := false; checkable _ := false;
  has_method _ _ := false; contains _ _ := false; focusin_support := false; valid_selector s := negb (bool_decide (s = str "["));
  needsContext _ := false;
  find_self sel this cur := bool_decide (sel = str "li " /\ cur = 4%nat);
  find_index sel this cur := bool_decide (sel = str "li " /\ cur = 4%nat);
|}.
