(* ===== verification/EventsProps.v ===== *)
(** What binding, unbinding and dispatch guarantee: [off] removes exactly the
    handlers it names, [off] undoes [on], and an event runs the handlers that
    were bound when its dispatch began, in the order of the document. *)
From Stdlib Require Import String.
From S2P Require Import Prelude JsString ClassNames DataCache Events EventNames EventsInv.

(** ** The registry *)

Section registry.
Context {K V U : Type} `{!EqDecision K} {dom : Dom}.
Abbreviation hobj := (@handleObj K V).
Abbreviation hworld := (@world K V U).
Implicit Types (w : hworld) (o : hobj) (e : nat) (t : jstr).

(** Bindings and unbindings, in any order. *)
Inductive binding :=
  | Bind (e : nat) (types : jstr) (hin : @handler K + hobj) (data : option V) (sel : option jstr)
  | Unbind (e : nat) (types : jstr) (h : option (@handler K)) (sel : option jstr).
Definition at_element (b : binding) : nat := match b with Bind e _ _ _ _ | Unbind e _ _ _ => e end.
Definition bind_step w (b : binding) : hworld :=
  match b with
  | Bind e types hin data sel => snd (add e types hin data sel w)
  | Unbind e types h sel => remove e types h sel w
  end.
(** No handlers yet; the page has its inline handlers. *)
Definition initial (u : U) (inl : nat -> jstr -> option (@func K)) : hworld :=
  {| elems := fun _ => {| events := None; handle := false |}; listeners := []; focus_count := fun _ _ => 0; captures := [];
     guids := fun _ => None; next_guid := 1; global_types := []; triggered := None; inline := inl; user := u |}.

Lemma initial_wf u inl : wf (initial u inl).
Proof.
  assert (forall e, keys e (initial u inl) = []) as Hk by (intros e; unfold keys, get_data; by destruct (acceptData _)).
  split; [intros e _; split; [split; constructor|done]|]. split.
  - intros e t _ _. rewrite Hk. set_solver.
  - intros doc fix_ orig _. exists []. split_and!; [constructor| |done|set_solver]. intros e. rewrite Hk. set_solver.
Qed.

Lemma bindings_wf bs w : Forall (fun b => accepts (at_element b)) bs -> wf w -> wf (fold_left bind_step bs w).
Proof.
  intros Hb. revert w. induction Hb as [|b bs Ha Hb IH]; intros w Hw; cbn; [done|]. apply IH.
  destruct b; [by apply add_wf|by apply remove_wf].
Qed.

(** Every list of handlers is non-empty and has its delegated handlers in front;
    listeners and captured focus events are those the lists need. *)
Definition consistent (w : hworld) : Prop :=
  (forall e t l, accepts e -> list_for e t w = Some l ->
     entries l <> [] /\ Forall delegated (take (delegateCount l) (entries l)) /\
     Forall (fun o => ~ delegated o) (drop (delegateCount l) (entries l))) /\
  (forall e t, accepts e -> capture_focus (special focusin_support t) = None ->
     (e, t) ∈ listeners w <-> can_listen e = true /\ list_for e t w <> None) /\
  (forall doc fix_ orig, capture_focus (special focusin_support fix_) = Some orig ->
     (doc, orig) ∈ captures w <-> exists e, accepts e /\ doc_of e = doc /\ list_for e fix_ w <> None).

(** C27. After any sequence of bindings and unbindings: every list of handlers is
    non-empty and has its delegated handlers in front, as many as its delegate
    count says; an element that can listen has a native listener for exactly the
    types it has handlers for; and a focus event is captured on a document
    exactly as long as some element of it needs that. *)
Theorem registry_consistent (bs : list binding) (u : U) (inl : nat -> jstr -> option (@func K))
    (Hb : Forall (fun b => accepts (at_element b)) bs) :
  consistent (fold_left bind_step bs (initial u inl)).
Proof.
  set (w := fold_left bind_step bs (initial u inl)). assert (wf w) as Hw by (apply bindings_wf; [done|apply initial_wf]). clearbody w.
  assert (forall e t, t ∈ keys e w <-> list_for e t w <> None) as Hk.
  { intros e t. unfold keys, list_for. rewrite lookup_type_elem. destruct (decide (t ∈ map fst (default [] (events (get_data e w))))); naive_solver. }
  split_and!.
  - intros e t l He Hl. destruct (list_for_in _ _ _ _ He Hw Hl) as (_ & (Hne & ds & rs & E & Ec & Hd & Hr) & _). cbn in *.
    rewrite E, Ec, take_app_length, drop_app_length. rewrite <- E. by split_and!.
  - intros e t He Hc. destruct (wf_listening _ Hw) as [Hl _]. by rewrite Hl, Hk.
  - intros doc fix_ orig Hc. destruct (wf_listening _ Hw) as [_ Hf]. destruct (Hf doc fix_ orig Hc) as (es & _ & Hes & _ & ->).
    split.
    + intros Hne. destruct es as [|e es]; [done|]. exists e. rewrite <- Hk. apply Hes. left.
    + intros (e & Hacc & Hdoc & Hin) ->. rewrite <- Hk in Hin. assert (e ∈ ([] : list nat)) as Hnil by (by apply Hes). set_solver.
Qed.

(** ** Unbinding *)

Lemma existsb_rev {A} (f : A -> bool) (l : list A) : existsb f (rev l) = existsb f l.
Proof. apply eq_true_iff_eq. rewrite !existsb_exists. setoid_rewrite <- in_rev. done. Qed.

(** The handlers that are dropped for a token of the types, and by a call of [remove]: the type
    the handler was bound for, unless the token has none, and the rest of the
    arguments. *)
Definition token_names (h : option (@handler K)) (sel : option jstr) w t o (token : jstr) : bool :=
  let ns := (fun _ => namespaces_of token) <$> namespace_part token in
  if decide (type_part token = []) then removes true [] h ns sel w o
  else bool_decide (mapped_type sel (type_part token) = t) && removes false (type_part token) h ns sel w o.
Definition named (types : jstr) (h : option (@handler K)) (sel : option jstr) w t o : bool :=
  existsb (token_names h sel w t o) (type_tokens types).

Lemma removes_same mapped ty h ns sel w w' o : guids w' = guids w -> removes mapped ty h ns sel w' o = removes mapped ty h ns sel w o.
Proof. intros Hg. unfold removes, handler_guid. by rewrite Hg. Qed.

Lemma remove_typed_guids e mapped h sel w token : guids (remove_typed e mapped h sel w token) = guids w.
Proof.
  unfold remove_typed, update_events, put_data. destruct (list_for _ _ _) as [l|]; [|done].
  destruct (_ && _), (acceptData _); cbn; try done; apply stop_listening_elems.
Qed.
Lemma drop_empty_guids e w : guids (drop_empty e w) = guids w.
Proof. unfold drop_empty, put_data. destruct (events _) as [[|]|]; [|done..]. by destruct (acceptData _). Qed.

Lemma remove_typed_view e e' mapped h sel w token t : accepts e -> wf w ->
  handlers_of e' t (remove_typed e mapped h sel w token) =
    if decide (e' = e /\ t = mapped_type sel (type_part token))
    then filter (fun o => removes mapped (type_part token) h ((fun _ => namespaces_of token) <$> namespace_part token) sel w o = false)
           (handlers_of e' t w)
    else handlers_of e' t w.
Proof.
  intros He Hw. unfold remove_typed. set (type := mapped_type sel (type_part token)). set (p := removes _ _ _ _ _ _).
  destruct (list_for e type w) as [l|] eqn:Hl.
  - assert (events (elems w e) <> None) as Hev.
    { unfold list_for in Hl. rewrite get_data_accepts in Hl by done. by destruct (events (elems w e)). }
    assert (filter (fun o => p o = false) (entries l) = entries (remove_loop p (length (entries l)) l)) as Hent.
    { by rewrite remove_loop_entries, firstn_all, drop_all, app_nil_r. }
    assert (forall t, lookup_type t (default [] (events (elems w e))) = list_for e t w) as Hlf.
    { intros t'. unfold list_for. by rewrite get_data_accepts. }
    unfold handlers_of. destruct (_ && _) eqn:Hb.
    + destruct (stop_listening_elems e type w) as [Hse _].
      rewrite list_for_update by (done || (rewrite Hse; by right)). rewrite Hse, lookup_type_delete, Hlf.
      assert (list_for e' t (stop_listening e type w) = list_for e' t w) as -> by (unfold list_for, get_data; by rewrite Hse).
      destruct (decide (e' = e)) as [->|Hne]; [|by rewrite decide_False by naive_solver].
      destruct (decide (t = type)) as [->|]; [|by rewrite decide_False by naive_solver]. rewrite decide_True, Hl, Hent by done.
      apply andb_prop in Hb as [_ Hb%Nat.eqb_eq]. by destruct (entries (remove_loop _ _ _)).
    + rewrite list_for_update by (done || by right). rewrite lookup_type_assign, Hlf.
      destruct (decide (e' = e)) as [->|Hne]; [|by rewrite decide_False by naive_solver].
      destruct (decide (t = type)) as [->|]; [|by rewrite decide_False by naive_solver]. by rewrite decide_True, Hl, Hent.
  - case_decide as Hd; [|done]. destruct Hd as [-> ->]. unfold handlers_of. by rewrite Hl.
Qed.

Lemma drop_empty_view e e' w t : accepts e -> handlers_of e' t (drop_empty e w) = handlers_of e' t w.
Proof.
  intros He. unfold drop_empty. rewrite get_data_accepts by done. destruct (events (elems w e)) as [[|]|] eqn:Hev; [|done..].
  unfold handlers_of, list_for. rewrite get_put_data by done. destruct (decide (e' = e)) as [->|]; [|done].
  by rewrite get_data_accepts, Hev.
Qed.
(** A token without a type, put behind a type. *)
Lemma key_token k token : dotless k -> type_part token = [] ->
  type_part (k ++ token) = k /\ namespace_part (k ++ token) = namespace_part token /\ namespaces_of (k ++ token) = namespaces_of token.
Proof.
  intros Hk Ht. assert (type_part (k ++ token) = k) as Hp.
  { unfold type_part in *. unfold dotless in Hk. induction k as [|c k IH]; [done|]. cbn. destruct (Z.eqb_spec c 46); [set_solver|].
    f_equal. apply IH. set_solver. }
  assert (namespace_part (k ++ token) = namespace_part token) as Hn by (unfold namespace_part; by rewrite Hp, Ht, drop_app_length).
  split_and!; [done..|]. unfold namespaces_of. by rewrite Hn.
Qed.

Lemma removes_key mapped ty h ns sel w t o : key_ok t -> (delegated o -> delegateType (special focusin_support t) = None) ->
  mapped_type sel t <> t -> removes mapped ty h ns sel w o = false.
Proof.
  intros (_ & _ & Hbind) Hdel Hne. unfold mapped_type in Hne. destruct (given sel) eqn:G; [|by rewrite Hbind in Hne].
  unfold delegated in Hdel. unfold removes. destruct (given (h_selector o)) eqn:Go.
  - by rewrite Hdel in Hne.
  - assert (bool_decide (sel = h_selector o) = false) as -> by (apply bool_decide_eq_false_2; intros ->; congruence).
    rewrite G. destruct (bool_decide (sel = Some _)); apply andb_false_r.
Qed.

Lemma handlers_of_typed e t w : accepts e -> wf w -> handlers_of e t w <> [] ->
  t ∈ keys e w /\ key_ok t /\ Forall (fun o => delegated o -> delegateType (special focusin_support t) = None) (handlers_of e t w).
Proof.
  intros He Hw. unfold handlers_of. destruct (list_for e t w) as [l|] eqn:Hl; [|done]. intros _.
  destruct (list_for_in _ _ _ _ He Hw Hl) as (? & _ & ?). split_and!; [|done..].
  unfold keys. destruct (decide (t ∈ map fst (default [] (events (get_data e w))))) as [|Hn]; [done|].
  apply lookup_type_elem in Hn. unfold list_for in Hl. congruence.
Qed.

Lemma remove_keys_view e e' h sel token ks w w' t : accepts e -> wf w' -> guids w' = guids w ->
  type_part token = [] -> Forall dotless ks ->
  handlers_of e' t (fold_left (fun w type => drop_empty e (remove_typed e true h sel w (type ++ token))) ks w') =
    if decide (e' = e /\ t ∈ map (mapped_type sel) ks)
    then filter (fun o => removes true [] h ((fun _ => namespaces_of token) <$> namespace_part token) sel w o = false) (handlers_of e' t w')
    else handlers_of e' t w'.
Proof.
  intros He Hw' Hg Htok Hks. revert w' Hw' Hg. induction Hks as [|k ks Hk Hks IH]; intros w' Hw' Hg; cbn [fold_left].
  { rewrite decide_False; [done|]. cbn. set_solver. }
  rewrite IH; [|by apply drop_empty_wf, remove_typed_wf|by rewrite drop_empty_guids, remove_typed_guids].
  rewrite drop_empty_view, remove_typed_view by done. destruct (key_token k token Hk Htok) as (-> & -> & ->).
  set (P := fun o => removes true [] h ((fun _ => namespaces_of token) <$> namespace_part token) sel w o = false).
  assert (forall l : list hobj, filter (fun o => removes true k h ((fun _ => namespaces_of token) <$> namespace_part token) sel w' o = false) l = filter P l) as ->.
  { intros l. apply list_filter_iff. intros o. unfold P. by rewrite (removes_same true k _ _ _ w w'). }
  assert (forall l : list hobj, filter P (filter P l) = filter P l) as Hidem.
  { intros l. rewrite list_filter_filter. apply list_filter_iff. naive_solver. }
  cbn [map]. destruct (decide (e' = e)) as [->|]; [|by rewrite !decide_False by naive_solver].
  destruct (decide (t = mapped_type sel k)) as [->|].
  - rewrite (decide_True _ _ (conj eq_refl eq_refl)). rewrite (decide_True (P := _ /\ _ ∈ _ :: _)) by set_solver.
    destruct (decide (e = e /\ mapped_type sel k ∈ map (mapped_type sel) ks)); [apply Hidem|done].
  - rewrite (decide_False (P := e = e /\ t = _)) by naive_solver.
    apply decide_ext. set_solver.
Qed.

Lemma remove_token_view e e' h sel w token t : accepts e -> wf w ->
  handlers_of e' t (remove_token e false h sel w token) =
    if decide (e' = e)
    then filter (fun o => token_names h sel w t o token = false) (handlers_of e' t w)
    else handlers_of e' t w.
Proof.
  intros He Hw. unfold remove_token, token_names. cbv zeta. destruct (decide (type_part token = [])) as [Htok|Htok].
  - fold (keys e w). rewrite (remove_keys_view _ _ _ _ _ _ w) by
      (done || (apply Forall_forall; intros k Hk; destruct (wf_elem w Hw e He) as [[_ Hty] _]; rewrite Forall_forall in Hty;
         unfold keys in Hk; rewrite get_data_accepts in Hk by done; apply list_elem_of_fmap in Hk as (p & -> & Hp); by apply Hty in Hp as ((_ & ? & _) & _))).
    destruct (decide (e' = e)) as [->|]; [|by rewrite decide_False by naive_solver].
    destruct (decide (handlers_of e t w = [])) as [-> |Hne]; [by destruct (decide _)|].
    destruct (handlers_of_typed e t w He Hw Hne) as (Hin & Hkey & Hdel).
    destruct (decide (mapped_type sel t = t)) as [Hm|Hm].
    + rewrite decide_True; [done|]. split; [done|]. rewrite <- Hm. apply list_elem_of_fmap. by exists t.
    + rewrite (filter_all (fun o => removes _ _ _ _ _ _ o = false)); [by destruct (decide _)|].
      eapply Forall_impl; [exact Hdel|]. intros o Ho. by apply (removes_key _ _ _ _ _ _ t).
  - rewrite remove_typed_view by done. destruct (decide (e' = e)) as [->|]; [|by rewrite decide_False by naive_solver].
    destruct (decide (t = mapped_type sel (type_part token))) as [->|Hne].
    + rewrite decide_True by done. apply list_filter_iff. intros o. by rewrite bool_decide_eq_true_2.
    + rewrite decide_False by naive_solver. symmetry. apply filter_all. apply Forall_forall. intros o _. by rewrite bool_decide_eq_false_2.
Qed.
Lemma remove_token_guids e mapped h sel w token : guids (remove_token e mapped h sel w token) = guids w.
Proof.
  unfold remove_token. destruct (decide _); [|apply remove_typed_guids].
  apply (fold_left_holds (fun w' => guids w' = guids w)); [|done]. intros w' k Hw'. by rewrite drop_empty_guids, remove_typed_guids.
Qed.

Lemma token_names_same h sel w w' t o token : guids w' = guids w -> token_names h sel w' t o token = token_names h sel w t o token.
Proof. intros Hg. unfold token_names. by rewrite !(removes_same _ _ _ _ _ w w'). Qed.

Lemma remove_tokens_view e e' h sel tokens w w' t : accepts e -> wf w' -> guids w' = guids w ->
  handlers_of e' t (fold_left (remove_token e false h sel) tokens w') =
    if decide (e' = e) then filter (fun o => existsb (token_names h sel w t o) tokens = false) (handlers_of e' t w')
    else handlers_of e' t w'.
Proof.
  intros He. revert w'. induction tokens as [|k tokens IH]; intros w' Hw' Hg; cbn [fold_left existsb].
  { destruct (decide (e' = e)); [|done]. symmetry. apply filter_all. by apply Forall_forall. }
  rewrite IH; [|by apply remove_token_wf|by rewrite remove_token_guids]. rewrite remove_token_view by done.
  destruct (decide (e' = e)); [|done]. rewrite list_filter_filter. apply list_filter_iff. intros o.
  rewrite (token_names_same _ _ w w') by done. rewrite orb_false_iff. naive_solver.
Qed.

Lemma remove_view (e : nat) (types : jstr) (h : option (@handler K)) (sel : option jstr) (w : hworld) (e' : nat) (t : jstr)
    (He : accepts e) (Hw : wf w) :
  handlers_of e' t (remove e types h sel w) =
    if decide (e' = e) then filter (fun o => named types h sel w t o = false) (handlers_of e' t w) else handlers_of e' t w.
Proof.
  unfold remove. rewrite get_data_accepts by done. destruct (events (elems w e)) as [evs|] eqn:Hev.
  - rewrite drop_empty_view by done. rewrite (remove_tokens_view _ _ _ _ _ w) by done. destruct (decide (e' = e)); [|done].
    apply list_filter_iff. intros o. unfold named. by rewrite existsb_rev.
  - destruct (decide (e' = e)) as [->|]; [|done]. unfold handlers_of, list_for. by rewrite get_data_accepts, Hev.
Qed.

(** What it means that a word of the types, together with the function and the
    selector given, names a handler in the list for [t]. *)
Record names (h : option (@handler K)) (sel : option jstr) w t o (token : jstr) : Prop := {
  names_type : type_part token = [] \/ type_part token = h_origType o /\ mapped_type sel (type_part token) = t;
  names_function f : h = Some f -> handler_guid f w = Some (h_guid o);
  names_spaces part : namespace_part token = Some part -> sort_names (split_dot part) `sublist_of` split_dot (h_namespace o);
  names_selector : given sel = true -> sel = h_selector o \/ sel = Some (str "**") /\ given (h_selector o) = true;
}.

Lemma space_test_spec part s :
  namespace_test (sort_names (split_dot part)) s = true <-> sort_names (split_dot part) `sublist_of` split_dot s.
Proof.
  rewrite <- (join_split s) at 1. apply namespace_test_sublist; try apply split_dot_go_nonempty; try apply split_dot_dotless.
  - intros Hn. apply (split_dot_go_nonempty [] part), Permutation_nil. by rewrite <- Hn, sort_names_perm.
  - rewrite sort_names_perm. apply split_dot_dotless.
Qed.

Lemma removes_spec (mapped : bool) ty h ns sel w o : removes mapped ty h ns sel w o = true <->
  (mapped = true \/ ty = h_origType o) /\ (forall f, h = Some f -> handler_guid f w = Some (h_guid o)) /\
  (forall l, ns = Some l -> namespace_test l (h_namespace o) = true) /\
  (given sel = true -> sel = h_selector o \/ sel = Some (str "**") /\ given (h_selector o) = true).
Proof.
  unfold removes. rewrite !andb_true_iff, !orb_true_iff, andb_true_iff, negb_true_iff, !bool_decide_eq_true.
  split.
  - intros [[[H1 H2] H3] H4]. split_and!; [done| | |].
    + intros f ->. by apply bool_decide_eq_true in H2.
    + by intros l ->.
    + intros Hg. destruct H4 as [[H4|H4]|H4]; [congruence|by left|by right].
  - intros (H1 & H2 & H3 & H4). split_and!; [done| | |].
    + destruct h; [|done]. by apply bool_decide_eq_true, H2.
    + destruct ns; [|done]. by apply H3.
    + destruct (given sel); [|by left; left]. destruct H4 as [H4|H4]; [done|by left; right|by right].
Qed.

Lemma token_names_spec h sel w t o token : token_names h sel w t o token = true <-> names h sel w t o token.
Proof.
  unfold token_names. cbv zeta.
  assert (forall P, (forall l, (fun _ : jstr => namespaces_of token) <$> namespace_part token = Some l -> P l) <->
    (forall part, namespace_part token = Some part -> P (sort_names (split_dot part)))) as Hns.
  { intros P. unfold namespaces_of. destruct (namespace_part token) as [part|]; cbn; naive_solver. }
  destruct (decide (type_part token = [])) as [Ht|Ht]; rewrite ?andb_true_iff, removes_spec, ?bool_decide_eq_true.
  - rewrite Hns. setoid_rewrite space_test_spec. split; [intros (_ & ? & ? & ?); split; auto|intros [? ? ? ?]; split_and!; auto].
  - rewrite Hns. setoid_rewrite space_test_spec. split.
    + intros (? & [?|?] & ? & ? & ?); [done|]. split; auto.
    + intros [[?|[? ?]] ? ? ?]; [done|]. split_and!; auto.
Qed.
#[export] Instance names_dec h sel w t o token : Decision (names h sel w t o token).
Proof.
  destruct (token_names h sel w t o token) eqn:E; [left; by apply token_names_spec|right].
  intros Hn%token_names_spec. congruence.
Qed.


(** ** Binding *)

(** The handler object made for a token. *)
Definition new_obj (h : @handler K) (g : Z) (data : option V) (sel : option jstr) (token : jstr) : hobj :=
  {| h_type := mapped_type sel (type_part token); h_origType := type_part token; h_data := data; h_handler := h; h_guid := g;
     h_selector := sel; h_needsContext := match sel with Some s => given sel && needsContext s | None => false end;
     h_namespace := join_dot (namespaces_of token) |}.

Lemma filter_insert (P : hobj -> Prop) `{!forall o, Decision (P o)} sel o l : ~ P o ->
  filter P (entries (insert_handler sel o l)) = filter P (entries l).
Proof.
  intros Ho. unfold insert_handler. destruct (given sel); cbn.
  - rewrite filter_app, filter_cons_False by done. by rewrite <- filter_app, take_drop.
  - rewrite filter_app, filter_cons_False, filter_nil by done. by rewrite app_nil_r.
Qed.

Definition entries_at t (evs : list (jstr * @handler_list K V)) : list hobj :=
  match lookup_type t evs with Some l => entries l | None => [] end.

Lemma add_token_filter (P : hobj -> Prop) `{!forall o, Decision (P o)} e h g data sel (p : list (jstr * @handler_list K V) * hworld) token t :
  (type_part token <> [] -> ~ P (new_obj h g data sel token)) ->
  filter P (entries_at t (fst (add_token e h g data sel None p token))) = filter P (entries_at t (fst p)).
Proof.
  intros HP. destruct p as [evs w]. unfold add_token. destruct (decide (type_part token = [])); [done|]. cbn [default from_option].
  fold (new_obj h g data sel token). set (type := mapped_type sel (type_part token)). unfold entries_at.
  destruct (lookup_type type evs) as [l|] eqn:Hl; cbn [fst]; rewrite lookup_type_assign.
  - destruct (decide (t = type)) as [->|]; [|done]. rewrite Hl. apply filter_insert. auto.
  - destruct (decide (t = type)) as [->|]; [|done]. rewrite Hl. rewrite filter_insert by auto. done.
Qed.

Lemma add_tokens_filter (P : hobj -> Prop) `{!forall o, Decision (P o)} e h g data sel w tokens (p : list (jstr * @handler_list K V) * hworld) :
  (forall token, token ∈ tokens -> type_part token <> [] -> ~ P (new_obj h g data sel token)) -> elems (snd p) = elems w ->
  let p' := fold_left (add_token e h g data sel None) tokens p in
  elems (snd p') = elems w /\ forall t, filter P (entries_at t (fst p')) = filter P (entries_at t (fst p)).
Proof.
  revert p. induction tokens as [|k tokens IH]; intros p Hk Hp; [done|]. cbn [fold_left].
  destruct (IH (add_token e h g data sel None p k)) as [IH1 IH2]; [set_solver| |split; [done|]].
  - destruct p as [evs w3]. unfold add_token. destruct (decide _); [done|]. destruct (lookup_type _ evs); [done|]. cbn in *.
    destruct (start_listening_elems e (mapped_type sel (type_part k)) w3) as [-> _]. done.
  - intros t'. rewrite IH2. apply add_token_filter. apply Hk. left.
Qed.

(** Whatever does not hold of the new handlers holds of the same ones as before. *)
Lemma add_filter (P : hobj -> Prop) `{!forall o, Decision (P o)} e types h data sel w w' t : accepts e ->
  add e types (inl h) data sel w = (Ok tt, w') ->
  (forall g token, token ∈ type_tokens types -> type_part token <> [] -> ~ P (new_obj h g data sel token)) ->
  (forall e', e' <> e -> handlers_of e' t w' = handlers_of e' t w) /\
  filter P (handlers_of e t w') = filter P (handlers_of e t w).
Proof.
  intros He Hadd HP. unfold add, handler_parts in Hadd. unfold mbind, eff_bind in Hadd.
  destruct (check_selector_same sel w) as [Hc|[err Hc]]; rewrite Hc in Hadd; [|done]. unfold modify in Hadd. cbv beta iota zeta in Hadd.
  set (w2 := ensure_guid (fn_of h) w) in *. assert (elems w2 = elems w) as Hel by (subst w2; unfold ensure_guid; by destruct (guids w _)).
  set (g := default 0 (handler_guid h w2)) in *.
  pose proof (add_tokens_filter P e h g data sel w (rev (type_tokens types)) (default [] (events (get_data e w2)), w2)) as Hfold.
  destruct (fold_left _ _ _) as [evs w3]. cbn in *. injection Hadd as <-. destruct Hfold as [Hel3 Hf]; [|done|].
  { intros token Hin. apply HP. apply list_elem_of_In. by apply in_rev, list_elem_of_In. }
  unfold handlers_of, list_for. split.
  - intros e' Hne. rewrite get_put_data, decide_False by done. unfold get_data. by rewrite Hel3.
  - rewrite get_put_data, decide_True by done. cbn. specialize (Hf t). unfold entries_at in Hf. rewrite Hf. unfold get_data. by rewrite Hel.
Qed.

Lemma removes_namespace ty ns (w : hworld) o : removes true ty None (Some ns) None w o = namespace_test ns (h_namespace o).
Proof. unfold removes. cbn. by rewrite andb_true_r. Qed.

(** Unbinding by namespace undoes binding: a handler bound with the
    namespaces [ns] in each of its types, and these alone, disappears with
    [off( ns )]; every other handler of every element stays where it was. *)
Theorem off_undoes_on (e : nat) (types ns : jstr) (h : @handler K) (data : option V) (sel : option jstr) (w w' : hworld)
    (He : accepts e) (Hw : wf w) (Hadd : add e types (inl h) data sel w = (Ok tt, w'))
    (Hns : tokens ns = [ns] /\ type_part ns = [] /\ namespace_part ns <> None)
    (Hnew : Forall (fun token => namespace_test (namespaces_of ns) (join_dot (namespaces_of token)) = true) (tokens types))
    (Hold : forall t, Forall (fun o => namespace_test (namespaces_of ns) (h_namespace o) = false) (handlers_of e t w)) :
  forall e' t, handlers_of e' t (remove e ns None None w') = handlers_of e' t w.
Proof.
  intros e' t. destruct Hns as (Htok & Hty & Hpart).
  destruct (add_filter (fun o => namespace_test (namespaces_of ns) (h_namespace o) = false) e types h data sel w w' t He Hadd) as [Hother Hsame].
  { intros g token Hin Hne Hf. unfold type_tokens in Hin. rewrite Forall_forall in Hnew.
    destruct (tokens types) as [|k ks]; [apply list_elem_of_singleton in Hin as ->; done|]. apply Hnew in Hin. cbn [new_obj h_namespace] in Hf. congruence. }
  pose proof (add_wf e types (inl h) data sel w He Hw) as Hw'. rewrite Hadd in Hw'.
  rewrite remove_view by done. destruct (decide (e' = e)) as [->|Hne]; [|by apply Hother].
  rewrite <- (filter_all _ _ (Hold t)), <- Hsame. apply list_filter_iff. intros o.
  unfold named, type_tokens. rewrite Htok. cbn [existsb]. rewrite orb_false_r. unfold token_names. rewrite Hty.
  rewrite decide_True by done. destruct (namespace_part ns) as [part|]; [|done]. cbn [fmap option_fmap option_map]. by rewrite removes_namespace.
Qed.
End registry.

(** ** Examples *)

Section demo.
#[local] Existing Instance demo_dom.
Abbreviation demo_world := (@world nat nat unit).

(** Two handlers on the list, one of them delegated to its items, and one for
    the focus. *)
Definition demo_bindings : list (@binding nat nat) := [
  Bind 3 (str "click.a mouseenter.b") (inl (Plain (User 1%nat))) None None;
  Bind 3 (str "click") (inl (Plain (User 2%nat))) None (Some (str "li"));
  Bind 4 (str "focusin") (inl (Plain (User 3%nat))) None None;
  Unbind 3 (str "mouseenter") None None].
Definition demo_start : demo_world := initial tt (fun _ _ => None).
Definition demo : demo_world := fold_left bind_step demo_bindings demo_start.

Lemma demo_accepts : Forall (fun b => accepts (at_element b)) demo_bindings.
Proof. repeat constructor. Qed.
Lemma demo_wf : wf demo.
Proof. apply bindings_wf; [exact demo_accepts|apply initial_wf]. Qed.

Lemma registry_consistent_witness : consistent demo.
Proof. exact (registry_consistent demo_bindings tt (fun _ _ => None) demo_accepts). Defined.


Lemma demo_handlers_none t o : o ∈ handlers_of 4 t demo -> namespace_test (namespaces_of (str ".x")) (h_namespace o) = false.
Proof.
  unfold handlers_of, list_for. change (get_data 4 demo) with (elems demo 4). destruct (elems demo 4) as [evs h] eqn:E. vm_compute in E.
  injection E as <- <-. cbn [events default from_option id lookup_type]. destruct (decide _); [|set_solver].
  intros ->%list_elem_of_singleton. vm_compute. reflexivity.
Qed.

Definition demo_bound : demo_world :=
  snd (add 4 (str "click.x keydown.y.x") (inl (Plain (User 5%nat))) None None demo).

Lemma off_undoes_on_witness :
  handlers_of 4 (str "click") (remove 4 (str ".x") None None demo_bound) = handlers_of 4 (str "click") demo /\
  handlers_of 4 (str "keydown") (remove 4 (str ".x") None None demo_bound) = handlers_of 4 (str "keydown") demo /\
  map (fun o => h_handler o) (handlers_of 4 (str "click") demo_bound) = [Plain (User 5%nat)].
Proof.
  assert (forall e' t, handlers_of e' t (remove 4 (str ".x") None None demo_bound) = handlers_of e' t demo) as E.
  { apply (off_undoes_on 4 (str "click.x keydown.y.x") (str ".x") (Plain (User 5%nat)) None None demo demo_bound).
    - reflexivity.
    - exact demo_wf.
    - unfold demo_bound, add, check_selector, handler_parts, modify, mbind, eff_bind, mret, eff_ret. cbn [snd]. reflexivity.
    - split; [vm_compute; reflexivity|split; [vm_compute; reflexivity|vm_compute; discriminate]].
    - repeat constructor.
    - intros t. apply Forall_forall. apply demo_handlers_none. }
  split_and!; [apply E|apply E|vm_compute; reflexivity].
Defined.
End demo.
