(* ===== verification/EventsDispatch.v ===== *)
(** Dispatch: which handlers an event runs, and in which order, whatever the
    handlers do to the bindings, to the event, or to the page. *)
From Stdlib Require Import String.
From S2P Require Import Prelude JsString ClassNames DataCache Events EventNames EventsInv.

(** Nodes above one another. *)
Class DomLaws (dom : Dom) := parent_depth n p : parentNode n = Some p -> (depth p < depth n)%nat.

Section dispatch.
Context {K V U : Type} `{!EqDecision K} {dom : Dom} {dom_laws : DomLaws dom}.
Abbreviation hobj := (@handleObj K V).
Abbreviation hworld := (@world K V U).
Abbreviation hevent := (@event K V).
Implicit Types (w : hworld) (o : hobj) (cur this : nat) (ev : hevent).

(** ** The path of an event *)

(** The nodes from [cur] up to [this], without [this]. *)
Inductive path_below this : nat -> list nat -> Prop :=
  | path_here : path_below this this []
  | path_root cur : cur <> this -> parentNode cur = None -> path_below this cur [cur]
  | path_parent cur p l : cur <> this -> parentNode cur = Some p -> path_below this p l -> path_below this cur (cur :: l).

Lemma nodes_below_path fuel this cur : (S (depth cur) < fuel)%nat -> path_below this cur (nodes_below fuel this cur).
Proof.
  revert cur. induction fuel as [|fuel IH]; intros cur Hf; [lia|]. cbn. destruct (decide (cur = this)) as [->|Hne]; [constructor|].
  destruct (parentNode cur) as [p|] eqn:Hp; cbn.
  - eapply path_parent; [done..|]. apply IH. pose proof (parent_depth _ _ Hp). lia.
  - destruct fuel as [|fuel]; [lia|]. cbn. rewrite decide_True by done. by apply path_root.
Qed.

(** ** Delegation *)

Definition context_ok o : Prop :=
  h_needsContext o = match h_selector o with Some s => given (Some s) && needsContext s | None => false end.

(** The memo of selectors does not change the result. *)
Lemma match_delegates_filter this cur (l : list hobj) memo : Forall context_ok l ->
  (forall p o, p ∈ memo -> context_ok o -> default [] (h_selector o) = fst p -> selector_matches this cur o = snd p) ->
  match_delegates this cur memo l = filter (fun o => selector_matches this cur o = true) l.
Proof.
  intros Hl. revert memo. induction Hl as [|o l Ho Hl IH]; intros memo Hm; [done|]. cbn [match_delegates].
  assert (forall o', context_ok o' -> default [] (h_selector o') = default [] (h_selector o) ->
    selector_matches this cur o' = selector_matches this cur o) as Hsame.
  { intros o' Ho' E. unfold selector_matches, context_ok in *. rewrite E, Ho, Ho'.
    destruct (h_selector o') as [[|]|], (h_selector o) as [[|]|]; cbn in E; try discriminate; rewrite ?E; done. }
  destruct (List.find _ memo) as [p|] eqn:Hf.
  - apply List.find_some in Hf as [Hin Heq%bool_decide_eq_true]. apply list_elem_of_In in Hin.
    rewrite <- (Hm p o) by done. rewrite IH by done. destruct (selector_matches this cur o) eqn:E; [by rewrite filter_cons_True|].
    by rewrite filter_cons_False by congruence.
  - rewrite IH; [|intros p o' [->|Hin]%elem_of_cons; [by intros; apply Hsame|by eapply Hm]].
    destruct (selector_matches this cur o) eqn:E; [by rewrite filter_cons_True|]. by rewrite filter_cons_False by congruence.
Qed.

(** The handlers an event finds, element by element: the delegated ones of every
    element on the path that their selector matches, then those bound to [this]
    itself. *)
Definition eligible ev cur : bool :=
  bool_decide (node_kind cur = Element) && negb (bool_decide (ev_type ev = str "click") && disabled cur).
Definition delegation ev (target : nat) : bool :=
  negb (bool_decide (node_kind target = PlainObject)) &&
  negb (bool_decide (ev_type ev = str "click") && (1 <=? match originalEvent ev with Some n => n_button n | None => 0 end)).
Definition groups this ev (ds rs : list hobj) (path : list nat) : list (nat * list hobj) :=
  (if delegation ev (default this (target ev))
   then map (fun cur => (cur, filter (fun o => selector_matches this cur o = true) ds)) (filter (fun cur => eligible ev cur = true) path)
   else [])
  ++ [(this, rs)].

(** Pairs of an element and a handler, in the order they run. *)
Definition steps_of (q : list (nat * list hobj)) : list (nat * hobj) := flat_map (fun p => map (pair (fst p)) (snd p)) q.

Definition nonempty (q : list (nat * list hobj)) : list (nat * list hobj) := filter (fun p => snd p <> []) q.
Lemma steps_of_nonempty q : steps_of (nonempty q) = steps_of q.
Proof.
  unfold nonempty. induction q as [|[cur l] q IH]; [done|]. rewrite filter_cons. cbn [snd]. destruct (decide (l <> [])) as [|Hl%dec_stable].
  - unfold steps_of in *. cbn [flat_map]. by rewrite IH.
  - subst l. rewrite IH. done.
Qed.

Lemma handlers_groups this ev (l : @handler_list K V) ds rs : entries l = ds ++ rs -> delegateCount l = length ds -> Forall context_ok ds ->
  exists path, path_below this (default this (target ev)) path /\ handlers this ev l = nonempty (groups this ev ds rs path).
Proof.
  intros E Ec Hctx. set (cur := default this (target ev)). exists (nodes_below (S (S (depth cur))) this cur). split; [apply nodes_below_path; lia|].
  unfold handlers, groups, nonempty. cbv zeta. fold cur. rewrite E, Ec, take_app_length, drop_app_length, length_app, filter_app. f_equal.
  - unfold delegation. destruct (Nat.ltb_spec 0 (length ds)) as [Hd|Hd]; cbn [andb].
    + destruct (_ && _); [|done]. induction (nodes_below _ this cur) as [|n path IH]; [done|]. cbn [flat_map]. rewrite IH.
      rewrite filter_cons. fold (eligible ev n). destruct (eligible ev n) eqn:He.
      * rewrite decide_True by done. cbn [map]. rewrite filter_cons. cbn [snd]. rewrite (match_delegates_filter _ _ _ []); [|done|set_solver].
        by destruct (filter _ ds).
      * by rewrite decide_False.
    + destruct ds; [|cbn in Hd; lia]. destruct (_ && _); [|done]. induction (filter _ (nodes_below _ _ _)) as [|n path IH]; [done|].
      cbn [map]. by rewrite filter_cons_False by (cbn; auto).
  - rewrite filter_cons. cbn [snd]. destruct rs as [|o rs]; cbn [length].
    + destruct (Nat.ltb_spec (length ds) (length ds + 0)); [lia|]. by rewrite decide_False by auto.
    + destruct (Nat.ltb_spec (length ds) (length ds + S (length rs))); [|lia]. by rewrite decide_True.
Qed.
(** ** Running *)

(** What a handler may do to its event: stop it, prevent the default, set fields
    that dispatch does not read. *)
Definition flags_ok ev : Prop := isImmediatePropagationStopped ev = true -> isPropagationStopped ev = true.
Definition ev_keeps ev ev' : Prop :=
  rnamespace ev' = rnamespace ev /\ relatedTarget ev' = relatedTarget ev /\
  (isPropagationStopped ev = true -> isPropagationStopped ev' = true) /\
  (isImmediatePropagationStopped ev = true -> isImmediatePropagationStopped ev' = true) /\
  (flags_ok ev -> flags_ok ev').
#[global] Instance ev_keeps_preorder : PreOrder ev_keeps.
Proof.
  split; [by intros ev; split_and!|]. intros x y z (E1 & E2 & H1 & H2 & H3) (E1' & E2' & H1' & H2' & H3').
  split_and!; [congruence|congruence|auto..].
Qed.

(** What the user's functions do is arbitrary, but they are logged, each call
    before whatever it calls itself, and they keep to [ev_keeps]. *)
Class UserLaws (call : K -> nat -> hevent -> list V -> eff hworld (@retval V * hevent)) (ulog : U -> list (K * nat)) := {
  call_logs k this ev args w :
    exists rest, ulog (user (snd (call k this ev args w))) = ulog (user w) ++ (k, this) :: rest;
  call_keeps k this ev args w r ev' : fst (call k this ev args w) = Ok (r, ev') -> ev_keeps ev ev';
}.
Context {call : K -> nat -> hevent -> list V -> eff hworld (@retval V * hevent)} {ulog : U -> list (K * nat)} {user_laws : UserLaws call ulog}.

(** The log of one step: the user's function of the handler, and what it led to. *)
Definition step_log (p : nat * hobj) (seg : list (K * nat)) : Prop :=
  match fn_of (h_handler (snd p)) with
  | User k => exists rest, seg = (k, fst p) :: rest
  | ReturnFalse => seg = []
  end.

Lemma user_put_data e d w : user (put_data e d w) = user w.
Proof. unfold put_data. by destruct (acceptData _). Qed.
Lemma user_remove_typed e mapped h sel w token : user (remove_typed e mapped h sel w token) = user w.
Proof.
  unfold remove_typed, update_events. destruct (list_for _ _ _) as [l|]; [|done].
  destruct (_ && _); rewrite user_put_data; [|done]. apply stop_listening_elems.
Qed.
Lemma user_drop_empty e w : user (drop_empty e w) = user w.
Proof. unfold drop_empty. destruct (events _) as [[|]|]; [apply user_put_data|done..]. Qed.
Lemma user_remove e types h sel w : user (remove e types h sel w) = user w.
Proof.
  unfold remove. destruct (events _); [|done]. rewrite user_drop_empty.
  apply (fold_left_holds (fun w' => user w' = user w)); [|done]. intros w1 token Hw. unfold remove_token. destruct (decide _).
  - apply (fold_left_holds (fun w' => user w' = user w)); [|done]. intros w2 k Hw2. by rewrite user_drop_empty, user_remove_typed.
  - by rewrite user_remove_typed.
Qed.

Lemma call_handler_log (h : @handler K) cur ev args w :
  exists seg, ulog (user (snd (call_handler call h cur ev args w))) = ulog (user w) ++ seg /\
    match fn_of h with User k => exists rest, seg = (k, cur) :: rest | ReturnFalse => seg = [] end /\
    forall r ev', fst (call_handler call h cur ev args w) = Ok (r, ev') -> ev_keeps ev ev'.
Proof.
  assert (forall f w, exists seg, ulog (user (snd (call_func call f cur ev args w))) = ulog (user w) ++ seg /\
    match f with User k => exists rest, seg = (k, cur) :: rest | ReturnFalse => seg = [] end /\
    forall r ev', fst (call_func call f cur ev args w) = Ok (r, ev') -> ev_keeps ev ev') as Hf.
  { intros [k|] w'; cbn [call_func].
    - destruct (call_logs k cur ev args w') as [rest E]. eexists. split; [exact E|]. split; [eauto|]. intros. by eapply call_keeps.
    - exists []. cbn. rewrite app_nil_r. split_and!; [done..|]. by intros r ev' [= <- <-]. }
  destruct h as [f|f]; [apply Hf|]. unfold call_handler, mbind, eff_bind, modify. destruct (Hf f (off_event ev w)) as (seg & E & H).
  exists seg. split; [|exact H]. rewrite E. unfold off_event. destruct (ev_handleObj ev), (delegateTarget ev); by rewrite ?user_remove.
Qed.

(** Whether a step runs its handler: the namespaces fit, and a hover event comes
    from outside. *)
Definition runs ev (p : nat * hobj) : bool :=
  match rnamespace ev with Some ns => namespace_test ns (h_namespace (snd p)) | None => true end &&
  (negb (hover (special focusin_support (h_origType (snd p)))) ||
   match relatedTarget ev with None => true | Some r => negb (r =? fst p)%nat && negb (contains (fst p) r) end).
Definition running ev (l : list (nat * hobj)) : list (nat * hobj) := filter (fun p => runs ev p = true) l.
Lemma running_same ev ev' l : ev_keeps ev ev' -> running ev' l = running ev l.
Proof. intros (E1 & E2 & _). unfold running, runs. by rewrite E1, E2. Qed.

Lemma run_handler_log o cur ev args w :
  match rnamespace ev with Some ns => namespace_test ns (h_namespace o) | None => true end = true ->
  exists segs, ulog (user (snd (run_handler call o cur ev args w))) = ulog (user w) ++ concat segs /\
    Forall2 step_log (running ev [(cur, o)]) segs /\
    forall r ev', fst (run_handler call o cur ev args w) = Ok (r, ev') -> ev_keeps ev ev'.
Proof.
  intros Hns. unfold run_handler, running. rewrite filter_cons, filter_nil. unfold runs. cbn [fst snd]. rewrite Hns. cbn [andb].
  destruct (hover _); cbn [negb orb].
  - destruct (match relatedTarget ev with None => true | Some r => _ end).
    + rewrite decide_True by done. unfold mbind, eff_bind.
      destruct (call_handler_log (h_handler o) cur (ev <| ev_type := h_origType o |>) args w) as (seg & E & Hseg & Hk).
      exists [seg]. cbn [concat]. rewrite app_nil_r, <- E. destruct (call_handler _ _ _ _ _ _) as [[[r ev1]|err] w1]; cbn in *.
      * split_and!; [done|by repeat constructor|]. intros r' ev' [= <- <-]. transitivity (ev <| ev_type := h_origType o |>); [done|].
        transitivity ev1; [by eapply Hk|done].
      * split_and!; [done|by repeat constructor|done].
    + rewrite decide_False by done. exists []. cbn. rewrite app_nil_r. split_and!; [done|constructor|]. by intros r ev' [= <- <-].
  - rewrite decide_True by done. destruct (call_handler_log (h_handler o) cur ev args w) as (seg & E & Hseg & Hk).
    exists [seg]. cbn [concat]. rewrite app_nil_r. split_and!; [done|by repeat constructor|exact Hk].
Qed.

Lemma on_original_keeps f ev : ev_keeps ev (on_original f ev).
Proof. unfold on_original. destruct (isSimulated ev); by split_and!. Qed.
Lemma after_handler_keeps (r : @retval V) ev : ev_keeps ev (after_handler r ev).
Proof.
  destruct r; cbn [after_handler]; [by split_and!| |by split_and!]. unfold stopPropagation, preventDefault.
  etransitivity; [|apply on_original_keeps]. etransitivity; [|by split_and!; cbn; try done; intros _ _].
  etransitivity; [|apply on_original_keeps]. by split_and!.
Qed.

Lemma run_matched_log cur (l : list hobj) args ev w :
  exists done rest segs, running ev (map (pair cur) l) = done ++ rest /\
    ulog (user (snd (run_matched call cur l args ev w))) = ulog (user w) ++ concat segs /\ Forall2 step_log done segs /\
    forall ev', fst (run_matched call cur l args ev w) = Ok ev' ->
      ev_keeps ev ev' /\ (isImmediatePropagationStopped ev' = false -> rest = []).
Proof.
  revert ev w. induction l as [|o l IH]; intros ev w; cbn [run_matched map].
  - exists [], [], []. cbn. rewrite app_nil_r. split_and!; [done..|constructor|]. by intros ev' [= <-].
  - destruct (isImmediatePropagationStopped ev) eqn:Himm.
    + exists [], (running ev ((cur, o) :: map (pair cur) l)), []. cbn. rewrite app_nil_r. split_and!; [done..|constructor|].
      intros ev' [= <-]. split; [done|congruence].
    + destruct (match rnamespace ev with Some ns => _ | None => true end) eqn:Hns.
      * set (ev1 := ev <| ev_handleObj := Some o |> <| ev_data := h_data o |>).
        assert (ev_keeps ev ev1) as Hk1 by done.
        destruct (run_handler_log o cur ev1 args w) as (segs & E & Hsegs & Hk); [done|].
        unfold mbind, eff_bind. rewrite (running_same ev ev1) in Hsegs by done.
        destruct (run_handler _ _ _ _ _ _) as [[[r ev2]|err] w2]; cbn in E, Hk |- *.
        -- destruct (IH (after_handler r ev2) w2) as (done & rest & segs' & E' & El & Hs & Hk').
           assert (ev_keeps ev (after_handler r ev2)) as Hkeep.
           { transitivity ev1; [done|]. transitivity ev2; [by eapply Hk|apply after_handler_keeps]. }
           exists (running ev [(cur, o)] ++ done), rest, (segs ++ segs'). split_and!.
           ++ rewrite <- app_assoc, <- E', (running_same ev (after_handler r ev2)) by done. unfold running. by rewrite <- filter_app.
           ++ by rewrite El, E, concat_app, app_assoc.
           ++ by apply Forall2_app.
           ++ intros ev' Hev'. destruct (Hk' ev' Hev') as [? ?]. split; [by transitivity (after_handler r ev2)|done].
        -- exists (running ev [(cur, o)]), (running ev (map (pair cur) l)), segs. split_and!; [|done..].
           unfold running. by rewrite <- filter_app.
      * destruct (IH ev w) as (done & rest & segs & E & El & Hs & Hk). exists done, rest, segs. split_and!; [|done..].
        rewrite <- E. unfold running. rewrite filter_cons_False; [done|]. unfold runs. cbn [snd]. by rewrite Hns.
Qed.
Lemma run_queue_stopped (q : list (nat * list hobj)) args ev w :
  isPropagationStopped ev = true -> run_queue call q args ev w = (Ok ev, w).
Proof. intros Hp. destruct q as [|[cur l] q]; [done|]. cbn [run_queue]. by rewrite Hp. Qed.

Lemma running_steps ev cur l q : running ev (steps_of ((cur, l) :: q)) = running ev (map (pair cur) l) ++ running ev (steps_of q).
Proof. unfold running, steps_of. cbn [flat_map fst snd]. by rewrite filter_app. Qed.

Lemma run_queue_log (q : list (nat * list hobj)) args ev w : flags_ok ev ->
  exists done rest segs, running ev (steps_of q) = done ++ rest /\
    ulog (user (snd (run_queue call q args ev w))) = ulog (user w) ++ concat segs /\ Forall2 step_log done segs /\
    forall ev', fst (run_queue call q args ev w) = Ok ev' ->
      (isPropagationStopped ev' = false -> rest = []) /\
      (isImmediatePropagationStopped ev' = false -> exists m, done = running ev (steps_of (take m q))).
Proof.
  revert ev w. induction q as [|[cur l] q IH]; intros ev w Hfl.
  { exists [], [], []. cbn. rewrite app_nil_r. split_and!; [done..|constructor|]. intros ev' [= <-]. split; [done|]. by exists 0%nat. }
  destruct (isPropagationStopped ev) eqn:Hprop.
  { exists [], (running ev (steps_of ((cur, l) :: q))), []. rewrite run_queue_stopped by done. cbn [concat fst snd]. rewrite app_nil_r.
    split_and!; [done..|constructor|]. intros ev' [= <-]. split; [congruence|]. by exists 0%nat. }
  cbn [run_queue]. rewrite Hprop, running_steps. set (ev1 := ev <| currentTarget := Some cur |>). assert (ev_keeps ev ev1) as Hk1 by done.
  destruct (run_matched_log cur l args ev1 w) as (done1 & rest1 & segs1 & E1 & El1 & Hs1 & Hk). rewrite (running_same ev ev1) in E1 by done.
  rewrite E1. unfold mbind, eff_bind. destruct (run_matched _ _ _ _ _ _) as [[ev2|err] w2]; cbn [fst snd] in El1, Hk |- *.
  2: { exists done1, (rest1 ++ running ev (steps_of q)), segs1. by rewrite <- app_assoc. }
  destruct (Hk ev2 eq_refl) as [Hk2 Hrest1]. assert (ev_keeps ev ev2) as Hk12 by (by transitivity ev1).
  assert (flags_ok ev2) as Hfl2 by by apply Hk12. destruct (decide (rest1 = [])) as [->|Hne].
  - destruct (IH ev2 w2 Hfl2) as (done2 & rest2 & segs2 & E2 & El2 & Hs2 & Hk'). rewrite (running_same ev ev2) in E2 by done.
    rewrite app_nil_r in *. exists (done1 ++ done2), rest2, (segs1 ++ segs2). split_and!.
    + by rewrite E2, app_assoc.
    + by rewrite El2, El1, concat_app, app_assoc.
    + by apply Forall2_app.
    + intros ev' Hev'. destruct (Hk' ev' Hev') as [Hall Hm]. split; [done|].
      intros Himm. destruct (Hm Himm) as [m ->]. exists (S m). cbn [take]. rewrite running_steps, E1. by rewrite (running_same ev ev2).
  - assert (isImmediatePropagationStopped ev2 = true) as Himm.
    { destruct (isImmediatePropagationStopped ev2) eqn:Hi; [done|]. destruct Hne. by apply Hrest1. }
    rewrite run_queue_stopped by auto. exists done1, (rest1 ++ running ev (steps_of q)), segs1. cbn [fst snd]. rewrite <- app_assoc.
    split_and!; [done..|]. intros ev' [= <-]. split; [|congruence]. intros Hp. specialize (Hfl2 Himm). congruence.
Qed.

Lemma take_nonempty m q : exists m', nonempty (take m' q) = take m (nonempty q).
Proof.
  unfold nonempty. revert m. induction q as [|p q IH]; intros m; [exists 0%nat; cbn; by rewrite take_nil|].
  rewrite filter_cons. destruct (decide (snd p <> [])) as [Hp|Hp].
  - destruct m as [|m]; [by exists 0%nat|]. destruct (IH m) as [m' Hm]. exists (S m'). cbn [take]. by rewrite filter_cons_True, Hm.
  - destruct (IH m) as [m' Hm]. exists (S m'). cbn [take]. by rewrite filter_cons_False.
Qed.

(** C25. What an event runs is settled when its dispatch begins: the handlers run
    in the order of the elements on the way from its target up to the one it is
    dispatched at, delegated ones by the element their selector matches, each
    element's in the order they were bound; the ones with other namespaces and
    hover events from inside are passed over.  Handlers that bind, unbind,
    trigger other events or change the page do not change the list.  It is cut
    short only by an exception or when a handler stops the event, and then at
    the end of an element unless it is stopped at once. *)
Theorem dispatch_order (this : nat) (ev : hevent) (args : list V) (w : hworld) (l : @handler_list K V)
    (Hl : list_for this (ev_type ev) w = Some l) (Hok : list_ok l) (Hfl : flags_ok ev)
    (Hctx : Forall context_ok (entries l)) :
  let result := dispatch call this (inr ev) args w in
  exists path, path_below this (default this (target ev)) path /\
  let q := groups this ev (take (delegateCount l) (entries l)) (drop (delegateCount l) (entries l)) path in
  exists done rest segs, running ev (steps_of q) = done ++ rest /\
    ulog (user (snd result)) = ulog (user w) ++ concat segs /\ Forall2 step_log done segs /\
    forall r ev', fst result = Ok (r, ev') ->
      (isPropagationStopped ev' = false -> rest = []) /\
      (isImmediatePropagationStopped ev' = false -> exists m, done = running ev (steps_of (take m q))).
Proof.
  intros result. destruct Hok as (_ & ds & rs & E & Ec & _). set (ev1 := ev <| delegateTarget := Some this |>).
  assert (Forall context_ok ds) as Hds by (rewrite E in Hctx; by apply Forall_app in Hctx as [? _]).
  destruct (handlers_groups this ev1 l ds rs E Ec Hds) as (path & Hpath & Hq). exists path. split; [exact Hpath|].
  rewrite E, Ec, take_app_length, drop_app_length. change (groups this ev1 ds rs path) with (groups this ev ds rs path) in Hq.
  cbv zeta. set (q := groups this ev ds rs path) in *.
  destruct (run_queue_log (nonempty q) args ev1 w Hfl) as (done & rest & segs & Ed & El & Hs & Hk).
  exists done, rest, segs. rewrite steps_of_nonempty in Ed. change (running ev1) with (running ev) in *.
  assert (ulog (user (snd result)) = ulog (user (snd (run_queue call (nonempty q) args ev1 w))) /\
    forall r ev', fst result = Ok (r, ev') -> exists ev2, fst (run_queue call (nonempty q) args ev1 w) = Ok ev2 /\
      isPropagationStopped ev' = isPropagationStopped ev2 /\ isImmediatePropagationStopped ev' = isImmediatePropagationStopped ev2) as [Hlog Hres].
  { subst result. unfold dispatch. rewrite eff_bind_get. fold ev1. rewrite Hl, Hq. unfold mbind, eff_bind.
    destruct (run_queue call (nonempty q) args ev1 w) as [[ev2|err] w2]; cbn [fst snd]; [|done]. split; [done|].
    intros r ev' [= <- <-]. exists ev2. unfold post_dispatch. destruct (unload_result _); [|done]. by destruct (ev_result ev2). }
  rewrite Hlog, El. split_and!; [done..|]. intros r ev' Hr. destruct (Hres r ev' Hr) as (ev2 & Hev2 & -> & ->).
  destruct (Hk ev2 Hev2) as [Hall Hm]. split; [done|]. intros Himm. destruct (Hm Himm) as [m ->].
  destruct (take_nonempty m q) as [m' <-]. exists m'. by rewrite steps_of_nonempty.
Qed.
End dispatch.

(** ** Examples *)

Section demo.
#[local] Existing Instance demo_dom.
Abbreviation demo_world := (@world nat nat (list (nat * nat))).
Abbreviation demo_event := (@event nat nat).

#[local] Instance demo_dom_laws : DomLaws demo_dom.
Proof. intros n p. do 5 (destruct n as [|n]; [intros [= <-] || discriminate; cbn; lia|]). discriminate. Qed.

(** Functions that log themselves; function 0 returns false. *)
Definition logging (k this : nat) (ev : demo_event) (args : list nat) : eff demo_world (@retval nat * demo_event) :=
  modify (fun w => w <| user := user w ++ [(k, this)] |>) ;;
  mret (if (k =? 0)%nat then False_ else Undefined, ev).
#[local] Instance logging_laws : UserLaws logging id.
Proof.
  split.
  - intros k this ev args w. by exists [].
  - intros k this ev args w r ev' [= <- <-]. reflexivity.
Qed.

Definition no_method (e : nat) (m : jstr) : eff demo_world unit := mret tt.
Definition plain (k : nat) : @handler nat := Plain (User k).
Definition bind_all (l : list (nat * @handler nat * option jstr)) (w : demo_world) : demo_world :=
  fold_left (fun w '(e, h, sel) => snd (add e (str "click") (inl h) None sel w)) l w.
Definition page : demo_world :=
  {| elems := fun _ => {| events := None; handle := false |}; listeners := []; focus_count := fun _ _ => 0; captures := [];
     guids := fun _ => None; next_guid := 1; global_types := []; triggered := None; inline := fun _ _ => None; user := [] |}.

(** On the list: a direct handler, one for its items, and another direct one. *)
Definition demo_page : demo_world := bind_all [(3, plain 1, None); (3, plain 2, Some (str "li")); (3, plain 0, None)]%nat page.
Definition demo_list : @handler_list nat nat := default empty_list (list_for 3 (str "click") demo_page).
Definition demo_click : demo_event := (Event_of_type (str "click")) <| target := Some 4%nat |>.

Lemma demo_context : Forall context_ok (entries demo_list).
Proof. by vm_compute; repeat constructor. Qed.
Lemma demo_list_ok : list_ok demo_list.
Proof.
  split; [vm_compute; discriminate|]. exists (take 1 (entries demo_list)), (drop 1 (entries demo_list)).
  split_and!; [by rewrite take_drop|vm_compute; reflexivity|repeat constructor|].
  vm_compute. repeat constructor; intros H; discriminate H.
Qed.

Lemma dispatch_order_witness :
  let result := dispatch logging 3 (inr demo_click) [] demo_page in
  exists path, path_below 3 (default 3%nat (target demo_click)) path /\
  let q := groups 3 demo_click (take (delegateCount demo_list) (entries demo_list)) (drop (delegateCount demo_list) (entries demo_list)) path in
  exists done rest segs, running demo_click (steps_of q) = done ++ rest /\
    id (user (snd result)) = id (user demo_page) ++ concat segs /\ Forall2 step_log done segs /\
    forall r ev', fst result = Ok (r, ev') ->
      (isPropagationStopped ev' = false -> rest = []) /\
      (isImmediatePropagationStopped ev' = false -> exists m, done = running demo_click (steps_of (take m q))).
Proof.
  apply (dispatch_order 3 demo_click [] demo_page demo_list).
  - vm_compute. reflexivity.
  - exact demo_list_ok.
  - discriminate.
  - exact demo_context.
Defined.

Example demo_runs : user (snd (dispatch logging 3 (inr demo_click) [] demo_page)) = [(2, 4); (1, 3); (0, 3)]%nat.
Proof. vm_compute. reflexivity. Qed.

Definition run_trigger (call : nat -> nat -> demo_event -> list nat -> eff demo_world (@retval nat * demo_event)) (w : demo_world) : list (nat * nat) :=
  user (snd (trigger call no_method (fun _ => None) (inl (str "click")) [] 4 false w)).

(** A triggered event goes from the element over the document to the window, and
    stops where a handler returns false. *)
Example trigger_bubbles :
  run_trigger logging (bind_all [(1, plain 5, None); (0, plain 4, None); (2, plain 3, None); (4, plain 1, None)]%nat page)
    = [(1, 4); (3, 2); (4, 0); (5, 1)]%nat.
Proof. vm_compute. reflexivity. Qed.
Example trigger_stops :
  run_trigger logging (bind_all [(0, plain 4, None); (2, plain 3, None); (2, plain 0, None); (4, plain 1, None)]%nat page)
    = [(1, 4); (3, 2); (0, 2)]%nat.
Proof. vm_compute. reflexivity. Qed.

(** A handler that triggers its own event once more: the handler that [one]
    bound behind it runs twice, for the inner event and for the outer one, whose
    list was settled before. *)
Fixpoint nesting (fuel k this : nat) (ev : demo_event) (args : list nat) : eff demo_world (@retval nat * demo_event) :=
  match fuel with
  | O => throw RangeError
  | S fuel =>
      w ← get;
      modify (fun w => w <| user := user w ++ [(k, this)] |>) ;;
      (if (k =? 7)%nat && (length (user w) =? 0)%nat
       then trigger (nesting fuel) no_method (fun _ => None) (inl (str "click")) [] 4 false ;; mret tt else mret tt) ;;
      mret (Undefined, ev)
  end.
Example one_runs_twice :
  run_trigger (nesting 3) (snd (on (fun _ => None) [4%nat] (str "click") (AFunc (User 1%nat)) ANull ANull true
    (bind_all [(4, plain 7, None)]%nat page))) = [(7, 4); (7, 4); (1, 4); (1, 4)]%nat.
Proof. vm_compute. reflexivity. Qed.
End demo.
