(* ===== verification/SizzleText.v ===== *)
(** Identifiers of selectors (Sizzle in jquery-3.2.0.js): the regular expression
    [identifier], [Sizzle.escape], and the replacement of escapes by
    [runescape] and [funescape].

    The theorem: what [escape] prints is read back as the same text. *)
From Stdlib Require Import String.
From S2P Require Import Prelude JsString.

(** ** Characters *)

(** [whitespace] *)
Definition is_ws (c : Z) : bool := (c =? 32) || (c =? 9) || (c =? 13) || (c =? 10) || (c =? 12).
(** What [.] of a regular expression does not match. *)
Definition line_end (c : Z) : bool := (c =? 10) || (c =? 13) || (c =? 8232) || (c =? 8233).
(** [\w] and [\d] *)
Definition is_dig (c : Z) : bool := (48 <=? c) && (c <=? 57).
Definition is_word (c : Z) : bool := is_dig c || ((65 <=? c) && (c <=? 90)) || ((97 <=? c) && (c <=? 122)) || (c =? 95).
(** The value of a hexadecimal digit. *)
Definition hex_value (c : Z) : option Z :=
  if is_dig c then Some (c - 48)
  else if (65 <=? c) && (c <=? 70) then Some (c - 55)
  else if (97 <=? c) && (c <=? 102) then Some (c - 87) else None.

(** ** [identifier] *)

(** A character of [[\w-]|[^\0-\xa0]]. *)
Definition ident_char (c : Z) : bool := is_word c || (c =? 45) || (160 <? c).
(** The longest match of [(?:\\.|[\w-]|[^\0-\xa0])*] at the start of a text. *)
Fixpoint ident_prefix (s : jstr) : jstr :=
  match s with
  | c :: s =>
      if c =? 92 then match s with d :: r => if line_end d then [] else c :: d :: ident_prefix r | [] => [] end
      else if ident_char c then c :: ident_prefix s else []
  | [] => []
  end.

(** ** [Sizzle.escape] *)

Definition hex_char (d : Z) : Z := if d <? 10 then 48 + d else 87 + d.
(** [ch.charCodeAt( ch.length - 1 ).toString( 16 )] for the characters escaped
    as code points, which have at most two digits. *)
Definition hex2 (c : Z) : jstr := if c <? 16 then [hex_char c] else [hex_char (c / 16); hex_char (c mod 16)].
(** [fcssescape( ch, true )] for one character, and [fcssescape( ch, false )]. *)
Definition as_code_point (c : Z) : jstr := if c =? 0 then [65533] else 92 :: hex2 c ++ [32].
Definition as_character (c : Z) : jstr := [92; c].

(** A character that is not at a special position of [rcssescape]. *)
Definition escape_char (c : Z) : jstr :=
  if (c <=? 31) || (c =? 127) then as_code_point c
  else if (127 <? c) || is_word c || (c =? 45) then [c] else as_character c.
Definition escape_rest (s : jstr) : jstr := flat_map escape_char s.

(** [( sel + "" ).replace( rcssescape, fcssescape )] *)
Definition escape (s : jstr) : jstr :=
  match s with
  | [45] => as_character 45
  | 45 :: c :: r => if is_dig c then 45 :: as_code_point c ++ escape_rest r else escape_rest s
  | c :: r => if is_dig c then as_code_point c ++ escape_rest r else escape_rest s
  | [] => []
  end.

(** ** [replace( runescape, funescape )] *)

(** [[\da-f]{1,6}]: the digits, their value and the rest; [n] digits at most. *)
Fixpoint hex_digits (n : nat) (acc : Z) (s : jstr) : nat * Z * jstr :=
  match n, s with
  | S n, c :: r =>
      match hex_value c with
      | Some v => let '(k, a, rest) := hex_digits n (16 * acc + v) r in (S k, a, rest)
      | None => (0%nat, acc, s)
      end
  | _, _ => (0%nat, acc, s)
  end.
(** [String.fromCharCode] of a code point: one code unit or a surrogate pair. *)
Definition from_code_point (cp : Z) : jstr :=
  let high := cp - 65536 in
  if high <? 0 then [cp]
  else [Z.lor (Z.shiftr high 10) 55296 mod 65536; Z.lor (Z.land high 1023) 56320 mod 65536].

Fixpoint unescape_go (fuel : nat) (s : jstr) : jstr :=
  match fuel, s with
  | S fuel, c :: r =>
      if c =? 92 then
        match hex_digits 6 0 r with
        | (S _, cp, rest) =>
            let rest := match rest with w :: rest' => if is_ws w then rest' else rest | [] => [] end in
            from_code_point cp ++ unescape_go fuel rest
        | _ =>
            match r with
            | d :: rest => if is_ws d || negb (line_end d) then d :: unescape_go fuel rest else c :: unescape_go fuel r
            | [] => [c]
            end
        end
      else c :: unescape_go fuel r
  | _, _ => []
  end.
Definition unescape (s : jstr) : jstr := unescape_go (S (length s)) s.

(** ** What [escape] prints is read back *)

Lemma hex_value_char d : 0 <= d < 16 -> hex_value (hex_char d) = Some d.
Proof.
  intros Hd. unfold hex_value, hex_char, is_dig. destruct (Z.ltb_spec d 10).
  - destruct (Z.leb_spec 48 (48 + d)), (Z.leb_spec (48 + d) 57); cbn [andb]; try lia. f_equal. lia.
  - destruct (Z.leb_spec 48 (87 + d)), (Z.leb_spec (87 + d) 57); cbn [andb]; try lia.
    destruct (Z.leb_spec 65 (87 + d)), (Z.leb_spec (87 + d) 70); cbn [andb]; try lia.
    destruct (Z.leb_spec 97 (87 + d)), (Z.leb_spec (87 + d) 102); cbn [andb]; try lia. f_equal. lia.
Qed.

Lemma unescape_code_point fuel c r : 0 < c < 256 -> unescape_go (S fuel) (as_code_point c ++ r) = c :: unescape_go fuel r.
Proof.
  intros Hc. unfold as_code_point. destruct (Z.eqb_spec c 0); [lia|]. cbn [app unescape_go]. rewrite Z.eqb_refl.
  assert (exists k, hex_digits 6 0 ((hex2 c ++ [32]) ++ r) = (S k, c, 32 :: r)) as [k ->].
  { unfold hex2. destruct (Z.ltb_spec c 16).
    - exists 0%nat. cbn [app hex_digits]. rewrite hex_value_char by lia. change (hex_value 32) with (@None Z). cbn iota beta. repeat f_equal; lia.
    - exists 1%nat. cbn [app hex_digits]. rewrite !hex_value_char by (split; [apply Z.div_pos|apply Z.div_lt_upper_bound] || apply Z.mod_pos_bound; lia).
      change (hex_value 32) with (@None Z). cbn iota beta. pose proof (Z.div_mod c 16). repeat f_equal; lia. }
  change (is_ws 32) with true. cbn iota beta. unfold from_code_point. destruct (Z.ltb_spec (c - 65536) 0); [done|lia].
Qed.

Lemma unescape_character fuel c r : hex_value c = None -> line_end c = false ->
  unescape_go (S fuel) (as_character c ++ r) = c :: unescape_go fuel r.
Proof. intros Hh Hl. cbn [as_character app unescape_go]. rewrite Z.eqb_refl. cbn [hex_digits]. rewrite Hh, Hl, orb_true_r. done. Qed.

Lemma unescape_plain fuel c r : c <> 92 -> unescape_go (S fuel) (c :: r) = c :: unescape_go fuel r.
Proof. intros Hc. cbn. destruct (Z.eqb_spec c 92); [done|reflexivity]. Qed.

Lemma escape_char_read fuel c r : 0 < c -> unescape_go (S fuel) (escape_char c ++ r) = c :: unescape_go fuel r.
Proof.
  intros Hc. unfold escape_char. destruct (_ || (c =? 127)) eqn:E1; [apply unescape_code_point; lia|].
  destruct (_ || (c =? 45)) eqn:E2.
  - apply unescape_plain. intros ->. discriminate E2.
  - unfold is_word, is_dig in E2. apply unescape_character.
    + unfold hex_value, is_dig.
      destruct (Z.leb_spec 48 c), (Z.leb_spec c 57), (Z.leb_spec 65 c), (Z.leb_spec c 90), (Z.leb_spec 97 c), (Z.leb_spec c 122); cbn [andb orb] in *; try (rewrite ?orb_true_r in E2; discriminate); try lia;
      destruct (Z.leb_spec c 70), (Z.leb_spec c 102); cbn [andb]; done || lia.
    + unfold line_end. destruct (Z.leb_spec c 31); [discriminate|]. destruct (Z.ltb_spec 127 c); [rewrite ?orb_true_r in E2; discriminate|].
      destruct (Z.eqb_spec c 10), (Z.eqb_spec c 13), (Z.eqb_spec c 8232), (Z.eqb_spec c 8233); done || lia.
Qed.

Lemma escape_char_length c : (1 <= length (escape_char c))%nat.
Proof.
  unfold escape_char, as_code_point, as_character. destruct (_ || _); [destruct (c =? 0); cbn; lia|]. destruct (_ || _); cbn; lia.
Qed.

Lemma escape_rest_read s fuel : (length s < fuel)%nat -> Forall (fun c => 0 < c) s -> unescape_go fuel (escape_rest s) = s.
Proof.
  revert fuel. induction s as [|c s IH]; intros fuel Hf Hs; [by destruct fuel|]. apply Forall_cons in Hs as [Hc Hs].
  destruct fuel as [|fuel]; [lia|]. unfold escape_rest. cbn [flat_map]. rewrite escape_char_read by done. f_equal.
  apply IH; [cbn in Hf; lia|done].
Qed.

(** The fuel of [unescape] is enough: every turn consumes a character. *)
Lemma hex_digits_rest n acc r : (length (snd (hex_digits n acc r)) <= length r)%nat.
Proof.
  revert acc r. induction n as [|n IH]; intros acc [|c r]; try done. cbn. destruct (hex_value c) as [v|]; [|cbn; lia].
  specialize (IH (16 * acc + v) r). destruct (hex_digits n _ r) as [[k a] rest]. cbn in *. lia.
Qed.
Lemma unescape_fuel fuel : forall fuel' s, (length s < fuel)%nat -> (length s < fuel')%nat -> unescape_go fuel s = unescape_go fuel' s.
Proof.
  induction fuel as [|fuel IH]; intros fuel' s Hf Hf'; [lia|]. destruct fuel' as [|fuel']; [lia|]. destruct s as [|c r]; [done|].
  cbn [length] in *. cbn [unescape_go]. destruct (c =? 92); [|by rewrite (IH fuel') by lia].
  pose proof (hex_digits_rest 6 0 r) as Hr. destruct (hex_digits 6 0 r) as [[[|k] cp] rest]; cbn [snd] in Hr.
  - destruct r as [|d r]; [done|]. cbn [length] in *. destruct (_ || _); [by rewrite (IH fuel') by lia|]. by rewrite (IH fuel') by (cbn; lia).
  - destruct rest as [|w rest]; [by rewrite (IH fuel') by (cbn; lia)|]. cbn [length] in Hr. destruct (is_ws w); by rewrite (IH fuel') by (cbn; lia).
Qed.

(** What [escapeSelector] prints for a text is read back by the engine as the
    same text, for every text without the character 0 (which it replaces). *)
Theorem escape_roundtrip (s : jstr) (Hs : Forall (fun c => 0 < c) s) : unescape (escape s) = s.
Proof.
  assert (forall s, Forall (fun c => 0 < c) s -> unescape (escape_rest s) = s) as Hrest.
  { intros s' Hs'. apply escape_rest_read; [|done]. enough (length s' <= length (escape_rest s'))%nat by lia. clear. unfold escape_rest.
    induction s' as [|c s' IH]; cbn; [lia|]. rewrite length_app. pose proof (escape_char_length c). lia. }
  assert (forall c r, Forall (fun c => 0 < c) r -> is_dig c = true -> forall p, p = [] \/ p = [45] ->
    unescape (p ++ as_code_point c ++ escape_rest r) = p ++ c :: r) as Hdig.
  { intros c r Hr Hc p Hp. unfold is_dig in Hc. apply andb_prop in Hc as [Hc1%Z.leb_le Hc2%Z.leb_le].
    assert (length r <= length (escape_rest r))%nat as Hlen.
    { clear. unfold escape_rest. induction r as [|c r IH]; cbn; [lia|]. rewrite length_app. pose proof (escape_char_length c). lia. }
    assert (length (as_code_point c) = 4%nat) as Hl4.
    { unfold as_code_point, hex2. destruct (Z.eqb_spec c 0); [lia|]. destruct (Z.ltb_spec c 16); [lia|done]. }
    unfold unescape. destruct Hp as [-> | ->]; cbn [app].
    - rewrite unescape_code_point by lia. f_equal. apply escape_rest_read; [|done]. rewrite length_app, Hl4. lia.
    - rewrite unescape_plain by done. f_equal. cbn [length]. rewrite unescape_code_point by lia. f_equal. apply escape_rest_read; [|done].
      rewrite length_app, Hl4. lia. }
  destruct s as [|c r]; [done|]. pose proof Hs as Hs'. apply Forall_cons in Hs' as [Hc Hr].
  destruct (decide (c = 45)) as [->|Hne].
  - destruct r as [|d r]; [reflexivity|]. apply Forall_cons in Hr as [Hd Hr]. cbn [escape].
    destruct (is_dig d) eqn:E; [exact (Hdig d r Hr E [45] (or_intror eq_refl))|by apply Hrest].
  - assert (escape (c :: r) = if is_dig c then as_code_point c ++ escape_rest r else escape_rest (c :: r)) as ->.
    { destruct c as [|c|c]; try reflexivity. do 6 (destruct c; try reflexivity). done. }
    destruct (is_dig c) eqn:E; [exact (Hdig c r Hr E [] (or_introl eq_refl))|by apply Hrest].
Qed.

Lemma escape_roundtrip_witness : unescape (escape (str "-5:a.b c")) = str "-5:a.b c".
Proof. apply escape_roundtrip. by repeat constructor. Defined.
