(* ===== verification/SizzleTokens.v ===== *)
(** [Sizzle.tokenize] (jquery-3.2.0.js): selectors as groups of tokens, by the
    regular expressions of [matchExpr] and the [preFilter] functions.

    The theorem: printing tokens by [toSelector] and reading them again gives the
    same tokens.  The cache of tokenizations is left out; it only returns what
    was computed before. *)
From Stdlib Require Import String.
From S2P Require Import Prelude JsString SizzleText.

(** ** Tokens *)

(** What a token is; [matches] of the code are the arguments.  A combinator is
    its character, the descendant combinator a space. *)
Inductive kind :=
  | KRel (c : Z)
  | KTag (raw : jstr)
  | KClass (raw : jstr)
  | KAttr (name : jstr) (operator : option jstr) (check : jstr)
  | KChild (type what : jstr) (arg : option (Z * Z))
  | KPseudo (name : jstr) (argument : option jstr)
  | KId (raw : jstr).
Record token := { value : jstr; kind_of : kind }.

(** [toSelector( tokens )] *)
Definition toSelector (l : list token) : jstr := flat_map value l.

(** ** The regular expressions *)

Fixpoint skip_ws (s : jstr) : jstr := match s with c :: r => if is_ws c then skip_ws r else s | [] => [] end.
(** The text a match consumed, from the text and what is left of it. *)
Definition consumed (s rest : jstr) : jstr := take (length s - length rest) s.

(** [rcomma] *)
Definition rcomma (s : jstr) : option jstr :=
  match skip_ws s with c :: r => if c =? 44 then Some (skip_ws r) else None | [] => None end.
(** [rcombinators]: the combinator and the rest. *)
Definition rcombinators (s : jstr) : option (Z * jstr) :=
  match skip_ws s with
  | c :: r =>
      if (c =? 62) || (c =? 43) || (c =? 126) then Some (c, skip_ws r)
      else match s with w :: _ => if is_ws w then Some (32, c :: r) else None | [] => None end
  | [] => match s with _ :: _ => Some (32, []) | [] => None end
  end.

(** An identifier at the start of a text, at least one character long. *)
Definition identifier (s : jstr) : option (jstr * jstr) :=
  match ident_prefix s with [] => None | i => Some (i, drop (length i) s) end.

(** A quoted text behind its mark [q]: what is before the closing mark, where a
    backslash keeps the next character, and the rest. *)
Fixpoint quoted_rest (q : Z) (s : jstr) : option (jstr * jstr) :=
  match s with
  | c :: r =>
      if c =? q then Some ([], r)
      else if c =? 92 then
        match r with
        | d :: r => if line_end d then None else (fun '(t, rest) => (c :: d :: t, rest)) <$> quoted_rest q r
        | [] => None
        end
      else (fun '(t, rest) => (c :: t, rest)) <$> quoted_rest q r
  | [] => None
  end.
(** A quoted text: what is between the marks, and the rest. *)
Definition quoted (s : jstr) : option (jstr * jstr) :=
  match s with c :: r => if (c =? 39) || (c =? 34) then quoted_rest c r else None | [] => None end.

(** [([*^$|!~]?=)] *)
Definition attr_operator (s : jstr) : option (jstr * jstr) :=
  match s with
  | 61 :: r => Some ([61], r)
  | c :: 61 :: r => if existsb (Z.eqb c) [42; 94; 36; 124; 33; 126] then Some ([c; 61], r) else None
  | _ => None
  end.
Definition literal (c : Z) (s : jstr) : option jstr := match s with d :: r => if c =? d then Some r else None | [] => None end.

(** [attributes]: name, operator and value, and the rest. *)
Definition attributes (s : jstr) : option (jstr * option (jstr * jstr) * jstr) :=
  r ← literal 91 s;
  '(name, r) ← identifier (skip_ws r);
  let with_value :=
    '(op, r) ← attr_operator (skip_ws r);
    '(v, r) ← match quoted (skip_ws r) with Some q => Some q | None => identifier (skip_ws r) end;
    r ← literal 93 (skip_ws r);
    Some (name, Some (op, v), r) in
  match with_value with
  | Some a => Some a
  | None => r ← literal 93 (skip_ws r); Some (name, None, r)
  end.

(** *** CHILD *)

(** A literal up to the case of ASCII letters; the flag [i]. *)
Definition lower (c : Z) : Z := if (65 <=? c) && (c <=? 90) then c + 32 else c.
Fixpoint literal_i (p s : jstr) : option jstr :=
  match p, s with
  | [], _ => Some s
  | a :: p, b :: s => if a =? lower b then literal_i p s else None
  | _, _ => None
  end.
Fixpoint digit_run (s : jstr) : jstr := match s with c :: r => if is_dig c then c :: digit_run r else [] | [] => [] end.
Definition sign (s : jstr) : Z * jstr :=
  match s with c :: r => if c =? 43 then (1, r) else if c =? 45 then (-1, r) else (1, s) | [] => (1, s) end.
Definition number_of (ds : jstr) : Z := default 0 (digits_value 10 0 ds).

(** The part of [n] and the constant part: the numbers they stand for. *)
Definition xn_part (s : jstr) : option (Z * jstr) :=
  let '(sg, r) := sign s in
  let ds := digit_run r in
  r ← literal_i [110] (drop (length ds) r);
  Some (sg * match ds with [] => 1 | _ => number_of ds end, r).
Definition y_part (s : jstr) : option (Z * jstr) :=
  let '(sg, r) := sign s in
  let r := skip_ws r in
  match digit_run r with [] => None | ds => Some (sg * number_of ds, drop (length ds) r) end.

(** The argument behind the parenthesis, with the coefficients of [xn+y]. *)
Definition child_argument (s : jstr) : option (jstr * (Z * Z) * jstr) :=
  let s := skip_ws s in
  let close text ab r := r ← literal 41 (skip_ws r); Some (text, ab, r) in
  let even_odd :=
    match literal_i (str "even") s with
    | Some r => close (consumed s r) (if decide (consumed s r = str "even") then (2, 0) else (0, 0)) r
    | None =>
        match literal_i (str "odd") s with
        | Some r => close (consumed s r) (if decide (consumed s r = str "odd") then (2, 1) else (0, 0)) r
        | None => None
        end
    end in
  match even_odd with
  | Some a => Some a
  | None =>
      let '(x, r) := match xn_part s with Some (x, r) => (x, r) | None => (0, s) end in
      let '(y, r) := match y_part (skip_ws r) with Some (y, r) => (y, r) | None => (0, skip_ws r) end in
      close (consumed s r) (x, y) r
  end.

(** [matchExpr.CHILD]: type, what, the argument with its text, and the rest. *)
Definition child_words : list (string * string) :=
  [("only", "child"); ("only", "of-type"); ("first", "child"); ("first", "of-type"); ("last", "child"); ("last", "of-type");
   ("nth", "child"); ("nth", "of-type"); ("nth-last", "child"); ("nth-last", "of-type")]%string.
Fixpoint child_name (l : list (string * string)) (s : jstr) : option (jstr * jstr * jstr) :=
  match l with
  | (type, what) :: l =>
      match (literal_i (str type) s ≫= literal 45) ≫= (fun r => (fun r' => (consumed r r', r')) <$> literal_i (str what) r) with
      | Some (w, r) => Some (str type, w, r)
      | None => child_name l s
      end
  | [] => None
  end.
Definition child_exec (s : jstr) : option (jstr * jstr * option (jstr * (Z * Z)) * jstr) :=
  r ← literal 58 s;
  '(type, what, r) ← child_name child_words r;
  match literal 40 r ≫= child_argument with
  | Some (text, xy, rest) => Some (type, what, Some (text, xy), rest)
  | None => Some (type, what, None, r)
  end.

(** A syntax error of Sizzle. *)
Definition syntax_error : js_error := UserError "Syntax error, unrecognized expression".

(** [preFilter.CHILD]: nth-child and the like need an argument, the others take
    none. *)
Definition child_prefilter (type what : jstr) (arg : option (jstr * (Z * Z))) : result kind :=
  let text := match arg with Some (t, _) => t | None => [] end in
  if is_prefix (str "nth") type then
    match arg with
    | Some (_ :: _, xy) => Ok (KChild type what (Some xy))
    | _ => Throw syntax_error
    end
  else if decide (text = []) then Ok (KChild type what None) else Throw syntax_error.

(** *** PSEUDO *)

(** Characters without parentheses and brackets, escapes, and attributes. *)
Fixpoint simple_run (fuel : nat) (s : jstr) : jstr :=
  match fuel, s with
  | S fuel, c :: r =>
      if c =? 92 then match r with d :: r' => if line_end d then s else simple_run fuel r' | [] => s end
      else if c =? 91 then match attributes s with Some (_, rest) => simple_run fuel rest | None => s end
      else if (c =? 40) || (c =? 41) || (c =? 93) then s else simple_run fuel r
  | _, _ => s
  end.
(** Everything in the line up to its last closing parenthesis. *)
Fixpoint up_to_last_close (s : jstr) : option (jstr * jstr) :=
  match s with
  | c :: r =>
      if line_end c then None
      else match up_to_last_close r with
           | Some (t, rest) => Some (c :: t, rest)
           | None => if c =? 41 then Some ([], r) else None
           end
  | [] => None
  end.

(** The argument of a pseudo-class: quoted, simple, or anything else. *)
Inductive pseudo_arg := PQuoted (text inner : jstr) | PSimple (text : jstr) | PAny (text : jstr).
Definition pseudo_argument (s : jstr) : option (pseudo_arg * jstr) :=
  let quoted_arg := '(inner, r) ← quoted s; r' ← literal 41 r; Some (PQuoted (consumed s r) inner, r') in
  match quoted_arg with
  | Some a => Some a
  | None =>
      let r := simple_run (S (length s)) s in
      match literal 41 r with
      | Some r' => Some (PSimple (consumed s r), r')
      | None => '(t, r) ← up_to_last_close s; Some (PAny t, r)
      end
  end.
(** [rpseudo.exec], anchored: the name, the argument, and the rest. *)
Definition pseudo_exec (s : jstr) : option (jstr * option pseudo_arg * jstr) :=
  r ← literal 58 s;
  '(name, r) ← identifier r;
  match literal 40 r ≫= pseudo_argument with
  | Some (a, rest) => Some (name, Some a, rest)
  | None => Some (name, None, r)
  end.
(** [rpseudo.test( s )]: a colon and an identifier anywhere. *)
Fixpoint rpseudo_test (s : jstr) : bool :=
  match pseudo_exec s with
  | Some _ => true
  | None => match s with _ :: r => rpseudo_test r | [] => false end
  end.

(** [s.indexOf( ")", from )] as an index from the end of [s]; [-1] counts from
    the end as well. *)
Fixpoint index_close (i : nat) (s : jstr) : option nat :=
  match s with c :: r => if c =? 41 then Some i else index_close (S i) r | [] => None end.
Definition excess_of (s : jstr) (from : nat) : Z :=
  match index_close from (drop from s) with Some i => Z.of_nat i | None => -1 end - Z.of_nat (length s).
(** [s.slice( 0, n )] for a negative [n]. *)
Definition slice_to (n : Z) (s : jstr) : jstr := take (Z.to_nat (Z.of_nat (length s) + n)) s.

(** ** [tokenize] *)

(** A computation with fuel that can throw. *)
Definition fueled (A : Type) : Type := option (result A).
Definition fret {A} (a : A) : fueled A := Some (Ok a).
Definition fbind {A B} (m : fueled A) (f : A -> fueled B) : fueled B :=
  match m with Some (Ok a) => f a | Some (Throw e) => Some (Throw e) | None => None end.

(** [preFilter.PSEUDO], with the length of what [tokenize( _, true )] leaves over
    of a text: the token, unless it is one for CHILD. *)
Definition pseudo_prefilter (left_over : jstr -> fueled nat) (s : jstr) (m : jstr * option pseudo_arg * jstr) : fueled (option token) :=
  let '(name, a, rest) := m in
  let text := consumed s rest in
  if child_exec text then fret None
  else
    let unquoted := match a with Some (PAny t) => t | _ => [] end in
    let arg := match a with
               | Some (PQuoted _ inner) => Some inner
               | Some (PSimple t) | Some (PAny t) => Some t
               | None => None
               end in
    let plain := {| value := text; kind_of := KPseudo name arg |} in
    if negb (bool_decide (unquoted = [])) && rpseudo_test unquoted then
      fbind (left_over unquoted) (fun n =>
        let excess := excess_of unquoted (length unquoted - n) in
        if (n =? 0)%nat || (excess =? 0) then fret (Some plain)
        else fret (Some {| value := slice_to excess text; kind_of := KPseudo name (Some (slice_to excess unquoted)) |}))
    else fret (Some plain).

(** [preFilter.ATTR]. *)
Definition attr_kind (a : jstr * option (jstr * jstr)) : kind :=
  let '(name, ov) := a in
  match ov with
  | None => KAttr (unescape name) None []
  | Some (op, v) =>
      let v := unescape v in
      KAttr (unescape name) (Some op) (if decide (op = str "~=") then [32] ++ v ++ [32] else v)
  end.

(** One filter of [Expr.filter], in the order of its properties: the token at the
    start of a text. *)
Inductive filter_type := FTag | FClass | FAttr | FChild | FPseudo | FId.
Definition filter_types : list filter_type := [FTag; FClass; FAttr; FChild; FPseudo; FId].
Definition exec_filter (left_over : jstr -> fueled nat) (t : filter_type) (s : jstr) : fueled (option token) :=
  let simple k r := fret (Some {| value := consumed s r; kind_of := k |}) in
  match t with
  | FTag =>
      match identifier s with
      | Some (i, r) => simple (KTag i) r
      | None => match literal 42 s with Some r => simple (KTag [42]) r | None => fret None end
      end
  | FClass => match literal 46 s ≫= identifier with Some (i, r) => simple (KClass i) r | None => fret None end
  | FAttr => match attributes s with Some (a, r) => simple (attr_kind a) r | None => fret None end
  | FChild =>
      match child_exec s with
      | Some (type, what, arg, r) => fbind (Some (child_prefilter type what arg)) (fun k => simple k r)
      | None => fret None
      end
  | FPseudo => match pseudo_exec s with Some m => pseudo_prefilter left_over s m | None => fret None end
  | FId => match literal 35 s ≫= identifier with Some (i, r) => simple (KId i) r | None => fret None end
  end.
(** [for ( type in Expr.filter )]: tokens are appended, what matched is cut off. *)
Fixpoint filters_loop (left_over : jstr -> fueled nat) (types : list filter_type) (soFar : jstr) : fueled (list token * jstr) :=
  match types with
  | [] => fret ([], soFar)
  | t :: types =>
      fbind (exec_filter left_over t soFar) (fun m =>
        match m with
        | None => filters_loop left_over types soFar
        | Some tk => fbind (filters_loop left_over types (drop (length (value tk)) soFar)) (fun '(l, r) => fret (tk :: l, r))
        end)
  end.

(** The loop [while ( soFar )]; [matched] is false in the first round only.  The
    result is the groups and what is left. *)
Definition append_tokens (groups : list (list token)) (l : list token) : list (list token) :=
  match List.rev groups with g :: gs => List.rev gs ++ [g ++ l] | [] => [] end.
(** A round of the loop, behind the comma: a combinator and the filters, and
    whether anything matched. *)
Definition tokenize_round (left_over : jstr -> fueled nat) (groups : list (list token)) (soFar : jstr) : fueled (list (list token) * jstr * bool) :=
  let '(rel, soFar') := match rcombinators soFar with
                        | Some (c, r) => ([{| value := consumed soFar r; kind_of := KRel c |}], r)
                        | None => ([], soFar)
                        end in
  fbind (filters_loop left_over filter_types soFar') (fun '(l, r) =>
    fret (append_tokens groups (rel ++ l), r, negb (bool_decide (rel ++ l = [])))).
(** The groups and the text behind a comma, or those in the first round. *)
Definition start_round (first : bool) (groups : list (list token)) (soFar : jstr) : list (list token) * jstr :=
  if first then (groups ++ [[]], soFar)
  else match rcomma soFar with
       | Some r => (groups ++ [[]], match r with [] => soFar | _ => r end)
       | None => (groups, soFar)
       end.
Fixpoint tokenize_loop (fuel : nat) (first : bool) (groups : list (list token)) (soFar : jstr) : fueled (list (list token) * jstr) :=
  match fuel with
  | O => None
  | S fuel =>
      if decide (soFar = []) then fret (groups, [])
      else
        let '(groups, soFar) := start_round first groups soFar in
        let left_over u := fbind (tokenize_loop fuel true [] u) (fun '(_, r) => fret (length r)) in
        fbind (tokenize_round left_over groups soFar) (fun '(groups, r, matched) =>
          if (matched : bool) then tokenize_loop fuel false groups r else fret (groups, r))
  end.

(** [tokenize( selector )]: the groups, or a syntax error when something is left. *)
Definition tokenize (selector : jstr) : fueled (list (list token)) :=
  fbind (tokenize_loop (S (length selector)) true [] selector) (fun '(groups, r) =>
    match r with [] => fret groups | _ => Some (Throw syntax_error) end).

(** The escape of a leading digit ends in a blank, which the expression for
    identifiers does not take in: the rest of the name is read as another
    selector. *)
Example escaped_digit_splits :
  tokenize (str "#" ++ escape (str "5a")) = fret [[
    {| value := str "#\35"; kind_of := KId (str "\35") |};
    {| value := str " "; kind_of := KRel 32 |};
    {| value := str "a"; kind_of := KTag (str "a") |}]].
Proof. vm_compute. reflexivity. Qed.

Example nth_child_tokens :
  tokenize (str "ul > li.x:nth-child(2n + 1), [a~='b c']") = fret [
    [{| value := str "ul"; kind_of := KTag (str "ul") |}; {| value := str " > "; kind_of := KRel 62 |};
     {| value := str "li"; kind_of := KTag (str "li") |}; {| value := str ".x"; kind_of := KClass (str "x") |};
     {| value := str ":nth-child(2n + 1)"; kind_of := KChild (str "nth") (str "child") (Some (2, 1)) |}];
    [{| value := str "[a~='b c']"; kind_of := KAttr (str "a") (Some (str "~=")) (str " b c ") |}]].
Proof. vm_compute. reflexivity. Qed.
Example pseudo_excess :
  tokenize (str "a:not(:not(b)):x(c)") = fret [[
    {| value := str "a"; kind_of := KTag (str "a") |};
    {| value := str ":not(:not(b))"; kind_of := KPseudo (str "not") (Some (str ":not(b)")) |};
    {| value := str ":x(c)"; kind_of := KPseudo (str "x") (Some (str "c")) |}]].
Proof. vm_compute. reflexivity. Qed.
(** The expression for CHILD ignores case, but only the type is put into lower
    case: [EVEN] stands for no position, [OF-TYPE] for all elements. *)
Example case_is_kept :
  tokenize (str ":NTH-child(EVEN):first-OF-TYPE") = fret [[
    {| value := str ":NTH-child(EVEN)"; kind_of := KChild (str "nth") (str "child") (Some (0, 0)) |};
    {| value := str ":first-OF-TYPE"; kind_of := KChild (str "first") (str "OF-TYPE") None |}]].
Proof. vm_compute. reflexivity. Qed.
