(* ===== verification/SizzleDom.v ===== *)
(** The tree of nodes that the selector engine (Sizzle in jquery-3.2.0.js) walks:
    what it reads of the browser, as a class, and the documented laws of the
    DOM, as another.

    A node is its position in document order, so that a parent and a preceding
    sibling have smaller numbers. *)
From Stdlib Require Import String Sorted.
From S2P Require Import Prelude JsString.

(** ** What is read of the browser *)

Class Tree := {
  document : nat;
  nodeType : nat -> Z;
  nodeName : nat -> jstr;
  toLowerCase : jstr -> jstr;
  parentNode : nat -> option nat;
  previousSibling : nat -> option nat;
  nextSibling : nat -> option nat;
  firstChild : nat -> option nat;
  lastChild : nat -> option nat;
  childNodes : nat -> list nat;
  getAttribute : nat -> jstr -> option jstr;
  (** the text [elem.className], or the attribute class, or nothing *)
  className : nat -> jstr;
  getElementsByTagName : jstr -> nat -> list nat;
  getElementsByClassName : jstr -> nat -> list nat;
  getElementById : jstr -> option nat;
}.

(** The properties [dir] of nodes, by which matchers walk. *)
Inductive direction := ParentNode | PreviousSibling | NextSibling.
#[export] Instance direction_eq_dec : EqDecision direction.
Proof. solve_decision. Defined.
#[export] Instance direction_countable : Countable direction.
Proof.
  refine (inj_countable' (fun d => match d with ParentNode => 0%nat | PreviousSibling => 1%nat | NextSibling => 2%nat end)
    (fun n => match n with 0%nat => ParentNode | 1%nat => PreviousSibling | _ => NextSibling end) _). by intros [].
Defined.

Definition follow `{Tree} (d : direction) (e : nat) : option nat :=
  match d with ParentNode => parentNode e | PreviousSibling => previousSibling e | NextSibling => nextSibling e end.
Definition is_element `{Tree} (e : nat) : bool := nodeType e =? 1.

(** The nodes that [while ( (elem = elem[ dir ]) )] visits, and so the ancestors
    and the preceding siblings, the nearest first. *)
Fixpoint axis_go `{Tree} (fuel : nat) (d : direction) (e : nat) : list nat :=
  match fuel with
  | O => []
  | S fuel => match follow d e with Some e' => e' :: axis_go fuel d e' | None => [] end
  end.
Definition axis `{Tree} (d : direction) (e : nat) : list nat := axis_go e d e.

(** ** Laws of the DOM *)

Class TreeLaws (T : Tree) := {
  parent_children p e : e ∈ childNodes p <-> parentNode e = Some p;
  parent_before e p : parentNode e = Some p -> (p < e)%nat;
  children_sorted p : StronglySorted lt (childNodes p);
  first_child p : firstChild p = head (childNodes p);
  last_child p : lastChild p = last (childNodes p);
  next_sibling p i e : childNodes p !! i = Some e -> nextSibling e = childNodes p !! S i;
  previous_sibling p i e : childNodes p !! i = Some e ->
    previousSibling e = match i with O => None | S i => childNodes p !! i end;
  no_sibling e : parentNode e = None -> nextSibling e = None /\ previousSibling e = None;
  document_root : parentNode document = None /\ nodeType document <> 1;
}.

Section laws.
Context {T : Tree} {L : TreeLaws T}.

Lemma child_index e p : parentNode e = Some p -> exists i, childNodes p !! i = Some e.
Proof. intros He. by apply list_elem_of_lookup, parent_children. Qed.

Lemma child_order p i j a b : childNodes p !! i = Some a -> childNodes p !! j = Some b -> (i < j)%nat -> (a < b)%nat.
Proof.
  intros Ha Hb Hij. pose proof (children_sorted p) as Hs. revert i j Ha Hb Hij.
  induction Hs as [|x l Hl IH Hx]; intros i j Ha Hb Hij; [done|]. destruct j as [|j]; [lia|]. cbn in Hb. destruct i as [|i].
  - injection Ha as ->. rewrite Forall_forall in Hx. apply Hx. by eapply list_elem_of_lookup_2.
  - apply (IH i j); [done|done|lia].
Qed.

Lemma children_nodup p : NoDup (childNodes p).
Proof.
  apply NoDup_alt. intros i j x Hi Hj. destruct (lt_eq_lt_dec i j) as [[Hij|]|Hij]; [|done|].
  - pose proof (child_order p i j x x Hi Hj Hij). lia.
  - pose proof (child_order p j i x x Hj Hi Hij). lia.
Qed.

(** Upwards and backwards the numbers fall. *)
Lemma follow_before d e e' : d <> NextSibling -> follow d e = Some e' -> (e' < e)%nat.
Proof.
  intros Hd. destruct d; [apply parent_before| |done]. cbn. intros He. destruct (parentNode e) as [p|] eqn:Hp.
  - apply child_index in Hp as [i Hi]. rewrite (previous_sibling p i e Hi) in He. destruct i as [|i]; [done|].
    apply (child_order p i (S i)); [done|done|lia].
  - apply no_sibling in Hp as [_ Hp]. congruence.
Qed.

Lemma axis_fuel d fuel fuel' e : d <> NextSibling -> (e <= fuel)%nat -> (e <= fuel')%nat -> axis_go fuel d e = axis_go fuel' d e.
Proof.
  intros Hd. revert fuel' e. induction fuel as [|fuel IH]; intros fuel' e Hf Hf'.
  - destruct fuel' as [|fuel']; [done|]. cbn. destruct (follow d e) as [e'|] eqn:He; [|done]. apply follow_before in He; [lia|done].
  - destruct fuel' as [|fuel']; cbn; destruct (follow d e) as [e'|] eqn:He; try done; apply follow_before in He; try done; [lia|].
    f_equal. apply IH; lia.
Qed.

Lemma axis_unfold d e : d <> NextSibling -> axis d e = match follow d e with Some e' => e' :: axis d e' | None => [] end.
Proof.
  intros Hd. unfold axis. destruct e as [|e]; cbn [axis_go].
  - destruct (follow d 0) as [e'|] eqn:He; [|done]. apply follow_before in He; [lia|done].
  - destruct (follow d (S e)) as [e'|] eqn:He; [|done]. f_equal. apply axis_fuel; [done| |done]. apply follow_before in He; [lia|done].
Qed.
End laws.
