(* ===== verification/SizzleFilters.v ===== *)
(** [Expr.filter] of the selector engine (Sizzle in jquery-3.2.0.js): the tests
    TAG, CLASS, ATTR, CHILD, PSEUDO and ID of one element, and the indexes of
    children that CHILD keeps. *)
From Stdlib Require Import String.
From S2P Require Import Prelude JsString ClassNames SizzleText SizzleTokens SizzleDom.

(** ** Tables that programs extend *)

(** A function of [Expr.pseudos] or what it makes: a test of elements, or one of
    positions, which is marked by [expando]. *)
Inductive pseudo_test := ElementTest (test : nat -> bool) | PositionTest.
Inductive pseudo_fn :=
  | Creator (make : option jstr -> result pseudo_test)
  | Direct (test : nat -> bool)
  | WithArguments (test : nat -> jstr * option jstr -> bool).

Class Tables := {
  (** [Expr.attrHandle]: the inner option is [undefined] or a value *)
  attrHandle : jstr -> option (nat -> jstr -> bool -> option (option jstr));
  (** [Expr.pseudos] *)
  pseudos : jstr -> option pseudo_fn;
  (** [RegExp.test] for class names with escaped letters and digits *)
  class_regexp : jstr -> jstr -> bool;
}.

(** ** What is kept between the tests

    The arrays that [addCombinator] stores in the [expando] of elements, which
    several elements share, and those of CHILD. *)
Record memo := {
  arrays : gmap nat (Z * nat * option bool);         (* [ dirruns, doneName, result ] *)
  next_array : nat;
  combinator_cache : gmap (nat * (direction + jstr)) nat;
  nth_cache : gmap (nat * jstr) (list Z);            (* [ dirruns, nodeIndex, diff ] or [ dirruns, diff ] *)
  dirruns : Z;
}.
#[export] Instance eta_memo : Eta memo := fun s =>
  {| arrays := arrays s; next_array := next_array s; combinator_cache := combinator_cache s; nth_cache := nth_cache s; dirruns := dirruns s |}.

Section filters.
Context {T : Tree} {X : Tables}.

(** ** TAG, CLASS, ATTR and ID *)

Definition TAG (nodeNameSelector : jstr) (elem : nat) : bool :=
  if decide (nodeNameSelector = [42]) then true
  else negb (bool_decide (nodeName elem = [])) &&
       bool_decide (toLowerCase (nodeName elem) = toLowerCase (unescape nodeNameSelector)).

(** The text that a class name stands for as a part of a regular expression; no
    escape of a letter or digit is one of these. *)
Fixpoint class_literal (raw : jstr) : option jstr :=
  match raw with
  | c :: r =>
      if c =? 92 then match r with d :: r => if is_word d then None else cons d <$> class_literal r | [] => None end
      else cons c <$> class_literal r
  | [] => Some []
  end.
(** The rest of the pattern [(^|whitespace) className (whitespace|$)]: [start] says
    whether the first alternative has matched just before. *)
Fixpoint class_search (p text : jstr) (start : bool) : bool :=
  (start && is_prefix p text && match drop (length p) text with c :: _ => is_ws c | [] => true end) ||
  match text with c :: r => class_search p r (is_ws c) | [] => false end.
Definition CLASS (raw : jstr) (elem : nat) : bool :=
  match class_literal raw with
  | Some p => class_search p (className elem) true
  | None => class_regexp raw (className elem)
  end.

(** [result.replace( rwhitespace, " " )] *)
Fixpoint collapse (s : jstr) : jstr :=
  match s with
  | c :: r => if is_ws c then 32 :: match r with d :: _ => if is_ws d then tl (collapse r) else collapse r | [] => [] end
              else c :: collapse r
  | [] => []
  end.
Definition includes (p s : jstr) : bool := match ClassNames.indexOf p s with Some _ => true | None => false end.

(** [Sizzle.attr( elem, name )] with [support.attributes] *)
Definition attr (xml : bool) (elem : nat) (name : jstr) : option jstr :=
  match (fun fn => fn elem name xml) <$> attrHandle (toLowerCase name) with
  | Some (Some v) => v
  | _ => getAttribute elem name
  end.
Definition attr_test (operator check result : jstr) : bool :=
  if decide (operator = str "=") then bool_decide (result = check)
  else if decide (operator = str "!=") then negb (bool_decide (result = check))
  else if decide (operator = str "^=") then negb (bool_decide (check = [])) && is_prefix check result
  else if decide (operator = str "*=") then negb (bool_decide (check = [])) && includes check result
  else if decide (operator = str "$=") then
    negb (bool_decide (check = [])) && bool_decide (drop (length result - length check) result = check)
  else if decide (operator = str "~=") then includes check ([32] ++ collapse result ++ [32])
  else if decide (operator = str "|=") then
    bool_decide (result = check) || bool_decide (take (length check + 1) result = check ++ [45])
  else false.
Definition ATTR (name : jstr) (operator : option jstr) (check : jstr) (xml : bool) (elem : nat) : bool :=
  match attr xml elem name with
  | None => bool_decide (operator = Some (str "!="))
  | Some result => match operator with None => true | Some op => attr_test op check result end
  end.

Definition ID (raw : jstr) (elem : nat) : bool := bool_decide (getAttribute elem (str "id") = Some (unescape raw)).

(** ** CHILD *)

(** [while ( (node = node[ dir ]) )] over siblings: whether one of them counts. *)
Fixpoint sibling_counts (fuel : nat) (dir : direction) (counts : nat -> bool) (node : nat) : bool :=
  match fuel with
  | O => false
  | S fuel => match follow dir node with Some node => counts node || sibling_counts fuel dir counts node | None => false end
  end.
(** :(first|last|only)-(child|of-type): [while ( dir )] goes round a second time
    for [only]. *)
Definition simple_child (type : jstr) (forward : bool) (counts : nat -> bool) (siblings elem : nat) : bool :=
  let dir := if forward then PreviousSibling else NextSibling in
  if sibling_counts siblings dir counts elem then false
  else if decide (type = str "only") then negb (sibling_counts siblings NextSibling counts elem) else true.

(** The loop that seeks [elem] by [dir], from the node of the cache or from the
    start.  [visit] says what is done at a node that counts; [fuel] is the number
    of nodes it can visit.  The result is [nodeIndex] and [diff]. *)
Fixpoint seek (fuel : nat) (dir : direction) (counts : nat -> bool) (visit : nat -> Z -> Z -> memo -> memo) (elem : nat)
    (node start : option nat) (nodeIndex diff : Z) (s : memo) : Z * memo :=
  match fuel with
  | O => (diff, s)
  | S fuel =>
      let '(next, start, nodeIndex, diff) :=
        match node ≫= follow dir with
        | Some n => (Some n, start, nodeIndex + 1, diff)
        | None => (start, None, 0, 0)
        end in
      match next with
      | None => (diff, s)
      | Some n =>
          if counts n then
            let s := visit n nodeIndex (diff + 1) s in
            if (n =? elem)%nat then (diff + 1, s) else seek fuel dir counts visit elem (Some n) start nodeIndex (diff + 1) s
          else seek fuel dir counts visit elem (Some n) start nodeIndex diff s
      end
  end.

(** [uniqueCache[ type ] = ...] *)
Definition keep_index (node : nat) (type : jstr) (entry : list Z) (s : memo) : memo :=
  s <| nth_cache := <[(node, type) := entry]> (nth_cache s) |>.
(** [cache[ 0 ] === dirruns && cache[ 1 ]]; [None] is [false]. *)
Definition cached_index (node : nat) (type : jstr) (s : memo) : option (Z * list Z) :=
  match nth_cache s !! (node, type) with
  | Some (d :: i :: rest) => if d =? dirruns s then Some (i, rest) else None
  | _ => None
  end.

(** The index of [elem] among the children of [parent] that count.  Looking into
    the cache of [elem] leaves [elem] in the variable from which the loop goes on,
    so that for :nth-last-child without an index it visits the siblings before
    [elem] first. *)
Definition child_index_of (type : jstr) (forward useCache : bool) (counts : nat -> bool) (parent elem : nat) (s : memo) : Z * memo :=
  let fuel := S (2 * length (childNodes parent)) in
  if forward && useCache then
    let '(node, nodeIndex, diff) :=
      match cached_index parent type s with
      | Some (i, rest) => if i =? 0 then (None, 0, 0) else (childNodes parent !! Z.to_nat i, i, default 0 (head rest))
      | None => (None, 0, 0)
      end in
    let visit n i d s := if (n =? elem)%nat then keep_index parent type [dirruns s; i; d] s else s in
    seek fuel NextSibling counts visit elem node (firstChild parent) nodeIndex diff s
  else
    match (if useCache then cached_index elem type s else None) with
    | Some (diff, _) => (diff, s)
    | None =>
        let visit n (i : Z) d s := if useCache then keep_index n type [dirruns s; d] s else s in
        let '(dir, start) := if forward then (NextSibling, firstChild parent) else (PreviousSibling, lastChild parent) in
        seek fuel dir counts visit elem (if useCache then Some elem else None) start 0 0 s
    end.

(** [diff === first || ( diff % first === 0 && diff / first >= 0 )] behind
    [diff -= last]; a remainder by zero is not a number. *)
Definition in_cycle (first last diff : Z) : bool :=
  let diff := diff - last in
  (diff =? first) || (negb (first =? 0) && (Z.rem diff first =? 0) && (0 <=? Z.quot diff first)).

Definition is_suffix (p s : jstr) : bool := bool_decide (drop (length s - length p) s = p).

Definition CHILD (type what : jstr) (arg : option (Z * Z)) (xml : bool) (elem : nat) (s : memo) : bool * memo :=
  let simple := negb (is_prefix (str "nth") type) in
  let forward := negb (is_suffix (str "last") type) in
  let ofType := bool_decide (what = str "of-type") in
  if decide (arg = Some (1, 0)) then (bool_decide (is_Some (parentNode elem)), s)
  else match parentNode elem with
       | None => (false, s)
       | Some parent =>
           let name := toLowerCase (nodeName elem) in
           let counts n := if ofType then bool_decide (toLowerCase (nodeName n) = name) else is_element n in
           if simple then (simple_child type forward counts (length (childNodes parent)) elem, s)
           else
             let useCache := negb xml && negb ofType in
             let '(diff, s) := child_index_of type forward useCache counts parent elem s in
             let '(first, last) := default (0, 0) arg in
             (in_cycle first last diff, s)
       end.

(** ** PSEUDO *)

(** [Expr.filter.PSEUDO]; [Expr.setFilters] inherits from [Expr.pseudos]. *)
Definition PSEUDO (pseudo : jstr) (argument : option jstr) : result pseudo_test :=
  match (match pseudos pseudo with Some f => Some f | None => pseudos (toLowerCase pseudo) end) with
  | None => Throw (UserError "Syntax error, unrecognized expression: unsupported pseudo")
  | Some (Creator make) => make argument
  | Some (Direct test) => Ok (ElementTest test)
  | Some (WithArguments test) => Ok (ElementTest (fun elem => test elem (pseudo, argument)))
  end.
End filters.
