(* ===== verification/SizzleChild.v ===== *)
(** CHILD of the selector engine: the indexes it keeps on parents are right, and so
    are its answers; those it keeps on elements for :nth-last-child need not be. *)
From Stdlib Require Import String.
From S2P Require Import Prelude JsString ClassNames SizzleText SizzleTokens SizzleDom SizzleFilters.

(** ** Cycles *)

(** [xn+y] for some [n]. *)
Lemma in_cycle_spec first last pos :
  in_cycle first last pos = true <-> exists n, 0 <= n /\ pos = first * n + last.
Proof.
  unfold in_cycle. rewrite orb_true_iff, !andb_true_iff, negb_true_iff, !Z.eqb_eq, Z.eqb_neq, Z.leb_le. split.
  - intros [He|[[Hf Hr] Hq]].
    + destruct (decide (first = 0)); [exists 0|exists 1]; lia.
    + exists (Z.quot (pos - last) first). split; [done|]. pose proof (Z.quot_rem' (pos - last) first). lia.
  - intros (n & Hn & ->). replace (first * n + last - last) with (n * first) by lia.
    destruct (decide (first = 0)) as [->|Hf]; [left; lia|]. right. rewrite Z.rem_mul, Z.quot_mul by done. done.
Qed.

(** ** Positions *)

(** How many of the first [k] nodes count. *)
Definition number (counts : nat -> bool) (l : list nat) (k : nat) : Z := Z.of_nat (length (filter (fun n => counts n = true) (take k l))).
(** The position of a node among those that count, from 1. *)
Fixpoint position (counts : nat -> bool) (l : list nat) (e : nat) : Z :=
  match l with
  | [] => 0
  | n :: l => (if counts n then 1 else 0) + if (n =? e)%nat then 0 else position counts l e
  end.

Lemma number_step counts l k n : l !! k = Some n -> number counts l (S k) = number counts l k + if counts n then 1 else 0.
Proof.
  intros Hn. unfold number. rewrite (take_S_r l k n) by done. rewrite filter_app, length_app.
  destruct (counts n) eqn:E; [rewrite filter_cons_True by done|rewrite filter_cons_False by congruence]; rewrite filter_nil; cbn [length]; lia.
Qed.

Lemma position_number counts l e t : NoDup l -> l !! t = Some e -> position counts l e = number counts l (S t).
Proof.
  revert t. induction l as [|n l IH]; intros t Hnd Ht; [done|]. apply NoDup_cons in Hnd as [Hn Hnd]. cbn [position].
  destruct t as [|t].
  - injection Ht as ->. rewrite Nat.eqb_refl. rewrite (number_step counts _ 0 e) by done. unfold number. cbn. lia.
  - cbn [lookup list_lookup] in Ht. destruct (Nat.eqb_spec n e) as [->|]; [by destruct Hn; eapply list_elem_of_lookup_2|]. rewrite (IH t) by done. unfold number. cbn [take].
    destruct (counts n) eqn:E; [rewrite filter_cons_True by done|rewrite filter_cons_False by congruence]; cbn [length]; lia.
Qed.

Section child.
Context {T : Tree} {L : TreeLaws T} {X : Tables}.

(** ** The loop [seek] *)

Section seek.
Context (l : list nat) (dir : direction) (counts : nat -> bool) (visit : nat -> Z -> Z -> memo -> memo) (elem : nat) (t : nat) (I : memo -> Prop).
Context (Hnd : NoDup l) (Hdir : forall i x, l !! i = Some x -> follow dir x = l !! S i).
Context (Ht : l !! t = Some elem) (Hcounts : counts elem = true).
Context (Hvisit : forall n i s, l !! i = Some n -> counts n = true -> I s -> I (visit n (Z.of_nat i) (number counts l (S i)) s)).
Abbreviation found r := (fst r = number counts l (S t) /\ I (snd r)).

(** A node is visited; then the search goes on or is over. *)
Lemma seek_visit fuel i n (start : option nat) s : l !! i = Some n -> I s ->
  (forall s', I s' -> n <> elem -> found (seek fuel dir counts visit elem (Some n) start (Z.of_nat i) (number counts l (S i)) s')) ->
  found (if counts n then
           let s := visit n (Z.of_nat i) (number counts l i + 1) s in
           if (n =? elem)%nat then (number counts l i + 1, s)
           else seek fuel dir counts visit elem (Some n) start (Z.of_nat i) (number counts l i + 1) s
         else seek fuel dir counts visit elem (Some n) start (Z.of_nat i) (number counts l i) s).
Proof.
  intros Hi Hs Hgo. pose proof (number_step counts l i n Hi) as Hnum. destruct (counts n) eqn:Hc.
  - rewrite <- Hnum. cbv zeta. pose proof (Hvisit n i s Hi Hc Hs) as Hv. destruct (Nat.eqb_spec n elem) as [->|Hne].
    + assert (i = t) as -> by (by eapply NoDup_lookup). done.
    + by apply Hgo.
  - rewrite Z.add_0_r in Hnum. rewrite <- Hnum. apply Hgo; [done|]. intros ->. congruence.
Qed.

Lemma seek_on fuel j x start s : (j < t)%nat -> (t - j <= fuel)%nat -> l !! j = Some x -> I s ->
  found (seek fuel dir counts visit elem (Some x) start (Z.of_nat j) (number counts l (S j)) s).
Proof.
  revert j x s. induction fuel as [|fuel IH]; intros j x s Hj Hf Hx Hs; [lia|]. cbn [seek mbind option_bind].
  rewrite (Hdir j x Hx). destruct (l !! S j) as [n|] eqn:Hn; [|apply lookup_ge_None in Hn; apply lookup_lt_Some in Ht; lia].
  replace (Z.of_nat j + 1) with (Z.of_nat (S j)) by lia. apply seek_visit; [done|done|]. intros s' Hs' Hne.
  apply IH; [|lia|done|done]. destruct (decide (S j = t)) as [<-|]; [congruence|lia].
Qed.

Lemma seek_start fuel s node nodeIndex diff : (S t <= fuel)%nat -> (node ≫= follow dir) = None -> I s ->
  found (seek fuel dir counts visit elem node (head l) nodeIndex diff s).
Proof.
  intros Hf Hnone Hs. destruct fuel as [|fuel]; [lia|]. cbn [seek]. rewrite Hnone.
  assert (head l = l !! 0%nat) as -> by (by destruct l).
  destruct (l !! 0%nat) as [n|] eqn:Hn; [|apply lookup_ge_None in Hn; apply lookup_lt_Some in Ht; lia].
  pose proof (fun H => seek_visit fuel 0 n None s Hn Hs H) as Hv. apply Hv; intros s' Hs' Hne.
  apply seek_on; [|lia|done|done]. destruct t as [|t']; [congruence|lia].
Qed.

Lemma seek_wrap fuel j x s : (length l - j + S t <= fuel)%nat -> l !! j = Some x -> I s ->
  found (seek fuel dir counts visit elem (Some x) (head l) (Z.of_nat j) (number counts l (S j)) s).
Proof.
  revert j x s. induction fuel as [|fuel IH]; intros j x s Hf Hx Hs; [lia|]. pose proof (lookup_lt_Some _ _ _ Hx).
  destruct (l !! S j) as [n|] eqn:Hn.
  - cbn [seek mbind option_bind]. rewrite (Hdir j x Hx), Hn. replace (Z.of_nat j + 1) with (Z.of_nat (S j)) by lia.
    apply seek_visit; [done|done|]. intros s' Hs' _. apply IH; [lia|done|done].
  - apply seek_start; [lia| |done]. cbn. by rewrite (Hdir j x Hx).
Qed.

(** The search starts behind [elem]: it visits the rest with numbers that mean
    nothing, and starts again. *)
Lemma seek_behind fuel j x nodeIndex diff s : (t <= j)%nat -> l !! j = Some x -> (length l - j + S t <= fuel)%nat ->
  (forall n i d s, n <> elem -> I s -> I (visit n i d s)) -> I s ->
  found (seek fuel dir counts visit elem (Some x) (head l) nodeIndex diff s).
Proof.
  revert j x nodeIndex diff s. induction fuel as [|fuel IH]; intros j x nodeIndex diff s Hj Hx Hf Hw Hs; [lia|]. pose proof (lookup_lt_Some _ _ _ Hx).
  destruct (l !! S j) as [n|] eqn:Hn.
  - cbn [seek mbind option_bind]. rewrite (Hdir j x Hx), Hn.
    assert (n <> elem) as Hne by (intros ->; pose proof (NoDup_lookup _ _ _ _ Hnd Hn Ht); lia).
    destruct (counts n); [|by apply (IH (S j)); [lia|done|lia|..]]. cbv zeta. destruct (Nat.eqb_spec n elem); [done|].
    apply (IH (S j)); [lia|done|lia|done|by apply Hw].
  - apply seek_start; [lia| |done]. cbn. by rewrite (Hdir j x Hx).
Qed.
End seek.

(** ** The children of a parent in a direction *)

Definition line (dir : direction) (p : nat) : list nat :=
  match dir with PreviousSibling => reverse (childNodes p) | _ => childNodes p end.

Lemma line_nodup dir p : NoDup (line dir p).
Proof. destruct dir; cbn; rewrite ?reverse_Permutation; apply children_nodup. Qed.
Lemma line_length dir p : length (line dir p) = length (childNodes p).
Proof. destruct dir; cbn; by rewrite ?length_reverse. Qed.
Lemma line_follow dir p i x : dir <> ParentNode -> line dir p !! i = Some x -> follow dir x = line dir p !! S i.
Proof.
  intros Hd Hx. destruct dir; [done| |by apply next_sibling]. cbn in *. apply reverse_lookup_Some in Hx as [Hx Hi].
  rewrite (previous_sibling p _ x Hx). destruct (length (childNodes p) - S i)%nat as [|j] eqn:Hj.
  - symmetry. apply lookup_ge_None. rewrite length_reverse. lia.
  - rewrite reverse_lookup by lia. f_equal. lia.
Qed.
Lemma line_index dir p e : parentNode e = Some p -> exists i, line dir p !! i = Some e.
Proof. intros He. apply list_elem_of_lookup. destruct dir; cbn; rewrite ?elem_of_reverse; by apply parent_children. Qed.

(** ** Simple children *)

Lemma sibling_counts_spec dir p counts i x fuel : dir <> ParentNode -> line dir p !! i = Some x -> (length (childNodes p) - i <= fuel)%nat ->
  sibling_counts fuel dir counts x = existsb counts (drop (S i) (line dir p)).
Proof.
  intros Hd. revert i x. induction fuel as [|fuel IH]; intros i x Hx Hf.
  - apply lookup_lt_Some in Hx. rewrite line_length in Hx. lia.
  - cbn [sibling_counts]. rewrite (line_follow dir p i x) by done. destruct (line dir p !! S i) as [n|] eqn:Hn.
    + rewrite (drop_S _ n (S i)) by done. cbn [existsb]. f_equal. apply IH; [done|lia].
    + by rewrite drop_ge by (by apply lookup_ge_None).
Qed.

Lemma number_zero counts l k : number counts l k = 0 <-> existsb counts (take k l) = false.
Proof.
  unfold number. generalize (take k l). clear. intros l. induction l as [|n l IH]; [done|]. cbn [existsb].
  destruct (counts n) eqn:E; [rewrite filter_cons_True by done|rewrite filter_cons_False by congruence]; cbn [length orb]; [split; [lia|done]|done].
Qed.

Definition opposite (dir : direction) : direction := match dir with PreviousSibling => NextSibling | _ => PreviousSibling end.

(** Nothing counts in a direction: the node is the first from the other side. *)
Lemma no_sibling_counts dir p counts e fuel : dir <> ParentNode -> parentNode e = Some p -> counts e = true -> (length (childNodes p) <= fuel)%nat ->
  sibling_counts fuel dir counts e = negb (position counts (line (opposite dir) p) e =? 1).
Proof.
  intros Hd He Hc Hf. destruct (line_index dir p e He) as [i Hi]. rewrite (sibling_counts_spec dir p counts i e) by (done || lia).
  assert (line (opposite dir) p = reverse (line dir p)) as Hop by (destruct dir; [done|symmetry; apply reverse_involutive|done]).
  pose proof (lookup_lt_Some _ _ _ Hi) as Hlt. set (l := line dir p) in *. rewrite Hop.
  rewrite (position_number counts (reverse l) e (length l - S i)).
  - rewrite (number_step counts (reverse l) _ e), Hc.
    + assert (existsb counts (take (length l - S i) (reverse l)) = existsb counts (drop (S i) l)) as E.
      { rewrite take_reverse. replace (length l - (length l - S i))%nat with (S i) by lia. generalize (drop (S i) l). clear. intros l.
        apply eq_true_iff_eq. rewrite !existsb_exists. by setoid_rewrite <- list_elem_of_In; setoid_rewrite elem_of_reverse. }
      rewrite <- E. pose proof (number_zero counts (reverse l) (length l - S i)) as Hz.
      destruct (existsb counts (take _ _)) eqn:Ex; destruct (Z.eqb_spec (number counts (reverse l) (length l - S i) + 1) 1); try done.
      * assert (number counts (reverse l) (length l - S i) = 0) as H0 by lia. apply Hz in H0. done.
      * assert (number counts (reverse l) (length l - S i) = 0) as H0 by (by apply Hz). lia.
    + rewrite reverse_lookup by lia. by replace (length l - S (length l - S i))%nat with i by lia.
  - rewrite reverse_Permutation. apply line_nodup.
  - rewrite reverse_lookup by lia. by replace (length l - S (length l - S i))%nat with i by lia.
Qed.

(** ** The indexes that are kept *)

(** What the current run has kept on a parent for :nth-child: the place and the
    position of one of its elements. *)
Record indexes_ok (s : memo) : Prop := {
  nth_entry p d i k : nth_cache s !! (p, str "nth") = Some [d; i; k] -> d = dirruns s ->
    exists j e, i = Z.of_nat j /\ childNodes p !! j = Some e /\ k = number is_element (childNodes p) (S j);
  nth_shape p entry : nth_cache s !! (p, str "nth") = Some entry -> exists d i k, entry = [d; i; k] /\ d <= dirruns s;
}.
(** What the current run has kept on an element for :nth-last-child, if anything,
    is its position from the end. *)
Definition last_right (s : memo) (e : nat) : Prop := forall k rest p,
  cached_index e (str "nth-last") s = Some (k, rest) -> parentNode e = Some p -> k = position is_element (reverse (childNodes p)) e.

(** Only the indexes differ. *)
Definition same_but_indexes (s s' : memo) : Prop := exists m, s' = s <| nth_cache := m |>.
Lemma same_refl s : same_but_indexes s s.
Proof. exists (nth_cache s). by destruct s. Qed.
Lemma same_keep s s' n type entry : same_but_indexes s s' -> same_but_indexes s (keep_index n type entry s').
Proof. intros [m ->]. by eexists. Qed.

Lemma keep_nth s p j e :
  indexes_ok s -> childNodes p !! j = Some e ->
  indexes_ok (keep_index p (str "nth") [dirruns s; Z.of_nat j; number is_element (childNodes p) (S j)] s).
Proof.
  intros Hs He. unfold keep_index. split; cbn [set_field nth_cache dirruns]; intros *.
  - intros [[[= <-] [= <- <- <-]]|[_ Hl]]%lookup_insert_Some; [by exists j, e|by eapply nth_entry].
  - intros [[[= <-] <-]|[_ Hl]]%lookup_insert_Some; [by do 3 eexists|by eapply nth_shape].
Qed.
Lemma keep_last s e entry : indexes_ok s -> indexes_ok (keep_index e (str "nth-last") entry s).
Proof.
  intros Hs. unfold keep_index. split; cbn [set_field nth_cache dirruns]; intros *; rewrite lookup_insert_ne by done; apply Hs.
Qed.
Lemma keep_last_same s e p : parentNode e = Some p ->
  last_right (keep_index e (str "nth-last") [dirruns s; position is_element (reverse (childNodes p)) e] s) e.
Proof.
  intros He k rest p' Hc Hp. unfold cached_index, keep_index in Hc. cbn [set_field nth_cache dirruns] in Hc.
  rewrite lookup_insert_eq, Z.eqb_refl in Hc. by simplify_eq.
Qed.
Lemma keep_last_other s n e entry : n <> e -> last_right s e -> last_right (keep_index n (str "nth-last") entry s) e.
Proof.
  intros Hne Hs k rest p Hc. apply (Hs k rest p). unfold cached_index, keep_index in *. cbn [set_field nth_cache dirruns] in Hc.
  by rewrite lookup_insert_ne in Hc by congruence.
Qed.

(** ** The index of a child *)

Lemma seek_all dir p counts visit elem (I : memo -> Prop) s fuel : dir <> ParentNode ->
  parentNode elem = Some p -> counts elem = true -> (S (length (childNodes p)) <= fuel)%nat ->
  (forall n i s, line dir p !! i = Some n -> counts n = true -> I s -> I (visit n (Z.of_nat i) (number counts (line dir p) (S i)) s)) -> I s ->
  let r := seek fuel dir counts visit elem None (head (line dir p)) 0 0 s in
  fst r = position counts (line dir p) elem /\ I (snd r).
Proof.
  intros Hd He Hc Hf Hv Hs. destruct (line_index dir p elem He) as [t Ht]. rewrite (position_number counts _ elem t) by (done || apply line_nodup).
  pose proof (lookup_lt_Some _ _ _ Ht) as Hlt. rewrite line_length in Hlt.
  apply (seek_start _ _ _ _ _ _ I); [apply line_nodup|intros i x; by apply line_follow|done|done|exact Hv|lia|done|done].
Qed.

Section child_index.
Context (counts : nat -> bool) (p elem : nat) (s : memo).
Context (He : parentNode elem = Some p) (Hc : counts elem = true) (Hs : indexes_ok s).

(** What the search leaves as it was or right. *)
Abbreviation kept s' := (indexes_ok s' /\ same_but_indexes s s').

Lemma forward_cached : (forall n, counts n = is_element n) ->
  let r := child_index_of (str "nth") true true counts p elem s in
  fst r = position counts (childNodes p) elem /\ kept (snd r).
Proof.
  intros Hel. assert (kept s) as HI by (split; [done|apply same_refl]). unfold child_index_of. cbn [andb].
  match goal with |- context [seek _ _ _ ?v _ _ _ _ _ _] => set (visit := v) end.
  assert (forall k, number counts (childNodes p) k = number is_element (childNodes p) k) as Hnum.
  { intros k. unfold number. do 2 f_equal. apply list_filter_iff. intros n. by rewrite Hel. }
  assert (forall n i s', childNodes p !! i = Some n -> counts n = true -> kept s' ->
    kept (visit n (Z.of_nat i) (number counts (childNodes p) (S i)) s')) as Hv.
  { intros n i s' Hn _ [H1 H2]. unfold visit. destruct (n =? elem)%nat; [|done]. rewrite Hnum. split; [by eapply keep_nth|by apply same_keep]. }
  rewrite first_child. destruct (cached_index p (str "nth") s) as [[i rest]|] eqn:Ecache.
  - unfold cached_index in Ecache. destruct (nth_cache s !! (p, str "nth")) as [entry|] eqn:Eentry; [|done].
    destruct (nth_shape s Hs p entry Eentry) as (d & i' & k & -> & _). destruct (Z.eqb_spec d (dirruns s)) as [Hdr|]; [|done].
    injection Ecache as -> <-. destruct (nth_entry s Hs p d i k Eentry Hdr) as (j & x & -> & Hj & ->).
    destruct (Z.eqb_spec (Z.of_nat j) 0) as [|Hj0].
    + apply (seek_all NextSibling p _ _ _ (fun s' => kept s')); [done|done|done|lia|exact Hv|done].
    + rewrite Nat2Z.id, Hj, <- Hnum. cbn [head default from_option id]. destruct (line_index NextSibling p elem He) as [t Hti]. cbn [line] in Hti.
      rewrite (position_number counts _ elem t) by (done || apply children_nodup). pose proof (lookup_lt_Some _ _ _ Hti). pose proof (lookup_lt_Some _ _ _ Hj).
      apply (seek_wrap _ _ _ _ _ _ (fun s' => kept s')); [apply children_nodup|intros i y; by apply next_sibling|done|done|exact Hv|lia|done|done].
  - apply (seek_all NextSibling p _ _ _ (fun s' => kept s')); [done|done|done|lia|exact Hv|done].
Qed.

Lemma uncached type (forward : bool) :
  let r := child_index_of type forward false counts p elem s in
  fst r = position counts (line (if forward then NextSibling else PreviousSibling) p) elem /\ snd r = s.
Proof.
  unfold child_index_of. rewrite andb_false_r. destruct forward.
  - rewrite first_child. apply (seek_all NextSibling p _ _ _ (fun s' => s' = s)); [done|done|done|lia|done|done].
  - rewrite last_child, <- head_reverse. apply (seek_all PreviousSibling p _ _ _ (fun s' => s' = s)); [done|done|done|lia|done|done].
Qed.

Lemma backward_cached : (forall n, counts n = is_element n) -> last_right s elem ->
  let r := child_index_of (str "nth-last") false true counts p elem s in
  fst r = position counts (reverse (childNodes p)) elem /\ kept (snd r) /\ last_right (snd r) elem.
Proof.
  intros Hel Hl. assert (kept s) as HI by (split; [done|apply same_refl]). unfold child_index_of. cbn [andb].
  assert (forall l, position counts l elem = position is_element l elem) as Hpos.
  { intros l. induction l as [|n l IH]; [done|]. cbn. by rewrite Hel, IH. }
  destruct (cached_index elem (str "nth-last") s) as [[k rest]|] eqn:Ecache.
  { cbn [fst snd]. rewrite Hpos. split; [by eapply Hl|done]. }
  match goal with |- context [seek _ _ _ ?v _ _ _ _ _ _] => set (visit := v) end.
  set (J s' := kept s' /\ last_right s' elem).
  assert (forall n i d s', n <> elem -> J s' -> J (visit n i d s')) as Hw.
  { intros n i d s' Hne [[H1 H2] H3]. split; [split; [by apply keep_last|by apply same_keep]|by apply keep_last_other]. }
  rewrite last_child, <- head_reverse. destruct (line_index PreviousSibling p elem He) as [t Ht].
  pose proof (lookup_lt_Some _ _ _ Ht) as Hlt. rewrite line_length in Hlt.
  assert (forall n i s', line PreviousSibling p !! i = Some n -> counts n = true -> J s' ->
    J (visit n (Z.of_nat i) (number counts (line PreviousSibling p) (S i)) s')) as Hv.
  { intros n i s' Hn _ HJ. destruct (decide (n = elem)) as [->|Hne]; [|by apply Hw].
    destruct HJ as [[H1 H2] H3]. split; [split; [by apply keep_last|by apply same_keep]|].
    unfold visit. rewrite <- (position_number counts _ elem i) by (done || apply line_nodup). rewrite Hpos. by apply keep_last_same. }
  destruct (seek_behind (line PreviousSibling p) PreviousSibling counts visit elem t J (line_nodup _ _)
    (fun i x => line_follow PreviousSibling p i x ltac:(done)) Ht Hc Hv (S (2 * length (childNodes p))) t elem 0 0 s) as [H1 [H2 H3]];
    [lia|done|rewrite line_length; lia|done|done|].
  cbn [line] in *. rewrite (position_number counts _ elem t) by (done || exact (line_nodup PreviousSibling p)). exact (conj H1 (conj H2 H3)).
Qed.
End child_index.

(** ** What CHILD means *)

(** The siblings among which an element is counted, itself among them. *)
Definition counted (what : jstr) (elem n : nat) : bool :=
  if decide (what = str "of-type") then bool_decide (toLowerCase (nodeName n) = toLowerCase (nodeName elem)) else is_element n.
Definition from_start (what : jstr) (p elem : nat) : Z := position (counted what elem) (childNodes p) elem.
Definition from_end (what : jstr) (p elem : nat) : Z := position (counted what elem) (reverse (childNodes p)) elem.

Definition child_holds (type what : jstr) (arg : option (Z * Z)) (elem : nat) : bool :=
  match parentNode elem with
  | None => false
  | Some p =>
      if decide (type = str "first") then from_start what p elem =? 1
      else if decide (type = str "last") then from_end what p elem =? 1
      else if decide (type = str "only") then (from_start what p elem =? 1) && (from_end what p elem =? 1)
      else let '(first, last) := default (0, 0) arg in
           in_cycle first last (if decide (type = str "nth") then from_start what p elem else from_end what p elem)
  end.

(** What [preFilter.CHILD] lets through: nth with an argument, the others
    without. *)
Inductive child_ok : jstr -> option (Z * Z) -> Prop :=
  | simple_ok type : type = str "first" \/ type = str "last" \/ type = str "only" -> child_ok type None
  | nth_ok type ab : type = str "nth" \/ type = str "nth-last" -> child_ok type (Some ab).

Lemma position_pos counts l e : 0 <= position counts l e.
Proof. induction l as [|n l IH]; cbn; [done|]. destruct (counts n), (n =? e)%nat; lia. Qed.

Lemma counted_self what elem : is_element elem = true -> counted what elem elem = true.
Proof. intros He. unfold counted. destruct (decide _); [by apply bool_decide_eq_true|done]. Qed.

Lemma simple_correct (type what : jstr) (forward : bool) p elem fuel : is_element elem = true -> parentNode elem = Some p -> (length (childNodes p) <= fuel)%nat ->
  (type = str "only" -> forward = true) ->
  simple_child type forward (counted what elem) fuel elem =
  if decide (type = str "only") then (from_start what p elem =? 1) && (from_end what p elem =? 1)
  else if forward then from_start what p elem =? 1 else from_end what p elem =? 1.
Proof.
  intros Hel Hp Hf Hd. pose proof (counted_self what elem Hel) as Hc. unfold simple_child.
  rewrite (no_sibling_counts (if forward then PreviousSibling else NextSibling) p) by (done || by destruct forward).
  rewrite (no_sibling_counts NextSibling p) by done. cbn [opposite line].
  destruct (decide _) as [Ht|].
  - rewrite Hd by done. cbn [opposite line]. unfold from_start, from_end. destruct (_ =? 1); [|done]. cbn [negb andb]. by rewrite negb_involutive.
  - destruct forward; cbn [opposite line]; unfold from_start, from_end; by destruct (_ =? 1).
Qed.

(** :nth-last-child keeps indexes that may be wrong, unless the document is XML. *)
Definition doubtful (type what : jstr) (is_xml : bool) : Prop := type = str "nth-last" /\ what <> str "of-type" /\ is_xml = false.

Lemma CHILD_correct type what arg is_xml elem s : child_ok type arg -> is_element elem = true -> indexes_ok s ->
  (doubtful type what is_xml -> last_right s elem) ->
  let r := CHILD type what arg is_xml elem s in
  fst r = child_holds type what arg elem /\ (indexes_ok (snd r) /\ same_but_indexes s (snd r)) /\
  (doubtful type what is_xml -> last_right (snd r) elem).
Proof.
  intros Hok Hel Hs Hlast. unfold CHILD, child_holds. pose proof (same_refl s) as Hsame.
  assert ((fun n => if bool_decide (what = str "of-type") then bool_decide (toLowerCase (nodeName n) = toLowerCase (nodeName elem)) else is_element n)
    = counted what elem) as Hcounts.
  { unfold counted. by destruct (decide (what = str "of-type")) as [->|?]; [|rewrite bool_decide_eq_false_2]. }
  destruct Hok as [type Ht|type [first last] Ht].
  - rewrite decide_False by done. destruct (parentNode elem) as [p|] eqn:Hp; [|done]. rewrite Hcounts.
    destruct Ht as [-> | [-> | ->]];
    (match goal with |- context [is_prefix ?a ?b] => change (is_prefix a b) with false end; cbn [negb fst snd]; split; [|done];
     by rewrite (simple_correct _ what _ p)).
  - assert (is_prefix (str "nth") type = true) as Hpre by (by destruct Ht as [-> | ->]). rewrite Hpre.
    destruct (parentNode elem) as [p|] eqn:Hp; [|by destruct (decide _)].
    assert (type <> str "first" /\ type <> str "last" /\ type <> str "only") as (H1 & H2 & H3) by (by destruct Ht as [-> | ->]).
    destruct (decide (type = str "first")); [done|]. destruct (decide (type = str "last")); [done|]. destruct (decide (type = str "only")); [done|].
    rewrite Hcounts. cbn [negb].
    destruct (decide (Some (first, last) = Some (1, 0))) as [[= -> ->]|Hne].
    + cbn [fst snd default from_option id]. split; [|done]. rewrite bool_decide_eq_true_2 by eauto. symmetry. apply in_cycle_spec.
      eexists. split; [|by rewrite Z.mul_1_l, Z.add_0_r]. destruct (decide _); apply position_pos.
    + cbn [default from_option id]. pose proof (counted_self what elem Hel) as Hc.
      assert (what <> str "of-type" -> forall x, counted what elem x = is_element x) as Hcel.
      { intros Hw x. unfold counted. by rewrite decide_False. }
      destruct (negb is_xml && negb (bool_decide (what = str "of-type"))) eqn:Hu.
      * apply andb_prop in Hu as [Hx%negb_true_iff Hw%negb_true_iff%bool_decide_eq_false]. destruct Ht as [-> | ->].
        -- destruct (forward_cached (counted what elem) p elem s Hp Hc Hs (Hcel Hw)) as [Hr Hk].
           change (negb (is_suffix (str "last") (str "nth"))) with true. destruct (child_index_of _ _ _ _ _ _ _) as [diff s']. cbn [fst snd] in *.
           rewrite Hr. split; [done|]. split; [done|]. by intros [? _].
        -- destruct (backward_cached (counted what elem) p elem s Hp Hc Hs (Hcel Hw)) as (Hr & Hk & Hl); [by apply Hlast|].
           change (negb (is_suffix (str "last") (str "nth-last"))) with false. destruct (child_index_of _ _ _ _ _ _ _) as [diff s']. cbn [fst snd] in *.
           by rewrite Hr.
      * destruct (uncached (counted what elem) p elem s Hp Hc type (negb (is_suffix (str "last") type))) as [Hr Hk].
        destruct (child_index_of _ _ _ _ _ _ _) as [diff s']. cbn [fst snd] in *. subst s'. rewrite Hr.
        destruct Ht as [-> | ->]; (split; [done|]); (split; [done|]); [by intros [? _]|exact Hlast].
Qed.

(** C29. :nth-child(an+b) and its relatives accept an element exactly if its position
    among its siblings (from the start or the end; of all elements or of those of
    its name) is [a * n + b] for some natural [n], although positions are looked up
    in caches that this call and earlier ones of the same run fill.  The indexes kept
    on parents are right and stay right.  :nth-last-child, outside of XML, reads an
    index kept on the element itself: the answer is right if that index is, or if
    there is none, and the index of this element is right afterwards.  (Those of
    its siblings need not be: [wrong_from_the_end].) *)
Theorem nth_child_correct (type what : jstr) (a b : Z) (is_xml : bool) (elem p : nat) (s : memo)
    (Htype : type = str "nth" \/ type = str "nth-last") (Hel : is_element elem = true) (Hp : parentNode elem = Some p) (Hs : indexes_ok s)
    (Hlast : doubtful type what is_xml -> last_right s elem) :
  let r := CHILD type what (Some (a, b)) is_xml elem s in
  (fst r = true <-> exists n, 0 <= n /\ (if decide (type = str "nth") then from_start what p elem else from_end what p elem) = a * n + b) /\
  (indexes_ok (snd r) /\ same_but_indexes s (snd r)) /\ (doubtful type what is_xml -> last_right (snd r) elem).
Proof.
  intros r. destruct (CHILD_correct type what (Some (a, b)) is_xml elem s (nth_ok type (a, b) Htype) Hel Hs Hlast) as (Hr & Hi).
  split; [|done]. unfold r. rewrite Hr. unfold child_holds. rewrite Hp, <- in_cycle_spec.
  by destruct Htype as [-> | ->].
Qed.
End child.
