(* ===== verification/SizzleMatch.v ===== *)
(** Matchers of the selector engine (Sizzle in jquery-3.2.0.js): combinators with
    their caches, the compilation of tokens to matchers, and [select].

    A compiled function is a closure over its parts; what it keeps is the [memo].
    Matchers of positions, which work on sets, are left out: compilation ends with
    [None] when it meets one. *)
From Stdlib Require Import String.
From S2P Require Import Prelude JsString ClassNames SizzleText SizzleTokens SizzleDom SizzleFilters.

(** What a matcher is called with, and the global [outermostContext], which is a
    node or [true]. *)
Record env := { context : nat; xml : bool; outermostContext : option nat }.
Definition matcher : Type := env -> nat -> memo -> bool * memo.

(** [Expr.relative] *)
Record relative := { dir : direction; skip : option jstr; is_first : bool }.
Definition descendant : relative := {| dir := ParentNode; skip := None; is_first := false |}.
Definition relative_of (k : kind) : option relative :=
  match k with
  | KRel c =>
      if c =? 62 then Some {| dir := ParentNode; skip := None; is_first := true |}
      else if c =? 32 then Some descendant
      else if c =? 43 then Some {| dir := PreviousSibling; skip := None; is_first := true |}
      else if c =? 126 then Some {| dir := PreviousSibling; skip := None; is_first := false |}
      else None
  | _ => None
  end.

Section match_tree.
Context {T : Tree} {X : Tables}.

(** ** [addCombinator] *)

(** [key] *)
Definition cache_key (combinator : relative) : direction + jstr := match skip combinator with Some s => inr s | None => inl (dir combinator) end.
(** [checkNonElements] *)
Definition check_non_elements (combinator : relative) (base : bool) : bool :=
  base && match skip combinator, dir combinator with None, ParentNode => true | _, _ => false end.

(** The loop for the closest one, and the one without a cache. *)
Fixpoint first_loop (fuel : nat) (m : nat -> memo -> bool * memo) (d : direction) (check : bool) (elem : nat) (s : memo) : bool * memo :=
  match fuel, follow d elem with
  | S fuel, Some elem => if is_element elem || check then m elem s else first_loop fuel m d check elem s
  | _, _ => (false, s)
  end.
Fixpoint xml_loop (fuel : nat) (m : nat -> memo -> bool * memo) (d : direction) (check : bool) (elem : nat) (s : memo) : bool * memo :=
  match fuel, follow d elem with
  | S fuel, Some elem =>
      if is_element elem || check then
        let '(b, s) := m elem s in if b then (true, s) else xml_loop fuel m d check elem s
      else xml_loop fuel m d check elem s
  | _, _ => (false, s)
  end.

(** [newCache[ 2 ] = result] *)
Definition set_result (a : nat) (b : bool) (s : memo) : memo :=
  s <| arrays := alter (fun '(d, n, _) => (d, n, Some b)) a (arrays s) |>.
(** The array [oldCache] of an element, when it is of this run and this
    combinator; [oldCache[ 2 ]] is in it. *)
Definition old_result (key : direction + jstr) (doneName elem : nat) (s : memo) : option bool :=
  a ← combinator_cache s !! (elem, key);
  '(d, n, r) ← arrays s !! a;
  if (d =? dirruns s) && (n =? doneName)%nat then Some (default false r) else None.

(** The loop with the cache; [a] is [newCache]. *)
Fixpoint cached_loop (fuel : nat) (m : nat -> memo -> bool * memo) (combinator : relative) (doneName a : nat) (check : bool)
    (elem : nat) (s : memo) : bool * memo :=
  match fuel, follow (dir combinator) elem with
  | S fuel, Some elem =>
      if is_element elem || check then
        if bool_decide (skip combinator = Some (toLowerCase (nodeName elem))) then
          cached_loop fuel m combinator doneName a check (default elem (follow (dir combinator) elem)) s
        else match old_result (cache_key combinator) doneName elem s with
             | Some b => (b, set_result a b s)
             | None =>
                 let s := s <| combinator_cache := <[(elem, cache_key combinator) := a]> (combinator_cache s) |> in
                 let '(b, s) := m elem s in
                 let s := set_result a b s in
                 if b then (true, s) else cached_loop fuel m combinator doneName a check elem s
             end
      else cached_loop fuel m combinator doneName a check elem s
  | _, _ => (false, s)
  end.

Definition addCombinator (m : matcher) (combinator : relative) (base : bool) (doneName : nat) : matcher :=
  let check := check_non_elements combinator base in
  fun ev elem s =>
    if is_first combinator then first_loop elem (m ev) (dir combinator) check elem s
    else if xml ev then xml_loop elem (m ev) (dir combinator) check elem s
    else
      let a := next_array s in
      let s := s <| arrays := <[a := (dirruns s, doneName, None)]> (arrays s) |> <| next_array := S a |> in
      cached_loop elem (m ev) combinator doneName a check elem s.

(** ** Compilation *)

(** [elementMatcher( matchers )]: from the last to the first. *)
Fixpoint run_all (ms : list matcher) (ev : env) (elem : nat) (s : memo) : bool * memo :=
  match ms with
  | [] => (true, s)
  | m :: ms => let '(b, s) := m ev elem s in if b then run_all ms ev elem s else (false, s)
  end.
Definition elementMatcher (matchers : list matcher) : matcher := run_all (rev matchers).

(** [Expr.filter[ type ].apply( null, matches )]; [None] is a positional matcher. *)
Definition filter_matcher (k : kind) : result (option matcher) :=
  let test f := Ok (Some (fun _ elem s => (f elem, s))) in
  match k with
  | KRel _ => Throw TypeError
  | KTag raw => test (TAG raw)
  | KClass raw => test (CLASS raw)
  | KAttr name op check => Ok (Some (fun ev elem s => (ATTR name op check (xml ev) elem, s)))
  | KChild type what arg => Ok (Some (fun ev elem s => CHILD type what arg (xml ev) elem s))
  | KPseudo name arg => match PSEUDO name arg with Ok (ElementTest f) => test f | Ok PositionTest => Ok None | Throw e => Throw e end
  | KId raw => test (ID raw)
  end.

(** The loop of [matcherFromTokens]; [done] is the next name. *)
Fixpoint from_tokens (tokens : list token) (matchers : list matcher) (done : nat) : result (option matcher) * nat :=
  match tokens with
  | [] => (Ok (Some (elementMatcher matchers)), done)
  | t :: tokens =>
      match relative_of (kind_of t) with
      | Some r => from_tokens tokens [addCombinator (elementMatcher matchers) r false done] (S done)
      | None =>
          match filter_matcher (kind_of t) with
          | Ok (Some m) => from_tokens tokens (matchers ++ [m]) done
          | Ok None => (Ok None, done)
          | Throw e => (Throw e, done)
          end
      end
  end.

(** The foundational matcher; the contexts are always single nodes here, so that
    of [matchAnyContext] only the name is taken. *)
Definition base_matcher (leadingRelative : option relative) (done : nat) : matcher :=
  let matchContext := addCombinator (fun ev elem s => ((elem =? context ev)%nat, s)) (default descendant leadingRelative) true done in
  fun ev elem s =>
    if negb (bool_decide (is_Some leadingRelative)) && (xml ev || negb (bool_decide (outermostContext ev = Some (context ev)))) then (true, s)
    else matchContext ev elem s.
Definition matcherFromTokens (tokens : list token) (done : nat) : result (option matcher) * nat :=
  match tokens with
  | [] => (Throw TypeError, done)
  | t :: rest =>
      let leadingRelative := relative_of (kind_of t) in
      from_tokens (match leadingRelative with Some _ => rest | None => tokens end) [base_matcher leadingRelative done] (done + 2)
  end.

(** [compile( selector, match )]: from the last group to the first. *)
Fixpoint compile_groups (groups : list (list token)) (done : nat) : result (option (list matcher)) * nat :=
  match groups with
  | [] => (Ok (Some []), done)
  | g :: groups =>
      match matcherFromTokens g done with
      | (Ok m, done) =>
          match compile_groups groups done with
          | (Ok ms, done) => (Ok (match m, ms with Some m, Some ms => Some (m :: ms) | _, _ => None end), done)
          | (Throw e, done) => (Throw e, done)
          end
      | (Throw e, done) => (Throw e, done)
      end
  end.
Definition compile (groups : list (list token)) (done : nat) : result (option (list matcher)) * nat := compile_groups (rev groups) done.

(** ** [superMatcher] *)

(** [while ( (matcher = elementMatchers[ j++ ]) )] *)
Fixpoint any_matches (elementMatchers : list matcher) (ev : env) (elem : nat) (s : memo) : bool * memo :=
  match elementMatchers with
  | [] => (false, s)
  | m :: ms => let '(b, s) := m ev elem s in if b then (true, s) else any_matches ms ev elem s
  end.
(** The loop over the elements; every round ends with the number of this run. *)
Fixpoint collect (elementMatchers : list matcher) (ev : env) (unique : Z) (elems results : list nat) (s : memo) : list nat * memo :=
  match elems with
  | [] => (results, s)
  | e :: elems =>
      let '(b, s) := any_matches elementMatchers ev e s in
      collect elementMatchers ev unique elems (if b then results ++ [e] else results) (s <| dirruns := unique |>)
  end.
(** The outermost run without set matchers; [outermost] is a node or [true]. *)
Definition superMatcher (elementMatchers : list matcher) (seed : option (list nat)) (ctx : option nat) (is_xml : bool)
    (results : list nat) (outermost : option nat) (s : memo) : list nat * memo :=
  let elems := match seed, outermost with
               | Some l, _ => l
               | None, Some n => match elementMatchers with [] => [] | _ => getElementsByTagName [42] n end
               | None, None => []
               end in
  let unique := dirruns s + 1 in
  let ev := {| context := default document ctx; xml := is_xml;
               outermostContext := match ctx with
                                   | Some c => if (c =? document)%nat then None else Some c
                                   | None => outermost
                                   end |} in
  collect elementMatchers ev unique elems results (s <| dirruns := unique |>).
End match_tree.
