(* ===== verification/SizzleMatchProps.v ===== *)
(** The matchers of the selector engine with their caches, and what selectors
    mean without any cache. *)
From Stdlib Require Import String.
From S2P Require Import Prelude JsString ClassNames SizzleText SizzleTokens SizzleDom SizzleFilters SizzleChild SizzleMatch.

Section meaning.
Context {T : Tree} {L : TreeLaws T} {X : Tables}.

(** ** What selectors mean *)

(** The nodes that a combinator relates to one, the nearest first. *)
Definition related (r : relative) (check : bool) (e : nat) : list nat :=
  let l := List.filter (fun n => is_element n || check) (axis (dir r) e) in
  if is_first r then take 1 l else l.

Definition filter_holds (is_xml : bool) (k : kind) (e : nat) : bool :=
  match k with
  | KRel _ => false
  | KTag raw => TAG raw e
  | KClass raw => CLASS raw e
  | KAttr name op check => ATTR name op check is_xml e
  | KChild type what arg => child_holds type what arg e
  | KPseudo name arg => match PSEUDO name arg with Ok (ElementTest f) => f e | _ => false end
  | KId raw => ID raw e
  end.

(** Where the leftmost element has to be: in relation to the context, but if
    there is no leading combinator and the context is the document.  Any node
    above an element can be the context, but only elements are siblings. *)
Definition rooted (ev : env) (leading : option relative) (e : nat) : bool :=
  negb (bool_decide (is_Some leading)) && (xml ev || negb (bool_decide (outermostContext ev = Some (context ev)))) ||
  (let r := default descendant leading in
   existsb (fun n => (n =? context ev)%nat) (related r (bool_decide (dir r = ParentNode)) e)).
(** From the last token to the first. *)
Fixpoint holds (ev : env) (leading : option relative) (rev_tokens : list token) (e : nat) : bool :=
  match rev_tokens with
  | [] => rooted ev leading e
  | t :: before =>
      match relative_of (kind_of t) with
      | Some r => existsb (holds ev leading before) (related r false e)
      | None => filter_holds (xml ev) (kind_of t) e && holds ev leading before e
      end
  end.
Definition selects (ev : env) (tokens : list token) (e : nat) : bool :=
  match tokens with
  | [] => false
  | t :: rest =>
      let leading := relative_of (kind_of t) in
      holds ev leading (rev (match leading with Some _ => rest | None => tokens end)) e
  end.

(** ** The state between two calls *)

(** [spec] says what is kept under a name at an element; the arrays [open] are
    those of combinators that are still looking. *)
Record state_ok (spec : nat -> nat -> bool) (open : list nat) (s : memo) : Prop := {
  ok_indexes : indexes_ok s;
  ok_refs k a : combinator_cache s !! k = Some a -> (a < next_array s)%nat;
  ok_runs a d n r : arrays s !! a = Some (d, n, r) -> d <= dirruns s /\ (a < next_array s)%nat;
  ok_results e key a d n r : combinator_cache s !! (e, key) = Some a -> arrays s !! a = Some (d, n, r) -> d = dirruns s -> a ∉ open ->
    r = Some (spec n e);
}.
(** What a call may change; [mine] is the array of the caller. *)
Record extends (mine : nat -> Prop) (s s' : memo) : Prop := {
  same_run : dirruns s' = dirruns s;
  more_arrays : (next_array s <= next_array s')%nat;
  same_arrays a : (a < next_array s)%nat -> ~ mine a -> arrays s' !! a = arrays s !! a;
  new_refs k a : combinator_cache s' !! k = Some a -> combinator_cache s !! k = Some a \/ (next_array s <= a)%nat \/ mine a;
}.
Definition nobody (a : nat) : Prop := False.

Lemma extends_refl mine s : extends mine s s.
Proof. split; auto. Qed.
Lemma extends_trans mine s1 s2 s3 : extends mine s1 s2 -> extends mine s2 s3 -> extends mine s1 s3.
Proof.
  intros H12 H23. pose proof (more_arrays _ _ _ H12). pose proof (more_arrays _ _ _ H23). split.
  - etrans; [apply (same_run _ _ _ H23)|apply (same_run _ _ _ H12)].
  - lia.
  - intros a Ha Hm. rewrite (same_arrays _ _ _ H23) by (done || lia). by apply (same_arrays _ _ _ H12).
  - intros k a Hk. apply (new_refs _ _ _ H23) in Hk as [Hk|[Hk|Hk]]; [|right; left; lia|auto]. by apply (new_refs _ _ _ H12) in Hk.
Qed.
Lemma extends_mono (mine mine' : nat -> Prop) s s' : (forall a, mine a -> mine' a) -> extends mine s s' -> extends mine' s s'.
Proof.
  intros Hm H. split; [apply H|apply H|intros a Ha Hn; apply (same_arrays _ _ _ H); auto|].
  intros k a Hk. apply (new_refs _ _ _ H) in Hk as [Hk|[Hk|Hk]]; auto.
Qed.

(** The array of [a] is of a combinator whose name is outside a range. *)
Definition outside (lo hi : nat) (s : memo) (a : nat) : Prop :=
  exists d n r, arrays s !! a = Some (d, n, r) /\ ~ (lo <= n < hi)%nat.

(** A matcher whose combinators have the names from [lo] to [hi] computes [sem]. *)
Definition computes (spec : nat -> nat -> bool) (lo hi : nat) (dom : nat -> Prop) (m : nat -> memo -> bool * memo) (sem : nat -> bool) : Prop :=
  forall open s e, dom e -> state_ok spec open s -> Forall (outside lo hi s) open ->
  fst (m e s) = sem e /\ state_ok spec open (snd (m e s)) /\ extends nobody s (snd (m e s)).

Lemma indexes_ok_same s s' : nth_cache s' = nth_cache s -> dirruns s' = dirruns s -> indexes_ok s -> indexes_ok s'.
Proof.
  intros Hn Hd Hs. split; intros *; rewrite ?Hn, ?Hd.
  - by apply nth_entry.
  - by apply nth_shape.
Qed.

Lemma outside_extends lo hi s s' a : extends nobody s s' -> (forall a d n r, arrays s !! a = Some (d, n, r) -> (a < next_array s)%nat) ->
  outside lo hi s a -> outside lo hi s' a.
Proof. intros He Hlt (d & n & r & Ha & Hn). exists d, n, r. split; [|done]. rewrite (same_arrays _ _ _ He); [done|by eapply Hlt|auto]. Qed.
Lemma outside_weaken lo hi lo' hi' s a : (lo <= lo')%nat -> (hi' <= hi)%nat -> outside lo hi s a -> outside lo' hi' s a.
Proof. intros Hl Hh (d & n & r & Ha & Hn). exists d, n, r. split; [done|lia]. Qed.
Lemma all_outside_weaken lo hi lo' hi' s l : (lo <= lo')%nat -> (hi' <= hi)%nat -> Forall (outside lo hi s) l -> Forall (outside lo' hi' s) l.
Proof. intros Hl Hh Hf. eapply Forall_impl; [exact Hf|]. intros a. by apply outside_weaken. Qed.
Lemma all_outside_extends spec open lo hi s s' l : extends nobody s s' -> state_ok spec open s ->
  Forall (outside lo hi s) l -> Forall (outside lo hi s') l.
Proof. intros He Hs Hf. eapply Forall_impl; [exact Hf|]. intros a. apply outside_extends; [done|]. intros *. apply (ok_runs _ _ _ Hs). Qed.

Lemma computes_weaken spec lo hi lo' hi' dom m sem : (lo <= lo')%nat -> (hi' <= hi)%nat -> computes spec lo' hi' dom m sem -> computes spec lo hi dom m sem.
Proof. intros Hl Hh Hm open s e He Hs Ho. apply Hm; [done|done|by eapply all_outside_weaken]. Qed.

(** ** Tests without state *)

Lemma computes_pure spec lo dom f : computes spec lo lo dom (fun e s => (f e, s)) f.
Proof. intros open s e _ Hs _. split; [done|]. split; [done|apply extends_refl]. Qed.

Lemma computes_child spec lo type what arg is_xml : child_ok type arg -> (type = str "nth-last" -> what = str "of-type") ->
  computes spec lo lo (fun e => is_element e = true) (fun e s => CHILD type what arg is_xml e s) (child_holds type what arg).
Proof.
  intros Hok Hrel open s e He Hs _.
  destruct (CHILD_correct type what arg is_xml e s Hok He (ok_indexes _ _ _ Hs)) as (Hr & (Hi & [m Hm]) & _);
    [intros (Ht & Hw & _); by destruct Hw; auto|].
  split; [done|]. rewrite Hm in Hi |- *. split; [|split; cbn; auto]. split; [done|apply Hs|apply Hs|apply (ok_results _ _ _ Hs)].
Qed.

(** ** Combinators *)

Section combinator.
Context (spec : nat -> nat -> bool) (lo n : nat) (c : relative) (check : bool) (m : nat -> memo -> bool * memo) (sem : nat -> bool).
Abbreviation dom e := (is_element e || check = true).
Context (Hm : computes spec lo n (fun e => dom e) m sem) (Hlo : (lo <= n)%nat).
Context (Hskip : skip c = None) (Hdir : dir c <> NextSibling).

(** What is left to look at behind [e]. *)
Definition remaining (e : nat) : list nat := List.filter (fun x => is_element x || check) (axis (dir c) e).

Lemma remaining_unfold e : remaining e =
  match follow (dir c) e with Some e' => if is_element e' || check then e' :: remaining e' else remaining e' | None => [] end.
Proof. unfold remaining at 1. rewrite axis_unfold by done. by destruct (follow (dir c) e). Qed.

Lemma first_loop_computes fuel open s e : (e <= fuel)%nat -> state_ok spec open s -> Forall (outside lo (S n) s) open ->
  let r := first_loop fuel m (dir c) check e s in
  fst r = existsb sem (take 1 (remaining e)) /\ state_ok spec open (snd r) /\ extends nobody s (snd r).
Proof.
  intros Hf Hs Ho. revert e Hf. induction fuel as [|fuel IH]; intros e Hf; rewrite remaining_unfold; cbn [first_loop].
  - destruct (follow (dir c) e) as [e'|] eqn:He; [apply follow_before in He; [lia|done]|]. split; [done|]. split; [done|apply extends_refl].
  - destruct (follow (dir c) e) as [e'|] eqn:He; [|split; [done|split; [done|apply extends_refl]]]. apply follow_before in He; [|done].
    destruct (is_element e' || check) eqn:Hd; [|apply IH; lia]. cbn [take existsb]. rewrite orb_false_r. apply Hm; [done|done|].
    by eapply all_outside_weaken; [| |exact Ho]; lia.
Qed.

Lemma xml_loop_computes fuel open s e : (e <= fuel)%nat -> state_ok spec open s -> Forall (outside lo (S n) s) open ->
  let r := xml_loop fuel m (dir c) check e s in
  fst r = existsb sem (remaining e) /\ state_ok spec open (snd r) /\ extends nobody s (snd r).
Proof.
  revert s e. induction fuel as [|fuel IH]; intros s e Hf Hs Ho; rewrite remaining_unfold; cbn [xml_loop].
  - destruct (follow (dir c) e) as [e'|] eqn:He; [apply follow_before in He; [lia|done]|]. split; [done|]. split; [done|apply extends_refl].
  - destruct (follow (dir c) e) as [e'|] eqn:He; [|split; [done|split; [done|apply extends_refl]]]. apply follow_before in He; [|done].
    destruct (is_element e' || check) eqn:Hd; [|apply IH; [lia|done|done]]. cbn [existsb].
    destruct (Hm open s e' Hd Hs) as (Hb & Hs' & Hx); [by eapply all_outside_weaken; [| |exact Ho]; lia|].
    destruct (m e' s) as [b s'] eqn:Em. cbn [fst snd] in *. subst b. destruct (sem e'); [done|]. cbn [orb].
    destruct (IH s' e') as (Hr & Hs2 & Hx2); [lia|done|by eapply all_outside_extends|].
    split; [done|]. split; [done|]. by eapply extends_trans.
Qed.

(** *** With the cache *)

Context (Hspec : forall e, spec n e = existsb sem (e :: remaining e)).
Abbreviation key := (cache_key c).

(** While the loop with the array [a] is behind [e]: whatever is kept in [a] is
    what is still to be found. *)
Record looking (a : nat) (open : list nat) (e : nat) (s : memo) : Prop := {
  look_ok : state_ok spec (a :: open) s;
  look_open : Forall (outside lo (S n) s) open;
  look_array : exists r, arrays s !! a = Some (dirruns s, n, r) /\
    forall e' k, combinator_cache s !! (e', k) = Some a ->
      (e <= e')%nat /\ r = Some false /\ spec n e' = existsb sem (remaining e);
}.

(** The array gets a result; then it counts for all elements it is kept at. *)
Lemma set_open a open b s r : state_ok spec (a :: open) s -> arrays s !! a = Some (dirruns s, n, r) -> state_ok spec (a :: open) (set_result a b s).
Proof.
  intros Hs Ha. unfold set_result. split; cbn [set_field arrays next_array combinator_cache nth_cache dirruns].
  - by apply (indexes_ok_same s), Hs.
  - apply Hs.
  - intros a' d n' r'. destruct (decide (a' = a)) as [->|Hne].
    + rewrite lookup_alter_eq, Ha. cbn. intros [= <- <- <-]. by apply (ok_runs _ _ _ Hs a (dirruns s) n r).
    + rewrite lookup_alter_ne by done. apply (ok_runs _ _ _ Hs).
  - intros e k a' d n' r' Hk Ha' Hd Hno. rewrite lookup_alter_ne in Ha' by set_solver. by apply (ok_results _ _ _ Hs e k a' d n' r').
Qed.
Lemma close_array a open b s r : state_ok spec (a :: open) s -> arrays s !! a = Some (dirruns s, n, r) ->
  (forall e' k, combinator_cache s !! (e', k) = Some a -> spec n e' = b) ->
  state_ok spec open (set_result a b s).
Proof.
  intros Hs Ha He. pose proof (set_open a open b s r Hs Ha) as Ho. split; [apply Ho|apply Ho|apply Ho|].
  intros e k a' d n' r' Hk Ha' Hd Hno. destruct (decide (a' = a)) as [->|Hne].
  - cbn in Ha', Hk. rewrite lookup_alter_eq, Ha in Ha'. cbn in Ha'. injection Ha' as <- <- <-. f_equal. symmetry. by eapply He.
  - apply (ok_results _ _ _ Ho e k a' d n' r'); [done|done|done|]. set_solver.
Qed.
Lemma set_result_extends a b s : extends (fun a' => a' = a) s (set_result a b s).
Proof.
  split; cbn; [done|lia| |auto]. intros a' _ Hne. by rewrite lookup_alter_ne by auto.
Qed.
Lemma set_result_outside lo' hi' a b s a' : outside lo' hi' s a' -> outside lo' hi' (set_result a b s) a'.
Proof.
  intros (d & n' & r & Ha & Hn). destruct (decide (a' = a)) as [->|Hne].
  - exists d, n', (Some b). split; [|done]. cbn. by rewrite lookup_alter_eq, Ha.
  - exists d, n', r. split; [|done]. cbn. by rewrite lookup_alter_ne.
Qed.

(** The loop ends without a result that was kept at the last element. *)
Lemma stop_array a open e s : looking a open e s -> remaining e = [] -> state_ok spec open s.
Proof.
  intros [Hs _ (r & Ha & He)] Hr. split; [apply Hs|apply Hs|apply Hs|].
  intros e' k a' d n' r' Hk Ha' Hd Hno. destruct (decide (a' = a)) as [->|Hne].
  - destruct (He e' k Hk) as (_ & Hf & Hsp). rewrite Hr in Hsp. cbn in Hsp. rewrite Ha in Ha'. by injection Ha' as <- <- <-; rewrite Hsp.
  - apply (ok_results _ _ _ Hs e' k a' d n' r'); [done|done|done|]. set_solver.
Qed.

(** A result from an array of another element. *)
Lemma old_result_ok a open e e' s b : looking a open e s -> (e' < e)%nat -> old_result key n e' s = Some b -> b = spec n e'.
Proof.
  intros [Hs Ho (r & Ha & He)] Hlt. unfold old_result. destruct (combinator_cache s !! (e', key)) as [a'|] eqn:Hk; [|done]. cbn [mbind option_bind].
  destruct (arrays s !! a') as [[[d n'] r']|] eqn:Ha'; [|done]. cbn [mbind option_bind].
  destruct (Z.eqb_spec d (dirruns s)) as [Hd|]; [|done]. destruct (Nat.eqb_spec n' n) as [->|]; [|done]. intros [= <-].
  assert (a' ∉ a :: open) as Hno.
  { intros [-> | Hin]%elem_of_cons.
    - destruct (He e' key Hk) as [Hle _]. lia.
    - rewrite Forall_forall in Ho. destruct (Ho a' Hin) as (d2 & n2 & r2 & Ha2 & Hn2). rewrite Ha' in Ha2. injection Ha2 as <- <- <-. lia. }
  by rewrite (ok_results _ _ _ Hs e' key a' d n r').
Qed.

(** The array is kept at an element that is then tested. *)
Lemma looking_store a open e e' s : looking a open e s -> (e' < e)%nat ->
  let s1 := s <| combinator_cache := <[(e', key) := a]> (combinator_cache s) |> in
  state_ok spec (a :: open) s1 /\ Forall (outside lo n s1) (a :: open) /\ extends (fun a' => a' = a) s s1.
Proof.
  intros [Hs Ho (r & Ha & He)] Hlt s1. pose proof (ok_runs _ _ _ Hs a _ _ _ Ha) as [_ Hna]. split_and!.
  - split; cbn [set_field arrays next_array combinator_cache nth_cache dirruns s1].
    + by apply (indexes_ok_same s), Hs.
    + intros k a' [[_ <-]|[_ Hk]]%lookup_insert_Some; [done|]. by apply (ok_refs _ _ _ Hs k).
    + apply Hs.
    + intros x k a' d n' r' [[_ <-]|[_ Hk]]%lookup_insert_Some Ha' Hd Hno; [set_solver|]. by apply (ok_results _ _ _ Hs x k a' d n' r').
  - constructor; [exists (dirruns s), n, r; split; [done|lia]|]. eapply Forall_impl; [exact Ho|]. intros a' Ha'.
    apply (outside_weaken lo (S n)); [done|lia|exact Ha'].
  - split; cbn; [done|lia|done|]. intros k a' [[_ <-]|[_ Hk]]%lookup_insert_Some; auto.
Qed.

Lemma cached_loop_computes fuel a open e s : (e <= fuel)%nat -> looking a open e s ->
  let r := cached_loop fuel m c n a check e s in
  fst r = existsb sem (remaining e) /\ state_ok spec open (snd r) /\ extends (fun a' => a' = a) s (snd r).
Proof.
  revert e s. induction fuel as [|fuel IH]; intros e s Hf Hl; cbn [cached_loop].
  all: destruct (follow (dir c) e) as [e'|] eqn:He.
  2,4: assert (remaining e = []) as Hr by (rewrite remaining_unfold; by rewrite He); rewrite Hr; split; [done|];
       split; [by eapply stop_array|apply extends_refl].
  1: apply follow_before in He; [lia|done].
  pose proof (remaining_unfold e) as Hr. rewrite He in Hr. apply follow_before in He; [|done].
  pose proof Hl as [Hs Ho (r & Ha & Hent)].
  destruct (is_element e' || check) eqn:Hd.
  2: { rewrite Hr. apply IH; [lia|]. split; [done|done|]. exists r. split; [done|]. intros x k Hx. destruct (Hent x k Hx) as (? & ? & ?).
       split; [lia|]. split; [done|]. by rewrite <- Hr. }
  rewrite Hskip, bool_decide_eq_false_2 by done. rewrite Hr.
  destruct (old_result key n e' s) as [b|] eqn:Hold.
  - apply (old_result_ok a open e e' s b Hl He) in Hold as ->. rewrite Hspec. cbn [fst snd]. split; [done|]. split; [|apply set_result_extends].
    eapply close_array; [done|done|]. intros x k Hx. destruct (Hent x k Hx) as (_ & _ & ->). by rewrite Hr.
  - destruct (looking_store a open e e' s Hl He) as (Hs1 & Ho1 & Hx1). set (s1 := s <| combinator_cache := _ |>) in *.
    destruct (Hm (a :: open) s1 e' Hd Hs1 Ho1) as (Hb & Hs2 & Hx2). destruct (m e' s1) as [b s2]. cbn [fst snd] in Hb, Hs2, Hx2. subst b.
    pose proof (ok_runs _ _ _ Hs a _ _ _ Ha) as [_ Hna].
    assert (arrays s2 !! a = Some (dirruns s2, n, r)) as Ha2.
    { rewrite (same_arrays _ _ _ Hx2) by (done || auto). rewrite (same_run _ _ _ Hx2). exact Ha. }
    assert (forall x k, combinator_cache s2 !! (x, k) = Some a -> (e' <= x)%nat /\ spec n x = existsb sem (e' :: remaining e')) as Hent2.
    { intros x k Hx. apply (new_refs _ _ _ Hx2) in Hx as [Hx|[Hx|[]]]; [|cbn in Hx; lia].
      cbn in Hx. apply lookup_insert_Some in Hx as [[[= <- _] _]|[_ Hx]]; [split; [done|apply Hspec]|].
      destruct (Hent x k Hx) as (? & _ & ->). split; [lia|by rewrite Hr]. }
    assert (extends (fun a' => a' = a) s (set_result a (sem e') s2)) as Hx.
    { eapply extends_trans; [exact Hx1|]. eapply extends_trans; [|apply set_result_extends]. by eapply extends_mono; [|exact Hx2]. }
    destruct (sem e') eqn:Hsem.
    + cbn [existsb fst snd]. rewrite Hsem. split; [done|]. split; [|done]. eapply close_array; [done|done|].
      intros x k Hk. destruct (Hent2 x k Hk) as [_ ->]. cbn [existsb]. by rewrite Hsem.
    + cbn [existsb]. rewrite Hsem. cbn [orb]. destruct (IH e' (set_result a false s2)) as (H1 & H2 & H3); [lia| |].
      * split; [by eapply set_open| |].
        -- eapply Forall_impl; [|intros a'; apply set_result_outside]. eapply all_outside_extends; [exact Hx2|exact Hs1|exact Ho].
        -- exists (Some false). cbn. rewrite lookup_alter_eq, Ha2. split; [done|]. intros x k Hk. destruct (Hent2 x k Hk) as [? ->].
           cbn [existsb]. by rewrite Hsem.
      * split; [done|]. split; [done|]. by eapply extends_trans.
Qed.
End combinator.

(** [addCombinator]: an element is related to one that the matcher accepts. *)
Lemma addCombinator_computes spec lo n c base (m : matcher) ev sem : (lo <= n)%nat -> skip c = None -> dir c <> NextSibling ->
  computes spec lo n (fun e => is_element e || check_non_elements c base = true) (m ev) sem ->
  (forall e, spec n e = existsb sem (e :: remaining c (check_non_elements c base) e)) ->
  computes spec lo (S n) (fun _ => True) (addCombinator m c base n ev) (fun e => existsb sem (related c (check_non_elements c base) e)).
Proof.
  intros Hlo Hskip Hdir Hm Hspec open s e _ Hs Ho. unfold addCombinator, related. fold (remaining c (check_non_elements c base) e).
  destruct (is_first c); [by eapply first_loop_computes|]. destruct (xml ev); [by eapply xml_loop_computes|].
  set (a := next_array s). set (s0 := s <| arrays := _ |> <| next_array := _ |>).
  assert (forall x d n' r', arrays s !! x = Some (d, n', r') -> x <> a) as Hfresh.
  { intros x d n' r' Hx ->. apply (ok_runs _ _ _ Hs) in Hx as [_ Hx]. subst a. lia. }
  destruct (cached_loop_computes spec lo n c (check_non_elements c base) (m ev) sem Hm Hlo Hskip Hdir Hspec e a open e s0) as (H1 & H2 & H3); [done| |].
  - split.
    + split; cbn [set_field arrays next_array combinator_cache nth_cache dirruns s0].
      * by apply (indexes_ok_same s), Hs.
      * intros k x Hx. apply (ok_refs _ _ _ Hs) in Hx. lia.
      * intros x d n' r' [[<- [= <- <- <-]]|[_ Hx]]%lookup_insert_Some; [subst a; split; [done|lia]|].
        apply (ok_runs _ _ _ Hs) in Hx as [? ?]. split; [done|lia].
      * intros x k a' d n' r' Hk Ha' Hd Hno. rewrite lookup_insert_ne in Ha' by set_solver.
        apply (ok_results _ _ _ Hs x k a' d n' r'); [done|done|done|set_solver].
    + eapply Forall_impl; [exact Ho|]. intros x (d & n' & r & Hx & Hn). exists d, n', r. split; [|done]. cbn.
      rewrite lookup_insert_ne; [done|]. intros <-. by eapply Hfresh.
    + exists None. cbn. rewrite lookup_insert_eq. split; [done|]. intros x k Hx. apply (ok_refs _ _ _ Hs) in Hx. subst a. lia.
  - split; [exact H1|]. split; [exact H2|]. pose proof (more_arrays _ _ _ H3) as Hmore. cbn in Hmore. split.
    + rewrite (same_run _ _ _ H3). done.
    + subst a. lia.
    + intros x Hx _. rewrite (same_arrays _ _ _ H3) by (cbn; subst a; lia). cbn. rewrite lookup_insert_ne by (subst a; lia). done.
    + intros k x Hk. apply (new_refs _ _ _ H3) in Hk as [Hk|[Hk| ->]]; [by left|right; left; cbn in Hk; subst a; lia|right; left; done].
Qed.

(** ** Compiled matchers *)

(** A matcher of the names from [lo] to [hi] computes [sem] on elements, as soon
    as the kept results are read by a table for these names. *)
Definition correct (ev : env) (lo hi : nat) (m : matcher) (sem : nat -> bool) : Prop :=
  exists table : nat -> nat -> bool, forall spec, (forall k e, (lo <= k < hi)%nat -> spec k e = table k e) ->
    computes spec lo hi (fun e => is_element e = true) (m ev) sem.

Lemma computes_and spec lo hi dom m1 m2 sem1 sem2 :
  computes spec lo hi dom m1 sem1 -> computes spec lo hi dom m2 sem2 ->
  computes spec lo hi dom (fun e s => let '(b, s) := m1 e s in if b then m2 e s else (false, s)) (fun e => sem1 e && sem2 e).
Proof.
  intros H1 H2 open s e He Hs Ho. destruct (H1 open s e He Hs Ho) as (Hb & Hs1 & Hx1). destruct (m1 e s) as [b s1]. cbn [fst snd] in *. subst b.
  destruct (sem1 e); [|done]. cbn [andb]. destruct (H2 open s1 e He Hs1) as (Hb2 & Hs2 & Hx2); [by eapply all_outside_extends|].
  split; [done|]. split; [done|]. by eapply extends_trans.
Qed.

Lemma computes_proper spec lo hi (dom : nat -> Prop) m sem sem' : (forall e, dom e -> sem e = sem' e) -> computes spec lo hi dom m sem -> computes spec lo hi dom m sem'.
Proof. intros Hse H open s e He Hs Ho. rewrite <- Hse by done. by apply H. Qed.

(** A test is added behind the others, and runs before them. *)
Lemma correct_filter ev lo hi ms m sem f : (lo <= hi)%nat ->
  (forall spec, computes spec lo lo (fun e => is_element e = true) (m ev) f) ->
  correct ev lo hi (elementMatcher ms) sem -> correct ev lo hi (elementMatcher (ms ++ [m])) (fun e => f e && sem e).
Proof.
  intros Hle Hm [table Ht]. exists table. intros spec Hsp. unfold elementMatcher. rewrite rev_unit. cbn [run_all].
  apply computes_and; [|by apply Ht]. by apply (computes_weaken spec lo hi lo lo).
Qed.

Lemma check_false c : check_non_elements c false = false.
Proof. done. Qed.

Lemma correct_combinator ev lo n m c sem : (lo <= n)%nat -> skip c = None -> dir c <> NextSibling ->
  correct ev lo n m sem -> correct ev lo (S n) (elementMatcher [addCombinator m c false n]) (fun e => existsb sem (related c false e)).
Proof.
  intros Hle Hskip Hdir [table Ht]. exists (fun k e => if (k =? n)%nat then existsb sem (e :: remaining c false e) else table k e). intros spec Hsp.
  unfold elementMatcher. cbn [rev app run_all].
  apply (computes_proper _ _ _ _ _ (fun e => existsb sem (related c false e) && true)); [intros; by rewrite andb_true_r|].
  apply computes_and; [|by apply (computes_weaken _ _ _ lo lo); [lia|lia|apply (computes_pure spec lo _ (fun _ => true))]].
  intros open s e _. apply (addCombinator_computes spec lo n c false m ev sem); [done|done|done| | |done].
  - rewrite check_false. eapply computes_weaken; [| |intros o s' e' He'; eapply (Ht spec)]; [done|done| |].
    + intros k x Hk. rewrite Hsp by lia. by destruct (Nat.eqb_spec k n); [lia|].
    + by rewrite orb_false_r in He'.
  - intros x. rewrite Hsp by lia. by rewrite Nat.eqb_refl.
Qed.

Lemma relative_of_plain k r : relative_of k = Some r -> skip r = None /\ dir r <> NextSibling.
Proof. destruct k; try done. cbn. repeat (case_match; [by intros [= <-]|]). done. Qed.
Lemma check_true c : skip c = None -> dir c <> NextSibling -> check_non_elements c true = bool_decide (dir c = ParentNode).
Proof. unfold check_non_elements. intros ->. by destruct (dir c). Qed.

Lemma correct_base ev leading done_ : (forall r, leading = Some r -> skip r = None /\ dir r <> NextSibling) ->
  correct ev done_ (done_ + 2) (elementMatcher [base_matcher leading done_]) (rooted ev leading).
Proof.
  intros Hl. set (c := default descendant leading). assert (skip c = None /\ dir c <> NextSibling) as [Hskip Hdir] by (subst c; by destruct leading; [apply Hl|]).
  set (sem := fun n => (n =? context ev)%nat). set (check := check_non_elements c true).
  exists (fun _ e => existsb sem (e :: remaining c check e)). intros spec Hsp. unfold elementMatcher. cbn [rev app run_all].
  apply (computes_proper _ _ _ _ _ (fun e => rooted ev leading e && true)); [intros; by rewrite andb_true_r|].
  apply computes_and; [|by apply (computes_weaken _ _ _ done_ done_); [lia|lia|apply (computes_pure spec done_ _ (fun _ => true))]].
  unfold base_matcher, rooted. fold c. rewrite <- check_true by done. fold check sem. destruct (_ && _).
  - cbn [orb]. apply (computes_weaken _ _ _ done_ done_); [lia|lia|]. apply (computes_pure spec done_ _ (fun _ => true)).
  - cbn [orb]. apply (computes_weaken _ _ _ done_ (S done_)); [lia|lia|].
    intros open s e _. apply (addCombinator_computes spec done_ done_ c true (fun ev elem s => ((elem =? context ev)%nat, s)) ev sem); [done|done|done| | |done].
    + apply (computes_pure spec done_ _ sem).
    + intros x. apply Hsp. lia.
Qed.

(** Tokens as the tokenizer makes them. *)
Definition token_ok (t : token) : Prop :=
  match kind_of t with
  | KChild type _ arg => child_ok type arg
  | KClass raw => raw <> [] /\ (92 ∉ raw -> Forall (fun c => ident_char c = true) raw)
  | _ => True
  end.

(** The selector does not contain :nth-last-child. *)
Definition reliable (t : token) : Prop :=
  match kind_of t with KChild type what _ => type = str "nth-last" -> what = str "of-type" | _ => True end.
Definition matchable (t : token) : Prop := token_ok t /\ reliable t.

Lemma filter_matcher_computes ev k m t : kind_of t = k -> matchable t -> filter_matcher k = Ok (Some m) ->
  forall spec lo, computes spec lo lo (fun e => is_element e = true) (m ev) (filter_holds (xml ev) k).
Proof.
  intros Hk [Ht Hrel] Hm spec lo. unfold token_ok in Ht. unfold reliable in Hrel. rewrite Hk in Ht, Hrel. destruct k; cbn in Hm; try (injection Hm as <-; apply computes_pure); try done.
  - injection Hm as <-. by apply computes_child.
  - destruct (PSEUDO _ _) as [[test|]|] eqn:E; try done. injection Hm as <-.
    apply (computes_proper _ _ _ _ _ test); [intros e _; cbn; by rewrite E|apply computes_pure].
Qed.

Lemma from_tokens_correct ev leading lo tokens acc ms done_ m done' : Forall matchable tokens -> (lo <= done_)%nat ->
  correct ev lo done_ (elementMatcher ms) (holds ev leading acc) -> from_tokens tokens ms done_ = (Ok (Some m), done') ->
  (done_ <= done')%nat /\ correct ev lo done' m (holds ev leading (rev tokens ++ acc)).
Proof.
  intros Htok. revert acc ms done_. induction Htok as [|t tokens Ht Htok IH]; intros acc ms done_ Hle Hms; cbn [from_tokens].
  - intros [= <- <-]. done.
  - cbn [rev]. rewrite <- app_assoc. cbn [app]. destruct (relative_of (kind_of t)) as [r|] eqn:Hr.
    + intros Hf. destruct (relative_of_plain _ _ Hr) as [Hskip Hdir].
      destruct (IH (t :: acc) [addCombinator (elementMatcher ms) r false done_] (S done_)) as [H1 H2]; [lia| |done|split; [lia|done]].
      cbn [holds]. rewrite Hr. by apply correct_combinator.
    + destruct (filter_matcher (kind_of t)) as [[m'|]|] eqn:Hm; try done. intros Hf.
      apply (IH (t :: acc) (ms ++ [m']) done_); [lia| |done]. cbn [holds]. rewrite Hr. apply correct_filter; [done| |done].
      intros spec. by eapply filter_matcher_computes.
Qed.

Lemma matcherFromTokens_correct ev tokens done_ m done' : Forall matchable tokens -> matcherFromTokens tokens done_ = (Ok (Some m), done') ->
  (done_ <= done')%nat /\ correct ev done_ done' m (selects ev tokens).
Proof.
  intros Ht. destruct tokens as [|t rest]; [done|]. cbn [matcherFromTokens selects]. set (leading := relative_of (kind_of t)). intros Hf.
  assert (Forall matchable (match leading with Some _ => rest | None => t :: rest end)) as Ht'.
  { apply Forall_cons in Ht as [? ?]. destruct leading; [done|by constructor]. }
  destruct (from_tokens_correct ev leading done_ _ [] [base_matcher leading done_] (done_ + 2) m done' Ht') as [H1 H2]; [lia| |done|].
  - apply correct_base. intros r. apply relative_of_plain.
  - rewrite app_nil_r in H2. split; [lia|done].
Qed.
End meaning.
