(* ===== verification/SizzleLex.v ===== *)
(** The tokenizer of the selector engine: every parser leaves a rest of its text,
    tokens are pieces of it, and the fuel is enough. *)
From Stdlib Require Import String.
From S2P Require Import Prelude JsString ClassNames SizzleText SizzleTokens SizzleDom SizzleFilters SizzleChild SizzleMatch SizzleMatchProps.

(** ** Rests *)

Create HintDb rests.
Lemma rest_refl (s : jstr) : s `suffix_of` s.
Proof. done. Qed.
Lemma rest_cons c (r s : jstr) : (c :: r) `suffix_of` s -> r `suffix_of` s.
Proof. intros [k ->]. exists (k ++ [c]). by rewrite <- app_assoc. Qed.
Lemma rest_drop n (r s : jstr) : r `suffix_of` s -> drop n r `suffix_of` s.
Proof. intros [k ->]. exists (k ++ take n r). by rewrite <- app_assoc, take_drop. Qed.
Lemma rest_length (r s : jstr) : r `suffix_of` s -> (length r <= length s)%nat.
Proof. intros [k ->]. rewrite length_app. lia. Qed.
Lemma consumed_rest (s r : jstr) : r `suffix_of` s -> consumed s r ++ r = s.
Proof.
  intros [k ->]. unfold consumed. rewrite length_app. replace (length k + length r - length r)%nat with (length k) by lia. by rewrite take_app_length.
Qed.
Lemma consumed_length (s r : jstr) : r `suffix_of` s -> (length (consumed s r) = length s - length r)%nat.
Proof. intros H. rewrite <- (consumed_rest s r H) at 2. rewrite length_app. lia. Qed.

Lemma skip_ws_rest s r : s `suffix_of` r -> skip_ws s `suffix_of` r.
Proof.
  revert r. induction s as [|c s IH]; intros r Hr; [done|]. cbn. destruct (is_ws c); [|done]. apply IH. by eapply rest_cons.
Qed.
Lemma literal_rest c s s' r : literal c s = Some s' -> s `suffix_of` r -> s' `suffix_of` r /\ (length s' < length r)%nat.
Proof.
  unfold literal. destruct s as [|d s]; [done|]. destruct (c =? d); [|done]. intros [= <-] Hr.
  split; [by eapply rest_cons|]. apply rest_length in Hr. cbn in Hr. lia.
Qed.
Lemma ident_prefix_is s : exists r, s = ident_prefix s ++ r.
Proof.
  remember (length s) as n eqn:Hn. revert s Hn. induction n as [n IH] using lt_wf_ind. intros s ->. destruct s as [|c s]; [by exists []|]. cbn [ident_prefix].
  destruct (c =? 92).
  - destruct s as [|d s]; [by exists [c]|]. destruct (line_end d); [by eexists|]. destruct (IH (length s)) with (s := s) as [r Hr]; [cbn; lia|done|].
    exists r. cbn [app]. by rewrite <- Hr.
  - destruct (ident_char c); [|by eexists]. destruct (IH (length s)) with (s := s) as [r Hr]; [cbn; lia|done|]. exists r. cbn [app]. by rewrite <- Hr.
Qed.
Lemma identifier_text s i s' : identifier s = Some (i, s') -> s = i ++ s' /\ i <> [] /\ ident_prefix s = i.
Proof.
  unfold identifier. destruct (ident_prefix_is s) as [r Hr]. destruct (ident_prefix s) as [|c i'] eqn:E; [done|]. intros [= <- <-].
  split; [|done]. rewrite Hr at 1. f_equal. pose proof (drop_app_length (c :: i') r) as Hd. rewrite <- Hr in Hd. by rewrite <- Hd.
Qed.
Lemma ident_prefix_chars s : 92 ∉ ident_prefix s -> Forall (fun c => ident_char c = true) (ident_prefix s).
Proof.
  induction s as [|c s IH]; [constructor|]. cbn [ident_prefix]. destruct (Z.eqb_spec c 92) as [->|].
  - destruct s as [|d s]; [constructor|]. destruct (line_end d); [constructor|]. set_solver.
  - destruct (ident_char c) eqn:E; [|constructor]. intros H. constructor; [done|]. apply IH. set_solver.
Qed.
Lemma identifier_class s i s' v : identifier s = Some (i, s') -> token_ok {| value := v; kind_of := KClass i |}.
Proof. intros (_ & Hi & <-)%identifier_text. split; [done|apply ident_prefix_chars]. Qed.
Lemma identifier_rest s i s' r : identifier s = Some (i, s') -> s `suffix_of` r -> s' `suffix_of` r /\ (length s' < length r)%nat.
Proof.
  intros (-> & Hi & _)%identifier_text [k ->]. rewrite !length_app. destruct i as [|c i]; [done|]. split; [|cbn; lia].
  exists (k ++ c :: i). by rewrite <- app_assoc.
Qed.
Lemma quoted_rest_rest q s t s' r : quoted_rest q s = Some (t, s') -> s `suffix_of` r -> s' `suffix_of` r.
Proof.
  remember (length s) as n eqn:Hn. revert s t Hn. induction n as [n IH] using lt_wf_ind. intros s t -> Hq Hr.
  destruct s as [|c s]; [done|]. cbn [quoted_rest] in Hq. pose proof (rest_cons _ _ _ Hr) as Hr1. destruct (c =? q); [by injection Hq as <- <-|].
  destruct (c =? 92).
  - destruct s as [|d s]; [done|]. destruct (line_end d); [done|]. destruct (quoted_rest q s) as [[t' s'']|] eqn:E; [|done]. injection Hq as <- <-.
    eapply (IH (length s)); [cbn; lia|done|exact E|by eapply rest_cons].
  - destruct (quoted_rest q s) as [[t' s'']|] eqn:E; [|done]. injection Hq as <- <-. eapply (IH (length s)); [cbn; lia|done|exact E|done].
Qed.
Lemma quoted_is_rest s t s' r : quoted s = Some (t, s') -> s `suffix_of` r -> s' `suffix_of` r.
Proof.
  unfold quoted. destruct s as [|c s]; [done|]. destruct (_ || _); [|done]. intros Hq Hr. eapply quoted_rest_rest; [exact Hq|by eapply rest_cons].
Qed.
Lemma attr_operator_rest s o s' r : attr_operator s = Some (o, s') -> s `suffix_of` r -> s' `suffix_of` r.
Proof.
  intros Ho Hr. assert (exists c, s = c :: s' \/ exists d, s = c :: d :: s') as (c & [-> | [d ->]]).
  { unfold attr_operator in Ho. repeat (case_match; try done); injection Ho as <- <-; eauto. }
  - by eapply rest_cons.
  - by eapply rest_cons, rest_cons.
Qed.
Lemma literal_i_rest p s s' r : literal_i p s = Some s' -> s `suffix_of` r -> s' `suffix_of` r.
Proof.
  revert s. induction p as [|a p IH]; intros s; cbn; [by intros [= <-]|]. destruct s as [|b s]; [done|]. destruct (a =? lower b); [|done].
  intros Hl Hr. eapply IH; [done|by eapply rest_cons].
Qed.
Lemma sign_rest s g s' r : sign s = (g, s') -> s `suffix_of` r -> s' `suffix_of` r.
Proof. unfold sign. destruct s as [|c s]; [by intros [= _ <-]|]. repeat (case_match; [intros [= _ <-] ?; by eapply rest_cons|]). by intros [= _ <-]. Qed.
#[export] Hint Resolve rest_refl skip_ws_rest rest_drop : rests.

Lemma attributes_rest s a s' r : attributes s = Some (a, s') -> s `suffix_of` r -> s' `suffix_of` r /\ (length s' < length r)%nat.
Proof.
  intros Ha Hr. unfold attributes in Ha. destruct (literal 91 s) as [r1|] eqn:E1; [|done]. cbn [mbind option_bind] in Ha.
  apply literal_rest with (r := r) in E1 as [H1 L1]; [|done].
  destruct (identifier (skip_ws r1)) as [[name r2]|] eqn:E2; [|done]. cbn [mbind option_bind] in Ha.
  apply identifier_rest with (r := r) in E2 as [H2 L2]; [|by apply skip_ws_rest].
  set (w := attr_operator (skip_ws r2) ≫= _) in Ha. destruct w as [[[n o] r3]|] eqn:Ew.
  - injection Ha as <- <-. subst w. destruct (attr_operator (skip_ws r2)) as [[op r4]|] eqn:E3; [|done]. cbn [mbind option_bind] in Ew.
    apply attr_operator_rest with (r := r) in E3; [|by apply skip_ws_rest].
    set (q := match quoted (skip_ws r4) with Some q => Some q | None => identifier (skip_ws r4) end) in Ew.
    destruct q as [[v r5]|] eqn:Eq; [|done]. cbn [mbind option_bind] in Ew. assert (r5 `suffix_of` r) as H5.
    { subst q. destruct (quoted (skip_ws r4)) as [q|] eqn:E4.
      - injection Eq as ->. eapply quoted_is_rest; [exact E4|by apply skip_ws_rest].
      - eapply identifier_rest; [exact Eq|by apply skip_ws_rest]. }
    destruct (literal 93 (skip_ws r5)) as [r6|] eqn:E6; [|done]. injection Ew as <- <- <-. eapply literal_rest; [exact E6|by apply skip_ws_rest].
  - destruct (literal 93 (skip_ws r2)) as [r6|] eqn:E6; [|done]. injection Ha as <- <-. eapply literal_rest; [exact E6|by apply skip_ws_rest].
Qed.

Lemma xn_part_rest s x s' r : xn_part s = Some (x, s') -> s `suffix_of` r -> s' `suffix_of` r.
Proof.
  unfold xn_part. destruct (sign s) as [g r1] eqn:E1. intros Hx Hr. apply sign_rest with (r := r) in E1; [|done].
  destruct (literal_i [110] _) as [r2|] eqn:E2; [|done]. injection Hx as _ <-. eapply literal_i_rest; [exact E2|by apply rest_drop].
Qed.
Lemma y_part_rest s y s' r : y_part s = Some (y, s') -> s `suffix_of` r -> s' `suffix_of` r.
Proof.
  unfold y_part. destruct (sign s) as [g r1] eqn:E1. intros Hx Hr. apply sign_rest with (r := r) in E1; [|done].
  destruct (digit_run (skip_ws r1)); [done|]. injection Hx as _ <-. by apply rest_drop, skip_ws_rest.
Qed.
Lemma child_argument_rest s a s' r : child_argument s = Some (a, s') -> s `suffix_of` r -> s' `suffix_of` r /\ (length s' < length r)%nat.
Proof.
  intros Ha Hr. unfold child_argument in Ha. apply skip_ws_rest in Hr. set (s0 := skip_ws s) in *. clearbody s0.
  assert (forall text (ab : Z * Z) (r1 : jstr) (a : jstr * (Z * Z)), r1 `suffix_of` r ->
    (r2 ← literal 41 (skip_ws r1); Some (text, ab, r2)) = Some (a, s') -> s' `suffix_of` r /\ (length s' < length r)%nat) as Hclose.
  { intros text ab r1 a' H1. destruct (literal 41 (skip_ws r1)) as [r2|] eqn:E; [|done]. intros [= _ <-]. eapply literal_rest; [exact E|by apply skip_ws_rest]. }
  cbv zeta in Ha. match type of Ha with match ?x with Some _ => _ | None => _ end = _ => destruct x as [a'|] eqn:E end.
  - injection Ha as ->. destruct (literal_i (str "even") s0) as [r1|] eqn:E1.
    + eapply Hclose; [|exact E]. by eapply literal_i_rest.
    + destruct (literal_i (str "odd") s0) as [r1|] eqn:E2; [|done]. eapply Hclose; [|exact E]. by eapply literal_i_rest.
  - clear E. destruct (match xn_part s0 with Some (x, r1) => (x, r1) | None => (0, s0) end) as [x r1] eqn:E1.
    assert (r1 `suffix_of` r) as H1.
    { destruct (xn_part s0) as [[x' r1']|] eqn:E2; injection E1 as <- <-; [by eapply xn_part_rest|done]. }
    destruct (match y_part (skip_ws r1) with Some (y, r2) => (y, r2) | None => (0, skip_ws r1) end) as [y r2] eqn:E2.
    eapply Hclose; [|exact Ha]. destruct (y_part (skip_ws r1)) as [[y' r2']|] eqn:E3; injection E2 as <- <-; [|by apply skip_ws_rest].
    eapply y_part_rest; [exact E3|by apply skip_ws_rest].
Qed.

Lemma child_name_rest l s type what s' r : child_name l s = Some (type, what, s') -> s `suffix_of` r -> s' `suffix_of` r.
Proof.
  induction l as [|[ty wh] l IH]; [done|]. cbn [child_name]. intros Hc Hr.
  destruct (literal_i (str ty) s ≫= literal 45) as [r1|] eqn:E1; cbn [mbind option_bind] in Hc; [|by apply IH].
  destruct (literal_i (str wh) r1) as [r2|] eqn:E2; cbn [fmap option_fmap option_map] in Hc; [|by apply IH]. injection Hc as <- <- <-.
  destruct (literal_i (str ty) s) as [r3|] eqn:E3; [|done]. cbn [mbind option_bind] in E1.
  eapply literal_i_rest; [exact E2|]. eapply literal_rest; [exact E1|]. by eapply literal_i_rest.
Qed.
Lemma child_exec_rest s type what arg s' : child_exec s = Some (type, what, arg, s') -> s' `suffix_of` s /\ (length s' < length s)%nat.
Proof.
  unfold child_exec. destruct (literal 58 s) as [r1|] eqn:E1; [|done]. cbn [mbind option_bind].
  apply literal_rest with (r := s) in E1 as [H1 L1]; [|done].
  destruct (child_name child_words r1) as [[[ty wh] r2]|] eqn:E2; [|done]. cbn [mbind option_bind].
  pose proof (child_name_rest _ _ _ _ _ s E2 H1) as H2. pose proof (child_name_rest _ _ _ _ _ r1 E2 (rest_refl r1)) as H2'%rest_length.
  destruct (literal 40 r2 ≫= child_argument) as [[[text xy] r3]|] eqn:E3.
  - intros [= <- <- <- <-]. destruct (literal 40 r2) as [r4|] eqn:E4; [|done]. cbn [mbind option_bind] in E3.
    apply literal_rest with (r := s) in E4 as [H4 L4]; [|done]. by eapply child_argument_rest.
  - intros [= <- <- <- <-]. split; [done|lia].
Qed.

Lemma simple_run_rest fuel s r : s `suffix_of` r -> simple_run fuel s `suffix_of` r.
Proof.
  revert s. induction fuel as [|fuel IH]; intros s Hr; [by destruct s|]. destruct s as [|c s]; [done|]. cbn [simple_run].
  pose proof (rest_cons _ _ _ Hr) as Hr1. destruct (c =? 92).
  - destruct s as [|d s]; [done|]. destruct (line_end d); [done|]. apply IH. by eapply rest_cons.
  - destruct (c =? 91).
    + destruct (attributes (c :: s)) as [[a rest]|] eqn:E; [|done]. destruct a. apply IH. by eapply attributes_rest.
    + destruct (_ || _ || _); [done|]. by apply IH.
Qed.
Lemma up_to_last_close_text s t s' : up_to_last_close s = Some (t, s') -> s = t ++ 41 :: s'.
Proof.
  revert t. induction s as [|c s IH]; intros t; [done|]. cbn [up_to_last_close]. destruct (line_end c); [done|].
  destruct (up_to_last_close s) as [[t' r]|] eqn:E.
  - intros [= <- <-]. cbn [app]. f_equal. by apply IH.
  - destruct (Z.eqb_spec c 41) as [->|]; [|done]. by intros [= <- <-].
Qed.
Lemma pseudo_argument_rest s a s' : pseudo_argument s = Some (a, s') ->
  s' `suffix_of` s /\ forall t, a = PAny t -> (length t + length s' < length s)%nat.
Proof.
  unfold pseudo_argument. set (q := quoted s ≫= _). destruct q as [[a' s1]|] eqn:Eq.
  - intros [= <- <-]. subst q. destruct (quoted s) as [[inner r1]|] eqn:E1; [|done]. cbn [mbind option_bind] in Eq.
    destruct (literal 41 r1) as [r2|] eqn:E2; [|done]. cbn [mbind option_bind] in Eq. injection Eq as <- <-. split; [|done].
    eapply literal_rest; [exact E2|]. by eapply quoted_is_rest.
  - destruct (literal 41 (simple_run _ s)) as [r1|] eqn:E1.
    + intros [= <- <-]. split; [|done]. eapply literal_rest; [exact E1|]. by apply simple_run_rest.
    + destruct (up_to_last_close s) as [[t r]|] eqn:E2; [|done]. cbn [mbind option_bind]. intros [= <- <-]. apply up_to_last_close_text in E2 as ->.
      split; [exists (t ++ [41]); by rewrite <- app_assoc|]. intros t' [= <-]. rewrite length_app. cbn. lia.
Qed.
Lemma pseudo_exec_rest s name a s' : pseudo_exec s = Some (name, a, s') ->
  s' `suffix_of` s /\ (length s' < length s)%nat /\ forall t, a = Some (PAny t) -> (length t + length s' + 3 <= length s)%nat.
Proof.
  unfold pseudo_exec. destruct (literal 58 s) as [r1|] eqn:E1; [|done]. cbn [mbind option_bind].
  apply literal_rest with (r := s) in E1 as [H1 L1]; [|done].
  destruct (identifier r1) as [[i r2]|] eqn:E2; [|done]. cbn [mbind option_bind].
  pose proof E2 as E2'. apply identifier_rest with (r := r1) in E2' as [_ L2']; [|done].
  apply identifier_rest with (r := s) in E2 as [H2 L2]; [|done].
  destruct (literal 40 r2 ≫= pseudo_argument) as [[a' r3]|] eqn:E3.
  - intros [= <- <- <-]. destruct (literal 40 r2) as [r4|] eqn:E4; [|done]. cbn [mbind option_bind] in E3.
    pose proof E4 as E4'. apply literal_rest with (r := r2) in E4' as [_ L4']; [|done].
    apply literal_rest with (r := s) in E4 as [H4 L4]; [|done]. apply pseudo_argument_rest in E3 as [H3 Hany].
    pose proof (rest_length _ _ H3). split; [by etrans|]. split; [lia|]. intros t [= ->]. specialize (Hany t eq_refl). lia.
  - intros [= <- <- <-]. split_and!; [done|lia|done].
Qed.

(** ** Tokens are pieces of the text *)

Lemma child_name_type l s type what s' : child_name l s = Some (type, what, s') -> exists ty, type = str ty /\ ty ∈ map fst l.
Proof.
  induction l as [|[ty wh] l IH]; [done|]. cbn [child_name map fst].
  destruct (literal_i (str ty) s ≫= literal 45) as [r1|]; cbn [mbind option_bind].
  2: { intros (t & -> & Ht)%IH. exists t. split; [done|by right]. }
  destruct (literal_i (str wh) r1) as [r2|]; cbn [fmap option_fmap option_map].
  - intros [= <- <- <-]. exists ty. split; [done|left].
  - intros (t & -> & Ht)%IH. exists t. split; [done|by right].
Qed.

(** [preFilter.CHILD] lets arguments through for nth only. *)
Lemma child_prefilter_ok s type what arg s' k v : child_exec s = Some (type, what, arg, s') -> child_prefilter type what arg = Ok k ->
  token_ok {| value := v; kind_of := k |}.
Proof.
  unfold child_exec. destruct (literal 58 s) as [r1|]; [|done]. cbn [mbind option_bind].
  destruct (child_name child_words r1) as [[[ty wh] r2]|] eqn:E; [|done]. cbn [mbind option_bind].
  apply child_name_type in E as (t & -> & Ht). intros Hc.
  assert (type = str t) as -> by (destruct (literal 40 r2 ≫= child_argument) as [[[? ?] ?]|]; by injection Hc). clear Hc.
  assert (t = "only" \/ t = "first" \/ t = "last" \/ t = "nth" \/ t = "nth-last")%string as Hwords.
  { unfold child_words in Ht. cbn [map fst] in Ht. repeat (apply elem_of_cons in Ht as [Ht|Ht]); auto 6. by apply elem_of_nil in Ht. }
  unfold child_prefilter, token_ok. destruct Hwords as [-> | [-> | [-> | [-> | ->]]]].
  1-3: match goal with |- context [is_prefix ?a ?b] => change (is_prefix a b) with false end; cbv iota;
       (destruct (decide _); [|done]); intros [= <-]; cbn [kind_of]; apply simple_ok; auto.
  all: match goal with |- context [is_prefix ?a ?b] => change (is_prefix a b) with true end; cbv iota;
       destruct arg as [[[|c text] ab]|]; try done; intros [= <-]; cbn [kind_of]; apply nth_ok; auto.
Qed.

(** A token of a text, with what is behind it. *)
Definition token_at (s : jstr) (t : token) : Prop := value t <> [] /\ value t `prefix_of` s /\ token_ok t /\ forall c, kind_of t <> KRel c.

Lemma consumed_token (s r : jstr) k : r `suffix_of` s -> (length r < length s)%nat -> token_ok {| value := []; kind_of := k |} ->
  (forall c, k <> KRel c) -> token_at s {| value := consumed s r; kind_of := k |}.
Proof.
  intros Hr Hl Hk Hrel. pose proof (consumed_length s r Hr) as Hlen. split; cbn [value kind_of].
  - intros He. rewrite He in Hlen. cbn in Hlen. lia.
  - split; [|done]. exists r. symmetry. by apply consumed_rest.
Qed.

Lemma slice_to_token (s : jstr) (n : Z) : s <> [] -> (0 < Z.of_nat (length s) + n) -> slice_to n s <> [] /\ slice_to n s `prefix_of` s.
Proof.
  intros Hs Hn. unfold slice_to. split.
  - destruct s as [|c s]; [done|]. destruct (Z.to_nat _) eqn:E; [cbn in *; lia|done].
  - exists (drop (Z.to_nat (Z.of_nat (length s) + n)) s). by rewrite take_drop.
Qed.

Lemma pseudo_prefilter_token left_over s m tk : pseudo_exec s = Some m -> pseudo_prefilter left_over s m = fret (Some tk) -> token_at s tk.
Proof.
  destruct m as [[name a] rest]. intros Hm. destruct (pseudo_exec_rest s name a rest Hm) as (Hr & Hl & Hany). unfold pseudo_prefilter.
  destruct (child_exec (consumed s rest)); [done|].
  assert (forall arg, token_at s {| value := consumed s rest; kind_of := KPseudo name arg |}) as Hplain by (intros; by apply consumed_token).
  destruct (_ && _) eqn:Eu; [|intros [= <-]; apply Hplain].
  destruct a as [[text inner|text|text]|]; try done. specialize (Hany text eq_refl). destruct (left_over text) as [[n|]|]; try done. cbn [fbind].
  destruct (_ || _); [intros [= <-]; apply Hplain|]. intros [= <-].
  pose proof (consumed_length s rest Hr) as Hlen. pose proof (consumed_rest s rest Hr) as Hs.
  assert (-1 - Z.of_nat (length text) <= excess_of text (length text - n)) as Hex.
  { unfold excess_of. destruct (index_close _ _); lia. }
  destruct (slice_to_token (consumed s rest) (excess_of text (length text - n))) as [Hne [k Hk]]; [by apply (Hplain None)|lia|].
  split; [exact Hne|]. split; [|done]. cbn [value]. exists (k ++ rest). rewrite app_assoc, <- Hk. done.
Qed.

Lemma exec_filter_token left_over t s tk : exec_filter left_over t s = fret (Some tk) -> token_at s tk.
Proof.
  destruct t; cbn [exec_filter].
  - destruct (identifier s) as [[i r]|] eqn:E.
    + intros [= <-]. apply identifier_rest with (r := s) in E as [Hr Hl]; [|done]. by apply consumed_token.
    + destruct (literal 42 s) as [r|] eqn:E2; [|done]. intros [= <-]. apply literal_rest with (r := s) in E2 as [Hr Hl]; [|done]. by apply consumed_token.
  - destruct (literal 46 s) as [r1|] eqn:E1; [|done]. cbn [mbind option_bind]. destruct (identifier r1) as [[i r]|] eqn:E; [|done]. intros [= <-].
    pose proof (identifier_class _ _ _ [] E) as Hc.
    apply literal_rest with (r := s) in E1 as [Hr1 Hl1]; [|done]. apply identifier_rest with (r := s) in E as [Hr Hl]; [|done]. by apply consumed_token.
  - destruct (attributes s) as [[a r]|] eqn:E; [|done]. intros [= <-]. apply attributes_rest with (r := s) in E as [Hr Hl]; [|done].
    destruct a as [name [[op v]|]]; by apply consumed_token.
  - destruct (child_exec s) as [[[[type what] arg] r]|] eqn:E; [|done]. destruct (child_prefilter type what arg) as [k|] eqn:Ek; [|done].
    intros [= <-]. destruct (child_exec_rest _ _ _ _ _ E) as [Hr Hl]. apply consumed_token; [done|done|by eapply child_prefilter_ok|].
    unfold child_prefilter in Ek. repeat (case_match; try done); by injection Ek as <-.
  - destruct (pseudo_exec s) as [m|] eqn:E; [|done]. by apply pseudo_prefilter_token.
  - destruct (literal 35 s) as [r1|] eqn:E1; [|done]. cbn [mbind option_bind]. destruct (identifier r1) as [[i r]|] eqn:E; [|done]. intros [= <-].
    apply literal_rest with (r := s) in E1 as [Hr1 Hl1]; [|done]. apply identifier_rest with (r := s) in E as [Hr Hl]; [|done]. by apply consumed_token.
Qed.

(** ** The loops *)

(** A token made of characters of a text. *)
Definition piece (s : jstr) (t : token) : Prop :=
  value t <> [] /\ (forall c, c ∈ value t -> c ∈ s) /\ token_ok t /\
  forall c, kind_of t = KRel c -> c = 32 \/ (c ∈ value t /\ (c = 62 \/ c = 43 \/ c = 126)).
Lemma piece_mono (s s' : jstr) t : (forall c, c ∈ s -> c ∈ s') -> piece s t -> piece s' t.
Proof. intros Hs (H1 & H2 & H3 & H4). split_and!; auto. Qed.
Lemma pieces_app (s p : jstr) l : Forall (piece s) l -> Forall (piece (p ++ s)) l.
Proof. intros Hl. eapply Forall_impl; [exact Hl|]. intros t. apply piece_mono. intros c Hc. apply elem_of_app. by right. Qed.
Lemma token_at_piece s t : token_at s t -> piece s t.
Proof. intros (H1 & [k ->] & H3 & H4). split_and!; [done|intros c Hc; apply elem_of_app; by left|done|]. by intros c Hk%H4. Qed.

Lemma skip_ws_length s : (length (skip_ws s) <= length s)%nat.
Proof. apply rest_length, skip_ws_rest, rest_refl. Qed.
Lemma rcombinators_piece s c r : rcombinators s = Some (c, r) ->
  let t := {| value := consumed s r; kind_of := KRel c |} in s = value t ++ r /\ piece s t /\ (length r < length s)%nat.
Proof.
  intros Hc. cbn [value]. assert (r `suffix_of` s /\ (length r < length s)%nat /\ (c = 32 \/ (c ∈ consumed s r /\ (c = 62 \/ c = 43 \/ c = 126)))) as (Hr & Hl & Hin).
  { unfold rcombinators in Hc. pose proof (skip_ws_rest s s (rest_refl s)) as Hs. destruct (skip_ws s) as [|d r0] eqn:E.
    - destruct s as [|w s]; [done|]. injection Hc as <- <-. split_and!; [by apply suffix_nil|cbn; lia|by left].
    - destruct (_ || _) eqn:Eor.
      + injection Hc as -> <-. pose proof (skip_ws_length r0). pose proof (rest_length _ _ Hs) as Hlen. cbn in Hlen. split_and!; [by eapply skip_ws_rest, rest_cons|lia|right].
        split; [|rewrite !orb_true_iff, !Z.eqb_eq in Eor; tauto].
        destruct Hs as [k Hk]. destruct (skip_ws_rest r0 r0 (rest_refl r0)) as [k2 Hk2].
        assert (consumed s (skip_ws r0) = k ++ c :: k2) as ->; [|set_solver]. apply (app_inv_tail (skip_ws r0)).
        rewrite consumed_rest by (eapply skip_ws_rest, rest_cons; by exists k). rewrite <- app_assoc. cbn [app]. by rewrite <- Hk2.
      + destruct s as [|w s]; [done|]. destruct (is_ws w) eqn:Ew; [|done]. injection Hc as <- <-. cbn [skip_ws] in E. rewrite Ew in E.
        pose proof (skip_ws_length s) as Hlen. rewrite E in Hlen. split_and!; [done|cbn in *; lia|by left]. }
  split; [symmetry; by apply consumed_rest|]. split; [|done]. split_and!; [| |done|].
  - cbn [value]. intros He. pose proof (consumed_length s r Hr) as Hlen. rewrite He in Hlen. cbn in Hlen. lia.
  - intros x Hx. rewrite <- (consumed_rest s r Hr). apply elem_of_app. by left.
  - cbn [kind_of value]. by intros c' [= <-].
Qed.

Lemma filters_loop_text left_over types : forall s l r, filters_loop left_over types s = fret (l, r) -> s = toSelector l ++ r /\ Forall (piece s) l.
Proof.
  induction types as [|ty types IH]; intros s l r; cbn [filters_loop]; [by intros [= <- <-]|].
  destruct (exec_filter left_over ty s) as [[[tk|]|]|] eqn:E; try done; cbn [fbind]; [|apply IH].
  apply exec_filter_token in E. pose proof (token_at_piece _ _ E) as Hp. destruct E as (_ & [k Hk] & _). rewrite Hk, drop_app_length.
  destruct (filters_loop left_over types k) as [[[l' r']|]|] eqn:El; try done. cbn [fbind]. intros [= <- <-].
  destruct (IH k l' r' El) as [Hs Hl]. cbn [toSelector flat_map]. fold (toSelector l'). split; [by rewrite <- app_assoc, <- Hs|].
  constructor; [by rewrite <- Hk|by apply pieces_app].
Qed.

Lemma append_tokens_snoc gs g l : append_tokens (gs ++ [g]) l = gs ++ [g ++ l].
Proof. unfold append_tokens. rewrite rev_unit. by rewrite rev_involutive. Qed.

Lemma toSelector_app l1 l2 : toSelector (l1 ++ l2) = toSelector l1 ++ toSelector l2.
Proof. apply flat_map_app. Qed.
Lemma toSelector_nil l : Forall (fun t => value t <> []) l -> toSelector l = [] -> l = [].
Proof. intros Hl H. destruct Hl as [|t l Ht Hl]; [done|]. cbn in H. by apply app_eq_nil in H as [? _]. Qed.

(** A round adds tokens to the last group; it has matched when there are some. *)
Lemma tokenize_round_text left_over groups0 s groups r matched : tokenize_round left_over groups0 s = fret (groups, r, matched) ->
  exists l, groups = append_tokens groups0 l /\ s = toSelector l ++ r /\ Forall (piece s) l /\ (matched = true -> (length r < length s)%nat) /\
    (l = [] -> matched = false).
Proof.
  unfold tokenize_round.
  assert (forall (rel : list token) (s' : jstr), s = toSelector rel ++ s' -> Forall (piece s) rel ->
    fbind (filters_loop left_over filter_types s') (fun '(l, r) => fret (append_tokens groups0 (rel ++ l), r, negb (bool_decide (rel ++ l = [])))) = fret (groups, r, matched) ->
    exists l, groups = append_tokens groups0 l /\ s = toSelector l ++ r /\ Forall (piece s) l /\ (matched = true -> (length r < length s)%nat) /\
      (l = [] -> matched = false)) as Hgo.
  { intros rel s' Hs Hrel. destruct (filters_loop left_over filter_types s') as [[[l' r']|]|] eqn:E; try done. cbn [fbind]. intros [= <- <- <-].
    apply filters_loop_text in E as [Hs' Hl]. exists (rel ++ l'). 
    assert (s = (toSelector rel ++ toSelector l') ++ r') as Htext by (by rewrite <- app_assoc, <- Hs').
    split_and!; [done|by rewrite toSelector_app| | |by intros ->].
    - apply Forall_app. split; [done|]. rewrite Hs. by apply pieces_app.
    - intros Hm%negb_true_iff%bool_decide_eq_false. rewrite Htext, length_app.
      destruct (toSelector rel ++ toSelector l') eqn:Et; [|cbn; lia]. rewrite <- toSelector_app in Et. exfalso. apply Hm, toSelector_nil; [|done].
      apply Forall_app. split; (eapply Forall_impl; [eassumption|]; by intros t [? _]). }
  destruct (rcombinators s) as [[c r']|] eqn:Ec.
  - apply rcombinators_piece in Ec as (Hs & Hp & _). apply Hgo; [|by constructor]. cbn [toSelector flat_map]. by rewrite app_nil_r.
  - by apply Hgo.
Qed.

Lemma rcomma_rest s r : rcomma s = Some r -> r `suffix_of` s /\ (length r < length s)%nat.
Proof.
  unfold rcomma. pose proof (skip_ws_rest s s (rest_refl s)) as Hs. destruct (skip_ws s) as [|c r0]; [done|]. destruct (c =? 44); [|done].
  intros [= <-]. pose proof (rest_length _ _ Hs). pose proof (skip_ws_length r0). cbn in *. split; [by eapply skip_ws_rest, rest_cons|lia].
Qed.
Lemma start_round_rest first groups s groups' s' : start_round first groups s = (groups', s') -> s' `suffix_of` s.
Proof.
  unfold start_round. destruct first; [by intros [= _ <-]|]. destruct (rcomma s) as [r|] eqn:E; [|by intros [= _ <-]].
  intros [= _ Hr]. apply rcomma_rest in E as [Hs _]. destruct r; by subst.
Qed.

Lemma pieces_suffix (s s' : jstr) l : s' `suffix_of` s -> Forall (piece s') l -> Forall (piece s) l.
Proof. intros [k ->]. apply pieces_app. Qed.

Lemma tokenize_loop_text fuel : forall gs g s groups r, tokenize_loop fuel false (gs ++ [g]) s = fret (groups, r) ->
  exists l hs, groups = gs ++ (g ++ l) :: hs /\ (hs = [] -> s = toSelector l ++ r) /\ Forall (piece s) l /\ Forall (Forall (piece s)) hs /\
    (r = [] -> Forall (fun h => h <> []) hs).
Proof.
  induction fuel as [|fuel IH]; intros gs g s groups r; [done|]. cbn [tokenize_loop]. destruct (decide (s = [])) as [->|Hne].
  { intros [= <- <-]. exists [], []. by rewrite app_nil_r. }
  destruct (start_round false (gs ++ [g]) s) as [G s'] eqn:Es. pose proof (start_round_rest _ _ _ _ _ Es) as Hs'.
  set (left_over := fun u => fbind (tokenize_loop fuel true [] u) _). cbv zeta. clearbody left_over.
  destruct (tokenize_round left_over G s') as [[[[G1 r1] matched]|]|] eqn:Er; try done. cbn [fbind].
  apply tokenize_round_text in Er as (l1 & -> & Htext & Hl1 & _ & Hmatched). intros Hend.
  assert (exists gs' g', G = gs' ++ [g'] /\ (gs' = gs /\ g' = g /\ s' = s \/ gs' = gs ++ [g] /\ g' = [])) as (gs' & g' & -> & Hcase).
  { unfold start_round in Es. destruct (rcomma s) as [rc|]; injection Es as <- <-; [|by exists gs, g; auto]. exists (gs ++ [g]), []. auto. }
  rewrite append_tokens_snoc in Hend.
  assert (exists l2 hs, groups = gs' ++ (g' ++ l1 ++ l2) :: hs /\ (hs = [] -> s' = toSelector (l1 ++ l2) ++ r) /\
    Forall (piece s') (l1 ++ l2) /\ Forall (Forall (piece s')) hs /\ (r = [] -> Forall (fun h => h <> []) (l1 :: hs))) as (l2 & hs & Hg & Ht & Hp & Hps & Hne').
  { destruct matched.
    - apply IH in Hend as (l2 & hs & -> & Ht & Hl2 & Hhs & Hhne). exists l2, hs. rewrite <- app_assoc. split; [done|].
      split; [intros ->; rewrite toSelector_app, <- app_assoc, <- Ht by done; done|].
      assert (r1 `suffix_of` s') as Hr1 by (by exists (toSelector l1)).
      split; [apply Forall_app; split; [done|by eapply pieces_suffix]|]. split; [eapply Forall_impl; [exact Hhs|]; intros h; by apply pieces_suffix|].
      intros Hr. constructor; [by intros H%Hmatched|by apply Hhne].
    - injection Hend as <- <-. exists [], []. rewrite !app_nil_r. split_and!; [done|done|done|constructor|]. intros ->. constructor; [|constructor]. intros ->.
      cbn in Htext. unfold start_round in Es. destruct (rcomma s) as [[|]|]; by injection Es as _ <-. }
  assert (Forall (piece s) (l1 ++ l2)) as Hp' by (by eapply pieces_suffix).
  assert (Forall (Forall (piece s)) hs) as Hps' by (eapply Forall_impl; [exact Hps|]; intros h; by apply pieces_suffix).
  destruct Hcase as [(-> & -> & ->)|[-> ->]].
  - exists (l1 ++ l2), hs. split_and!; [done|done|done|done|]. by intros [_ ?]%Hne'%Forall_cons.
  - exists [], ((l1 ++ l2) :: hs). rewrite app_nil_r, <- app_assoc in *. split_and!; [done|done|done|by constructor|].
    intros [Hl ?]%Hne'%Forall_cons. constructor; [|done]. by intros [? _]%app_eq_nil.
Qed.

(** What [tokenize] returns: groups of pieces; a single group is the whole text. *)
Lemma tokenize_text s groups : tokenize s = fret groups ->
  Forall (Forall (piece s)) groups /\ (forall g, groups = [g] -> toSelector g = s) /\ (groups = [] -> s = []) /\
  Forall (fun g => g <> []) groups.
Proof.
  unfold tokenize. destruct (tokenize_loop (S (length s)) true [] s) as [[[gs r]|]|] eqn:E; try done. cbn [fbind]. destruct r; [|done]. intros [= ->].
  cbn [tokenize_loop] in E. destruct (decide (s = [])) as [->|Hne]; [injection E as <-; done|]. cbn [start_round app] in E.
  set (left_over := fun u => fbind (tokenize_loop (length s) true [] u) _) in E. cbv zeta in E. clearbody left_over.
  destruct (tokenize_round left_over [[]] s) as [[[[G1 r1] matched]|]|] eqn:Er; try done. cbn [fbind] in E.
  apply tokenize_round_text in Er as (l1 & -> & Htext & Hl1 & _ & Hmatched). change [[]] with (@nil (list token) ++ [[]]) in E.
  rewrite append_tokens_snoc in E. cbn [app] in E.
  destruct matched.
  - apply (tokenize_loop_text _ []) in E as (l2 & hs & -> & Ht & Hl2 & Hhs & Hhne). cbn [app].
    assert (r1 `suffix_of` s) as Hr1 by (by exists (toSelector l1)). split_and!; [|intros g [= <- ->]|done|].
    + constructor; [apply Forall_app; split; [done|by eapply pieces_suffix]|]. eapply Forall_impl; [exact Hhs|]. intros h. by apply pieces_suffix.
    + rewrite toSelector_app. rewrite Htext, Ht by done. by rewrite app_nil_r.
    + constructor; [|by apply Hhne]. intros [Hl _]%app_eq_nil. by apply Hmatched in Hl.
  - injection E as <- ->. split_and!; [by constructor|intros g [= <-]|done|]; [by rewrite Htext, app_nil_r|]. constructor; [|constructor]. intros ->. done.
Qed.

(** ** The fuel is enough *)

(** A computation that ends, with a value or with a syntax error. *)
Definition ends {A} (m : fueled A) : Prop :=
  match m with Some (Ok _) => True | Some (Throw e) => e = syntax_error | None => False end.
Lemma ends_bind {A B} (m : fueled A) (f : A -> fueled B) : ends m -> (forall a, m = fret a -> ends (f a)) -> ends (fbind m f).
Proof. destruct m as [[a|e]|]; cbn; intros Hm Hf; [by apply Hf|done|done]. Qed.

Lemma exec_filter_ends left_over t s : (forall u, (length u < length s)%nat -> ends (left_over u)) -> ends (exec_filter left_over t s).
Proof.
  intros Hf. destruct t; cbn [exec_filter].
  - destruct (identifier s) as [[i r]|]; [done|]. by destruct (literal 42 s).
  - by destruct (literal 46 s ≫= identifier) as [[i r]|].
  - by destruct (attributes s) as [[a r]|].
  - destruct (child_exec s) as [[[[type what] arg] r]|]; [|done]. apply ends_bind; [|done]. unfold child_prefilter. repeat (case_match; try done).
  - destruct (pseudo_exec s) as [[[name a] rest]|] eqn:E; [|done]. destruct (pseudo_exec_rest s name a rest E) as (_ & _ & Hany).
    unfold pseudo_prefilter. destruct (child_exec _); [done|]. destruct (_ && _) eqn:Eu; [|done].
    destruct a as [[text inner|text|text]|]; try done. specialize (Hany text eq_refl). apply ends_bind; [apply Hf; lia|].
    intros n _. by destruct (_ || _).
  - by destruct (literal 35 s ≫= identifier) as [[i r]|].
Qed.
Lemma filters_loop_ends left_over types s : (forall u, (length u < length s)%nat -> ends (left_over u)) -> ends (filters_loop left_over types s).
Proof.
  revert s. induction types as [|t types IH]; intros s Hf; [done|]. cbn [filters_loop]. apply ends_bind; [by apply exec_filter_ends|].
  intros [tk|] _; [|by apply IH]. apply ends_bind; [|by intros [l r] _]. apply IH. intros u Hu. apply Hf. rewrite length_drop in Hu. lia.
Qed.
Lemma tokenize_round_ends left_over groups s : (forall u, (length u < length s)%nat -> ends (left_over u)) -> ends (tokenize_round left_over groups s).
Proof.
  intros Hf. unfold tokenize_round.
  assert (forall (rel : list token) (s' : jstr), (length s' <= length s)%nat ->
    ends (fbind (filters_loop left_over filter_types s') (fun '(l, r) => fret (append_tokens groups (rel ++ l), r, negb (bool_decide (rel ++ l = [])))))) as Hgo.
  { intros rel s' Hs. apply ends_bind; [|by intros [l r] _]. apply filters_loop_ends. intros u Hu. apply Hf. lia. }
  destruct (rcombinators s) as [[c r]|] eqn:Ec; apply Hgo; [|done]. apply rcombinators_piece in Ec as (_ & _ & Hl). lia.
Qed.
Lemma tokenize_loop_ends fuel : forall first groups s, (length s < fuel)%nat -> ends (tokenize_loop fuel first groups s).
Proof.
  induction fuel as [|fuel IH]; intros first groups s Hf; [lia|]. cbn [tokenize_loop]. destruct (decide (s = [])); [done|].
  destruct (start_round first groups s) as [G s'] eqn:Es. apply start_round_rest, rest_length in Es. cbv zeta. apply ends_bind.
  - apply tokenize_round_ends. intros u Hu. apply ends_bind; [apply IH; lia|]. by intros [? ?] _.
  - intros [[G1 r1] matched] Er. destruct matched; [|done]. apply IH. apply tokenize_round_text in Er as (l & _ & _ & _ & Hlt & _). specialize (Hlt eq_refl). lia.
Qed.

(** C30. The tokenizer ends for every text, also where the arguments of pseudo-classes
    are tokenized within it: with a syntax error, or with groups of tokens that are
    pieces of the text; if it is a single group, the tokens are the whole text. *)
Theorem tokenize_total s :
  tokenize s = Some (Throw syntax_error) \/
  exists groups, tokenize s = fret groups /\ Forall (Forall (piece s)) groups /\
    (forall g, groups = [g] -> toSelector g = s) /\ (groups = [] -> s = []) /\ Forall (fun g => g <> []) groups.
Proof.
  assert (ends (tokenize s)) as He.
  { apply ends_bind; [apply tokenize_loop_ends; lia|]. intros [groups r] _. by destruct r. }
  destruct (tokenize s) as [[groups|e]|] eqn:E; [|by left; rewrite He|done]. right. exists groups. split; [done|]. by apply tokenize_text.
Qed.
