(* ===== verification/SizzleRunProps.v ===== *)
(** A run of the selector engine: compiled groups select what they mean, in
    document order, whatever earlier runs have kept. *)
From Stdlib Require Import String.
From S2P Require Import Prelude JsString ClassNames SizzleText SizzleTokens SizzleDom SizzleFilters SizzleChild SizzleMatch SizzleMatchProps.

Section run.
Context {T : Tree} {L : TreeLaws T} {X : Tables}.

(** ** Between two runs *)

(** What is kept is well formed; nothing is said of its results, which the next
    run does not use. *)
Record memo_wf (s : memo) : Prop := {
  wf_indexes : indexes_ok s;
  wf_refs k a : combinator_cache s !! k = Some a -> (a < next_array s)%nat;
  wf_runs a d n r : arrays s !! a = Some (d, n, r) -> d <= dirruns s /\ (a < next_array s)%nat;
}.
Definition empty_memo : memo :=
  {| arrays := ∅; next_array := 0; combinator_cache := ∅; nth_cache := ∅; dirruns := 0 |}.

Lemma empty_memo_wf : memo_wf empty_memo.
Proof. split; [split|..]; intros *; cbn [empty_memo nth_cache combinator_cache arrays]; rewrite lookup_empty; done. Qed.
Lemma state_ok_wf spec open s : state_ok spec open s -> memo_wf s.
Proof. intros Hs. split; apply Hs. Qed.

(** The number of a new run makes everything kept outdated. *)
Lemma new_run spec s : memo_wf s -> state_ok spec [] (s <| dirruns := dirruns s + 1 |>).
Proof.
  intros [Hi Hr Ha]. split; cbn [set_field arrays next_array combinator_cache nth_cache dirruns].
  - split; cbn [nth_cache dirruns]; intros *.
    + intros Hn Hd. apply nth_shape in Hn as (d' & i' & k' & [= <- <- <-] & Hle); [lia|done].
    + intros Hn. apply nth_shape in Hn as (d' & i' & k' & -> & Hle); [|done]. do 3 eexists. split; [done|lia].
  - done.
  - intros a d n r H. apply Ha in H as [? ?]. split; [lia|done].
  - intros e k a d n r _ H Hd. apply Ha in H as [? _]. lia.
Qed.

(** ** Groups *)

Definition selects_any (ev : env) (groups : list (list token)) (e : nat) : bool := existsb (fun g => selects ev g e) groups.

Lemma computes_or spec lo hi dom m1 m2 sem1 sem2 :
  computes spec lo hi dom m1 sem1 -> computes spec lo hi dom m2 sem2 ->
  computes spec lo hi dom (fun e s => let '(b, s) := m1 e s in if b then (true, s) else m2 e s) (fun e => sem1 e || sem2 e).
Proof.
  intros H1 H2 open s e He Hs Ho. destruct (H1 open s e He Hs Ho) as (Hb & Hs1 & Hx1). destruct (m1 e s) as [b s1]. cbn [fst snd] in *. subst b.
  destruct (sem1 e); [done|]. cbn [orb]. destruct (H2 open s1 e He Hs1) as (Hb2 & Hs2 & Hx2); [by eapply all_outside_extends|].
  split; [done|]. split; [done|]. by eapply extends_trans.
Qed.

Lemma compile_groups_correct ev groups : Forall (Forall matchable) groups -> forall done_ ms done',
  compile_groups groups done_ = (Ok (Some ms), done') ->
  (done_ <= done')%nat /\ correct ev done_ done' (any_matches ms) (selects_any ev groups).
Proof.
  induction 1 as [|g groups Hg Hgs IH]; intros done_ ms done'; cbn [compile_groups].
  - intros [= <- <-]. split; [done|]. exists (fun _ _ => false). intros spec _. apply (computes_pure spec done_ _ (fun _ => false)).
  - destruct (matcherFromTokens g done_) as [[m|] mid] eqn:Em; [|done].
    destruct (compile_groups groups mid) as [[ms'|] hi] eqn:Ems; [|done]. destruct m as [m|], ms' as [ms'|]; try done. intros [= <- <-].
    destruct (matcherFromTokens_correct ev g done_ m mid Hg Em) as [Hle1 [t1 Ht1]]. destruct (IH mid ms' hi Ems) as [Hle2 [t2 Ht2]].
    split; [lia|]. exists (fun k e => if (k <? mid)%nat then t1 k e else t2 k e). intros spec Hsp.
    apply computes_or; [apply (computes_weaken _ _ _ done_ mid)|apply (computes_weaken _ _ _ mid hi)]; try lia.
    + apply Ht1. intros k e Hk. rewrite Hsp by lia. by destruct (Nat.ltb_spec k mid); [|lia].
    + apply Ht2. intros k e Hk. rewrite Hsp by lia. by destruct (Nat.ltb_spec k mid); [lia|].
Qed.

Lemma selects_any_rev ev groups e : selects_any ev (rev groups) e = selects_any ev groups e.
Proof. unfold selects_any. apply eq_true_iff_eq. rewrite !existsb_exists. by setoid_rewrite <- in_rev. Qed.

(** ** The outermost run *)

Lemma set_dirruns_same (s : memo) : s <| dirruns := dirruns s |> = s.
Proof. by destruct s. Qed.

Lemma collect_correct ev lo hi spec ms sem elems results s :
  computes spec lo hi (fun e => is_element e = true) (any_matches ms ev) sem -> Forall (fun e => is_element e = true) elems ->
  state_ok spec [] s ->
  let r := collect ms ev (dirruns s) elems results s in
  fst r = results ++ List.filter sem elems /\ memo_wf (snd r).
Proof.
  intros Hm He. revert results s. induction He as [|e elems He Hes IH]; intros results s Hs; cbn [collect List.filter].
  - rewrite app_nil_r. split; [done|by eapply state_ok_wf].
  - destruct (Hm [] s e He Hs ltac:(constructor)) as (Hb & Hs' & Hx). destruct (any_matches ms ev e s) as [b s']. cbn [fst snd] in *. subst b.
    rewrite <- (same_run _ _ _ Hx), set_dirruns_same. destruct (IH (if sem e then results ++ [e] else results) s' Hs') as [H1 H2].
    split; [|done]. rewrite H1. destruct (sem e); [by rewrite <- app_assoc|done].
Qed.

(** The elements of a seed, or those below a node. *)
Definition run_env (ctx : option nat) (is_xml : bool) (outermost : option nat) : env :=
  {| context := default document ctx; xml := is_xml;
     outermostContext := match ctx with
                         | Some c => if (c =? document)%nat then None else Some c
                         | None => outermost
                         end |}.
Definition source (seed : option (list nat)) (outermost : option nat) : list nat :=
  match seed, outermost with Some l, _ => l | None, Some n => getElementsByTagName [42] n | None, None => [] end.

Lemma superMatcher_correct groups done_ ms done' seed ctx is_xml results outermost s : groups <> [] -> Forall (Forall matchable) groups ->
  compile groups done_ = (Ok (Some ms), done') -> Forall (fun e => is_element e = true) (source seed outermost) -> memo_wf s ->
  let r := superMatcher ms seed ctx is_xml results outermost s in
  fst r = results ++ List.filter (selects_any (run_env ctx is_xml outermost) groups) (source seed outermost) /\ memo_wf (snd r).
Proof.
  intros Hne Hg Hc He Hs. unfold superMatcher. fold (run_env ctx is_xml outermost). set (ev := run_env ctx is_xml outermost).
  assert (Forall (Forall matchable) (rev groups)) as Hrev by (by apply Forall_rev).
  destruct (compile_groups_correct ev (rev groups) Hrev done_ ms done' Hc) as [_ [table Ht]].
  assert (match seed, outermost with
          | Some l, _ => l
          | None, Some n => match ms with [] => [] | _ => getElementsByTagName [42] n end
          | None, None => []
          end = source seed outermost) as ->.
  { destruct seed, outermost; try done. destruct ms; [|done]. exfalso. unfold compile in Hc. destruct (rev groups) as [|g gs] eqn:Er.
    - apply Hne. by rewrite <- (rev_involutive groups), Er.
    - cbn [compile_groups] in Hc. destruct (matcherFromTokens g done_) as [[[m|]|] mid]; try done;
      destruct (compile_groups gs mid) as [[[]|] ?]; done. }
  pose proof (new_run table s Hs) as Hnew. set (s1 := s <| dirruns := dirruns s + 1 |>) in *.
  change (dirruns s + 1) with (dirruns s1).
  destruct (collect_correct ev done_ done' table ms _ (source seed outermost) results s1 (Ht table (fun _ _ _ => eq_refl)) He Hnew) as [H1 H2].
  split; [|done]. rewrite H1. f_equal. apply List.filter_ext. intros e. apply selects_any_rev.
Qed.
End run.
