(* ===== verification/SizzleSelect.v ===== *)
(** [Sizzle.select] (jquery-3.2.0.js): a selector is tokenized, shortcuts by the
    browser's [getElement(s)By*] reduce the work, and the rest is compiled and
    run. *)
From Stdlib Require Import String.
From S2P Require Import Prelude JsString ClassNames SizzleText SizzleTokens SizzleDom SizzleFilters SizzleMatch.

(** [matchExpr.needsContext]: a leading combinator, or a positional pseudo-class
    anywhere.  Its optional argument does not matter: what follows the name is
    then a parenthesis, which the lookahead allows. *)
Definition position_words : list jstr := [str "even"; str "odd"; str "eq"; str "gt"; str "lt"; str "nth"; str "first"; str "last"].
Definition position_at (s : jstr) : bool :=
  match literal 58 s with
  | Some r => existsb (fun w => match literal_i w r with Some (c :: _) => negb (c =? 45) | Some [] => true | None => false end) position_words
  | None => false
  end.
Fixpoint position_anywhere (s : jstr) : bool := position_at s || match s with _ :: r => position_anywhere r | [] => false end.
Definition needsContext (selector : jstr) : bool :=
  match skip_ws selector with c :: _ => (c =? 62) || (c =? 43) || (c =? 126) | [] => false end || position_anywhere selector.
(** [rsibling.test] *)
Definition rsibling (s : jstr) : bool := existsb (fun c => (c =? 43) || (c =? 126)) s.

(** The numbers given to combinators, and what the matchers keep. *)
Record engine := { memory : memo; done_names : nat }.

Section select.
Context {T : Tree} {X : Tables}.

(** Elements and documents have [getElementsByTagName]. *)
Definition has_find (n : nat) : bool := (nodeType n =? 1) || (nodeType n =? 9).
(** [test && testContext( context.parentNode ) || context] *)
Definition search_context (sibling : bool) (ctx : nat) : nat :=
  match parentNode ctx with Some p => if sibling && has_find p then p else ctx | None => ctx end.

(** [Expr.find[ type ]( name, context )] for the types that have one. *)
Definition find_id (html : bool) (id : jstr) (ctx : nat) : option (list nat) :=
  if html && (ctx =? document)%nat then Some (match getElementById id with Some e => [e] | None => [] end) else None.
Definition find (html : bool) (k : kind) (ctx : nat) : option (list nat) :=
  match k with
  | KTag raw => if has_find ctx then Some (getElementsByTagName (unescape raw) ctx) else None
  | KClass raw => if html && has_find ctx then Some (getElementsByClassName (unescape raw) ctx) else None
  | KId raw => find_id html (unescape raw) ctx
  | _ => None
  end.

(** The loop that fetches a seed set: from the last token to a combinator; the
    seed and the tokens without the one found. *)
Fixpoint fetch_seed (html : bool) (ctx : nat) (rev_tokens : list token) : option (list nat * list token) :=
  match rev_tokens with
  | [] => None
  | t :: before =>
      match relative_of (kind_of t) with
      | Some _ => None
      | None =>
          match find html (kind_of t) ctx with
          | Some seed => Some (seed, before)
          | None => (fun '(seed, l) => (seed, t :: l)) <$> fetch_seed html ctx before
          end
      end
  end.

(** The ID shortcut: the context and the tokens, or [None] when nothing has the
    id. *)
Definition leading_id (html : bool) (tokens : list token) (ctx : nat) : option (nat * list token) :=
  match tokens with
  | t :: ((r :: _ :: _) as rest) =>
      match kind_of t, relative_of (kind_of r) with
      | KId raw, Some _ =>
          if (nodeType ctx =? 9) && html then
            match find_id html (unescape raw) ctx with
            | Some (e :: _) => Some (e, rest)
            | _ => None
            end
          else Some (ctx, tokens)
      | _, _ => Some (ctx, tokens)
      end
  | _ => Some (ctx, tokens)
  end.

Definition is_sibling (t : token) : bool := match kind_of t with KRel c => (c =? 43) || (c =? 126) | _ => false end.

(** The compiled function is run; [None] stands for positional matchers. *)
Definition run (html : bool) (groups : list (list token)) (selector : jstr) (ctx : option nat) (results : list nat) (seed : option (list nat))
    (w : engine) : result (option (list nat)) * engine :=
  match compile groups (done_names w) with
  | (Throw e, done) => (Throw e, {| memory := memory w; done_names := done |})
  | (Ok None, done) => (Ok None, {| memory := memory w; done_names := done |})
  | (Ok (Some ms), done) =>
      let outermost := (fun c => search_context (rsibling selector) c) <$> ctx in
      let '(l, s) := superMatcher ms seed ctx (negb html) results outermost (memory w) in
      (Ok (Some l), {| memory := s; done_names := done |})
  end.

(** A seed is fetched, if there is one, and the other tokens are run on it. *)
Definition fetch_and_run (html : bool) (tokens : list token) (selector : jstr) (ctx : nat) (results : list nat) (w : engine)
    : result (option (list nat)) * engine :=
  let fetched :=
    if needsContext selector then None
    else fetch_seed html (search_context (match tokens with t :: _ => is_sibling t | [] => false end) ctx) (rev tokens) in
  match fetched with
  | None => run html [tokens] selector (Some ctx) results None w
  | Some (seed, rev_rest) =>
      let rest := rev rev_rest in
      if decide (seed = [] \/ toSelector rest = []) then (Ok (Some (results ++ seed)), w)
      else run html [rest] (toSelector rest) (Some ctx) results (Some seed) w
  end.
(** [select( selector, context, results )] for a selector of one group. *)
Definition select_single (html : bool) (tokens : list token) (selector : jstr) (ctx : nat) (results : list nat) (w : engine)
    : result (option (list nat)) * engine :=
  match leading_id html tokens ctx with
  | None => (Ok (Some results), w)
  | Some (ctx, tokens') =>
      fetch_and_run html tokens' (drop (length (toSelector tokens) - length (toSelector tokens')) selector) ctx results w
  end.

(** [select( selector, context, results, seed )]; without fuel for the tokens the
    result is [None]. *)
Definition select (html : bool) (selector : jstr) (ctx : option nat) (results : list nat) (seed : option (list nat)) (w : engine)
    : option (result (option (list nat)) * engine) :=
  match tokenize selector with
  | None => None
  | Some (Throw e) => Some (Throw e, w)
  | Some (Ok groups) =>
      Some match seed, groups, ctx with
           | None, [tokens], Some ctx => select_single html tokens selector ctx results w
           | _, _, _ => run html groups selector ctx results seed w
           end
  end.
End select.
