(* ===== verification/SizzleDocument.v ===== *)
(** The shortcuts of [select] (jquery-3.2.0.js) agree with the tests they replace:
    the documented behaviour of [getElementsByTagName],
    [getElementsByClassName] and [getElementById], and the seed that is fetched by
    them. *)
From Stdlib Require Import String Sorted.
From stdpp Require Import sorting.
From S2P Require Import Prelude JsString ClassNames SizzleText SizzleTokens SizzleDom SizzleFilters SizzleChild SizzleMatch SizzleMatchProps SizzleRunProps SizzleSelect.

(** ** Class names *)

(** The characters up to a blank. *)
Fixpoint nonblanks (s : jstr) : jstr := match s with c :: r => if is_ws c then [] else c :: nonblanks r | [] => [] end.

Lemma word_here p s : Forall (fun c => is_ws c = false) p ->
  is_prefix p s && match drop (length p) s with c :: _ => is_ws c | [] => true end = bool_decide (p = nonblanks s).
Proof.
  intros Hp. revert s. induction Hp as [|c p Hc Hp IH]; intros s.
  - destruct s as [|c s]; [done|]. cbn. by destruct (is_ws c).
  - destruct s as [|d s]; [done|]. cbn [is_prefix length drop nonblanks]. destruct (Z.eqb_spec c d) as [<-|Hne]; cbn [andb].
    + rewrite Hc, IH. apply bool_decide_ext. split; [by intros ->|by intros [= ->]].
    + symmetry. apply bool_decide_eq_false. destruct (is_ws d); [done|]. by intros [= -> _].
Qed.
Lemma tokens_go_head w s : w <> [] -> exists l, tokens_go w s = (w ++ nonblanks s) :: l.
Proof.
  revert w. induction s as [|c s IH]; intros w Hw; cbn.
  - rewrite decide_False by done. exists []. by rewrite app_nil_r.
  - change (is_white c) with (is_ws c). destruct (is_ws c).
    + rewrite decide_False by done. rewrite app_nil_r. by eexists.
    + destruct (IH (w ++ [c])) as [l ->]; [by destruct w|]. exists l. by rewrite <- app_assoc.
Qed.
Lemma class_search_tokens p s : p <> [] -> Forall (fun c => is_ws c = false) p ->
  class_search p s true = bool_decide (p ∈ ClassNames.tokens s) /\
  forall w, w <> [] -> class_search p s false = bool_decide (p ∈ tl (tokens_go w s)).
Proof.
  intros Hne Hp. induction s as [|c s [IHt IHf]]; split.
  - destruct p; [done|]. cbn. symmetry. apply bool_decide_eq_false. set_solver.
  - intros w Hw. cbn. rewrite decide_False by done. cbn. symmetry. apply bool_decide_eq_false. set_solver.
  - cbn [class_search andb]. rewrite word_here by done. unfold ClassNames.tokens. cbn [tokens_go nonblanks]. change (is_white c) with (is_ws c).
    destruct (is_ws c).
    + rewrite bool_decide_eq_false_2 by done. rewrite decide_True by done. exact IHt.
    + cbn [app]. rewrite (IHf [c]) by done. destruct (tokens_go_head [c] s) as [l ->]; [done|]. cbn [app tl].
      destruct (decide (p = c :: nonblanks s)) as [E|E].
      * rewrite bool_decide_eq_true_2 by done. symmetry. apply bool_decide_eq_true. rewrite E. left.
      * rewrite bool_decide_eq_false_2 by done. cbn [orb]. apply bool_decide_ext. set_solver.
  - intros w Hw. cbn [class_search andb orb tokens_go]. change (is_white c) with (is_ws c). destruct (is_ws c).
    + rewrite decide_False by done. exact IHt.
    + apply IHf. by destruct w.
Qed.

Lemma class_literal_plain raw : 92 ∉ raw -> class_literal raw = Some raw.
Proof.
  induction raw as [|c raw IH]; [done|]. intros H. cbn [class_literal]. destruct (Z.eqb_spec c 92) as [->|]; [set_solver|].
  rewrite IH by set_solver. done.
Qed.
Lemma unescape_plain_text s : 92 ∉ s -> unescape s = s.
Proof.
  unfold unescape. generalize (le_n (S (length s))). generalize (S (length s)) at 2 3. induction s as [|c s IH]; intros n Hn Hs; [by destruct n|].
  destruct n as [|n]; [cbn in Hn; lia|]. rewrite unescape_plain by set_solver. f_equal. apply IH; [cbn in *; lia|set_solver].
Qed.
Lemma ident_char_nonblank c : ident_char c = true -> is_ws c = false.
Proof.
  unfold ident_char, is_word, is_dig, is_ws. intros H. destruct (Z.eqb_spec c 32), (Z.eqb_spec c 9), (Z.eqb_spec c 13), (Z.eqb_spec c 10), (Z.eqb_spec c 12); subst; done.
Qed.

Section document.
Context {T : Tree} {X : Tables}.

Lemma CLASS_plain raw e : raw <> [] -> 92 ∉ raw -> Forall (fun c => ident_char c = true) raw ->
  CLASS raw e = bool_decide (raw ∈ ClassNames.tokens (className e)).
Proof.
  intros Hne Hr Hc. unfold CLASS. rewrite class_literal_plain by done. apply class_search_tokens; [done|].
  eapply Forall_impl; [exact Hc|]. apply ident_char_nonblank.
Qed.

(** ** The document *)

(** The elements of the document, in order. *)
Definition all_elements : list nat := getElementsByTagName [42] document.
Definition in_document (n : nat) : Prop := n = document \/ document ∈ axis ParentNode n.

(** What is documented of the search methods of an HTML document, and of the
    elements they find: class names are blank-separated, names do not depend on
    case, an id belongs to one element. *)
Class DocumentLaws : Prop := {
  document_type : nodeType document = 9;
  parent_kind e p : parentNode e = Some p -> is_element p = true \/ parentNode p = None;
  find_below c e : e ∈ getElementsByTagName [42] c <-> is_element e = true /\ c ∈ axis ParentNode e;
  find_sorted c : StronglySorted lt (getElementsByTagName [42] c);
  find_tag name c : name <> [42] ->
    getElementsByTagName name c = List.filter (fun e => bool_decide (toLowerCase (nodeName e) = toLowerCase name)) (getElementsByTagName [42] c);
  find_class name c : ClassNames.word name ->
    getElementsByClassName name c = List.filter (fun e => bool_decide (name ∈ ClassNames.tokens (className e))) (getElementsByTagName [42] c);
  find_some_id id e : getElementById id = Some e -> e ∈ all_elements /\ getAttribute e (str "id") = Some id;
  find_no_id id : getElementById id = None -> forall e, e ∈ all_elements -> getAttribute e (str "id") <> Some id;
  unique_ids id e e' : e ∈ all_elements -> e' ∈ all_elements -> getAttribute e (str "id") = Some id -> getAttribute e' (str "id") = Some id -> e = e';
  has_name e : is_element e = true -> nodeName e <> [];
}.
Context {L : TreeLaws T} {D : DocumentLaws}.

Lemma sorted_ext (l1 l2 : list nat) : StronglySorted lt l1 -> StronglySorted lt l2 -> (forall x, x ∈ l1 <-> x ∈ l2) -> l1 = l2.
Proof.
  assert (forall l : list nat, StronglySorted lt l -> NoDup l) as Hnd.
  { intros l. induction 1 as [|x l Hl IH Hx]; constructor; [|done]. intros Hin. rewrite Forall_forall in Hx. specialize (Hx x Hin). lia. }
  intros H1 H2 Hx. apply (StronglySorted_unique_strong lt); [intros; lia|done|done|]. apply NoDup_Permutation; auto.
Qed.
Lemma filter_sorted (f : nat -> bool) l : StronglySorted lt l -> StronglySorted lt (List.filter f l).
Proof.
  induction 1 as [|x l Hl IH Hx]; cbn; [constructor|]. destruct (f x); [|done]. constructor; [done|]. rewrite Forall_forall in *.
  intros y Hy. apply Hx. apply list_elem_of_In in Hy. apply filter_In in Hy as [Hy _]. by apply list_elem_of_In.
Qed.
Lemma elem_of_lfilter (f : nat -> bool) l x : x ∈ List.filter f l <-> x ∈ l /\ f x = true.
Proof. rewrite !list_elem_of_In. apply filter_In. Qed.
Lemma lfilter_ext (f g : nat -> bool) l : (forall x, x ∈ l -> f x = g x) -> List.filter f l = List.filter g l.
Proof. intros H. apply List.filter_ext_in. intros x Hx. by apply H, list_elem_of_In. Qed.

Lemma document_no_element : is_element document = false.
Proof. unfold is_element. by rewrite document_type. Qed.

(** ** The axes of the document *)

Lemma axis_trans d x y z : d <> NextSibling -> y ∈ axis d x -> z ∈ axis d y -> z ∈ axis d x.
Proof.
  intros Hd. induction x as [x IH] using lt_wf_ind. rewrite (axis_unfold d x) by done. destruct (follow d x) as [x'|] eqn:Hx; [|set_solver].
  pose proof (follow_before d x x' Hd Hx). intros [->|Hy]%elem_of_cons Hz; right; [done|]. by apply (IH x').
Qed.
Lemma previous_parent x y : previousSibling x = Some y -> parentNode y = parentNode x /\ parentNode x <> None.
Proof.
  intros Hx. destruct (parentNode x) as [p|] eqn:Hp; [|apply no_sibling in Hp as [_ Hp]; congruence]. split; [|done].
  apply child_index in Hp as [i Hi]. rewrite (previous_sibling p i x Hi) in Hx. destruct i as [|i]; [done|].
  apply parent_children. by eapply list_elem_of_lookup_2.
Qed.
Lemma siblings_parent x y : y ∈ axis PreviousSibling x -> parentNode y = parentNode x /\ parentNode x <> None.
Proof.
  induction x as [x IH] using lt_wf_ind. rewrite axis_unfold by done. destruct (follow PreviousSibling x) as [x'|] eqn:Hx; [|set_solver].
  pose proof (follow_before PreviousSibling x x' ltac:(done) Hx) as Hlt. destruct (previous_parent x x' Hx) as [Hp Hn].
  intros [->|Hy]%elem_of_cons; [done|]. destruct (IH x' Hlt Hy) as [-> _]. done.
Qed.
Lemma same_ancestors x y : parentNode x = parentNode y -> axis ParentNode x = axis ParentNode y.
Proof. intros H. rewrite (axis_unfold _ x), (axis_unfold _ y) by done. cbn [follow]. by rewrite H. Qed.

Lemma all_elements_spec e : e ∈ all_elements <-> is_element e = true /\ document ∈ axis ParentNode e.
Proof. apply find_below. Qed.

Lemma axis_chain d e x y : d <> NextSibling -> x ∈ axis d e -> y ∈ axis d e -> x = y \/ y ∈ axis d x \/ x ∈ axis d y.
Proof.
  intros Hd. induction e as [e IH] using lt_wf_ind. rewrite (axis_unfold d e) by done. destruct (follow d e) as [e'|] eqn:He; [|set_solver].
  pose proof (follow_before d e e' Hd He). intros [->|Hx]%elem_of_cons [->|Hy]%elem_of_cons; auto. by apply (IH e').
Qed.
Lemma document_axis d : d <> NextSibling -> axis d document = [].
Proof.
  intros Hd. destruct document_root as [Hp _]. pose proof (no_sibling document Hp) as [_ Hs]. rewrite axis_unfold by done.
  destruct d; cbn [follow]; [by rewrite Hp|by rewrite Hs|done].
Qed.
Lemma ancestor_in_document e x : e ∈ all_elements -> x ∈ axis ParentNode e -> is_element x = true -> x ∈ all_elements.
Proof.
  intros [_ Hdoc]%all_elements_spec Hx Hel. apply all_elements_spec. split; [done|].
  destruct (axis_chain ParentNode e x document) as [->|[Hin|Hin]]; [done|done|done| |done|].
  - by rewrite document_no_element in Hel.
  - rewrite document_axis in Hin by done. set_solver.
Qed.

(** What is related to an element of the document is in the document. *)
Lemma related_elements r e x : x ∈ related r false e -> x ∈ axis (dir r) e /\ is_element x = true.
Proof.
  unfold related. intros Hx. assert (x ∈ List.filter (fun n => is_element n || false) (axis (dir r) e)) as Hf.
  { destruct (is_first r); [|done]. apply list_elem_of_lookup in Hx as [i Hi]. apply lookup_take_Some in Hi as [Hi _]. by eapply list_elem_of_lookup_2. }
  apply elem_of_lfilter in Hf as [? Hf]. by rewrite orb_false_r in Hf.
Qed.
Lemma related_in_document r e x : dir r <> NextSibling -> e ∈ all_elements -> x ∈ related r false e -> x ∈ all_elements.
Proof.
  intros Hd He [Hin Hel]%related_elements. destruct (dir r) eqn:Ed; [by eapply ancestor_in_document| |done].
  apply all_elements_spec. split; [done|]. apply siblings_parent in Hin as [Hp _]. rewrite (same_ancestors x e) by done.
  by apply all_elements_spec in He as [_ ?].
Qed.

(** ** [find] finds what the filter lets through *)

(** Names without escapes: [getElementsByClassName] takes a blank in a name for
    the end of the name. *)
Definition searchable (t : token) : Prop := match kind_of t with KTag raw | KClass raw => 92 ∉ raw | _ => True end.

Lemma found_is_element c e : e ∈ getElementsByTagName [42] c -> is_element e = true.
Proof. by intros [? _]%find_below. Qed.

Lemma find_filter t c seed : token_ok t -> searchable t -> find true (kind_of t) c = Some seed ->
  seed = List.filter (filter_holds false (kind_of t)) (getElementsByTagName [42] c).
Proof.
  unfold token_ok, searchable. destruct (kind_of t) as [| raw|raw| | | |raw]; cbn [find]; try done.
  - intros _ Hr. destruct (has_find c); [|done]. intros [= <-]. rewrite unescape_plain_text by done.
    destruct (decide (raw = [42])) as [->|Hne].
    + symmetry. generalize (getElementsByTagName [42] c). intros l. induction l as [|x l IH]; [done|]. cbn. by rewrite IH.
    + rewrite find_tag by done. apply lfilter_ext. intros x Hx%found_is_element. cbn [filter_holds]. unfold TAG. rewrite decide_False by done.
      rewrite unescape_plain_text by done.
      rewrite (bool_decide_eq_false_2 (nodeName x = [])) by (by apply has_name). done.
  - intros [Hne Hc] Hr. specialize (Hc Hr). destruct (true && has_find c); [|done]. intros [= <-]. rewrite unescape_plain_text by done. rewrite find_class.
    + apply lfilter_ext. intros x _. cbn [filter_holds]. by rewrite CLASS_plain.
    + split; [done|]. eapply Forall_impl; [exact Hc|]. apply ident_char_nonblank.
  - intros _ _. unfold find_id. destruct (Nat.eqb_spec c document) as [->|]; [|done]. cbn [andb]. intros [= <-].
    apply sorted_ext; [destruct (getElementById _); repeat constructor|apply filter_sorted, find_sorted|].
    intros x. rewrite elem_of_lfilter. cbn [filter_holds]. unfold ID. rewrite bool_decide_eq_true.
    destruct (getElementById (unescape raw)) as [e|] eqn:E.
    + apply find_some_id in E as [He Hid]. rewrite list_elem_of_singleton. split; [by intros ->|]. intros [Hx Hidx]. by eapply unique_ids.
    + split; [set_solver|]. intros [Hx Hid]. by apply (find_no_id _ E x) in Hid.
Qed.
End document.
