(* ===== verification/SizzleSelectProps.v ===== *)
(** [select] (jquery-3.2.0.js) returns the elements a selector means, in document
    order: the seeds fetched by the browser, the reduction of the context to an
    element by its id, and everything kept in caches do not show. *)
From Stdlib Require Import String Sorted.
From S2P Require Import Prelude JsString ClassNames SizzleText SizzleTokens SizzleDom SizzleFilters SizzleChild SizzleMatch SizzleMatchProps.
From S2P Require Import SizzleLex SizzleRunProps SizzleSelect SizzleDocument.

Section select_props.
Context {T : Tree} {X : Tables} {L : TreeLaws T} {D : DocumentLaws}.
Abbreviation unrelated t := (relative_of (kind_of t) = None).

(** ** Compilation *)

(** Tokens for which there is a matcher: pseudo-classes that are known, and
    test single elements. *)
Definition compilable (t : token) : Prop :=
  match kind_of t with
  | KRel _ => is_Some (relative_of (kind_of t))
  | KPseudo name arg => exists f, PSEUDO name arg = Ok (ElementTest f)
  | _ => True
  end.

Lemma from_tokens_total tokens ms n : Forall compilable tokens -> exists m n', from_tokens tokens ms n = (Ok (Some m), n').
Proof.
  intros Hc. revert ms n. induction Hc as [|t tokens Ht Hc IH]; intros ms n; cbn [from_tokens]; [by do 2 eexists|].
  destruct (relative_of (kind_of t)) as [r|] eqn:Hr; [apply IH|]. unfold compilable in Ht.
  destruct (kind_of t) eqn:Ek; cbn [filter_matcher]; try apply IH.
  - rewrite Hr in Ht. by destruct Ht.
  - destruct Ht as [f ->]. apply IH.
Qed.
Lemma compile_total groups n : Forall (fun g => g <> []) groups -> Forall (Forall compilable) groups ->
  exists ms n', compile groups n = (Ok (Some ms), n').
Proof.
  intros Hne Hc. unfold compile. assert (Forall (fun g => g <> [] /\ Forall compilable g) (rev groups)) as Hr by (apply Forall_rev, Forall_and; done).
  revert n. induction Hr as [|g gs [Hg Hcg] _ IH]; intros n; cbn [compile_groups]; [by do 2 eexists|].
  assert (exists m n1, matcherFromTokens g n = (Ok (Some m), n1)) as (m & n1 & ->).
  { destruct g as [|t rest]; [done|]. cbn [matcherFromTokens]. apply from_tokens_total. destruct (relative_of _); [by apply Forall_cons in Hcg as [_ ?]|done]. }
  destruct (IH n1) as (ms & n2 & ->). by do 2 eexists.
Qed.

(** ** Removing a test *)

Lemma holds_remove ev leading pre t post e : Forall (fun t => unrelated t) pre -> unrelated t ->
  holds ev leading (pre ++ t :: post) e = filter_holds (xml ev) (kind_of t) e && holds ev leading (pre ++ post) e.
Proof.
  intros Hpre Ht. induction Hpre as [|x pre Hx _ IH]; cbn [app holds]; [by rewrite Ht|]. rewrite Hx, IH.
  by destruct (filter_holds (xml ev) (kind_of x) e), (filter_holds (xml ev) (kind_of t) e).
Qed.

Lemma fetch_seed_split html c rev_tokens seed rest : fetch_seed html c rev_tokens = Some (seed, rest) ->
  exists pre t post, rev_tokens = pre ++ t :: post /\ rest = pre ++ post /\ Forall (fun t => unrelated t) pre /\ unrelated t /\
    find html (kind_of t) c = Some seed.
Proof.
  revert rest. induction rev_tokens as [|t before IH]; intros rest; [done|]. cbn [fetch_seed].
  destruct (relative_of (kind_of t)) eqn:Ht; [done|]. destruct (find html (kind_of t) c) as [s|] eqn:Ef.
  - intros [= <- <-]. exists [], t, before. split_and!; [done|done|constructor|done|done].
  - destruct (fetch_seed html c before) as [[s l]|] eqn:E; [|done]. intros [= <- <-].
    destruct (IH l eq_refl) as (pre & t' & post & -> & -> & Hpre & Ht' & Hf). exists (t :: pre), t', post.
    split_and!; [done|done|by constructor|done|done].
Qed.

Lemma selects_remove ev p t q e : Forall (fun t => unrelated t) q -> unrelated t -> p ++ q <> [] ->
  selects ev (p ++ t :: q) e = filter_holds (xml ev) (kind_of t) e && selects ev (p ++ q) e.
Proof.
  intros Hq Ht Hne. pose proof (Forall_rev Hq) as Hq'. destruct p as [|h p].
  - cbn [app] in *. destruct q as [|h q]; [done|]. cbn [selects]. rewrite Ht. pose proof (Forall_inv Hq) as Hh. cbv beta in Hh. rewrite Hh.
    change (rev (t :: h :: q)) with (rev (h :: q) ++ [t]). rewrite holds_remove by done. by rewrite app_nil_r.
  - cbn [app selects]. destruct (relative_of (kind_of h)) as [r|].
    + rewrite !rev_app_distr. cbn [rev]. rewrite <- app_assoc. cbn [app]. by apply holds_remove.
    + change (h :: p ++ t :: q) with ((h :: p) ++ t :: q). change (h :: p ++ q) with ((h :: p) ++ q). rewrite !rev_app_distr.
      change (rev (t :: q)) with (rev q ++ [t]). rewrite <- app_assoc. cbn [app]. by apply holds_remove.
Qed.

(** ** Where the selected elements are *)

Definition context_ok (c : nat) : Prop := c = document \/ c ∈ all_elements.
(** The environment of a run in the document. *)
Definition within (c : nat) : env := run_env (Some c) false None.

Lemma within_env c outermost : run_env (Some c) false outermost = within c.
Proof. done. Qed.

Lemma parent_search c p : context_ok c -> parentNode c = Some p -> has_find p = true /\ context_ok p.
Proof.
  intros [->|Hc] Hp; [destruct document_root; congruence|]. pose proof Hc as [_ Hdoc]%all_elements_spec.
  rewrite axis_unfold in Hdoc by done. cbn [follow] in Hdoc. rewrite Hp in Hdoc. unfold has_find.
  destruct (decide (p = document)) as [->|Hne]; [rewrite document_type; split; [done|by left]|].
  assert (document ∈ axis ParentNode p) as Hin by set_solver. destruct (parent_kind c p Hp) as [Hel|Hno].
  - unfold is_element in Hel. rewrite Hel. split; [done|]. right. by apply all_elements_spec.
  - rewrite axis_unfold in Hin by done. cbn [follow] in Hin. rewrite Hno in Hin. set_solver.
Qed.

Definition leading_sibling (tokens : list token) : bool := match tokens with t :: _ => is_sibling t | [] => false end.
Lemma is_sibling_spec t r : relative_of (kind_of t) = Some r -> is_sibling t = bool_decide (dir r = PreviousSibling).
Proof.
  unfold is_sibling. destruct (kind_of t) as [c| | | | | |]; try done. cbn.
  destruct (Z.eqb_spec c 62) as [->|]; [by intros [= <-]|]. destruct (Z.eqb_spec c 32) as [->|]; [by intros [= <-]|].
  destruct (Z.eqb_spec c 43); [by intros [= <-]|]. destruct (Z.eqb_spec c 126); [by intros [= <-]|done].
Qed.

Lemma search_context_axis b b' c e : (b = true -> b' = true) -> context_ok c ->
  search_context b c ∈ axis ParentNode e -> search_context b' c ∈ axis ParentNode e.
Proof.
  intros Hb Hc. unfold search_context. destruct (parentNode c) as [p|] eqn:Hp; [|done]. destruct (parent_search c p Hc Hp) as [-> _].
  rewrite !andb_true_r. destruct b, b'; try done; [by specialize (Hb eq_refl)|]. intros Hin. eapply axis_trans; [done|exact Hin|].
  rewrite axis_unfold by done. cbn [follow]. rewrite Hp. left.
Qed.

Definition sibling_lead (leading : option relative) : bool := match leading with Some r => bool_decide (dir r = PreviousSibling) | None => false end.

Lemma related_axis r check e x : x ∈ related r check e -> x ∈ axis (dir r) e.
Proof.
  unfold related. intros Hx. assert (x ∈ List.filter (fun n => is_element n || check) (axis (dir r) e)) as Hf.
  { destruct (is_first r); [|done]. apply list_elem_of_lookup in Hx as [i Hi]. apply lookup_take_Some in Hi as [Hi _]. by eapply list_elem_of_lookup_2. }
  by apply elem_of_lfilter in Hf as [? _].
Qed.

Lemma rooted_scope c leading e : context_ok c -> (forall r, leading = Some r -> dir r <> NextSibling) -> e ∈ all_elements ->
  rooted (within c) leading e = true -> search_context (sibling_lead leading) c ∈ axis ParentNode e.
Proof.
  intros Hc Hdir He. unfold rooted. rewrite orb_true_iff. intros [Hno|Hin].
  - apply andb_prop in Hno as [Hl Hout]. apply negb_true_iff, bool_decide_eq_false in Hl. destruct leading as [r|]; [by destruct Hl|].
    cbn in Hout. destruct (Nat.eqb_spec c document) as [->|]; [|by rewrite bool_decide_eq_true_2 in Hout].
    unfold search_context. destruct document_root as [-> _]. by apply all_elements_spec in He as [_ ?].
  - apply existsb_exists in Hin as (x & Hin & Hx%Nat.eqb_eq). cbn in Hx. subst x. apply list_elem_of_In, related_axis in Hin.
    unfold sibling_lead. destruct leading as [r|]; cbn [default from_option id] in Hin.
    + specialize (Hdir r eq_refl). destruct (dir r); cbn [bool_decide]; [|clear Hdir|done].
      * rewrite bool_decide_eq_false_2 by done. unfold search_context. by destruct (parentNode c).
      * rewrite bool_decide_eq_true_2 by done. apply siblings_parent in Hin as [Hp Hn]. unfold search_context. rewrite Hp.
        destruct (parentNode e) as [p|] eqn:Ep; [|done]. destruct (parent_search c p Hc Hp) as [-> _]. cbn [andb].
        rewrite axis_unfold by done. cbn [follow]. rewrite Ep. left.
    + unfold search_context. by destruct (parentNode c).
Qed.

Lemma holds_scope c leading rev_tokens e : context_ok c -> (forall r, leading = Some r -> dir r <> NextSibling) -> e ∈ all_elements ->
  holds (within c) leading rev_tokens e = true -> search_context (sibling_lead leading) c ∈ axis ParentNode e.
Proof.
  intros Hc Hdir. revert e. induction rev_tokens as [|t before IH]; intros e He; cbn [holds]; [by apply rooted_scope|].
  destruct (relative_of (kind_of t)) as [r|] eqn:Hr; [|by intros [_ Hh]%andb_prop; apply IH].
  intros (x & Hx & Hh)%existsb_exists. apply list_elem_of_In in Hx. destruct (relative_of_plain _ _ Hr) as [_ Hd].
  pose proof (related_in_document r e x Hd He Hx) as Hdoc. specialize (IH x Hdoc Hh). apply related_axis in Hx.
  destruct (dir r); [by eapply axis_trans| |done]. apply siblings_parent in Hx as [Hp _]. by rewrite <- (same_ancestors x e).
Qed.

Lemma selects_scope c tokens e b : context_ok c -> e ∈ all_elements -> (leading_sibling tokens = true -> b = true) ->
  selects (within c) tokens e = true -> e ∈ getElementsByTagName [42] (search_context b c).
Proof.
  intros Hc He Hb Hs. apply find_below. split; [by apply all_elements_spec in He as [? _]|]. destruct tokens as [|t rest]; [done|]. cbn [selects] in Hs.
  assert (sibling_lead (relative_of (kind_of t)) = leading_sibling (t :: rest)) as Hl.
  { cbn [leading_sibling]. destruct (relative_of (kind_of t)) as [r|] eqn:Hr; [symmetry; by apply is_sibling_spec|].
    unfold is_sibling. destruct (kind_of t) as [ch| | | | | |]; try done. cbn in Hr. cbn [sibling_lead]. symmetry.
    destruct (ch =? 62), (ch =? 32), (ch =? 43), (ch =? 126); done. }
  rewrite <- Hl in Hb. eapply search_context_axis; [exact Hb|done|]. eapply holds_scope; [done| |done|exact Hs].
  intros r. apply relative_of_plain.
Qed.

(** ** Runs *)

Lemma search_in_document b c : context_ok c -> context_ok (search_context b c).
Proof.
  intros Hc. unfold search_context. destruct (parentNode c) as [p|] eqn:Hp; [|done]. destruct (parent_search c p Hc Hp) as [_ Hp'].
  by destruct (b && has_find p).
Qed.
Lemma below_in_document c e : context_ok c -> e ∈ getElementsByTagName [42] c -> e ∈ all_elements.
Proof.
  intros [->|Hc] He; [done|]. apply find_below in He as [Hel Hin]. apply all_elements_spec in Hc as [_ Hc]. apply all_elements_spec.
  split; [done|]. by eapply axis_trans.
Qed.

(** A search below a node that contains all that is selected finds all of it. *)
Lemma filter_scope (P : nat -> bool) c : context_ok c -> (forall e, e ∈ all_elements -> P e = true -> e ∈ getElementsByTagName [42] c) ->
  List.filter P (getElementsByTagName [42] c) = List.filter P all_elements.
Proof.
  intros Hc HP. apply sorted_ext; [apply filter_sorted, find_sorted..|]. intros e. rewrite !elem_of_lfilter. split.
  - intros [He Hp]. split; [by eapply below_in_document|done].
  - intros [He Hp]. split; [by apply HP|done].
Qed.

(** Groups and the text they are of: a leading sibling combinator is seen in the
    text. *)
Record groups_ok (groups : list (list token)) (selector : jstr) : Prop := {
  some_group : groups <> [];
  no_empty_group : Forall (fun g => g <> []) groups;
  tokens_are_ok : Forall (Forall matchable) groups;
  tokens_compile : Forall (Forall compilable) groups;
  sibling_seen g : g ∈ groups -> leading_sibling g = true -> rsibling selector = true;
}.

Definition selected (c : nat) (groups : list (list token)) : list nat := List.filter (selects_any (within c) groups) all_elements.

Lemma run_correct groups selector c results w : groups_ok groups selector -> context_ok c -> memo_wf (memory w) ->
  let r := run true groups selector (Some c) results None w in
  fst r = Ok (Some (results ++ selected c groups)) /\ memo_wf (memory (snd r)).
Proof.
  intros [Hsome Hne Hok Hcomp Hsib] Hc Hw. unfold run. destruct (compile_total groups (done_names w) Hne Hcomp) as (ms & n & Hms). rewrite Hms.
  cbn [fmap option_fmap option_map negb].
  pose proof (superMatcher_correct groups (done_names w) ms n None (Some c) false results (Some (search_context (rsibling selector) c)) (memory w) Hsome Hok Hms) as H.
  destruct (superMatcher _ _ _ _ _ _ _) as [l s]. cbn [fst snd source] in *. destruct H as [-> Hs]; [|done|].
  - apply Forall_forall. intros e. apply found_is_element.
  - split; [|done]. do 3 f_equal. rewrite within_env. apply filter_scope; [by apply search_in_document|].
    intros e He (g & Hg & Hs')%existsb_exists. apply list_elem_of_In in Hg. eapply selects_scope; [done|done|by apply Hsib|exact Hs'].
Qed.

Lemma run_seed_correct groups selector c seed results w : groups <> [] -> Forall (fun g => g <> []) groups ->
  Forall (Forall matchable) groups -> Forall (Forall compilable) groups -> Forall (fun e => is_element e = true) seed -> memo_wf (memory w) ->
  let r := run true groups selector c results (Some seed) w in
  let outermost := search_context (rsibling selector) <$> c in
  fst r = Ok (Some (results ++ List.filter (selects_any (run_env c false outermost) groups) seed)) /\ memo_wf (memory (snd r)).
Proof.
  intros Hsome Hne Hok Hcomp Hel Hw. unfold run. destruct (compile_total groups (done_names w) Hne Hcomp) as (ms & n & Hms). rewrite Hms.
  pose proof (superMatcher_correct groups (done_names w) ms n (Some seed) c false results (search_context (rsibling selector) <$> c) (memory w) Hsome Hok Hms) as H.
  cbn [negb]. change (option_fmap nat nat (fun c0 => search_context (rsibling selector) c0) c) with (search_context (rsibling selector) <$> c).
  destruct (superMatcher _ _ _ _ _ _ _) as [l s]. cbn [fst snd source] in *. destruct H as [-> Hs]; [|done|done].
  by destruct (search_context (rsibling selector) <$> c).
Qed.

(** ** One group *)

(** Tokens of a text that can be searched and compiled. *)
Definition good (t : token) : Prop :=
  matchable t /\ searchable t /\ compilable t /\ value t <> [] /\ (is_sibling t = true -> rsibling (value t) = true).

Lemma good_parts l : Forall good l ->
  Forall matchable l /\ Forall searchable l /\ Forall compilable l /\ Forall (fun t => value t <> []) l.
Proof. intros Hl. split_and!; (eapply Forall_impl; [exact Hl|]; by intros t (? & ? & ? & ? & ?)). Qed.

Lemma rsibling_app s1 s2 : rsibling (s1 ++ s2) = rsibling s1 || rsibling s2.
Proof. apply existsb_app. Qed.
Lemma leading_seen tokens : Forall good tokens -> leading_sibling tokens = true -> rsibling (toSelector tokens) = true.
Proof.
  intros Hg Hl. destruct tokens as [|t tokens]; [done|]. cbn [leading_sibling] in Hl. apply Forall_inv in Hg as (_ & _ & _ & _ & Hs).
  cbn [toSelector flat_map]. rewrite rsibling_app, Hs by done. done.
Qed.
Lemma single_groups_ok tokens : Forall good tokens -> tokens <> [] -> groups_ok [tokens] (toSelector tokens).
Proof.
  intros Hg Hne. destruct (good_parts tokens Hg) as (H1 & H2 & H3 & H4).
  split; [done|by constructor..|]. intros g ->%list_elem_of_singleton. by apply leading_seen.
Qed.

Lemma selects_any_single ev tokens e : selects_any ev [tokens] e = selects ev tokens e.
Proof. unfold selects_any. cbn. by rewrite orb_false_r. Qed.

Lemma lfilter_and (f g : nat -> bool) l : List.filter (fun x => f x && g x) l = List.filter g (List.filter f l).
Proof. induction l as [|x l IH]; [done|]. cbn. destruct (f x); cbn; [|done]. by destruct (g x); rewrite IH. Qed.

Lemma leading_unrelated t : unrelated t -> is_sibling t = false.
Proof.
  unfold is_sibling. destruct (kind_of t) as [c| | | | | |]; try done. cbn.
  destruct (c =? 62), (c =? 32), (c =? 43), (c =? 126); done.
Qed.
Lemma rooted_below c x : x ∈ getElementsByTagName [42] c -> rooted (within c) None x = true.
Proof.
  intros [_ Hx]%find_below. unfold rooted. rewrite bool_decide_eq_false_2 by (by intros [? ?]). cbn [default from_option id descendant dir is_first].
  apply orb_true_iff. right. apply existsb_exists. exists c. split; [|cbn; apply Nat.eqb_refl]. unfold related. cbn [is_first descendant dir].
  apply filter_In. split; [by apply list_elem_of_In|]. by rewrite bool_decide_eq_true_2, orb_true_r.
Qed.

Lemma fetch_and_run_correct tokens c results w : Forall good tokens -> tokens <> [] -> context_ok c -> memo_wf (memory w) ->
  let r := fetch_and_run true tokens (toSelector tokens) c results w in
  fst r = Ok (Some (results ++ selected c [tokens])) /\ memo_wf (memory (snd r)).
Proof.
  intros Hg Hne Hc Hw. unfold fetch_and_run. fold (leading_sibling tokens). set (c' := search_context (leading_sibling tokens) c).
  destruct (if needsContext (toSelector tokens) then None else fetch_seed true c' (rev tokens)) as [[seed rev_rest]|] eqn:Ef.
  2: { apply run_correct; [by apply single_groups_ok|done|done]. }
  destruct (needsContext (toSelector tokens)); [done|].
  apply fetch_seed_split in Ef as (pre & t & post & Hrev & -> & Hpre & Ht & Hfind).
  assert (tokens = rev post ++ t :: rev pre) as Htokens by (rewrite <- (rev_involutive tokens), Hrev, rev_app_distr; cbn; by rewrite <- app_assoc).
  rewrite rev_app_distr. set (p := rev post) in *. set (q := rev pre) in *. assert (Forall (fun t => unrelated t) q) as Hq by (by apply Forall_rev).
  assert (Forall good (p ++ q) /\ good t) as [Hgood Hgt].
  { rewrite Htokens in Hg. apply Forall_app in Hg as [? [? ?]%Forall_cons]. split; [by apply Forall_app|done]. }
  apply find_filter in Hfind as ->; [|by apply Hgt..].
  assert (context_ok c') as Hc' by (by apply search_in_document).
  assert (forall e, e ∈ all_elements -> selects (within c) tokens e = true -> e ∈ getElementsByTagName [42] c') as Hscope.
  { intros e He. by apply selects_scope. }
  set (seed := List.filter _ (getElementsByTagName [42] c')).
  assert (selected c [tokens] = List.filter (selects (within c) tokens) (getElementsByTagName [42] c')) as Hsel.
  { rewrite (filter_scope (selects (within c) tokens) c') by done. unfold selected. apply lfilter_ext. intros x _. apply selects_any_single. }
  rewrite Hsel. destruct (decide (p ++ q = [])) as [Hpq|Hpq].
  - rewrite decide_True by (right; by rewrite Hpq). cbn [fst snd]. split; [|done]. do 3 f_equal.
    apply app_eq_nil in Hpq as [Hp Hq']. rewrite Htokens, Hp, Hq' in *. cbn [app] in *. unfold seed. apply lfilter_ext. intros x Hx.
    cbn [selects]. rewrite Ht. cbn [rev app holds]. rewrite Ht. cbn [xml within run_env]. rewrite rooted_below; [by rewrite andb_true_r|].
    subst c'. assert (leading_sibling tokens = false) as Hls by (rewrite Htokens, ?Hp, ?Hq'; by apply leading_unrelated). rewrite Hls in Hx. unfold search_context in Hx. by destruct (parentNode c).
  - assert (List.filter (selects (within c) tokens) (getElementsByTagName [42] c') = List.filter (selects (within c) (p ++ q)) seed) as ->.
    { unfold seed. rewrite <- lfilter_and. apply lfilter_ext. intros x _. rewrite Htokens. by apply selects_remove. }
    destruct (decide _) as [Hstop|Hgo].
    + assert (seed = []) as ->; [|done]. destruct Hstop as [?|Hnil]; [done|]. exfalso. apply Hpq, toSelector_nil; [by apply good_parts|done].
    + destruct (good_parts _ Hgood) as (H1 & _ & H3 & _).
      destruct (run_seed_correct [p ++ q] (toSelector (p ++ q)) (Some c) seed results w) as [-> Hs]; try done; try by constructor.
      { apply Forall_forall. intros x [Hx _]%elem_of_lfilter. by eapply found_is_element. }
      split; [|done]. do 3 f_equal. apply lfilter_ext. intros x _. by rewrite selects_any_single.
Qed.

(** ** The leading id *)

Lemma existsb_ext_in (f g : nat -> bool) l : (forall x, x ∈ l -> f x = g x) -> existsb f l = existsb g l.
Proof. intros H. induction l as [|x l IH]; [done|]. cbn. rewrite H by left. f_equal. apply IH. intros y Hy. apply H. by right. Qed.

(** Two ways to begin that agree on the document agree behind any tokens. *)
Lemma holds_base ev ev' lead lead' tail tail' l : xml ev = xml ev' ->
  (forall e, e ∈ all_elements -> holds ev lead tail e = holds ev' lead' tail' e) ->
  forall e, e ∈ all_elements -> holds ev lead (l ++ tail) e = holds ev' lead' (l ++ tail') e.
Proof.
  intros Hxml Hbase. induction l as [|t l IH]; intros e He; cbn [app holds]; [by apply Hbase|].
  destruct (relative_of (kind_of t)) as [r|] eqn:Hr; [|by rewrite Hxml, IH].
  apply existsb_ext_in. intros x Hx. apply IH. destruct (relative_of_plain _ _ Hr) as [_ Hd]. by eapply related_in_document.
Qed.
Lemma holds_never ev lead tail l : (forall e, e ∈ all_elements -> holds ev lead tail e = false) ->
  forall e, e ∈ all_elements -> holds ev lead (l ++ tail) e = false.
Proof.
  intros Hbase. induction l as [|t l IH]; intros e He; cbn [app holds]; [by apply Hbase|].
  destruct (relative_of (kind_of t)) as [r|] eqn:Hr; [|by rewrite IH, andb_false_r].
  destruct (relative_of_plain _ _ Hr) as [_ Hd]. apply not_true_iff_false. intros (x & Hx & Hh)%existsb_exists. apply list_elem_of_In in Hx.
  rewrite IH in Hh; [done|by eapply related_in_document].
Qed.

(** Being related to an element does not depend on whether other nodes count. *)
Lemma related_check r e e0 : dir r <> NextSibling -> is_element e0 = true ->
  existsb (fun x => (x =? e0)%nat) (related r false e) = existsb (fun x => (x =? e0)%nat) (related r (bool_decide (dir r = ParentNode)) e).
Proof.
  intros Hd Hel. destruct (decide (dir r = ParentNode)) as [Hp|]; [|by rewrite bool_decide_eq_false_2]. rewrite bool_decide_eq_true_2 by done.
  assert (forall l, existsb (fun x => (x =? e0)%nat) (List.filter (fun n => is_element n || false) l)
    = existsb (fun x => (x =? e0)%nat) (List.filter (fun n => is_element n || true) l)) as Hall.
  { intros l. induction l as [|x l IH]; [done|]. cbn. rewrite orb_false_r, orb_true_r. cbn. destruct (is_element x) eqn:E; cbn; rewrite IH; [done|].
    destruct (Nat.eqb_spec x e0) as [->|]; [congruence|done]. }
  unfold related. destruct (is_first r); [|apply Hall]. rewrite Hp. rewrite axis_unfold by done. cbn [follow].
  destruct (parentNode e) as [p|] eqn:Ep; [|done]. cbn [List.filter]. rewrite orb_false_r, orb_true_r.
  destruct (is_element p) eqn:E; [done|]. destruct (parent_kind e p Ep) as [|Hno]; [congruence|].
  rewrite (axis_unfold ParentNode p) by done. cbn [follow]. rewrite Hno. cbn. destruct (Nat.eqb_spec p e0) as [->|]; [congruence|done].
Qed.

Lemma id_only raw e x : getElementById (unescape raw) = Some e -> x ∈ all_elements -> ID raw x = (x =? e)%nat.
Proof.
  intros [He Hid]%find_some_id Hx. unfold ID. destruct (Nat.eqb_spec x e) as [->|Hne]; [by apply bool_decide_eq_true|].
  apply bool_decide_eq_false. intros Hidx. apply Hne. by eapply unique_ids.
Qed.

Lemma id_base raw t r rel e : kind_of t = KId raw -> relative_of (kind_of r) = Some rel -> e ∈ all_elements ->
  holds (within document) None [r; t] e = existsb (ID raw) (related rel false e).
Proof.
  intros Ht Hr He. cbn [holds]. rewrite Hr. apply existsb_ext_in. intros x Hx. rewrite Ht. cbn [relative_of filter_holds].
  destruct (relative_of_plain _ _ Hr) as [_ Hd]. rewrite rooted_below; [by rewrite andb_true_r|]. by eapply related_in_document.
Qed.

Lemma leading_id_correct tokens c : Forall good tokens -> tokens <> [] -> context_ok c ->
  match leading_id true tokens c with
  | None => selected c [tokens] = []
  | Some (c', tokens') =>
      context_ok c' /\ selected c' [tokens'] = selected c [tokens] /\ tokens' <> [] /\ exists p, tokens = p ++ tokens'
  end.
Proof.
  intros Hg Hne Hc. assert (context_ok c /\ selected c [tokens] = selected c [tokens] /\ tokens <> [] /\ exists p, tokens = p ++ tokens) as Hsame.
  { split_and!; [done..|by exists []]. }
  unfold leading_id. destruct tokens as [|t [|r [|x rest]]]; try exact Hsame. destruct (kind_of t) as [| | | | | |raw] eqn:Ht; try exact Hsame.
  destruct (relative_of (kind_of r)) as [rel|] eqn:Hr; [|exact Hsame]. rewrite andb_true_r. destruct (Z.eqb_spec (nodeType c) 9) as [Hn9|]; [|exact Hsame].
  assert (c = document) as ->.
  { destruct Hc as [|[Hel _]%all_elements_spec]; [done|]. unfold is_element in Hel. by rewrite Hn9 in Hel. }
  unfold find_id. rewrite Nat.eqb_refl. cbn [andb]. set (body := x :: rest).
  assert (forall e, e ∈ all_elements -> selects (within document) (t :: r :: body) e = holds (within document) None (rev body ++ [r; t]) e) as Hsel.
  { intros e _. cbn [selects]. rewrite Ht. cbn [relative_of]. change (rev (t :: r :: body)) with ((rev body ++ [r]) ++ [t]). by rewrite <- app_assoc. }
  destruct (relative_of_plain _ _ Hr) as [_ Hd]. destruct (getElementById (unescape raw)) as [e0|] eqn:Eid; cbn iota beta.
  - pose proof (find_some_id _ _ Eid) as [He0 _]. split_and!; [by right| |done|by exists [t]]. unfold selected. apply lfilter_ext.
    intros e He. rewrite !selects_any_single, Hsel by done. cbn [selects]. rewrite Hr. rewrite <- (app_nil_r (rev body)) at 1.
    symmetry. apply holds_base; [done| |done]. clear e He. intros e He. rewrite (id_base raw) with (rel := rel) by done. cbn [holds]. unfold rooted.
    rewrite bool_decide_eq_true_2 by eauto. cbn [negb andb orb default from_option id]. change (context (within e0)) with e0.
    rewrite <- (related_check rel e e0) by (done || by apply all_elements_spec in He0 as [? _]).
    apply existsb_ext_in. intros y Hy. apply (id_only raw); [done|by eapply related_in_document].
  - unfold selected. assert (forall l, (forall e, e ∈ l -> selects_any (within document) [t :: r :: body] e = false) -> List.filter (selects_any (within document) [t :: r :: body]) l = []) as Hnil.
    { intros l Hl. induction l as [|y l IH]; [done|]. cbn [List.filter]. rewrite Hl by left. apply IH. intros z Hz. apply Hl. by right. }
    apply Hnil. intros e He. rewrite selects_any_single, Hsel by done. apply holds_never; [|done]. clear e He. intros e He.
    rewrite (id_base raw) with (rel := rel) by done. apply not_true_iff_false. intros (y & Hy & Hid)%existsb_exists. apply list_elem_of_In in Hy.
    unfold ID in Hid. apply bool_decide_eq_true in Hid. by eapply (find_no_id _ Eid y); [eapply related_in_document|].
Qed.

Lemma select_single_correct tokens c results w : Forall good tokens -> tokens <> [] -> context_ok c -> memo_wf (memory w) ->
  let r := select_single true tokens (toSelector tokens) c results w in
  fst r = Ok (Some (results ++ selected c [tokens])) /\ memo_wf (memory (snd r)).
Proof.
  intros Hg Hne Hc Hw. unfold select_single. pose proof (leading_id_correct tokens c Hg Hne Hc) as Hid.
  destruct (leading_id true tokens c) as [[c' tokens']|].
  - destruct Hid as (Hc' & <- & Hne' & p & ->). rewrite toSelector_app, length_app. replace (length (toSelector p) + length (toSelector tokens') - length (toSelector tokens'))%nat with (length (toSelector p)) by lia.
    rewrite drop_app_length. apply fetch_and_run_correct; [by apply Forall_app in Hg as [_ ?]|done|done|done].
  - rewrite Hid. cbn [fst snd]. by rewrite app_nil_r.
Qed.

(** ** Selectors *)

(** Tokens the document can be asked about: names without escapes, pseudo-classes
    that are known and test single elements, and no :nth-last-child. *)
Definition usable (t : token) : Prop :=
  reliable t /\ searchable t /\ match kind_of t with KPseudo name arg => exists f, PSEUDO name arg = Ok (ElementTest f) | _ => True end.

Lemma piece_good s t : piece s t -> usable t -> good t.
Proof.
  intros (Hv & _ & Hok & Hrel) (Hr & Hs & Hp). split_and!; [done|done| |done|].
  - unfold compilable. destruct (kind_of t) eqn:Ek; try done. destruct (Hrel c eq_refl) as [-> | [_ [-> | [-> | ->]]]]; by eexists.
  - intros Hsib. unfold is_sibling in Hsib. destruct (kind_of t) eqn:Ek; try done. destruct (Hrel c eq_refl) as [-> | [Hc _]]; [done|].
    apply existsb_exists. exists c. split; [by apply list_elem_of_In|done].
Qed.
Lemma pieces_good s l : Forall (piece s) l -> Forall usable l -> Forall good l.
Proof. intros Hp Hu. induction Hp as [|t l Ht Hp IH]; [constructor|]. apply Forall_cons in Hu as [? ?]. constructor; [by eapply piece_good|by apply IH]. Qed.

Lemma tokens_groups_ok selector groups : tokenize selector = fret groups -> selector <> [] -> Forall (Forall usable) groups ->
  groups_ok groups selector /\ Forall (Forall good) groups /\ forall g, groups = [g] -> toSelector g = selector.
Proof.
  intros Htok Hne Hu. destruct (tokenize_text selector groups Htok) as (Hp & Hsingle & Hnil & Hempty).
  assert (Forall (Forall good) groups) as Hg.
  { clear -Hp Hu. induction Hp as [|g gs H Hp IH]; [constructor|]. apply Forall_cons in Hu as [? ?]. constructor; [by eapply pieces_good|by apply IH]. }
  split_and!; [|done|done]. split; [by intros ?%Hnil|done| | |].
  - eapply Forall_impl; [exact Hg|]. intros g H. by apply good_parts.
  - eapply Forall_impl; [exact Hg|]. intros g H. by apply good_parts.
  - intros g Hin Hl. rewrite Forall_forall in Hp. specialize (Hp g Hin). destruct g as [|t g]; [done|]. cbn [leading_sibling] in Hl.
    apply Forall_inv in Hp as (_ & Hsub & _ & Hrel). unfold is_sibling in Hl. destruct (kind_of t) eqn:Ek; try done.
    destruct (Hrel c eq_refl) as [-> | [Hc _]]; [done|]. apply existsb_exists. exists c. split; [by apply list_elem_of_In, Hsub|done].
Qed.

(** C28. [select] finds what the selector means: for every selector that is read and
    whose tokens are usable (names without escapes, pseudo-classes that are known
    and test single elements, no :nth-last-child), every context in the document and
    whatever earlier calls left in the caches, the result is the elements of the
    document that the selector holds of, each once and in document order, behind the
    results that were passed in.  With :nth-last-child the result can be wrong:
    [wrong_from_the_end]. *)
Theorem select_correct (selector : jstr) (groups : list (list token)) (c : nat) (results : list nat) (w : engine)
    (Htok : tokenize selector = fret groups) (Hne : selector <> []) (Huse : Forall (Forall usable) groups)
    (Hc : context_ok c) (Hw : memo_wf (memory w)) :
  exists w', select true selector (Some c) results None w = Some (Ok (Some (results ++ selected c groups)), w') /\ memo_wf (memory w').
Proof.
  destruct (tokens_groups_ok selector groups Htok Hne Huse) as (Hok & Hg & Hsingle). unfold select. rewrite Htok. cbn [fret].
  destruct groups as [|g [|g2 groups]].
  - by destruct Hok.
  - rewrite <- (Hsingle g eq_refl) in *. apply Forall_cons in Hg as [Hg _].
    assert (g <> []) as Hgne by (by destruct Hok as [_ ?%Forall_inv]).
    destruct (select_single_correct g c results w Hg Hgne Hc Hw) as [H1 H2]. destruct (select_single _ _ _ _ _ _) as [r w']. cbn [fst snd] in *. subst r. by eexists.
  - destruct (run_correct (g :: g2 :: groups) selector c results w Hok Hc Hw) as [H1 H2]. destruct (run _ _ _ _ _ _ _) as [r w']. cbn [fst snd] in *. subst r. by eexists.
Qed.

(** Filtering by a selector, as [filter] and [is] do with the elements as seed,
    keeps the elements that a search of the document finds. *)
Theorem filter_agrees (selector : jstr) (groups : list (list token)) (seed : list nat) (w : engine)
    (Htok : tokenize selector = fret groups) (Hne : selector <> []) (Huse : Forall (Forall usable) groups)
    (Hseed : Forall (fun e => e ∈ all_elements) seed) (Hw : memo_wf (memory w)) :
  exists w' found w'', select true selector None [] (Some seed) w = Some (Ok (Some (filter (fun e => e ∈ found) seed)), w') /\
    select true selector (Some document) [] None w = Some (Ok (Some found), w'') /\ memo_wf (memory w').
Proof.
  destruct (select_correct selector groups document [] w Htok Hne Huse (or_introl eq_refl) Hw) as (w'' & Hsel & _).
  destruct (tokens_groups_ok selector groups Htok Hne Huse) as ([Hsome Hempty H1 H2 _] & _ & _).
  assert (Forall (fun e => is_element e = true) seed) as Hel by (eapply Forall_impl; [exact Hseed|]; by intros e [? _]%all_elements_spec).
  destruct (run_seed_correct groups selector None seed [] w Hsome Hempty H1 H2 Hel Hw) as [Hr Hw'].
  assert (select true selector None [] (Some seed) w = Some (run true groups selector None [] (Some seed) w)) as Hs.
  { unfold select. rewrite Htok. by destruct groups as [|g [|? ?]]. }
  exists (snd (run true groups selector None [] (Some seed) w)), (selected document groups), w''. split; [|split; [exact Hsel|done]].
  rewrite Hs, (surjective_pairing (run _ _ _ _ _ _ _)), Hr. do 4 f_equal. cbn [app fmap option_fmap option_map snd].
  assert (run_env None false None = within document) as -> by (unfold within, run_env; by rewrite Nat.eqb_refl). unfold selected.
  clear -Hseed. induction Hseed as [|e l He Hl IH]; [done|]. cbn [List.filter].
  destruct (selects_any (within document) groups e) eqn:E.
  - rewrite filter_cons_True; [by f_equal|]. by apply elem_of_lfilter.
  - rewrite filter_cons_False; [done|]. intros [_ Hx]%elem_of_lfilter. congruence.
Qed.
End select_props.
