(* ===== verification/SizzlePage.v ===== *)
(** Documents as lists of nodes in document order: an instance of the classes by
    which the selector engine sees the browser. *)
From Stdlib Require Import String Sorted.
From S2P Require Import Prelude JsString ClassNames SizzleText SizzleTokens SizzleDom SizzleFilters SizzleDocument.

(** A node with the place of its parent; a text has no name.  The first node is
    the document. *)
Record node_info := { info_parent : nat; info_name : jstr; info_id : option jstr; info_class : jstr }.

Section page.
Context (nodes : list node_info).

Definition page_type (e : nat) : Z :=
  match e, nodes !! e with
  | O, _ => 9
  | _, Some i => if decide (info_name i = []) then 3 else 1
  | _, None => 0
  end.
(** Only elements and the document have children, and before them. *)
Definition page_parent (e : nat) : option nat :=
  i ← nodes !! e;
  let p := info_parent i in
  if ((p <? e)%nat && ((p =? 0)%nat || (page_type p =? 1)))%bool then Some p else None.
Definition page_children (p : nat) : list nat := filter (fun e => page_parent e = Some p) (seq 0 (length nodes)).
(** The index of a node among the children of its parent. *)
Fixpoint index_in (e : nat) (l : list nat) : option nat :=
  match l with x :: l => if (x =? e)%nat then Some 0%nat else S <$> index_in e l | [] => None end.
Definition page_sibling (move : nat -> option nat) (e : nat) : option nat :=
  p ← page_parent e; i ← index_in e (page_children p); j ← move i; page_children p !! j.
Definition page_attribute (e : nat) (name : jstr) : option jstr :=
  i ← nodes !! e; if decide (name = str "id") then info_id i else if decide (name = str "class") then Some (info_class i) else None.
Fixpoint ancestors_go (fuel e : nat) : list nat :=
  match fuel with
  | O => []
  | S fuel => match page_parent e with Some p => p :: ancestors_go fuel p | None => [] end
  end.
Definition page_ancestors (e : nat) : list nat := ancestors_go e e.
Definition page_class (e : nat) : jstr := match nodes !! e with Some i => info_class i | None => [] end.
Definition page_name (e : nat) : jstr := match nodes !! e with Some i => info_name i | None => [] end.
Definition page_below (c : nat) : list nat := filter (fun e => page_type e = 1 /\ c ∈ page_ancestors e) (seq 0 (length nodes)).

#[export] Instance page_tree : Tree := {|
  document := 0;
  nodeType := page_type;
  nodeName := page_name;
  toLowerCase := map lower;
  parentNode := page_parent;
  previousSibling := page_sibling (fun i => match i with O => None | S i => Some i end);
  nextSibling := page_sibling (fun i => Some (S i));
  firstChild := fun p => head (page_children p);
  lastChild := fun p => last (page_children p);
  childNodes := page_children;
  getAttribute := page_attribute;
  className := page_class;
  getElementsByTagName := fun name c =>
    if decide (name = [42]) then page_below c
    else List.filter (fun e => bool_decide (map lower (page_name e) = map lower name)) (page_below c);
  getElementsByClassName := fun name c =>
    List.filter (fun e => bool_decide (Forall (fun n => n ∈ ClassNames.tokens (page_class e)) (ClassNames.tokens name))) (page_below c);
  getElementById := fun id => head (filter (fun e => page_attribute e (str "id") = Some id) (page_below 0));
|}.

(** ** The laws *)

Lemma page_parent_before e p : page_parent e = Some p -> (p < e)%nat /\ (e < length nodes)%nat /\ (p = 0%nat \/ page_type p = 1).
Proof.
  unfold page_parent. destruct (nodes !! e) as [i|] eqn:Ei; [|done]. cbn [mbind option_bind].
  destruct (Nat.ltb_spec (info_parent i) e); [|done]. cbn [andb]. destruct (_ || _) eqn:Eo; [|done]. intros [= <-].
  split_and!; [done|by eapply lookup_lt_Some|]. apply orb_prop in Eo as [?%Nat.eqb_eq|?%Z.eqb_eq]; auto.
Qed.
Lemma seq_sorted a n : StronglySorted lt (seq a n).
Proof.
  revert a. induction n as [|n IH]; intros a; cbn; constructor; [apply IH|]. apply Forall_forall. intros x Hx. apply elem_of_seq in Hx. lia.
Qed.
Lemma sorted_filter (P : nat -> Prop) `{!forall x, Decision (P x)} l : StronglySorted lt l -> StronglySorted lt (filter P l).
Proof.
  induction 1 as [|x l Hl IH Hx]; [constructor|]. rewrite filter_cons. destruct (decide (P x)); [|done]. constructor; [done|].
  apply Forall_forall. intros y [_ Hy]%list_elem_of_filter. rewrite Forall_forall in Hx. by apply Hx.
Qed.
Lemma index_in_spec e l i : NoDup l -> l !! i = Some e -> index_in e l = Some i.
Proof.
  revert i. induction l as [|x l IH]; intros i Hnd Hi; [done|]. apply NoDup_cons in Hnd as [Hx Hnd]. cbn [index_in]. destruct i as [|i].
  - injection Hi as ->. by rewrite Nat.eqb_refl.
  - cbn in Hi. destruct (Nat.eqb_spec x e) as [->|]; [by destruct Hx; eapply list_elem_of_lookup_2|]. by rewrite (IH i).
Qed.
Lemma page_children_spec p e : e ∈ page_children p <-> page_parent e = Some p.
Proof.
  unfold page_children. rewrite list_elem_of_filter. split; [by intros [? _]|]. intros He. split; [done|]. apply elem_of_seq.
  apply page_parent_before in He. lia.
Qed.
Lemma page_children_nodup p : NoDup (page_children p).
Proof. apply NoDup_filter, NoDup_seq. Qed.

#[export] Instance page_laws : TreeLaws page_tree.
Proof.
  split; cbn [childNodes parentNode firstChild lastChild nextSibling previousSibling document nodeType page_tree].
  - apply page_children_spec.
  - intros e p Hp. by apply page_parent_before.
  - intros p. apply sorted_filter, seq_sorted.
  - done.
  - done.
  - intros p i e He. unfold page_sibling. pose proof (list_elem_of_lookup_2 _ _ _ He) as Hin. apply page_children_spec in Hin as ->.
    cbn [mbind option_bind]. by rewrite (index_in_spec e _ i) by (done || apply page_children_nodup).
  - intros p i e He. unfold page_sibling. pose proof (list_elem_of_lookup_2 _ _ _ He) as Hin. apply page_children_spec in Hin as ->.
    cbn [mbind option_bind]. rewrite (index_in_spec e _ i) by (done || apply page_children_nodup). by destruct i.
  - intros e He. unfold page_sibling. by rewrite He.
  - split; [|done]. destruct (page_parent 0) as [p|] eqn:E; [|done]. apply page_parent_before in E. lia.
Qed.

Lemma page_ancestors_axis e : page_ancestors e = axis ParentNode e.
Proof.
  unfold page_ancestors, axis. generalize e at 1 3. intros fuel. revert e. induction fuel as [|fuel IH]; intros e; [done|]. cbn.
  destruct (page_parent e); [|done]. f_equal. apply IH.
Qed.
Lemma below_spec c e : e ∈ page_below c <-> is_element e = true /\ c ∈ axis ParentNode e.
Proof.
  unfold page_below. rewrite list_elem_of_filter. unfold is_element. cbn [nodeType page_tree]. rewrite Z.eqb_eq, page_ancestors_axis. split; [by intros [? _]|].
  intros [Ht Hc]. split; [done|]. apply elem_of_seq. unfold page_type in Ht. destruct e as [|e]; [done|].
  destruct (nodes !! S e) eqn:E; [|done]. apply lookup_lt_Some in E. lia.
Qed.

(** Different elements have different ids. *)
Definition ids_differ : bool :=
  forallb (fun e => forallb (fun e' => match page_attribute e (str "id"), page_attribute e' (str "id") with
                                       | Some a, Some b => bool_decide (a = b -> e = e')
                                       | _, _ => true
                                       end) (page_below 0)) (page_below 0).

Lemma page_document : ids_differ = true -> DocumentLaws.
Proof.
  intros Hids. split.
  - done.
  - intros e p Hp. apply page_parent_before in Hp as (_ & _ & [->|Ht]); [|left; by apply Z.eqb_eq].
    right. destruct (parentNode 0) as [q|] eqn:E; [|done]. apply page_parent_before in E. lia.
  - intros c e. cbn [getElementsByTagName page_tree]. rewrite decide_True by done. apply below_spec.
  - intros c. cbn [getElementsByTagName page_tree]. rewrite decide_True by done. apply sorted_filter, seq_sorted.
  - intros name c Hne. cbn [getElementsByTagName page_tree]. by rewrite decide_False, decide_True by done.
  - intros name c Hw. cbn [getElementsByTagName getElementsByClassName page_tree]. rewrite decide_True by done. apply List.filter_ext. intros e.
    assert (ClassNames.tokens name = [name]) as ->.
    { apply (tokens_join [name]). constructor; [exact Hw|constructor]. }
    cbn [className page_tree]. apply bool_decide_ext. rewrite Forall_singleton. done.
  - intros id e. cbn [getElementById page_tree]. intros He. unfold all_elements. cbn [getElementsByTagName page_tree document]. rewrite decide_True by done.
    assert (e ∈ filter (fun e => page_attribute e (str "id") = Some id) (page_below 0)) as Hin.
    { destruct (filter _ _); [done|]. injection He as ->. left. }
    apply list_elem_of_filter in Hin as [? ?]. done.
  - intros id. cbn [getElementById page_tree]. intros He e. unfold all_elements. cbn [getElementsByTagName page_tree document]. rewrite decide_True by done.
    intros Hin Hid. destruct (filter _ (page_below 0)) as [|x l] eqn:E; [|done].
    assert (e ∈ filter (fun e => page_attribute e (str "id") = Some id) (page_below 0)) as Hf by (by apply list_elem_of_filter). rewrite E in Hf. set_solver.
  - intros id e e'. unfold all_elements. cbn [getElementsByTagName page_tree document]. rewrite decide_True by done. intros He He' Hid Hid'.
    unfold ids_differ in Hids. rewrite forallb_forall in Hids. specialize (Hids e ltac:(by apply list_elem_of_In)). rewrite forallb_forall in Hids.
    specialize (Hids e' ltac:(by apply list_elem_of_In)). cbn [getAttribute page_tree] in *. rewrite Hid, Hid' in Hids. by apply bool_decide_eq_true in Hids; auto.
  - intros e He. unfold is_element in He. cbn [nodeType nodeName page_tree] in *. apply Z.eqb_eq in He. unfold page_type in He. unfold page_name.
    destruct e as [|e]; [done|]. destruct (nodes !! S e); [|done]. by destruct (decide _).
Qed.
End page.
