(* ===== verification/SizzleDemo.v ===== *)
(** A document on which the theorems about the selector engine are applied. *)
From Stdlib Require Import String.
From S2P Require Import Prelude JsString ClassNames SizzleText SizzleTokens SizzleDom SizzleFilters SizzleChild SizzleMatch SizzleMatchProps.
From S2P Require Import SizzleLex SizzleRunProps SizzleSelect SizzleDocument SizzleSelectProps SizzlePage.

(** A list with three items and a text between them, and a paragraph. *)
Definition demo_nodes : list node_info := [
  {| info_parent := 0; info_name := str "#document"; info_id := None; info_class := [] |};
  {| info_parent := 0; info_name := str "HTML"; info_id := None; info_class := [] |};
  {| info_parent := 1; info_name := str "UL"; info_id := Some (str "list"); info_class := [] |};
  {| info_parent := 2; info_name := str "LI"; info_id := None; info_class := str "a" |};
  {| info_parent := 2; info_name := []; info_id := None; info_class := [] |};
  {| info_parent := 2; info_name := str "LI"; info_id := None; info_class := str "b a" |};
  {| info_parent := 2; info_name := str "LI"; info_id := None; info_class := str "c" |};
  {| info_parent := 1; info_name := str "P"; info_id := None; info_class := str "b" |}]%nat.
#[local] Instance demo_tree : Tree := page_tree demo_nodes.
#[local] Instance demo_laws : TreeLaws demo_tree := page_laws demo_nodes.
Lemma demo_document : DocumentLaws.
Proof. apply page_document. vm_compute. reflexivity. Qed.
#[local] Existing Instance demo_document.

(** [:lonely] holds of the first and only child. *)
#[local] Instance demo_tables : Tables := {|
  attrHandle := fun _ => None;
  pseudos := fun name => if decide (name = str "lonely") then Some (Direct (fun e => (length (childNodes (default 0%nat (parentNode e))) =? 1)%nat)) else None;
  class_regexp := fun _ _ => false;
|}.
Definition demo_engine : engine := {| memory := empty_memo; done_names := 0 |}.

Definition found (selector : string) (c : nat) : option (result (option (list nat))) :=
  fst <$> select true (str selector) (Some c) [] None demo_engine.

Example demo_by_id : found "#list > li.a:nth-child(2n)" 0 = Some (Ok (Some [5%nat])).
Proof. vm_compute. reflexivity. Qed.
Example demo_two_groups : found "p, .a ~ li" 0 = Some (Ok (Some [5; 6; 7]%nat)).
Proof. vm_compute. reflexivity. Qed.
Example demo_in_context : found "li ~ li" 2 = Some (Ok (Some [5; 6]%nat)).
Proof. vm_compute. reflexivity. Qed.
Example demo_next : found "~ p" 2 = Some (Ok (Some [7%nat])).
Proof. vm_compute. reflexivity. Qed.
Example demo_from_end : found "li:nth-last-child(-n+2)" 0 = Some (Ok (Some [5; 6]%nat)).
Proof. vm_compute. reflexivity. Qed.

Definition demo_selector : jstr := str "#list > li.a:nth-child(n+2)".
Definition demo_groups_of : list (list token) := match tokenize demo_selector with Some (Ok g) => g | _ => [] end.

Lemma demo_tokens : tokenize demo_selector = fret demo_groups_of.
Proof. vm_compute. reflexivity. Qed.
Lemma demo_usable : Forall (Forall usable) demo_groups_of.
Proof.
  assert (forall raw : jstr, bool_decide (92 ∉ raw) = true -> 92 ∉ raw) as Hraw by (intros raw; apply bool_decide_eq_true).
  let g := eval vm_compute in demo_groups_of in change demo_groups_of with g.
  unfold usable, reliable, searchable. cbn [kind_of]. repeat first [apply List.Forall_nil|apply List.Forall_cons];
    (split; [try exact I; discriminate|split; [try exact I; apply Hraw; vm_compute; reflexivity|exact I]]).
Qed.

Lemma select_correct_witness :
  (exists w', select true demo_selector (Some 0%nat) [7%nat] None demo_engine = Some (Ok (Some ([7%nat] ++ selected 0 demo_groups_of)), w') /\ memo_wf (memory w')) /\
  selected 0 demo_groups_of = [5%nat].
Proof.
  split; [|vm_compute; reflexivity].
  apply (select_correct demo_selector demo_groups_of 0 [7%nat] demo_engine);
    [exact demo_tokens|discriminate|exact demo_usable|left; reflexivity|exact empty_memo_wf].
Defined.

Lemma filter_agrees_witness :
  exists w' found w'', select true demo_selector None [] (Some [6; 5; 5]%nat) demo_engine = Some (Ok (Some (filter (fun e => e ∈ found) [6; 5; 5]%nat)), w') /\
    select true demo_selector (Some document) [] None demo_engine = Some (Ok (Some found), w'') /\ memo_wf (memory w').
Proof.
  apply (filter_agrees demo_selector demo_groups_of [6; 5; 5]%nat demo_engine);
    [exact demo_tokens|discriminate|exact demo_usable| |exact empty_memo_wf].
  repeat constructor; apply all_elements_spec; (split; [reflexivity|]); vm_compute; repeat constructor.
Defined.

(** The items have been counted before. *)
Definition demo_counted : memo := snd (CHILD (str "nth") (str "child") (Some (2, 1)) false 5 empty_memo).
Lemma demo_counted_ok : indexes_ok demo_counted.
Proof.
  apply (CHILD_correct (str "nth") (str "child") (Some (2, 1)) false 5 empty_memo); [constructor; by left|reflexivity|apply empty_memo_wf|].
  intros [? _]. discriminate.
Qed.

Lemma nth_child_correct_witness :
  (let r := CHILD (str "nth") (str "child") (Some (2, 1)) false 6 demo_counted in
   (fst r = true <-> exists n, 0 <= n /\ (if decide (str "nth" = str "nth") then from_start (str "child") 2 6 else from_end (str "child") 2 6) = 2 * n + 1) /\
   (indexes_ok (snd r) /\ same_but_indexes demo_counted (snd r)) /\
   (doubtful (str "nth") (str "child") false -> last_right (snd r) 6)) /\
  from_start (str "child") 2 6 = 3 /\ cached_index 2 (str "nth") demo_counted = Some (2, [2]).
Proof.
  split; [|split; vm_compute; reflexivity].
  apply (nth_child_correct (str "nth") (str "child") 2 1 false 6 2 demo_counted); [left; reflexivity|reflexivity|reflexivity|exact demo_counted_ok|].
  intros [Ht _]. discriminate Ht.
Defined.

(** ** Counting from the end *)

(** The last of three items is asked first whether it is the last: the search passes
    the two before it and keeps on them positions that are wrong, so that the item
    before it is then not taken for the last but one. *)
Example wrong_from_the_end :
  found "li:nth-last-child(2) + li.c" 0 = Some (Ok (Some [6%nat])) /\ found "li.c:nth-last-child(1)" 0 = Some (Ok (Some [6%nat])) /\
  found "li:nth-last-child(2) + li.c:nth-last-child(1)" 0 = Some (Ok (Some [])).
Proof. vm_compute. done. Qed.
