(* ===== verification/Suggestions.v ===== *)
(** The suggestions of [$.ui.autocomplete] (jquery-ui.js): which entries of an
    array a term selects, the regular expression made from the term, and the
    form in which entries are shown.

    The theorem: the expression made by [escapeRegex] is always well formed and
    finds the term itself, so [filter] keeps the entries that contain it. *)
From Stdlib Require Import String.
From S2P Require Import Prelude JsString DateFormat.

(** ** Regular expressions without operators

    Of the expressions [new RegExp( text, "i" )] these definitions read those
    made of an optional [^], of characters that stand for themselves and of
    escaped characters that are not letters, digits or [_]. *)

(** A character of the grammar's [SyntaxCharacter]. *)
Definition syntax_char (c : Z) : bool :=
  existsb (Z.eqb c) [94; 36; 92; 46; 42; 43; 63; 40; 41; 91; 93; 123; 125; 124].
(** A letter, a digit or [_], which after a backslash means a class, an
    assertion, a reference or a code point. *)
Definition escape_letter (c : Z) : bool :=
  is_digit c || ((65 <=? c) && (c <=? 90)) || ((97 <=? c) && (c <=? 122)) || (c =? 95).

Fixpoint literal_pattern (s : jstr) : option jstr :=
  match s with
  | [] => Some []
  | c :: r =>
      if c =? 92 then
        match r with
        | d :: r => if escape_letter d then None else (cons d) <$> literal_pattern r
        | [] => None
        end
      else if syntax_char c then None else (cons c) <$> literal_pattern r
  end.

Record pattern := { anchored : bool; literal : jstr }.
(** An expression outside of the described ones is a [SyntaxError] here. *)
Definition regexp (s : jstr) : result pattern :=
  let '(a, s) := match s with
                 | c :: r => if c =? 94 then (true, r) else (false, s)
                 | [] => (false, s)
                 end in
  match literal_pattern s with
  | Some l => Ok {| anchored := a; literal := l |}
  | None => Throw SyntaxError
  end.

Section Case.
(** [Canonicalize] of the flag [i]: the upper case of a code unit. *)
Context (upper : Z -> Z).

Fixpoint starts_with (p s : jstr) : bool :=
  match p, s with
  | [], _ => true
  | a :: p, b :: s => (upper a =? upper b) && starts_with p s
  | _ :: _, [] => false
  end.
Fixpoint occurs (p s : jstr) : bool :=
  starts_with p s || match s with _ :: s => occurs p s | [] => false end.

(** [regexp.test( s )] *)
Definition test (re : pattern) (s : jstr) : bool :=
  if anchored re then starts_with (literal re) s else occurs (literal re) s.
End Case.

(** ** [$.ui.autocomplete.escapeRegex]

    The class [[\-\[\]{}()*+?.,\\\^$|#\s]]; every character of it gets a
    backslash. *)
Definition special_char (c : Z) : bool :=
  existsb (Z.eqb c) [45; 91; 93; 123; 125; 40; 41; 42; 43; 63; 46; 44; 92; 94; 36; 124; 35] || is_space c.
Definition escapeRegex (value : jstr) : jstr :=
  flat_map (fun c => if special_char c then [92; c] else [c]) value.

(** [$.trim] *)
Definition trim (s : jstr) : jstr := rev (skip_spaces (rev (skip_spaces s))).

(** [$.grep( elems, callback, invert )] *)
Definition grep {A} (elems : list A) (callback : A -> bool) (invert : bool) : list A :=
  List.filter (fun x => negb (Bool.eqb (negb (callback x)) (negb invert))) elems.

(** ** Entries *)

(** An entry of a source: a text, or an object of which [label] and [value] are
    read. *)
Inductive item :=
  | Text (s : jstr)
  | Entry (label value : option jstr).

#[export] Instance item_eq_dec : EqDecision item.
Proof. solve_decision. Defined.

(** [o || p] of an undefined or text value. *)
Definition truthy (o : option jstr) : bool := match o with Some (_ :: _) => true | _ => false end.
Definition or_else (o p : option jstr) : option jstr := if truthy o then o else p.

Definition label_of (i : item) : option jstr := match i with Text _ => None | Entry l _ => l end.
Definition value_of (i : item) : option jstr := match i with Text _ => None | Entry _ v => v end.

(** The text [matcher.test] is given: [value.label || value.value || value]. *)
Definition match_text (i : item) : jstr :=
  match i with
  | Text s => s
  | Entry l v => default (str "[object Object]") (if truthy l then l else if truthy v then v else None)
  end.

(** [$.ui.autocomplete.filter] *)
Definition filter_items (upper : Z -> Z) (array : list item) (term : jstr) : result (list item) :=
  matcher ← regexp (escapeRegex term);
  mret (grep array (fun value => test upper matcher (match_text value)) false).

(** [_normalize] of an array. *)
Definition normalize (items : list item) : list item :=
  match items with
  | i :: _ =>
      if truthy (label_of i) && truthy (value_of i) then items
      else map (fun i => match i with
                         | Text s => Entry (Some s) (Some s)
                         | Entry l v => Entry (or_else l v) (or_else v l)
                         end) items
  | [] => []
  end.

(** ** The expression made from a term *)

Lemma special_char_spec c : special_char c = false -> c <> 92 /\ syntax_char c = false.
Proof.
  unfold special_char. intros [H _]%orb_false_iff.
  split; [intros ->; done|]. apply not_true_iff_false. intros Hs.
  apply not_true_iff_false in H. apply H. apply existsb_exists in Hs as (x & Hin & ->%Z.eqb_eq).
  apply existsb_exists. exists x. split; [|apply Z.eqb_refl]. cbn in Hin |- *. tauto.
Qed.

Lemma special_char_letter c : special_char c = true -> escape_letter c = false.
Proof.
  unfold special_char, is_space, escape_letter, is_digit. intros [H|H]%orb_true_iff; [|lia].
  apply existsb_exists in H as (x & Hin & ->%Z.eqb_eq). cbn in Hin.
  repeat (destruct Hin as [<-|Hin]; [reflexivity|]). done.
Qed.

Lemma escape_cons c value :
  escapeRegex (c :: value) = (if special_char c then [92; c] else [c]) ++ escapeRegex value.
Proof. done. Qed.

(** An escaped text is an expression that stands for the text. *)
Lemma literal_escape value : literal_pattern (escapeRegex value) = Some value.
Proof.
  induction value as [|c value IH]; [done|]. rewrite escape_cons.
  destruct (special_char c) eqn:Hc; cbn [app literal_pattern].
  - rewrite (special_char_letter _ Hc). by rewrite IH.
  - destruct (special_char_spec _ Hc) as [Hb Hs].
    rewrite (proj2 (Z.eqb_neq _ _)), Hs by done. by rewrite IH.
Qed.

Lemma escape_unanchored c value r : escapeRegex value = c :: r -> (c =? 94) = false.
Proof.
  destruct value as [|d value]; [done|]. rewrite escape_cons.
  destruct (special_char d) eqn:Hd; intros [= <- _]; [done|]. apply Z.eqb_neq. intros ->. done.
Qed.

Lemma regexp_escape value : regexp (escapeRegex value) = Ok {| anchored := false; literal := value |}.
Proof.
  unfold regexp. destruct (escapeRegex value) as [|c r] eqn:He.
  - pose proof (literal_escape value) as Hl. rewrite He in Hl. by rewrite Hl.
  - rewrite (escape_unanchored _ _ _ He). pose proof (literal_escape value) as Hl. rewrite He in Hl. by rewrite Hl.
Qed.

Lemma regexp_prefix value : regexp (94 :: escapeRegex value) = Ok {| anchored := true; literal := value |}.
Proof. unfold regexp. cbn [Z.eqb Pos.eqb]. by rewrite literal_escape. Qed.

Lemma grep_spec {A} (f : A -> bool) l : grep l f false = List.filter f l.
Proof. apply List.filter_ext. intros x. by destruct (f x). Qed.

(** ** What [filter] keeps *)

Section Kept.
Context (upper : Z -> Z).

(** The term as it may be written in an entry: the same text up to case. *)
Definition same_letters (p q : jstr) : Prop := map upper p = map upper q.

Lemma starts_with_spec p s :
  starts_with upper p s = true <-> exists q r, s = q ++ r /\ same_letters p q.
Proof.
  unfold same_letters. revert s. induction p as [|a p IH]; intros [|b s]; cbn.
  - split; [|done]. intros _. by exists [], [].
  - split; [|done]. intros _. by exists [], (b :: s).
  - split; [done|]. intros ([|c q] & r & Hs & Hq); [done|discriminate].
  - rewrite andb_true_iff, Z.eqb_eq, IH. split.
    + intros [Hab (q & r & -> & Hq)]. exists (b :: q), r. split; [done|]. cbn. by rewrite Hab, Hq.
    + intros ([|c q] & r & Hs & Hq); [done|]. cbn in Hs, Hq. simplify_eq. split; [done|]. by exists q, r.
Qed.

Lemma occurs_spec p s :
  occurs upper p s = true <-> exists l q r, s = l ++ q ++ r /\ same_letters p q.
Proof.
  induction s as [|b s IH]; cbn [occurs]; rewrite orb_true_iff, starts_with_spec.
  - split.
    + intros [(q & r & -> & Hq)|]; [|done]. by exists [], q, r.
    + intros ([|] & q & r & Hs & Hq); [|done]. left. by exists q, r.
  - rewrite IH. split.
    + intros [(q & r & Hs & Hq)|(l & q & r & -> & Hq)]; [by exists [], q, r|by exists (b :: l), q, r].
    + intros ([|c l] & q & r & Hs & Hq); [left; by exists q, r|]. cbn in Hs. simplify_eq. right. by exists l, q, r.
Qed.

(** [filter] always returns: the entries, in their order, whose text contains
    the term up to case. *)
Definition mentions (term : jstr) (i : item) : Prop :=
  exists l q r, match_text i = l ++ q ++ r /\ same_letters term q.

Lemma filter_items_ok array term :
  filter_items upper array term = Ok (List.filter (fun i => occurs upper term (match_text i)) array).
Proof. unfold filter_items. rewrite regexp_escape. cbn. by rewrite grep_spec. Qed.
End Kept.

(** C17. [$.ui.autocomplete.filter] never throws, whatever the term, and keeps
    exactly the entries whose text contains the term up to case, in the order of
    the array: no character of a term is taken as an operator of the expression. *)
Theorem filter_mentions (upper : Z -> Z) array term :
  exists kept, filter_items upper array term = Ok kept /\ sublist kept array /\
    forall i, i ∈ kept <-> i ∈ array /\ mentions upper term i.
Proof.
  eexists. split; [apply filter_items_ok|]. split.
  - induction array as [|i array IH]; cbn; [constructor|]. case_match; by constructor.
  - intros i. rewrite !list_elem_of_In, List.filter_In, occurs_spec. done.
Qed.
