(* ===== verification/Menu.v ===== *)
(** [$.ui.menu] (jquery-ui.js) with one level: which item is active, and how the
    keys, the mouse and the letters typed move it.  A menu tells its user what
    happens by the events [menufocus], [menublur] and [menuselect].

    Submenus are not modelled: no item has one, so that what opens, closes and
    positions submenus has nothing to work on. *)
From Stdlib Require Import String.
From S2P Require Import Prelude JsString DateFormat Suggestions.

(** ** State *)

(** A child of the menu's list: an element, its text, its classes.  Each is
    assumed to have one child, which [refresh] makes its wrapper. *)
Record entry := {
  key : nat;                     (* the element *)
  text : jstr;
  is_item : bool;                (* class ui-menu-item *)
  is_divider : bool;             (* class ui-menu-divider *)
  is_disabled : bool;            (* class ui-state-disabled *)
}.
#[export] Instance eta_entry : Eta entry := fun e => {|
  key := key e; text := text e; is_item := is_item e; is_divider := is_divider e;
  is_disabled := is_disabled e |}.

(** What the methods read of an event: its type. *)
Inductive kind := Keydown | Keypress | Mouse | Focus | Click | Other.
#[export] Instance kind_eq_dec : EqDecision kind.
Proof. solve_decision. Defined.
(** The event argument of a method, which may be missing. *)
Abbreviation event := (option kind).

(** What a timer of the menu does. *)
Inductive menu_job :=
  | CloseSubmenus                (* _close, which has no submenu to close *)
  | Collapse (e : event)         (* collapseAll *)
  | LeaveCheck (e : event)       (* the handler of blur *)
  | ForgetFilter.                (* the letters typed *)

Record menu := {
  entries : list entry;
  active : option (list nat);    (* null, or a collection of at most one element *)
  highlighted : list nat;        (* items whose wrapper has ui-state-active *)
  mouseHandled : bool;
  previousFilter : option jstr;
  timer : option nat;            (* the identifiers returned by setTimeout *)
  filterTimer : option nat;
  timers : list (nat * menu_job);
  next_timer : nat;
  menu_disabled : bool;
}.
#[export] Instance eta_menu : Eta menu := fun m => {|
  entries := entries m; active := active m; highlighted := highlighted m;
  mouseHandled := mouseHandled m; previousFilter := previousFilter m; timer := timer m;
  filterTimer := filterTimer m; timers := timers m; next_timer := next_timer m;
  menu_disabled := menu_disabled m |}.

Definition empty_menu : menu := {|
  entries := []; active := None; highlighted := []; mouseHandled := false; previousFilter := None;
  timer := None; filterTimer := None; timers := []; next_timer := 0; menu_disabled := false |}.

(** ** Collections of entries *)

Definition keys (l : list entry) : list nat := key <$> l.
(** [element.find( options.items )], all children. *)
Definition find_items (m : menu) : list nat := keys (entries m).
Definition item_keys (l : list entry) : list nat := keys (List.filter is_item l).
Definition entry_of (m : menu) (k : nat) : option entry := list_find (fun e => key e = k) (entries m) ≫= fun p => Some (p.2).

(** The entries before and after an element. *)
Fixpoint before (k : nat) (l : list entry) : list entry :=
  match l with
  | e :: l => if (key e =? k)%nat then [] else e :: before k l
  | [] => []
  end.
Fixpoint after (k : nat) (l : list entry) : list entry :=
  match l with
  | e :: l => if (key e =? k)%nat then l else after k l
  | [] => []
  end.
(** [prevAll( ".ui-menu-item" )] and [nextAll( ".ui-menu-item" )], nearest
    first; an element that is not in the list has no siblings. *)
Definition prevAll (m : menu) (ks : list nat) : list nat :=
  match ks with
  | k :: _ => if bool_decide (k ∈ find_items m) then rev (item_keys (before k (entries m))) else []
  | [] => []
  end.
Definition nextAll (m : menu) (ks : list nat) : list nat :=
  match ks with
  | k :: _ => if bool_decide (k ∈ find_items m) then item_keys (after k (entries m)) else []
  | [] => []
  end.
(** [.first()], [.last()], [.eq( 0 )], [.eq( -1 )] *)
Definition first_of (l : list nat) : list nat := take 1 l.
Definition last_of (l : list nat) : list nat := match last l with Some k => [k] | None => [] end.

(** [isFirstItem] and [isLastItem], as conditions. *)
Definition isFirstItem (m : menu) : bool :=
  match active m with Some ks => bool_decide (prevAll m ks = []) | None => false end.
Definition isLastItem (m : menu) : bool :=
  match active m with Some ks => bool_decide (nextAll m ks = []) | None => false end.

(** [_isDivider]: the text has hyphens, dashes and white space only. *)
Definition isDivider (t : jstr) : bool :=
  negb (existsb (fun c => negb ((c =? 45) || (c =? 8212) || (c =? 8211) || is_space c)) t).

(** [_filterMenuItems] *)
Definition filterMenuItems (upper : Z -> Z) (m : menu) (character : jstr) : result (list nat) :=
  regex ← regexp (94 :: escapeRegex character);
  mret (keys (List.filter (fun e => is_item e && test upper regex (trim (text e))) (entries m))).

(** ** Timers *)

Definition clearTimeout {J} (id : option nat) (l : list (nat * J)) : list (nat * J) :=
  List.filter (fun p => negb (bool_decide (Some p.1 = id))) l.
(** [this.timer = this._delay( job )]: an older timer stays pending. *)
Definition delay_timer (j : menu_job) (m : menu) : menu :=
  m <| timers := timers m ++ [(next_timer m, j)] |> <| timer := Some (next_timer m) |>
    <| next_timer := S (next_timer m) |>.
Definition clear_timer (m : menu) : menu := m <| timers := clearTimeout (timer m) (timers m) |>.

(** [refresh]: new children become items or dividers; those seen before are left
    alone. *)
Definition refresh_entry (e : entry) : entry :=
  let e := if negb (is_item e) && isDivider (text e) then e <| is_divider := true |> else e in
  if is_item e || is_divider e then e else e <| is_item := true |>.
Definition refresh_entries (m : menu) : menu :=
  m <| entries := refresh_entry <$> entries m |>.

(** [_setOptionDisabled] *)
Definition setOptionDisabled (value : bool) (m : menu) : menu := m <| menu_disabled := value |>.

(** ** The user of a menu

    Its state holds the menu; the handlers of the three events get the event
    and the collection passed as [ui.item]. *)
Class MenuClient (St : Type) := {
  menu_of : St -> menu;
  set_menu : menu -> St -> St;
  menufocus : event -> list nat -> eff St unit;
  menublur : event -> list nat -> eff St unit;
  menuselect : event -> list nat -> eff St unit;
}.

Section Menu.
Context {St : Type} `{Client : !MenuClient St}.
(** The upper case of a code unit; whether the list has a scroll bar
    ([_hasScroll]); and whether an element's offset lies within one height of
    another's, downwards and upwards. *)
Context (upper : Z -> Z) (has_scroll : menu -> bool) (page_down page_up : menu -> nat -> nat -> bool).

Definition upd_menu (f : menu -> menu) : eff St unit := modify (fun s => set_menu (f (menu_of s)) s).
Definition the_menu : eff St menu := s ← get; mret (menu_of s).

(** [blur( event, fromFocus )] *)
Definition blur (e : event) (fromFocus : bool) : eff St unit :=
  (if fromFocus then mret tt else upd_menu clear_timer) ;;
  m ← the_menu;
  match active m with
  | None => mret tt
  | Some ks =>
      upd_menu (fun m => m <| highlighted := List.filter (fun k => negb (bool_decide (k ∈ ks))) (highlighted m) |>) ;;
      menublur e ks ;;
      upd_menu (fun m => m <| active := None |>)
  end.

(** [_scrollIntoView]: the offset of an empty collection is undefined. *)
Definition scrollIntoView (item : list nat) : eff St unit :=
  m ← the_menu;
  if has_scroll m && bool_decide (item = []) then throw TypeError else mret tt.

(** The items of a collection, which have a wrapper. *)
Definition wrappers (m : menu) (ks : list nat) : list nat :=
  List.filter (fun k => bool_decide (k ∈ item_keys (entries m))) ks.

(** [focus( event, item )] *)
Definition focus (e : event) (item : list nat) : eff St unit :=
  blur e (bool_decide (e = Some Focus)) ;;
  scrollIntoView item ;;
  upd_menu (fun m => m <| active := Some (first_of item) |>
                       <| highlighted := highlighted m ++ wrappers m (first_of item) |>) ;;
  (if bool_decide (e = Some Keydown) then mret tt else upd_menu (delay_timer CloseSubmenus)) ;;
  menufocus e item.

(** [collapseAll( event, all )] *)
Definition collapseAll (e : event) : eff St unit :=
  upd_menu clear_timer ;; upd_menu (delay_timer (Collapse e)).

(** [_move( direction, filter, event )] *)
Inductive direction := First | Last | Next | Prev.
Definition move (d : direction) (pick : list nat -> list nat) (e : event) : eff St unit :=
  m ← the_menu;
  let next := match active m with
              | None => []
              | Some ks => match d with
                           | First => last_of (prevAll m ks)
                           | Last => last_of (nextAll m ks)
                           | Next => first_of (nextAll m ks)
                           | Prev => first_of (prevAll m ks)
                           end
              end in
  focus e (if bool_decide (next = []) then pick (find_items m) else next).

Definition next (e : event) : eff St unit := move Next first_of e.
Definition previous (e : event) : eff St unit := move Prev last_of e.

(** The loop of [nextPage] and [previousPage]: the last element looked at, which
    is the first one that is not on the page. *)
Fixpoint page_item (on_page : nat -> bool) (l : list nat) : list nat :=
  match l with
  | [] => []
  | [k] => [k]
  | k :: l => if on_page k then page_item on_page l else [k]
  end.
Definition nextPage (e : event) : eff St unit :=
  m ← the_menu;
  match active m with
  | None => next e
  | Some ks =>
      if isLastItem m then mret tt
      else if has_scroll m
      then focus e (page_item (fun k => existsb (fun a => page_down m a k) ks) (nextAll m ks))
      else focus e (last_of (find_items m))
  end.
Definition previousPage (e : event) : eff St unit :=
  m ← the_menu;
  match active m with
  | None => next e
  | Some ks =>
      if isFirstItem m then mret tt
      else if has_scroll m
      then focus e (page_item (fun k => existsb (fun a => page_up m a k) ks) (prevAll m ks))
      else focus e (first_of (find_items m))
  end.

(** [select( event )]; [target] is the item the event happened in. *)
Definition select (e : event) (target : list nat) : eff St unit :=
  upd_menu (fun m => m <| active := Some (default target (active m)) |>) ;;
  collapseAll e ;;
  m ← the_menu;
  menuselect e (default [] (active m)).

(** [_activate] *)
Definition activate (e : event) : eff St unit :=
  m ← the_menu;
  match active m with
  | None => mret tt
  | Some ks =>
      if existsb (fun k => match entry_of m k with Some x => is_disabled x | None => false end) ks
      then mret tt else select e []
  end.

(** [refresh] *)
Definition refresh : eff St unit :=
  upd_menu refresh_entries ;;
  m ← the_menu;
  match active m with
  | None => mret tt
  | Some ks => if existsb (fun k => bool_decide (k ∈ find_items m)) ks then mret tt else blur None false
  end.
End Menu.

(** ** The handlers of [_create] *)

Section Handlers.
Context {St : Type} `{Client : !MenuClient St}.
Context (upper : Z -> Z) (has_scroll : menu -> bool) (page_down page_up : menu -> nat -> nat -> bool).

(** [_on]: a disabled menu does nothing; a handler delegated to [.ui-menu-item]
    runs for items of the menu that are not disabled. *)
Definition handler (on : option nat) (h : eff St unit) : eff St unit :=
  m ← the_menu;
  let runs := match on with
              | Some k => match entry_of m k with Some x => is_item x && negb (is_disabled x) | None => false end
              | None => true
              end in
  if menu_disabled m || negb runs then mret tt else h.

(** [this.active.next()] *)
Definition next_sibling (m : menu) (ks : list nat) : list nat :=
  match ks with
  | k :: _ => if bool_decide (k ∈ find_items m) then keys (take 1 (after k (entries m))) else []
  | [] => []
  end.

(** The letters typed, in the default branch of [_keydown]. *)
Definition typeahead (code : Z) : eff St unit :=
  m ← the_menu;
  let prev := default [] (previousFilter m) in
  let typed := if (96 <=? code) && (code <=? 105) then int_to_string 10 (code - 96) else [code mod 65536] in
  upd_menu (fun m => m <| timers := clearTimeout (filterTimer m) (timers m) |>) ;;
  let skip := bool_decide (typed = prev) in
  let character := if skip then typed else prev ++ typed in
  found ← lift (filterMenuItems upper m character);
  found ← (if skip : bool then
             match active m with
             | None => throw TypeError
             | Some ks =>
                 mret (if existsb (fun k => bool_decide (k ∈ found)) (next_sibling m ks) then nextAll m ks else found)
             end
           else mret found);
  let character := if bool_decide (found = []) then [code mod 65536] else character in
  found ← (if bool_decide (found = []) then lift (filterMenuItems upper m character) else mret found);
  if bool_decide (found = []) then upd_menu (fun m => m <| previousFilter := None |>)
  else
    focus has_scroll (Some Keydown) found ;;
    upd_menu (fun m => m <| previousFilter := Some character |>
                         <| timers := timers m ++ [(next_timer m, ForgetFilter)] |>
                         <| filterTimer := Some (next_timer m) |> <| next_timer := S (next_timer m) |>).

(** [_keydown]; the result says whether the default action is prevented.
    Without submenus [collapse] and [expand] do nothing. *)
Definition keydown (code : Z) : eff St bool :=
  let e := Some Keydown in
  if code =? 33 then previousPage has_scroll page_up e ;; mret true
  else if code =? 34 then nextPage has_scroll page_down e ;; mret true
  else if code =? 36 then move has_scroll First first_of e ;; mret true
  else if code =? 35 then move has_scroll Last last_of e ;; mret true
  else if code =? 38 then previous has_scroll e ;; mret true
  else if code =? 40 then next has_scroll e ;; mret true
  else if (code =? 37) || (code =? 39) || (code =? 27) then mret true
  else if (code =? 13) || (code =? 32) then activate e ;; mret true
  else typeahead code ;; mret false.

(** ["click .ui-menu-item"]: [stopped] says whether a handler of [menuselect]
    stopped the propagation, [inside] whether the focused element lies in the
    menu without being it.  The menu's [focus] handler, run with
    [keepActiveItem], does nothing. *)
Definition item_click (k : nat) (stopped inside : bool) : eff St unit :=
  handler (Some k) (
    m ← the_menu;
    if mouseHandled m then mret tt
    else
      select (Some Click) [k] ;;
      (if stopped then mret tt else upd_menu (fun m => m <| mouseHandled := true |>)) ;;
      m ← the_menu;
      if inside && bool_decide (active m <> None) then upd_menu clear_timer else mret tt).

(** ["mouseenter .ui-menu-item"] *)
Definition item_mouseenter (k : nat) : eff St unit :=
  handler (Some k) (
    m ← the_menu;
    match previousFilter m with
    | Some (_ :: _) => mret tt
    | _ =>
        upd_menu (fun m => m <| highlighted := List.filter (fun i => (i =? k)%nat) (highlighted m) |>) ;;
        focus has_scroll (Some Mouse) [k]
    end).

(** [mouseleave], [focus] and [blur] of the list, and [click] on the document
    ([outside]: not in a menu). *)
Definition menu_mouseleave : eff St unit := handler None (collapseAll (Some Mouse)).
Definition menu_focus : eff St unit :=
  handler None (m ← the_menu; focus has_scroll (Some Focus) (default (first_of (find_items m)) (active m))).
Definition menu_blur : eff St unit :=
  handler None (upd_menu (fun m => m <| timers := timers m ++ [(next_timer m, LeaveCheck (Some Other))] |>
                                     <| next_timer := S (next_timer m) |>)).
Definition document_click (outside : bool) : eff St unit :=
  handler None ((if outside then collapseAll (Some Click) else mret tt) ;;
                upd_menu (fun m => m <| mouseHandled := false |>)).

(** A timer fires; [inside] says whether the focused element lies in the menu. *)
Definition run_job (inside : bool) (j : menu_job) : eff St unit :=
  match j with
  | CloseSubmenus => mret tt
  | Collapse e => blur e false ;; upd_menu (fun m => m <| highlighted := [] |>)
  | LeaveCheck e => if inside then mret tt else collapseAll e
  | ForgetFilter => upd_menu (fun m => m <| previousFilter := None |>)
  end.
Definition fire (id : nat) (inside : bool) : eff St unit :=
  m ← the_menu;
  match list_find (fun p => p.1 = id) (timers m) with
  | Some (_, (_, j)) =>
      upd_menu (fun m => m <| timers := clearTimeout (Some id) (timers m) |>) ;; run_job inside j
  | None => mret tt
  end.

(** What can happen to the menu. *)
Inductive menu_input :=
  | MKeydown (code : Z)
  | MClick (k : nat) (stopped inside : bool)
  | MEnter (k : nat)
  | MLeave
  | MFocus
  | MBlur
  | MDocumentClick (outside : bool)
  | MTimer (id : nat) (inside : bool)
  | MRefresh
  | MDisabled (value : bool).
Definition on_input (i : menu_input) : eff St unit :=
  match i with
  | MKeydown code => handler None (keydown code ;; mret tt)
  | MClick k stopped inside => item_click k stopped inside
  | MEnter k => item_mouseenter k
  | MLeave => menu_mouseleave
  | MFocus => menu_focus
  | MBlur => menu_blur
  | MDocumentClick outside => document_click outside
  | MTimer id inside => fire id inside
  | MRefresh => refresh
  | MDisabled value => upd_menu (setOptionDisabled value)
  end.
End Handlers.
