(* ===== verification/MenuProps.v ===== *)
(** Theorems about [$.ui.menu] (Menu): the highlight follows the active item, and
    the keys go through the items. *)
From Stdlib Require Import String.
From S2P Require Import Prelude JsString DateFormat Suggestions Menu.

(** ** What the methods do to the menu when its user leaves it alone *)

(** A user of the menu whose handlers of [menufocus] and [menublur] complete and
    do not touch the menu. *)
Class QuietClient (St : Type) `{!MenuClient St} := {
  menu_of_set : forall m s, menu_of (set_menu m s) = m;
  quiet_focus : forall e ks s, exists s', menufocus e ks s = (Ok tt, s') /\ menu_of s' = menu_of s;
  quiet_blur : forall e ks s, exists s', menublur e ks s = (Ok tt, s') /\ menu_of s' = menu_of s;
}.

(** The menu after [blur] and after [focus]. *)
Definition blurred (fromFocus : bool) (m : menu) : menu :=
  let m := if fromFocus then m else clear_timer m in
  match active m with
  | None => m
  | Some ks => m <| highlighted := List.filter (fun k => negb (bool_decide (k ∈ ks))) (highlighted m) |>
                 <| active := None |>
  end.
Definition focused (e : event) (item : list nat) (m : menu) : menu :=
  let m := blurred (bool_decide (e = Some Focus)) m in
  let m := m <| active := Some (first_of item) |>
             <| highlighted := highlighted m ++ wrappers m (first_of item) |> in
  if bool_decide (e = Some Keydown) then m else delay_timer CloseSubmenus m.

Section Quiet.
Context {St : Type} `{Client : !MenuClient St} `{Quiet : !QuietClient St}.
Context (has_scroll : menu -> bool).

Lemma upd_menu_ok f s : upd_menu f s = (Ok tt, set_menu (f (menu_of s)) s).
Proof. done. Qed.

Lemma blur_quiet e f s : exists s', blur e f s = (Ok tt, s') /\ menu_of s' = blurred f (menu_of s).
Proof.
  assert (Hgo : forall s, exists s',
    (m ← the_menu;
     match active m with
     | None => mret tt
     | Some ks =>
         upd_menu (fun m => m <| highlighted := List.filter (fun k => negb (bool_decide (k ∈ ks))) (highlighted m) |>) ;;
         menublur e ks ;; upd_menu (fun m => m <| active := None |>)
     end) s = (Ok tt, s') /\ menu_of s' = blurred true (menu_of s)).
  { clear s. intros s. unfold the_menu. eff_cbn. unfold blurred.
    destruct (active (menu_of s)) as [ks|] eqn:Ha; [|by exists s].
    eff_cbn. unfold upd_menu. eff_cbn.
    match goal with |- context [menublur e ks ?x] => destruct (quiet_blur e ks x) as (s1 & -> & Hs1) end.
    eexists. split; [done|]. rewrite !menu_of_set, Hs1, menu_of_set. done. }
  unfold blur. destruct f; [apply Hgo|]. unfold mbind at 1, eff_bind at 1. rewrite upd_menu_ok.
  destruct (Hgo (set_menu (clear_timer (menu_of s)) s)) as (s' & Hr & Hm).
  exists s'. split; [exact Hr|]. rewrite Hm, menu_of_set. done.
Qed.

Lemma focus_quiet e item s :
  item <> [] ->
  exists s', focus has_scroll e item s = (Ok tt, s') /\ menu_of s' = focused e item (menu_of s).
Proof.
  intros Hitem. unfold focus.
  destruct (blur_quiet e (bool_decide (e = Some Focus)) s) as (s1 & Hb & H1).
  rewrite (eff_bind_ok _ _ _ _ _ Hb). unfold scrollIntoView, the_menu. eff_cbn.
  rewrite (bool_decide_eq_false_2 (item = [])), andb_false_r by done. eff_cbn. unfold upd_menu. eff_cbn.
  unfold focused. destruct (bool_decide (e = Some Keydown)); eff_cbn;
    match goal with |- context [menufocus e item ?x] => destruct (quiet_focus e item x) as (s2 & -> & H2) end;
    eexists; (split; [done|]); by rewrite H2, ?menu_of_set, H1.
Qed.
End Quiet.

(** ** The items around an item *)

Lemma item_keys_elem k l : k ∈ item_keys l -> k ∈ keys l.
Proof.
  unfold item_keys, keys. intros (e & -> & He)%list_elem_of_fmap. apply list_elem_of_fmap_2.
  apply list_elem_of_In. by apply list_elem_of_In, List.filter_In in He as [? _].
Qed.

Lemma item_key_at l j k : item_keys l !! j = Some k -> k ∈ keys l.
Proof. intros H. eapply item_keys_elem, list_elem_of_lookup_2, H. Qed.

Lemma item_keys_cons e l : item_keys (e :: l) = (if is_item e then [key e] else []) ++ item_keys l.
Proof. unfold item_keys. cbn. by destruct (is_item e). Qed.

Lemma item_keys_app l r : item_keys (l ++ r) = item_keys l ++ item_keys r.
Proof. unfold item_keys. rewrite List.filter_app. apply fmap_app. Qed.

Lemma around_item l j k :
  NoDup (keys l) -> item_keys l !! j = Some k ->
  item_keys (before k l) = take j (item_keys l) /\ item_keys (after k l) = drop (S j) (item_keys l).
Proof.
  revert j. induction l as [|e l IH]; intros j; [done|].
  change (keys (e :: l)) with (key e :: keys l). intros [Hn Hd]%NoDup_cons Hj.
  cbn [before after]. rewrite item_keys_cons in Hj |- *.
  destruct (Nat.eqb_spec (key e) k) as [<-|Hk].
  - destruct (is_item e); cbn in Hj |- *.
    + destruct j as [|j]; [done|]. cbn in Hj. by destruct (Hn (item_key_at _ _ _ Hj)).
    + by destruct (Hn (item_key_at _ _ _ Hj)).
  - rewrite item_keys_cons. destruct (is_item e); cbn in Hj |- *.
    + destruct j as [|j]; cbn in Hj; [congruence|]. destruct (IH j Hd Hj) as [-> ->]. done.
    + by apply IH.
Qed.

Definition ent_ok (l : list entry) : Prop := NoDup (keys l).

Lemma siblings_of_item m j k :
  ent_ok (entries m) -> item_keys (entries m) !! j = Some k ->
  prevAll m [k] = rev (take j (item_keys (entries m))) /\ nextAll m [k] = drop (S j) (item_keys (entries m)).
Proof.
  intros Hd Hj. unfold prevAll, nextAll.
  rewrite bool_decide_eq_true_2 by (eapply item_key_at; exact Hj).
  by destruct (around_item _ _ _ Hd Hj) as [-> ->].
Qed.

(** A list of entries that starts and ends with an item. *)
Definition no_outer_divider (l : list entry) : Prop :=
  (exists e r, l = e :: r /\ is_item e = true) /\ (exists e r, l = r ++ [e] /\ is_item e = true).

Lemma first_entry l k :
  no_outer_divider l -> item_keys l !! 0%nat = Some k -> first_of (keys l) = [k].
Proof. intros [(e & r & -> & He) _] Hk. rewrite item_keys_cons, He in Hk. cbn in Hk. by simplify_eq. Qed.

Lemma last_entry l k :
  no_outer_divider l -> last (item_keys l) = Some k -> last_of (keys l) = [k].
Proof.
  intros [_ (e & r & -> & He)]. rewrite item_keys_app, item_keys_cons, He. cbn. rewrite last_snoc.
  intros [= <-]. unfold last_of, keys. rewrite fmap_app. cbn. by rewrite last_snoc.
Qed.

(** The item [j] is active. *)
Definition at_item (j : nat) (m : menu) : Prop :=
  exists k, item_keys (entries m) !! j = Some k /\ active m = Some [k].

Lemma focused_entries e item m : entries (focused e item m) = entries m.
Proof.
  unfold focused, blurred. destruct (bool_decide (e = Some Keydown)), (bool_decide (e = Some Focus)); cbn;
    by destruct (active m).
Qed.
Lemma focused_active e item m : active (focused e item m) = Some (first_of item).
Proof. unfold focused. by destruct (bool_decide (e = Some Keydown)). Qed.
Lemma menu_step_eq {St} `{!MenuClient St} {A} (f : menu -> eff St A) s : (the_menu ≫= f) s = f (menu_of s) s.
Proof. done. Qed.

Section Keys.
Context {St : Type} `{Client : !MenuClient St} `{Quiet : !QuietClient St}.
Context (has_scroll : menu -> bool).

Lemma focus_item_at e s j k :
  item_keys (entries (menu_of s)) !! j = Some k ->
  exists s', focus has_scroll e [k] s = (Ok tt, s') /\ entries (menu_of s') = entries (menu_of s) /\ at_item j (menu_of s').
Proof.
  intros Hj. destruct (focus_quiet has_scroll e [k] s) as (s' & Hr & Hm); [done|].
  exists s'. rewrite Hm. rewrite focused_entries. split_and!; [done|done|].
  exists k. by rewrite focused_entries, focused_active.
Qed.

Lemma next_at e s j (m := menu_of s) (n := length (item_keys (entries m))) :
  ent_ok (entries m) -> no_outer_divider (entries m) -> at_item j m ->
  exists s', next has_scroll e s = (Ok tt, s') /\ entries (menu_of s') = entries m /\
    at_item (if decide (S j < n)%nat then S j else 0%nat) (menu_of s').
Proof.
  intros Hd Ho (k & Hj & Ha). subst m. unfold next, move. rewrite menu_step_eq, Ha.
  destruct (siblings_of_item _ _ _ Hd Hj) as [_ Hnext]. rewrite Hnext. case_decide as Hlt.
  - destruct (lookup_lt_is_Some_2 (item_keys (entries (menu_of s))) (S j)) as [k' Hk']; [done|].
    rewrite (drop_S _ _ _ Hk'). cbn. by apply focus_item_at.
  - rewrite drop_ge by (unfold n in Hlt; lia). cbn.
    destruct (lookup_lt_is_Some_2 (item_keys (entries (menu_of s))) 0%nat) as [k' Hk'];
      [apply lookup_lt_Some in Hj; lia|].
    unfold find_items. rewrite (first_entry _ _ Ho Hk'). by apply focus_item_at.
Qed.

Lemma previous_at e s j (m := menu_of s) (n := length (item_keys (entries m))) :
  ent_ok (entries m) -> no_outer_divider (entries m) -> at_item j m ->
  exists s', previous has_scroll e s = (Ok tt, s') /\ entries (menu_of s') = entries m /\
    at_item (if decide (j = 0%nat) then pred n else pred j) (menu_of s').
Proof.
  intros Hd Ho (k & Hj & Ha). subst m. unfold previous, move. rewrite menu_step_eq, Ha.
  destruct (siblings_of_item _ _ _ Hd Hj) as [Hprev _]. rewrite Hprev. pose proof (lookup_lt_Some _ _ _ Hj).
  case_decide as Hz.
  - subst j. cbn. destruct (lookup_lt_is_Some_2 (item_keys (entries (menu_of s))) (pred n)) as [k' Hk'];
      [unfold n; lia|].
    unfold find_items. rewrite (last_entry _ k' Ho) by (by rewrite last_lookup). by apply focus_item_at.
  - destruct j as [|j]; [done|]. destruct (lookup_lt_is_Some_2 (item_keys (entries (menu_of s))) j) as [k' Hk'];
      [lia|].
    rewrite (take_S_r _ _ _ Hk'), rev_app_distr. cbn. by apply focus_item_at.
Qed.
End Keys.

(** ** Going round *)

(** A key pressed [n] times. *)
Fixpoint presses {St} (n : nat) (m : eff St unit) : eff St unit :=
  match n with O => mret tt | S n => presses n m ;; m end.

Lemma outer_item l : no_outer_divider l -> exists k, item_keys l !! 0%nat = Some k.
Proof. intros [(e & r & -> & He) _]. exists (key e). by rewrite item_keys_cons, He. Qed.

Lemma mod_next j n : (0 < n)%nat -> (if decide (S (j mod n) < n) then S (j mod n) else 0)%nat = (S j mod n)%nat.
Proof.
  intros Hn. pose proof (Nat.mod_upper_bound j n ltac:(lia)). pose proof (Nat.div_mod_eq j n) as Hj.
  case_decide.
  - apply Nat.mod_unique with (j / n)%nat; lia.
  - apply Nat.mod_unique with (S (j / n))%nat; lia.
Qed.

Section Cycle.
Context {St : Type} `{Client : !MenuClient St} `{Quiet : !QuietClient St}.
Context (has_scroll : menu -> bool).

Lemma next_first e s :
  no_outer_divider (entries (menu_of s)) -> active (menu_of s) = None ->
  exists s', next has_scroll e s = (Ok tt, s') /\ entries (menu_of s') = entries (menu_of s) /\ at_item 0 (menu_of s').
Proof.
  intros Ho Ha. destruct (outer_item _ Ho) as [k Hk]. unfold next, move. rewrite menu_step_eq, Ha. cbn.
  unfold find_items. rewrite (first_entry _ _ Ho Hk). by apply focus_item_at.
Qed.

Lemma next_presses e s j (n := length (item_keys (entries (menu_of s)))) :
  ent_ok (entries (menu_of s)) -> no_outer_divider (entries (menu_of s)) -> active (menu_of s) = None ->
  exists s', presses (S j) (next has_scroll e) s = (Ok tt, s') /\
    entries (menu_of s') = entries (menu_of s) /\ at_item (j mod n) (menu_of s').
Proof.
  intros Hd Ho Ha.
  assert (Hn : (0 < n)%nat) by (destruct (outer_item _ Ho) as [k Hk]; by apply lookup_lt_Some in Hk).
  induction j as [|j (s1 & Hr & He & Hat)].
  - rewrite Nat.Div0.mod_0_l. by apply next_first.
  - destruct (next_at has_scroll e s1 (j mod n)) as (s2 & Hr2 & He2 & Hat2); [by rewrite He..|done|].
    exists s2. split; [|split; [congruence|]].
    + change (presses (S (S j)) (next has_scroll e)) with (presses (S j) (next has_scroll e) ;; next has_scroll e).
      by rewrite (eff_bind_ok _ _ _ _ _ Hr).
    + rewrite He in Hat2. unfold n in *. by rewrite mod_next in Hat2.
Qed.

Lemma next_previous e s i :
  ent_ok (entries (menu_of s)) -> no_outer_divider (entries (menu_of s)) -> at_item i (menu_of s) ->
  exists s', (next has_scroll e ;; previous has_scroll e) s = (Ok tt, s') /\ at_item i (menu_of s').
Proof.
  intros Hd Ho Hat. destruct (next_at has_scroll e s i) as (s1 & Hr & He & Hat1); [done..|].
  rewrite (eff_bind_ok _ _ _ _ _ Hr).
  destruct (previous_at has_scroll e s1 _ ltac:(by rewrite He) ltac:(by rewrite He) Hat1) as (s2 & Hr2 & He2 & Hat2).
  exists s2. split; [done|]. rewrite He in Hat2. destruct Hat as (k & Hk & _). apply lookup_lt_Some in Hk.
  replace i with (if decide ((if decide (S i < length (item_keys (entries (menu_of s)))) then S i else 0) = 0)
                  then pred (length (item_keys (entries (menu_of s))))
                  else pred (if decide (S i < length (item_keys (entries (menu_of s)))) then S i else 0))%nat at 1; [done|].
  repeat case_decide; lia.
Qed.
End Cycle.

(** C24. The keys go round the items of a menu: from no active item, pressing
    down [j + 1] times makes the item [j], modulo the number of items, the active
    one, in the order of the list and skipping the dividers between items; and up
    takes back what down did, at the ends too.  The list starts and ends with an
    item, and the handlers of the menu's events leave the menu alone. *)
Theorem keys_cycle {St : Type} {Client : MenuClient St} {Quiet : QuietClient St} has_scroll e (s : St) :
  NoDup (find_items (menu_of s)) -> no_outer_divider (entries (menu_of s)) ->
  (active (menu_of s) = None ->
   forall j, exists s', presses (S j) (next has_scroll e) s = (Ok tt, s') /\
     at_item (j mod length (item_keys (entries (menu_of s)))) (menu_of s')) /\
  (forall i, at_item i (menu_of s) ->
   exists s', (next has_scroll e ;; previous has_scroll e) s = (Ok tt, s') /\ at_item i (menu_of s')).
Proof.
  intros Hd Ho. split.
  - intros Ha j. destruct (next_presses has_scroll e s j Hd Ho Ha) as (s' & Hr & _ & Hat). by exists s'.
  - intros i Hat. by apply next_previous.
Qed.

(** ** The highlight *)

(** Only the active item is highlighted; a collection of active elements has one
    at most. *)
Definition menu_ok (m : menu) : Prop :=
  match active m with
  | None => highlighted m = []
  | Some ks => (length ks <= 1)%nat /\ forall k, k ∈ highlighted m -> k ∈ ks
  end.

(** A user of the menu that does not touch it when it loses its active item, and
    leaves a well-formed menu otherwise. *)
Class FairClient (St : Type) `{!MenuClient St} := {
  fair_set : forall m s, menu_of (set_menu m s) = m;
  fair_blur : forall e ks s, menu_of (snd (menublur e ks s)) = menu_of s;
  fair_focus : forall e ks s, menu_ok (menu_of s) -> menu_ok (menu_of (snd (menufocus e ks s)));
  fair_select : forall e ks s, menu_ok (menu_of s) -> menu_ok (menu_of (snd (menuselect e ks s)));
}.

Section Highlight.
Context {St : Type} `{Client : !MenuClient St} `{Fair : !FairClient St}.
Context (upper : Z -> Z) (has_scroll : menu -> bool) (page_down page_up : menu -> nat -> nat -> bool).

Definition keeps_ok (s s' : St) : Prop := menu_ok (menu_of s) -> menu_ok (menu_of s').
#[local] Instance keeps_ok_preorder : PreOrder keeps_ok.
Proof. split; unfold keeps_ok; repeat intro; auto. Qed.

Lemma keeps_upd f : (forall m, menu_ok m -> menu_ok (f m)) -> keeps keeps_ok (upd_menu f).
Proof. intros Hf s Hs. cbn. rewrite fair_set. by apply Hf. Qed.
Lemma keeps_menufocus e ks : keeps keeps_ok (menufocus e ks).
Proof. intros s. exact (fair_focus e ks s). Qed.
Lemma keeps_menuselect e ks : keeps keeps_ok (menuselect e ks).
Proof. intros s. exact (fair_select e ks s). Qed.

Lemma unlit m ks : menu_ok m -> active m = Some ks ->
  List.filter (fun k => negb (bool_decide (k ∈ ks))) (highlighted m) = [].
Proof.
  unfold menu_ok. intros H Ha. rewrite Ha in H. destruct H as [_ H].
  destruct (List.filter _ _) as [|k l] eqn:Hf; [done|]. exfalso.
  assert (Hk : In k (k :: l)) by (by left). rewrite <- Hf in Hk. apply List.filter_In in Hk as [Hin Hk].
  rewrite bool_decide_eq_true_2 in Hk; [done|]. by apply H, list_elem_of_In.
Qed.

(** After [blur] nothing is active or highlighted, unless it threw. *)
Lemma blur_fair e f s :
  menu_ok (menu_of s) ->
  post (blur e f) s (fun r s' => menu_ok (menu_of s') /\ (r = Ok tt -> active (menu_of s') = None)).
Proof.
  intros Hs. unfold blur.
  apply post_bind with (P := fun r s' => r = Ok tt /\ menu_ok (menu_of s')); [by destruct f; unfold post; cbn; rewrite ?fair_set| |by intros ? ? []].
  intros [] s1 [_ H1]. unfold post. rewrite menu_step_eq. destruct (active (menu_of s1)) as [ks|] eqn:Ha; [|done].
  unfold upd_menu. eff_cbn. pose proof (unlit _ _ H1 Ha) as Hl. rewrite Hl.
  match goal with |- context [menublur e ks ?x] => pose proof (fair_blur e ks x) as Hb; destruct (menublur e ks x) as [[[]|er] s2] end;
    cbn in Hb |- *; rewrite fair_set in Hb; rewrite ?fair_set, Hb; cbn; [done|]. split; [|done].
  unfold menu_ok in H1 |- *. rewrite Ha in H1. cbn in H1 |- *. rewrite Ha. destruct H1 as [? _]. split; [done|].
  by intros k ?%elem_of_nil.
Qed.

Lemma keeps_blur e f : keeps keeps_ok (blur e f).
Proof. intros s Hs. pose proof (blur_fair e f s Hs) as H. unfold post in H. apply H. Qed.

Lemma keeps_delay_timer j : keeps keeps_ok (upd_menu (delay_timer j)).
Proof. by apply keeps_upd. Qed.
Lemma keeps_the_menu : keeps keeps_ok the_menu.
Proof. intros s. reflexivity. Qed.

Lemma focus_lights m item :
  menu_ok m -> active m = None ->
  menu_ok (m <| active := Some (first_of item) |> <| highlighted := highlighted m ++ wrappers m (first_of item) |>).
Proof.
  unfold menu_ok. intros H Ha. rewrite Ha in H. cbn. rewrite H. split.
  - unfold first_of. rewrite length_take. lia.
  - intros k. rewrite list_elem_of_In. unfold wrappers. cbn. intros [? _]%List.filter_In. by apply list_elem_of_In.
Qed.

Lemma keeps_focus e item : keeps keeps_ok (focus has_scroll e item).
Proof.
  intros s Hs. change (post (focus has_scroll e item) s (fun _ s' => menu_ok (menu_of s'))).
  eapply post_bind; [exact (blur_fair e _ s Hs)| |by intros er s1 [? _]].
  intros [] s1 [H1 Ha]. specialize (Ha eq_refl). cbn in H1.
  apply post_bind with (P := fun _ s2 => s2 = s1);
    [unfold post, scrollIntoView; rewrite menu_step_eq; by destruct (_ && _)| |by intros er s2 ->].
  intros [] s2 ->. unfold post. unfold mbind at 1, eff_bind at 1. unfold upd_menu at 1, modify at 1.
  apply (keeps_use keeps_ok).
  - apply (keeps_bind keeps_ok); [destruct (bool_decide _); [apply keeps_ret, _|apply keeps_delay_timer]|].
    intros _. apply keeps_menufocus.
  - rewrite fair_set. by apply focus_lights.
Qed.

Lemma keeps_collapse e : keeps keeps_ok (collapseAll e).
Proof. apply (keeps_bind keeps_ok); [by apply keeps_upd|]. intros _. apply keeps_delay_timer. Qed.

Lemma keeps_move d pick e : keeps keeps_ok (move has_scroll d pick e).
Proof. apply (keeps_bind keeps_ok); [apply keeps_the_menu|]. intros m. apply keeps_focus. Qed.

Ltac menu_keeps_step :=
  match goal with
  | |- forall _, _ => intro
  | |- keeps _ (let _ := _ in _) => cbv zeta
  | |- keeps _ (focus _ _ _) => apply keeps_focus
  | |- keeps _ (blur _ _) => apply keeps_blur
  | |- keeps _ (collapseAll _) => apply keeps_collapse
  | |- keeps _ (move _ _ _ _) => apply keeps_move
  | |- keeps _ the_menu => apply keeps_the_menu
  | |- keeps _ (menuselect _ _) => apply keeps_menuselect
  | |- keeps _ (upd_menu (delay_timer _)) => apply keeps_delay_timer
  | |- keeps _ (upd_menu _) => apply keeps_upd; intros ?m; unfold menu_ok; cbn; by auto
  | |- keeps _ (_ ≫= _) => apply (keeps_bind keeps_ok)
  | |- keeps _ (mret _) => apply keeps_ret, _
  | |- keeps _ (lift _) => apply keeps_lift, _
  | |- keeps _ (throw _) => apply keeps_throw, _
  | |- keeps _ (match ?x with _ => _ end) => destruct x
  end.
Ltac menu_keeps := repeat menu_keeps_step.

Lemma keeps_pages e :
  keeps keeps_ok (nextPage has_scroll page_down e) /\ keeps keeps_ok (previousPage has_scroll page_up e).
Proof. split; unfold nextPage, previousPage, next; menu_keeps. Qed.

Lemma keeps_select e target : (length target <= 1)%nat -> keeps keeps_ok (select e target).
Proof.
  intros Ht. unfold select. apply (keeps_bind keeps_ok); [|menu_keeps].
  apply keeps_upd. intros m. unfold menu_ok. cbn. destruct (active m); cbn; [done|].
  intros ->. split; [done|]. by intros k ?%elem_of_nil.
Qed.

Lemma keeps_typeahead code : keeps keeps_ok (typeahead upper has_scroll code).
Proof. unfold typeahead. menu_keeps. Qed.

Lemma keeps_menu_keydown code : keeps keeps_ok (keydown upper has_scroll page_down page_up code).
Proof.
  unfold keydown, previous, next, activate.
  repeat (menu_keeps_step || apply keeps_pages || apply keeps_typeahead || (apply keeps_select; cbn; lia)).
Qed.

Lemma keeps_handler on h : keeps keeps_ok h -> keeps keeps_ok (handler on h).
Proof. intros Hh. unfold handler. menu_keeps. exact Hh. Qed.

Lemma refresh_ok m : menu_ok m -> menu_ok (refresh_entries m).
Proof. done. Qed.

Lemma keeps_input i : keeps keeps_ok (on_input upper has_scroll page_down page_up i).
Proof.
  destruct i; cbn [on_input].
  - apply keeps_handler. apply (keeps_bind keeps_ok); [apply keeps_menu_keydown|menu_keeps].
  - apply keeps_handler. apply (keeps_bind keeps_ok); [apply keeps_the_menu|]. intros m.
    destruct (mouseHandled m); [menu_keeps|]. apply (keeps_bind keeps_ok); [apply keeps_select; cbn; lia|]. menu_keeps.
  - apply keeps_handler. apply (keeps_bind keeps_ok); [apply keeps_the_menu|]. intros m.
    assert (Hgo : keeps keeps_ok (upd_menu (fun m => m <| highlighted := List.filter (fun i => (i =? k)%nat) (highlighted m) |>) ;;
      focus has_scroll (Some Mouse) [k])).
    { apply (keeps_bind keeps_ok); [|menu_keeps]. apply keeps_upd. intros m'. unfold menu_ok. cbn.
      destruct (active m') as [ks|]; [|by intros ->]. intros [Hl H]. split; [done|]. intros i Hi.
      apply H. apply list_elem_of_In. by apply list_elem_of_In, List.filter_In in Hi as [? _]. }
    destruct (previousFilter m) as [[|? ?]|]; [exact Hgo|apply keeps_ret, _|exact Hgo].
  - apply keeps_handler, keeps_collapse.
  - apply keeps_handler. menu_keeps.
  - apply keeps_handler. menu_keeps.
  - apply keeps_handler. menu_keeps.
  - unfold fire, run_job. apply (keeps_bind keeps_ok); [apply keeps_the_menu|]. intros m.
    destruct (list_find _ _) as [[? [? j]]|]; [|menu_keeps].
    apply (keeps_bind keeps_ok); [menu_keeps|]. intros _. destruct j; [menu_keeps| |menu_keeps..].
    apply (keeps_bind keeps_ok); [apply keeps_blur|]. intros _. apply keeps_upd. intros m'. unfold menu_ok. cbn.
    destruct (active m'); [|done]. intros [? _]. split; [done|]. by intros k ?%elem_of_nil.
  - unfold refresh. menu_keeps.
  - menu_keeps.
Qed.
End Highlight.

(** Whatever keys, clicks, mouse movements, timers and refreshes a menu gets,
    at most one item is active, and an item is highlighted only while it is the
    active one; when nothing is active, nothing is highlighted. *)
Theorem highlight_is_active {St : Type} {Client : MenuClient St} {Fair : FairClient St}
    upper has_scroll page_down page_up (inputs : list menu_input) (s : St) :
  menu_ok (menu_of s) ->
  menu_ok (menu_of (foldl (fun s i => snd (on_input upper has_scroll page_down page_up i s)) s inputs)).
Proof.
  revert s. induction inputs as [|i inputs IH]; intros s Hs; [done|]. cbn. apply IH.
  by apply keeps_input.
Qed.

(** ** What the methods leave alone

    A relation of states that is kept by the user's handlers, and by any change
    of the menu that keeps the elements in its list and which of them are
    disabled, is kept by the menu. *)
Definition marks (m : menu) : list (nat * bool) := (fun e => (key e, is_disabled e)) <$> entries m.
Lemma marks_find_items m m' : marks m = marks m' -> find_items m = find_items m'.
Proof.
  unfold marks, find_items, keys. intros H. apply (f_equal (fmap fst)) in H. by rewrite <- !list_fmap_compose in H.
Qed.

Section Frame.
Context {St : Type} `{Client : !MenuClient St}.
Context (upper : Z -> Z) (has_scroll : menu -> bool) (page_down page_up : menu -> nat -> nat -> bool).
Context (R : St -> St -> Prop) `{Pre : !PreOrder R}.
Context (Hset : forall m s, marks m = marks (menu_of s) -> R s (set_menu m s)).
Context (Hfocus : forall e ks, keeps R (menufocus e ks)) (Hblur : forall e ks, keeps R (menublur e ks)).

Lemma frame_upd f : (forall m, marks (f m) = marks m) -> keeps R (upd_menu f).
Proof. intros Hf s. by apply Hset. Qed.
Lemma frame_the_menu : keeps R the_menu.
Proof. intros s. reflexivity. Qed.

Lemma refresh_keys m : marks (refresh_entries m) = marks m.
Proof.
  unfold marks. cbn. rewrite <- list_fmap_compose. apply list_fmap_ext. intros _ e _. cbn.
  unfold refresh_entry. destruct (negb (is_item e) && isDivider (text e)); cbn; by destruct (_ || _).
Qed.

Ltac frame_step :=
  match goal with
  | |- forall _, _ => intro
  | |- keeps _ (let _ := _ in _) => cbv zeta
  | H : context [keeps R (?g _ _)] |- keeps _ (?g _ _) => apply H
  | |- keeps _ the_menu => apply frame_the_menu
  | |- keeps _ (upd_menu refresh_entries) => apply frame_upd, refresh_keys
  | |- keeps _ (upd_menu _) => apply frame_upd; reflexivity
  | |- keeps _ (_ ≫= _) => apply (keeps_bind R)
  | |- keeps _ (mret _) => apply keeps_ret, _
  | |- keeps _ (lift _) => apply keeps_lift, _
  | |- keeps _ (throw _) => apply keeps_throw, _
  | |- keeps _ (match ?x with _ => _ end) => destruct x
  end.
Ltac frame := repeat frame_step.

Lemma frame_blur e f : keeps R (blur e f).
Proof. unfold blur. frame. Qed.

Lemma frame_focus e item : keeps R (focus has_scroll e item).
Proof. pose proof frame_blur. unfold focus, scrollIntoView. frame. Qed.

Lemma frame_move d pick e : keeps R (move has_scroll d pick e).
Proof. pose proof frame_focus. unfold move. frame. Qed.

Lemma frame_next e : keeps R (next has_scroll e).
Proof. apply frame_move. Qed.
Lemma frame_previous e : keeps R (previous has_scroll e).
Proof. apply frame_move. Qed.
Lemma frame_pages e :
  keeps R (nextPage has_scroll page_down e) /\ keeps R (previousPage has_scroll page_up e).
Proof. pose proof frame_focus. pose proof frame_next. split; unfold nextPage, previousPage; frame; auto. Qed.
Lemma frame_collapse e : keeps R (collapseAll e).
Proof. unfold collapseAll. frame. Qed.
Lemma frame_refresh : keeps R refresh.
Proof. pose proof frame_blur. unfold refresh. frame. Qed.

Context (Hselect : forall e ks, keeps R (menuselect e ks)).

Lemma frame_select e target : keeps R (select e target).
Proof. pose proof frame_collapse. unfold select. frame; auto. Qed.

Lemma frame_handler on h : keeps R h -> keeps R (handler on h).
Proof. intros Hh. unfold handler. frame. exact Hh. Qed.

Lemma frame_mouseenter k : keeps R (item_mouseenter has_scroll k).
Proof. pose proof frame_focus. apply frame_handler. frame. Qed.

Lemma frame_keydown code : keeps R (keydown upper has_scroll page_down page_up code).
Proof.
  pose proof frame_focus. pose proof frame_move. pose proof frame_select.
  unfold keydown, next, previous, activate, typeahead.
  repeat (frame_step || apply frame_move || apply frame_pages || apply frame_focus || apply frame_select).
Qed.

Lemma frame_input i : keeps R (on_input upper has_scroll page_down page_up i).
Proof.
  destruct i; cbn [on_input]; unfold item_click, menu_mouseleave, menu_focus, menu_blur, document_click, fire, run_job;
    try apply frame_mouseenter; try apply frame_refresh;
    repeat (apply frame_handler || frame_step || apply frame_keydown || apply frame_select || apply frame_collapse
            || apply frame_focus || apply frame_blur).
Qed.
End Frame.
