(* ===== verification/Autocomplete.v ===== *)
(** [$.ui.autocomplete] (jquery-ui.js): a field that suggests texts while the
    user types.  A search hands a response function to the source, which may
    call it at once, later, or never; in between anything can happen.

    The suggestions are shown in a menu (Menu), of which this widget is the
    client. *)
From Stdlib Require Import String.
From S2P Require Import Prelude JsString DateFormat Suggestions Menu.

(** ** State *)

(** What a source gives to a response function: [null] or an array. *)
Abbreviation content := (option (list item)).

(** [options.source]: an array; an address asked by [$.ajax]; or a function,
    given by what it answers before it returns, if it does. *)
Inductive source :=
  | ArraySource (array : list item)
  | UrlSource
  | FunctionSource (now : jstr -> option content).

(** What the widget triggers. *)
Inductive ac_event :=
  | ESearch
  | EResponse (index : Z) (c : content)     (* the request it belongs to *)
  | EOpen
  | EClose
  | EFocus (i : option item)
  | ESelect (i : option item)
  | EChange (i : option item).

Inductive ac_job :=
  | Search (modifierKey : bool)                          (* _searchTimeout *)
  | Uncancel                                             (* after a mousedown on the menu *)
  | Reselect (previous : option jstr) (i : option item). (* after a click on the menu *)

Record ac := {
  field : jstr;                       (* the text of the element *)
  has_focus : bool;                   (* the element is the active element *)
  term : option jstr;
  previous : option jstr;
  selectedItem : option item;
  cancelBlur : bool;
  cancelSearch : bool;
  isNewMenu : bool;
  pending : Z;
  requestIndex : Z;
  loading : bool;                     (* class ui-autocomplete-loading *)
  suppressKeyPress : bool;
  suppressKeyPressRepeat : bool;
  suppressInput : bool;
  searching : option nat;
  ac_timers : list (nat * ac_job);
  next_job : nat;
  ac_menu : menu;
  visible : bool;                     (* the menu's element is visible *)
  item_data : list (nat * item);      (* data( "ui-autocomplete-item" ) *)
  next_key : nat;
  outside : nat;                      (* handlers of mousedown on the document *)
  on_move : list (list nat);          (* one-time handlers of mousemove *)
  live : list jstr;                   (* texts put in the live region *)
  the_source : source;
  xhr : option Z;                     (* the request under way at the address *)
  waiting : list Z;                   (* requests not answered yet *)
  ac_disabled : bool;
  log : list ac_event;                (* what was triggered *)
}.
#[export] Instance eta_ac : Eta ac := fun s => {|
  field := field s; has_focus := has_focus s; term := term s; previous := previous s;
  selectedItem := selectedItem s; cancelBlur := cancelBlur s; cancelSearch := cancelSearch s;
  isNewMenu := isNewMenu s; pending := pending s; requestIndex := requestIndex s; loading := loading s;
  suppressKeyPress := suppressKeyPress s; suppressKeyPressRepeat := suppressKeyPressRepeat s;
  suppressInput := suppressInput s; searching := searching s; ac_timers := ac_timers s;
  next_job := next_job s; ac_menu := ac_menu s; visible := visible s; item_data := item_data s;
  next_key := next_key s; outside := outside s; on_move := on_move s; live := live s;
  the_source := the_source s; xhr := xhr s; waiting := waiting s; ac_disabled := ac_disabled s;
  log := log s |}.

(** [_create], on an element with a text. *)
Definition create_ac (text : jstr) (src : source) : ac := {|
  field := text; has_focus := false; term := None; previous := None; selectedItem := None;
  cancelBlur := false; cancelSearch := false; isNewMenu := true; pending := 0; requestIndex := 0;
  loading := false; suppressKeyPress := false; suppressKeyPressRepeat := false; suppressInput := false;
  searching := None; ac_timers := []; next_job := 0; ac_menu := empty_menu; visible := false;
  item_data := []; next_key := 0; outside := 0; on_move := []; live := []; the_source := src;
  xhr := None; waiting := []; ac_disabled := false; log := [] |}.

(** The element and the options that do not change. *)
Record ac_options := {
  by_val : bool;              (* valueMethod is val, not text *)
  isMultiLine : bool;
  readOnly : bool;
  minLength : Z;
  autoFocus : bool;
}.

Section Autocomplete.
(** What the text of the element is after a text was put in it: browsers remove
    line breaks from the value of an [input]. *)
Context (store : jstr -> jstr).
(** The page's handlers of the events: whether the event goes on, and the text
    they leave in the field.  They do not call the widget. *)
Context (page : ac_event -> ac -> bool * jstr).
Context (o : ac_options).
Context (upper : Z -> Z) (has_scroll : menu -> bool) (page_down page_up : menu -> nat -> nat -> bool).

Definition upd (f : ac -> ac) : eff ac unit := modify f.

(** [_trigger] *)
Definition trigger (ev : ac_event) : eff ac bool :=
  s ← get;
  let '(ok, v) := page ev s in
  upd (fun s => s <| log := log s ++ [ev] |> <| field := v |>) ;; mret ok.

(** [_value( v )]: of an undefined value [val] makes the empty text, and [text]
    nothing. *)
Definition set_value (v : option jstr) : eff ac unit :=
  match v with
  | Some v => upd (fun s => s <| field := store v |>)
  | None => if by_val o then upd (fun s => s <| field := store [] |>) else mret tt
  end.

(** [this._delay( job )] *)
Definition delay (j : ac_job) : eff ac unit :=
  upd (fun s => s <| ac_timers := ac_timers s ++ [(next_job s, j)] |> <| next_job := S (next_job s) |>).

(** A menu event handler of the widget runs unless the widget is disabled. *)
Definition guarded (h : eff ac unit) : eff ac unit :=
  s ← get; if ac_disabled s then mret tt else h.

(** The menu as it is seen by [this.menu.blur()], of which only [menublur] is
    triggered, an event the widget does not listen to. *)
Definition menu_only : MenuClient ac := {|
  menu_of := ac_menu; set_menu m s := s <| ac_menu := m |>;
  menufocus _ _ := mret tt; menublur _ _ := mret tt; menuselect _ _ := mret tt |}.
Definition menu_blur_call : eff ac unit := blur (Client := menu_only) None false.

(** [_close( event )] and [close( event )] *)
Definition _close : eff ac unit :=
  upd (fun s => s <| outside := 0%nat |>) ;;
  s ← get;
  if visible s then
    upd (fun s => s <| visible := false |>) ;;
    menu_blur_call ;;
    upd (fun s => s <| isNewMenu := true |>) ;;
    trigger EClose ;; mret tt
  else mret tt.
Definition close : eff ac unit := upd (fun s => s <| cancelSearch := true |>) ;; _close.

(** [_change( event )] *)
Definition change : eff ac unit :=
  s ← get;
  if bool_decide (previous s = Some (field s)) then mret tt else trigger (EChange (selectedItem s)) ;; mret tt.

(** The handler of [focus], and [element.trigger( "focus" )]. *)
Definition on_focus : eff ac unit :=
  guarded (upd (fun s => s <| selectedItem := None |> <| previous := Some (field s) |>)).
Definition give_focus : eff ac unit := upd (fun s => s <| has_focus := true |>) ;; on_focus.

(** [ui.item.data( "ui-autocomplete-item" )] *)
Definition data_of (s : ac) (items : list nat) : option item :=
  match items with
  | k :: _ => list_find (fun p => p.1 = k) (item_data s) ≫= fun p => Some (p.2.2)
  | [] => None
  end.
(** [item.value]; of undefined it is a [TypeError]. *)
Definition item_value (i : option item) : eff ac (option jstr) :=
  match i with Some i => mret (value_of i) | None => throw TypeError end.

(** The handler of [menufocus]. *)
Definition is_key (e : event) : bool := bool_decide (e = Some Keydown) || bool_decide (e = Some Keypress).
Definition on_menufocus (e : event) (items : list nat) : eff ac unit :=
  guarded (
    s ← get;
    (if isNewMenu s then upd (fun s => s <| isNewMenu := false |>) else mret tt) ;;
    if isNewMenu s && bool_decide (e = Some Mouse) then
      menu_blur_call ;; upd (fun s => s <| on_move := on_move s ++ [items] |>)
    else
      let i := data_of s items in
      go ← trigger (EFocus i);
      (if go && is_key e then v ← item_value i; set_value v else mret tt) ;;
      label ← item_value i;
      match label with
      | Some l => if bool_decide (trim l = []) then mret tt else upd (fun s => s <| live := live s ++ [l] |>)
      | None => mret tt
      end).

(** The handler of [menuselect]. *)
Definition on_menuselect (e : event) (items : list nat) : eff ac unit :=
  guarded (
    s ← get;
    let i := data_of s items in
    (if has_focus s then mret tt
     else
       give_focus ;;
       upd (fun s' => s' <| previous := previous s |>) ;;
       delay (Reselect (previous s) i)) ;;
    go ← trigger (ESelect i);
    (if (go : bool) then v ← item_value i; set_value v else mret tt) ;;
    upd (fun s => s <| term := Some (field s) |>) ;;
    close ;;
    upd (fun s => s <| selectedItem := i |>)).

#[local] Instance ac_client : MenuClient ac := {|
  menu_of := ac_menu; set_menu m s := s <| ac_menu := m |>;
  menufocus := on_menufocus; menublur _ _ := mret tt; menuselect := on_menuselect |}.

(** ** Showing suggestions *)

(** [_renderMenu]: one element for each item, with its data. *)
Fixpoint render (items : list item) : eff ac unit :=
  match items with
  | [] => mret tt
  | i :: items =>
      upd (fun s =>
        s <| ac_menu := (ac_menu s) <| entries := entries (ac_menu s) ++
               [{| key := next_key s; text := default [] (label_of i); is_item := false;
                   is_divider := false; is_disabled := false |}] |> |>
          <| item_data := item_data s ++ [(next_key s, i)] |>
          <| next_key := S (next_key s) |>) ;;
      render items
  end.

(** [_suggest]; the size and the place of the menu are not modelled. *)
Definition suggest (items : list item) : eff ac unit :=
  upd (fun s => s <| ac_menu := (ac_menu s) <| entries := [] |> |> <| item_data := [] |>) ;;
  render items ;;
  upd (fun s => s <| isNewMenu := true |>) ;;
  refresh ;;
  upd (fun s => s <| visible := true |>) ;;
  (if autoFocus o then next has_scroll None else mret tt) ;;
  upd (fun s => s <| outside := S (outside s) |>).

(** [__response], first the widget's and then the one of the live region. *)
Definition base_response (content : content) : eff ac unit :=
  let content := normalize <$> content in
  s ← get;
  trigger (EResponse (requestIndex s) content) ;;
  s ← get;
  match content with
  | Some ((_ :: _) as items) =>
      if ac_disabled s || cancelSearch s then _close else suggest items ;; trigger EOpen ;; mret tt
  | _ => _close
  end.

(** [options.messages] *)
Definition results_message (amount : nat) : jstr :=
  int_to_string 10 (Z.of_nat amount) ++ (if (1 <? amount)%nat then str " results are" else str " result is")
  ++ str " available, use up and down arrow keys to navigate.".
Definition no_results : jstr := str "No search results.".

Definition response_shown (content : content) : eff ac unit :=
  base_response content ;;
  s ← get;
  if ac_disabled s || cancelSearch s then mret tt
  else upd (fun s => s <| live := live s ++ [match content with
                                             | Some ((_ :: _) as l) => results_message (length l)
                                             | _ => no_results
                                             end] |>).

(** The function returned by [_response()] for the request [index]. *)
Definition response (index : Z) (content : content) : eff ac unit :=
  s ← get;
  (if index =? requestIndex s then response_shown content else mret tt) ;;
  upd (fun s => s <| pending := pending s - 1 |>) ;;
  s ← get;
  if pending s =? 0 then upd (fun s => s <| loading := false |>) else mret tt.

(** The source calls the function, once for each request. *)
Definition answer (index : Z) (content : content) : eff ac unit :=
  s ← get;
  if bool_decide (index ∈ waiting s) then
    upd (fun s => s <| waiting := List.filter (fun i => negb (i =? index)) (waiting s) |>
                    <| xhr := if bool_decide (xhr s = Some index) then None else xhr s |>) ;;
    response index content
  else mret tt.

(** [this.xhr.abort()]: the error handler of a request under way answers it with
    an empty array; a request that is over is left alone. *)
Definition abort : eff ac unit :=
  s ← get; match xhr s with Some index => answer index (Some []) | None => mret tt end.

(** [this.source( request, response )], as [_initSource] made it. *)
Definition call_source (term : jstr) (index : Z) : eff ac unit :=
  s ← get;
  match the_source s with
  | ArraySource array => kept ← lift (filter_items upper array term); answer index (Some kept)
  | UrlSource => abort ;; upd (fun s => s <| xhr := Some index |>)
  | FunctionSource now => match now term with Some c => answer index c | None => mret tt end
  end.

(** [_search( value )]: [_response()] is evaluated before the source is called. *)
Definition _search (value : jstr) : eff ac unit :=
  upd (fun s => s <| pending := pending s + 1 |>) ;;
  upd (fun s => s <| loading := true |>) ;;
  upd (fun s => s <| cancelSearch := false |>) ;;
  upd (fun s => s <| requestIndex := requestIndex s + 1 |>) ;;
  s ← get;
  upd (fun s => s <| waiting := waiting s ++ [requestIndex s] |>) ;;
  call_source value (requestIndex s).

(** [search( value )] *)
Definition search (value : option jstr) : eff ac unit :=
  s ← get;
  let value := default (field s) value in
  upd (fun s => s <| term := Some (field s) |>) ;;
  if Z.of_nat (length value) <? minLength o then close
  else
    go ← trigger ESearch;
    if (go : bool) then _search value else mret tt.

(** [_searchTimeout] *)
Definition searchTimeout (modifierKey : bool) : eff ac unit :=
  upd (fun s => s <| ac_timers := clearTimeout (searching s) (ac_timers s) |>) ;;
  s ← get;
  delay (Search modifierKey) ;;
  upd (fun s' => s' <| searching := Some (next_job s) |>).

(** ** Keys *)

(** [_move( direction, event )] *)
Inductive ac_direction := PreviousPage | NextPage | Previous | NextItem.
Definition backwards (d : ac_direction) : bool := match d with PreviousPage | Previous => true | _ => false end.
Definition _move (d : ac_direction) (e : event) : eff ac unit :=
  s ← get;
  if negb (visible s) then search None
  else if (isFirstItem (ac_menu s) && backwards d) || (isLastItem (ac_menu s) && negb (backwards d)) then
    (if isMultiLine o then mret tt else set_value (term s)) ;; menu_blur_call
  else match d with
       | PreviousPage => previousPage has_scroll page_up e
       | NextPage => nextPage has_scroll page_down e
       | Previous => Menu.previous has_scroll e
       | NextItem => next has_scroll e
       end.

(** [_keyEvent]; the results say whether the default action is prevented. *)
Definition keyEvent (d : ac_direction) (e : event) : eff ac bool :=
  s ← get;
  if negb (isMultiLine o) || visible s then _move d e ;; mret true else mret false.

Definition suppress (v : bool) : eff ac unit := upd (fun s => s <| suppressKeyPress := v |>).

(** The handler of [keydown]. *)
Definition on_keydown (code : Z) (modifierKey : bool) : eff ac bool :=
  let e := Some Keydown in
  if readOnly o then
    suppress true ;;
    upd (fun s => s <| suppressInput := true |> <| suppressKeyPressRepeat := true |>) ;; mret false
  else
    suppress false ;;
    upd (fun s => s <| suppressInput := false |> <| suppressKeyPressRepeat := false |>) ;;
    s ← get;
    if code =? 33 then suppress true ;; _move PreviousPage e ;; mret false
    else if code =? 34 then suppress true ;; _move NextPage e ;; mret false
    else if code =? 38 then suppress true ;; keyEvent Previous e
    else if code =? 40 then suppress true ;; keyEvent NextItem e
    else if code =? 13 then
      match active (ac_menu s) with
      | Some _ => suppress true ;; select e [] ;; mret true
      | None => mret false
      end
    else if code =? 9 then
      match active (ac_menu s) with Some _ => select e [] ;; mret false | None => mret false end
    else if code =? 27 then
      if visible s then
        (if isMultiLine o then mret tt else set_value (term s)) ;; close ;; mret true
      else mret false
    else upd (fun s => s <| suppressKeyPressRepeat := true |>) ;; searchTimeout modifierKey ;; mret false.

(** The handler of [keypress]. *)
Definition on_keypress (code : Z) : eff ac bool :=
  let e := Some Keypress in
  s ← get;
  if suppressKeyPress s then suppress false ;; mret (negb (isMultiLine o) || visible s)
  else if suppressKeyPressRepeat s then mret false
  else if code =? 33 then _move PreviousPage e ;; mret false
  else if code =? 34 then _move NextPage e ;; mret false
  else if code =? 38 then keyEvent Previous e
  else if code =? 40 then keyEvent NextItem e
  else mret false.

(** The handlers of [input] and [blur]. *)
Definition on_input_event (modifierKey : bool) : eff ac bool :=
  s ← get;
  if suppressInput s then upd (fun s => s <| suppressInput := false |>) ;; mret true
  else searchTimeout modifierKey ;; mret false.
Definition on_blur : eff ac unit :=
  s ← get;
  if cancelBlur s then upd (fun s => s <| cancelBlur := false |>)
  else upd (fun s => s <| ac_timers := clearTimeout (searching s) (ac_timers s) |>) ;; close ;; change.

(** ** The mouse and the timers *)

(** [mousedown] on the menu. *)
Definition on_menu_mousedown : eff ac unit := upd (fun s => s <| cancelBlur := true |>) ;; delay Uncancel.

(** The handlers of [mousedown] on the document: [_closeOnClickOutside]. *)
Definition closeOnClickOutside (in_widget : bool) : eff ac unit :=
  guarded (if in_widget then mret tt else close).
Definition document_mousedown (in_widget : bool) : eff ac unit :=
  s ← get; for_each (fun _ => closeOnClickOutside in_widget) (seq 0 (outside s)).

(** The one-time handlers of [mousemove]: the mouse enters the items again.  Of
    an element that is not in the menu any more there is no data. *)
Definition enter_again (items : list nat) : eff ac unit :=
  m ← the_menu;
  for_each (fun k => if bool_decide (k ∈ find_items m) then item_mouseenter has_scroll k
                     else if menu_disabled m then mret tt else focus has_scroll (Some Mouse) [k]) items.
Definition document_mousemove : eff ac unit :=
  s ← get;
  upd (fun s => s <| on_move := [] |>) ;;
  for_each enter_again (on_move s).

Definition run_ac_job (j : ac_job) : eff ac unit :=
  match j with
  | Search modifierKey =>
      s ← get;
      let equalValues := bool_decide (term s = Some (field s)) in
      if negb equalValues || (equalValues && negb (visible s) && negb modifierKey)
      then upd (fun s => s <| selectedItem := None |>) ;; search None else mret tt
  | Uncancel =>
      upd (fun s => s <| cancelBlur := false |>) ;;
      s ← get; if has_focus s then mret tt else give_focus
  | Reselect p i => upd (fun s => s <| previous := p |> <| selectedItem := i |>)
  end.
Definition fire_ac (id : nat) : eff ac unit :=
  s ← get;
  match list_find (fun p => p.1 = id) (ac_timers s) with
  | Some (_, (_, j)) => upd (fun s => s <| ac_timers := clearTimeout (Some id) (ac_timers s) |>) ;; run_ac_job j
  | None => mret tt
  end.

(** [_setOption] *)
Definition set_disabled (value : bool) : eff ac unit :=
  upd (fun s => s <| ac_disabled := value |>) ;; if value then abort else mret tt.
Definition set_source (src : source) : eff ac unit := upd (fun s => s <| the_source := src |>).

(** ** What can happen *)

Inductive ac_input :=
  | Keydown_ (code : Z) (modifierKey : bool)
  | Keypress_ (code : Z)
  | Input_ (modifierKey : bool)
  | Edit (text : jstr)                    (* the user changes the text *)
  | FocusIn | FocusOut
  | MenuMousedown
  | MenuInput (i : menu_input)
  | DocumentMousedown (in_widget : bool)
  | DocumentMousemove
  | Fire (id : nat)
  | Answer (index : Z) (c : content)      (* the source answers *)
  | SearchCall (value : option jstr)      (* the methods *)
  | CloseCall
  | SetDisabled (value : bool)
  | SetSource (src : source).

Definition guarded_ {A} (h : eff ac A) : eff ac unit := guarded (h ;; mret tt).
Definition ac_step (i : ac_input) : eff ac unit :=
  match i with
  | Keydown_ code m => guarded_ (on_keydown code m)
  | Keypress_ code => guarded_ (on_keypress code)
  | Input_ m => guarded_ (on_input_event m)
  | Edit text => upd (fun s => s <| field := store text |>)
  | FocusIn => give_focus
  | FocusOut => upd (fun s => s <| has_focus := false |>) ;; guarded on_blur
  | MenuMousedown => guarded on_menu_mousedown
  | MenuInput i => on_input upper has_scroll page_down page_up i
  | DocumentMousedown w => document_mousedown w
  | DocumentMousemove => document_mousemove
  | Fire id => fire_ac id
  | Answer index c => answer index c
  | SearchCall value => search value
  | CloseCall => close
  | SetDisabled value => set_disabled value
  | SetSource src => set_source src
  end.

(** An exception ends the handler that throws it and nothing else. *)
Definition ac_run (inputs : list ac_input) (s : ac) : ac := foldl (fun s i => snd (ac_step i s)) s inputs.
End Autocomplete.
