(* ===== verification/AutocompleteFrame.v ===== *)
(** What the operations of [$.ui.autocomplete] (Autocomplete) leave alone: lemmas
    shared by its theorems. *)
From Stdlib Require Import String.
From S2P Require Import Prelude JsString DateFormat Suggestions Menu MenuProps Autocomplete.

(** The responses triggered, with the requests they belong to. *)
Definition responses (l : list ac_event) : list (Z * content) :=
  omap (fun ev => match ev with EResponse i c => Some (i, c) | _ => None end) l.

#[global] Arguments responses : simpl never.

(** The part of the state the theorems are about. *)
Definition view (s : ac) :=
  ((visible s, cancelSearch s, ac_disabled s, has_focus s, term s, previous s, ac_timers s),
   (pending s, requestIndex s, loading s, waiting s, xhr s, the_source s),
   (responses (log s), item_data s, find_items (ac_menu s))).

Definition is_response (ev : ac_event) : bool := match ev with EResponse _ _ => true | _ => false end.

Lemma responses_snoc l ev : is_response ev = false -> responses (l ++ [ev]) = responses l.
Proof. intros H. unfold responses. rewrite omap_app. destruct ev; cbn; by rewrite ?app_nil_r. Qed.

Section AcFrame.
Context (store : jstr -> jstr) (page : ac_event -> ac -> bool * jstr) (o : ac_options).
Context (upper : Z -> Z) (has_scroll : menu -> bool) (page_down page_up : menu -> nat -> nat -> bool).

(** A relation that does not see more than the view. *)
Context (R : ac -> ac -> Prop) `{Pre : !PreOrder R}.
Context (Hview : forall s s', view s' = view s -> R s s').

Lemma keeps_upd_view f : (forall s, view (f s) = view s) -> keeps R (upd f).
Proof. intros Hf s. apply Hview, Hf. Qed.

Lemma keeps_ac_trigger ev : is_response ev = false -> keeps R (trigger page ev).
Proof.
  intros Hev s. unfold trigger. eff_cbn. destruct (page ev s) as [ok v]. cbn. apply Hview.
  unfold view. cbn. by rewrite (responses_snoc _ _ Hev).
Qed.

Lemma keeps_ac_set_value v : keeps R (set_value store o v).
Proof. destruct v; cbn; [by apply keeps_upd_view|]. destruct (by_val o); [by apply keeps_upd_view|apply keeps_ret, _]. Qed.

Lemma keeps_item_value i : keeps R (item_value i).
Proof. destruct i; [apply keeps_ret, _|apply keeps_throw, _]. Qed.

Lemma set_menu_view m s :
  marks m = marks (ac_menu s) -> R s (s <| ac_menu := m |>).
Proof. intros H. apply Hview. unfold view. cbn. by rewrite (marks_find_items _ _ H). Qed.

Lemma keeps_menu_blur : keeps R menu_blur_call.
Proof.
  apply (frame_blur (Client := menu_only) R); [exact set_menu_view|]. intros. apply keeps_ret, _.
Qed.

Ltac ac_step_tac :=
  match goal with
  | |- forall _, _ => intro
  | |- keeps _ (let _ := _ in _) => cbv zeta
  | |- keeps _ get => apply keeps_get, _
  | |- keeps _ (trigger _ _) => apply keeps_ac_trigger; reflexivity
  | |- keeps _ (set_value _ _ _) => apply keeps_ac_set_value
  | |- keeps _ (item_value _) => apply keeps_item_value
  | |- keeps _ menu_blur_call => apply keeps_menu_blur
  | |- keeps _ (upd _) => apply keeps_upd_view; reflexivity
  | |- keeps _ (_ ≫= _) => apply (keeps_bind R)
  | |- keeps _ (mret _) => apply keeps_ret, _
  | |- keeps _ (lift _) => apply keeps_lift, _
  | |- keeps _ (throw _) => apply keeps_throw, _
  | |- keeps _ (match ?x with _ => _ end) => destruct x
  end.
Ltac ac_tac := repeat ac_step_tac.

Lemma keeps_guarded h : keeps R h -> keeps R (guarded h).
Proof. intros Hh. unfold guarded. ac_tac. exact Hh. Qed.

Lemma keeps_on_menufocus e items : keeps R (on_menufocus store page o e items).
Proof. apply keeps_guarded. ac_tac. Qed.

Lemma keeps_ac_change : keeps R (change page).
Proof. unfold change. ac_tac. Qed.

(** The operations of the menu that select nothing. *)
#[local] Instance the_client : MenuClient ac := ac_client store page o.

Lemma keeps_menublur e ks : keeps R (menublur e ks).
Proof. apply keeps_ret, _. Qed.

Lemma keeps_menu_focus e item : keeps R (focus has_scroll e item).
Proof. apply frame_focus; [exact _|exact set_menu_view|exact keeps_on_menufocus|exact keeps_menublur]. Qed.
Lemma keeps_menu_next e : keeps R (next has_scroll e).
Proof. apply frame_next; [exact _|exact set_menu_view|exact keeps_on_menufocus|exact keeps_menublur]. Qed.
Lemma keeps_menu_previous e : keeps R (Menu.previous has_scroll e).
Proof. apply frame_previous; [exact _|exact set_menu_view|exact keeps_on_menufocus|exact keeps_menublur]. Qed.
Lemma keeps_menu_pages e :
  keeps R (nextPage has_scroll page_down e) /\ keeps R (previousPage has_scroll page_up e).
Proof. apply frame_pages; [exact _|exact set_menu_view|exact keeps_on_menufocus|exact keeps_menublur]. Qed.
Lemma keeps_menu_refresh : keeps R refresh.
Proof. apply frame_refresh; [exact _|exact set_menu_view|exact keeps_menublur]. Qed.
Lemma keeps_mouseenter k : keeps R (item_mouseenter has_scroll k).
Proof. apply frame_mouseenter; [exact _|exact set_menu_view|exact keeps_on_menufocus|exact keeps_menublur]. Qed.

Lemma keeps_mousemove : keeps R (document_mousemove store page o has_scroll).
Proof.
  unfold document_mousemove. ac_tac. apply (keeps_for_each R). intros items. unfold enter_again.
  apply (keeps_bind R); [intros s; reflexivity|]. intros m. apply (keeps_for_each R). intros k.
  destruct (bool_decide _); [apply keeps_mouseenter|]. destruct (menu_disabled m); [apply keeps_ret, _|apply keeps_menu_focus].
Qed.

(** Closing, for relations that do not mind it. *)
Section Closing.
Context (Hhide : forall s, R s (s <| visible := false |>)) (Hcancel : forall s, R s (s <| cancelSearch := true |>)).

Lemma keeps_hide : keeps R (_close page).
Proof.
  unfold _close. apply (keeps_bind R); [by apply keeps_upd_view|]. intros _.
  apply (keeps_bind R); [apply keeps_get, _|]. intros s. destruct (visible s); [|apply keeps_ret, _].
  apply (keeps_bind R); [intros s'; apply Hhide|]. ac_tac.
Qed.
Lemma keeps_close : keeps R (close page).
Proof. apply (keeps_bind R); [intros s; apply Hcancel|]. intros _. apply keeps_hide. Qed.

Lemma keeps_document_mousedown w : keeps R (document_mousedown page w).
Proof.
  unfold document_mousedown. ac_tac. apply (keeps_for_each R). intros _. apply keeps_guarded.
  destruct w; [apply keeps_ret, _|apply keeps_close].
Qed.
End Closing.

(** The steps that neither give nor take the focus, for relations that do not see
    the text remembered of the field. *)
Definition resets (j : ac_job) : bool := match j with Reselect _ _ => true | _ => false end.

Section Inner.
Context (Hhide : forall s, R s (s <| visible := false |>)) (Hcancel : forall s, R s (s <| cancelSearch := true |>)).
Context (Hterm : forall v s, R s (s <| term := v |>)) (Hsource : forall v s, R s (s <| the_source := v |>)).
Context (Hanswer : forall i c, keeps R (answer store page o has_scroll i c)).
Context (Hsearch : forall v, keeps R (_search store page o upper has_scroll v)).
Context (Hdelay : forall j, resets j = false -> keeps R (delay j)).
Context (Hclear : forall id, keeps R (upd (fun s => s <| ac_timers := clearTimeout (id s) (ac_timers s) |>))).
Context (Hselect : forall e items, keeps R (on_menuselect store page o e items)).

Ltac step_one :=
  first
    [ ac_step_tac
    | match goal with
      | |- keeps _ (close _) => apply keeps_close; assumption
      | |- keeps _ (upd _) => intros ?s; first [ apply Hterm | apply Hsource ]
      | |- keeps _ (_search _ _ _ _ _ _) => apply Hsearch
      | |- keeps _ (answer _ _ _ _ _ _) => apply Hanswer
      end ].
Ltac step_tac := repeat step_one.

Lemma keeps_ac_select e target : keeps R (select e target).
Proof. apply frame_select; [exact _|exact set_menu_view|exact Hselect]. Qed.

Lemma keeps_menu_input i : keeps R (on_input upper has_scroll page_down page_up i).
Proof.
  apply frame_input; [exact _|exact set_menu_view|exact keeps_on_menufocus|exact keeps_menublur|exact Hselect].
Qed.

Lemma keeps_search v : keeps R (search store page o upper has_scroll v).
Proof. unfold search. step_tac. Qed.

Lemma keeps_searchTimeout m : keeps R (searchTimeout m).
Proof.
  unfold searchTimeout. apply (keeps_bind R); [apply (Hclear searching)|]. intros _.
  apply (keeps_bind R); [apply keeps_get, _|]. intros s. apply (keeps_bind R); [by apply Hdelay|]. step_tac.
Qed.

Lemma keeps_ac_move d e : keeps R (_move store page o upper has_scroll page_down page_up d e).
Proof.
  unfold _move. apply (keeps_bind R); [apply keeps_get, _|]. intros s.
  destruct (negb (visible s)); [apply keeps_search|]. destruct (_ || _); [step_tac|].
  destruct d; [apply keeps_menu_pages|apply keeps_menu_pages|apply keeps_menu_previous|apply keeps_menu_next].
Qed.

Lemma keeps_keyEvent d e : keeps R (keyEvent store page o upper has_scroll page_down page_up d e).
Proof.
  unfold keyEvent. apply (keeps_bind R); [apply keeps_get, _|]. intros s. destruct (_ || _); [|apply keeps_ret, _].
  apply (keeps_bind R); [apply keeps_ac_move|]. intros _. apply keeps_ret, _.
Qed.

Ltac key_one :=
  first
    [ match goal with
      | |- keeps _ (_move _ _ _ _ _ _ _ _ _) => apply keeps_ac_move
      | |- keeps _ (keyEvent _ _ _ _ _ _ _ _ _) => apply keeps_keyEvent
      | |- keeps _ (select _ _) => apply keeps_ac_select
      | |- keeps _ (searchTimeout _) => apply keeps_searchTimeout
      | |- keeps _ (search _ _ _ _ _ _) => apply keeps_search
      | |- keeps _ (suppress _) => apply keeps_upd_view; reflexivity
      | |- keeps _ (change _) => apply keeps_ac_change
      | |- keeps _ (upd (fun s => s <| ac_timers := _ |>)) => apply Hclear
      end
    | step_one ].
Ltac key_tac := repeat key_one.

Lemma keeps_on_keydown code m : keeps R (on_keydown store page o upper has_scroll page_down page_up code m).
Proof. unfold on_keydown. key_tac. Qed.
Lemma keeps_on_keypress code : keeps R (on_keypress store page o upper has_scroll page_down page_up code).
Proof. unfold on_keypress. key_tac. Qed.
Lemma keeps_abort : keeps R (abort store page o has_scroll).
Proof. unfold abort. key_tac. Qed.
Lemma keeps_on_input m : keeps R (on_input_event m).
Proof. unfold on_input_event. key_tac. Qed.
Lemma keeps_on_blur : keeps R (on_blur page).
Proof. unfold on_blur. key_tac. Qed.
Lemma keeps_search_job m : keeps R (run_ac_job store page o upper has_scroll (Search m)).
Proof. cbn. key_tac. Qed.
Lemma keeps_guarded_ {A} (h : eff ac A) : keeps R h -> keeps R (guarded_ h).
Proof. intros Hh. apply keeps_guarded. apply (keeps_bind R); [exact Hh|]. intros _. apply keeps_ret, _. Qed.

Context (Hfire : forall id, keeps R (fire_ac store page o upper has_scroll id)).

Lemma keeps_step_inner i :
  match i with FocusIn | FocusOut | SetDisabled _ => False | _ => True end ->
  keeps R (ac_step store page o upper has_scroll page_down page_up i).
Proof.
  intros Hi. destruct i; cbn [ac_step]; try done;
    try first [ apply keeps_guarded_, keeps_on_keydown | apply keeps_guarded_, keeps_on_keypress
              | apply keeps_guarded_, keeps_on_input | by apply keeps_upd_view
              | apply keeps_menu_input | by apply keeps_document_mousedown | apply keeps_mousemove
              | apply Hfire | apply Hanswer | apply keeps_search | by apply keeps_close ].
  - apply keeps_guarded. apply (keeps_bind R); [by apply keeps_upd_view|]. intros _. by apply Hdelay.
  - intros s. apply Hsource.
Qed.
End Inner.

(** Every step, for relations that see the requests, what is shown and what was
    closed, but not the rest. *)
Section Steps.
Context (Hhide : forall s, R s (s <| visible := false |>)) (Hcancel : forall s, R s (s <| cancelSearch := true |>)).
Context (Hterm : forall v s, R s (s <| term := v |>)) (Hprev : forall v s, R s (s <| previous := v |>)).
Context (Hfocused : forall v s, R s (s <| has_focus := v |>)) (Htimers : forall v s, R s (s <| ac_timers := v |>)).
Context (Hdisabled : forall v s, R s (s <| ac_disabled := v |>)) (Hsource : forall v s, R s (s <| the_source := v |>)).
Context (Hanswer : forall i c, keeps R (answer store page o has_scroll i c)).
Context (Hsearch : forall v, keeps R (_search store page o upper has_scroll v)).

Lemma keeps_upd_previous v w : keeps R (upd (fun s => s <| selectedItem := v |> <| previous := w s |>)).
Proof. intros s. cbn. etrans; [apply (Hprev (w s))|]. by apply Hview. Qed.
Lemma keeps_delay j : keeps R (delay j).
Proof.
  intros s. cbn. etrans; [apply (Htimers (ac_timers s ++ [(next_job s, j)]))|]. by apply Hview.
Qed.
Lemma keeps_clear id : keeps R (upd (fun s => s <| ac_timers := clearTimeout (id s) (ac_timers s) |>)).
Proof. intros s. apply (Htimers (clearTimeout (id s) (ac_timers s))). Qed.

Lemma keeps_give_focus : keeps R give_focus.
Proof.
  unfold give_focus. apply (keeps_bind R); [intros s; apply Hfocused|]. intros _.
  apply keeps_guarded, (keeps_upd_previous None (fun s => Some (field s))).
Qed.

Lemma keeps_on_menuselect e items : keeps R (on_menuselect store page o e items).
Proof.
  apply keeps_guarded. apply (keeps_bind R); [apply keeps_get, _|]. intros s.
  apply (keeps_bind R).
  - destruct (has_focus s); [apply keeps_ret, _|].
    apply (keeps_bind R); [apply keeps_give_focus|]. intros _.
    apply (keeps_bind R); [intros s'; apply Hprev|]. intros _. apply keeps_delay.
  - intros _. repeat (ac_step_tac || (apply keeps_close; assumption) || (intros ?; apply Hterm)).
Qed.

Lemma keeps_fire id : keeps R (fire_ac store page o upper has_scroll id).
Proof.
  unfold fire_ac. apply (keeps_bind R); [apply keeps_get, _|]. intros s.
  destruct (list_find _ _) as [[? [? j]]|]; [|apply keeps_ret, _].
  apply (keeps_bind R); [apply (keeps_clear (fun _ => Some id))|]. intros _. destruct j.
  - by apply keeps_search_job.
  - cbn [run_ac_job]. ac_tac. apply keeps_give_focus.
  - intros s'. cbn. etrans; [apply (Hprev previous)|]. by apply Hview.
Qed.

Lemma keeps_step i : keeps R (ac_step store page o upper has_scroll page_down page_up i).
Proof.
  assert (Hinner : match i with FocusIn | FocusOut | SetDisabled _ => False | _ => True end ->
    keeps R (ac_step store page o upper has_scroll page_down page_up i)).
  { apply keeps_step_inner; auto using keeps_delay, keeps_clear, keeps_on_menuselect, keeps_fire. }
  destruct i; try (apply Hinner; exact I); cbn [ac_step].
  - apply keeps_give_focus.
  - apply (keeps_bind R); [intros s; apply Hfocused|]. intros _. apply keeps_guarded, keeps_on_blur; auto using keeps_clear.
  - apply (keeps_bind R); [intros s; apply Hdisabled|]. intros _. destruct value; [|apply keeps_ret, _].
    by apply keeps_abort.
Qed.
End Steps.
End AcFrame.
