(* ===== verification/AutocompleteProps.v ===== *)
(** Theorems about [$.ui.autocomplete] (Autocomplete): requests and responses,
    closing, the typed text and the change event. *)
From Stdlib Require Import String Sorted.
From S2P Require Import Prelude JsString DateFormat Suggestions Menu MenuProps Autocomplete AutocompleteFrame.

Section Props.
Context (store : jstr -> jstr) (page : ac_event -> ac -> bool * jstr) (o : ac_options).
Context (upper : Z -> Z) (has_scroll : menu -> bool) (page_down page_up : menu -> nat -> nat -> bool).

Abbreviation step := (ac_step store page o upper has_scroll page_down page_up).
Abbreviation run := (ac_run store page o upper has_scroll page_down page_up).

Lemma run_keeps (R : ac -> ac -> Prop) `{!PreOrder R} inputs s :
  (forall i, keeps R (step i)) -> R s (run inputs s).
Proof.
  intros Hstep. revert s. induction inputs as [|i inputs IH]; intros s; [reflexivity|].
  cbn. etrans; [apply Hstep|apply IH].
Qed.

(** ** Suggesting never throws *)

(** The elements of the menu have their data. *)
Definition has_data (s : ac) (k : nat) : Prop := data_of s [k] <> None.

Lemma data_app (l1 l2 : list (nat * item)) k :
  (list_find (fun p => p.1 = k) l1 ≫= fun p => Some (p.2.2)) <> None ->
  (list_find (fun p => p.1 = k) (l1 ++ l2) ≫= fun p => Some (p.2.2)) <> None.
Proof.
  destruct (list_find _ l1) as [[i p]|] eqn:Hf; [|done]. intros _.
  rewrite (list_find_app_l (fun p : nat * item => p.1 = k) l1 l2 i p Hf). done.
Qed.

Lemma data_snoc (l : list (nat * item)) k i :
  (list_find (fun p => p.1 = k) (l ++ [(k, i)]) ≫= fun p => Some (p.2.2)) <> None.
Proof.
  destruct (list_find (fun p : nat * item => p.1 = k) l) as [[j p]|] eqn:Hf.
  - apply data_app. by rewrite Hf.
  - rewrite (list_find_app_r (fun p : nat * item => p.1 = k) l _ Hf). cbn.
    case_decide; cbn; [done|congruence].
Qed.

Lemma has_data_eq s s' k : item_data s' = item_data s -> has_data s k -> has_data s' k.
Proof. unfold has_data, data_of. by intros ->. Qed.

(** Rendering one item, and all of them. *)
Definition rendered_one (s : ac) (i : item) : ac :=
  s <| ac_menu := (ac_menu s) <| entries := entries (ac_menu s) ++
         [{| key := next_key s; text := default [] (label_of i); is_item := false;
             is_divider := false; is_disabled := false |}] |> |>
    <| item_data := item_data s ++ [(next_key s, i)] |>
    <| next_key := S (next_key s) |>.
Lemma render_eq items s : render items s = (Ok tt, foldl rendered_one s items).
Proof. revert s. induction items as [|i items IH]; intros s; [done|]. apply IH. Qed.

Lemma rendered_data items s :
  (forall k, k ∈ find_items (ac_menu s) -> has_data s k) ->
  forall k, k ∈ find_items (ac_menu (foldl rendered_one s items)) -> has_data (foldl rendered_one s items) k.
Proof.
  revert s. induction items as [|i items IH]; intros s Hs; [exact Hs|]. cbn. apply IH.
  intros k. unfold find_items, keys. cbn. rewrite fmap_app. intros [Hk|Hk]%elem_of_app.
  - by apply data_app, Hs.
  - apply list_elem_of_singleton in Hk as ->. apply data_snoc.
Qed.

Lemma rendered_content items s :
  (item_data (foldl rendered_one s items)).*2 = (item_data s).*2 ++ items /\ (find_items (ac_menu s) = (item_data s).*1 ->
   find_items (ac_menu (foldl rendered_one s items)) = (item_data (foldl rendered_one s items)).*1).
Proof.
  revert s. induction items as [|i items IH]; intros s; [by rewrite app_nil_r|]. cbn [foldl].
  destruct (IH (rendered_one s i)) as [H1 H2]. split.
  - rewrite H1. cbn. rewrite fmap_app, <- app_assoc. done.
  - intros Hs. apply H2. unfold find_items, keys in *. cbn. rewrite !fmap_app, Hs. done.
Qed.

(** A computation that does not throw, and whose states are related. *)
Definition completes {A} (m : eff ac A) (s : ac) : Prop := exists a, fst (m s) = Ok a.

Lemma completes_bind {A B} (m : eff ac A) (f : A -> eff ac B) s :
  completes m s -> (forall a, completes (f a) (snd (m s))) -> completes (m ≫= f) s.
Proof.
  intros [a Ha] Hf. unfold completes, mbind, eff_bind. destruct (m s) as [r s']. cbn in Ha. subst r. apply Hf.
Qed.
Lemma completes_get {B} (f : ac -> eff ac B) s : completes (f s) s -> completes (get ≫= f) s.
Proof. done. Qed.
Lemma completes_trigger ev s : completes (trigger page ev) s.
Proof. unfold completes, trigger. eff_cbn. destruct (page ev s). by eexists. Qed.
Lemma completes_menu_blur s : completes menu_blur_call s.
Proof.
  unfold menu_blur_call, blur. apply completes_bind; [by exists tt|]. intros _.
  apply completes_bind; [by eexists|]. intros m. destruct (active m); by exists tt.
Qed.
Lemma completes_hide s : completes (_close page) s.
Proof.
  unfold _close. apply completes_bind; [by exists tt|]. intros _. apply completes_bind; [by eexists|]. intros s1.
  destruct (visible s1); [|by exists tt]. apply completes_bind; [by exists tt|]. intros _.
  apply completes_bind; [apply completes_menu_blur|]. intros _. apply completes_bind; [by exists tt|]. intros _.
  apply completes_bind; [apply completes_trigger|]. intros ?. by exists tt.
Qed.
Lemma completes_set_value v s : completes (set_value store o v) s.
Proof. destruct v; [by exists tt|]. cbn. destruct (by_val o); by exists tt. Qed.
Lemma completes_guarded h s : completes h s -> completes (guarded h) s.
Proof. intros [a Hh]. unfold guarded, completes. eff_cbn. destruct (ac_disabled s); [by eexists|by exists a]. Qed.

#[local] Instance the_ac_client : MenuClient ac := ac_client store page o.

(** The handler of [menufocus] completes for elements that have data. *)
Lemma completes_menufocus e k items s : has_data s k -> completes (on_menufocus store page o e (k :: items)) s.
Proof.
  intros Hk. apply completes_guarded, completes_get.
  apply completes_bind; [destruct (isNewMenu s); by exists tt|]. intros _.
  destruct (isNewMenu s && _).
  { apply completes_bind; [apply completes_menu_blur|]. intros _. by exists tt. }
  cbv zeta. destruct (data_of s (k :: items)) as [i|] eqn:Hi; [|done].
  apply completes_bind; [apply completes_trigger|]. intros go.
  apply completes_bind.
  { destruct (go && is_key e); [|by exists tt]. apply completes_bind; [by eexists|]. intros v. apply completes_set_value. }
  intros _. apply completes_bind; [by eexists|]. intros [l|]; [|by exists tt].
  destruct (bool_decide (trim l = [])); by exists tt.
Qed.

(** What the elements and their data are does not change when the menu is
    refreshed or one of its items gets the focus. *)
Definition same_items (s s' : ac) : Prop := view s' = view s.
#[local] Instance same_items_preorder : PreOrder same_items.
Proof. split; unfold same_items; [done|]. intros ??? H1 H2. by rewrite H2. Qed.

Lemma view_items s s' : same_items s s' ->
  item_data s' = item_data s /\ find_items (ac_menu s') = find_items (ac_menu s).
Proof. unfold same_items, view. intros [=]. done. Qed.

Lemma completes_menu_refresh s : completes refresh s.
Proof.
  unfold refresh. apply completes_bind; [by exists tt|]. intros _. apply completes_bind; [by eexists|]. intros m.
  destruct (active m); [|by exists tt]. destruct (existsb _ _); [by exists tt|].
  unfold blur. apply completes_bind; [by exists tt|]. intros _.
  apply completes_bind; [by eexists|]. intros m'. destruct (active m'); by exists tt.
Qed.

Lemma scroll_ok k s : scrollIntoView has_scroll [k] s = (Ok tt, s).
Proof. unfold scrollIntoView, the_menu. eff_cbn. by destruct (has_scroll (ac_menu s)). Qed.

Lemma completes_menu_focus e k s : has_data s k -> completes (focus has_scroll e [k]) s.
Proof.
  intros Hk. unfold focus.
  pose proof (frame_blur (Client := the_ac_client) same_items (set_menu_view same_items (fun _ _ H => H))
    (fun _ _ _ => eq_refl) e (bool_decide (e = Some Focus)) s) as Hv.
  apply completes_bind.
  { unfold blur. apply completes_bind; [destruct (bool_decide _); by exists tt|]. intros _.
    apply completes_bind; [by eexists|]. intros m'. destruct (active m'); by exists tt. }
  intros _. revert Hv. generalize (snd (blur e (bool_decide (e = Some Focus)) s)) as s1. intros s1 Hv. apply view_items in Hv as [Hd _].
  unfold completes. rewrite (eff_bind_ok _ _ _ _ _ (scroll_ok k s1)). 
  match goal with |- exists a, fst (?m ?s) = Ok a => change (completes m s) end.
  apply completes_bind; [by exists tt|]. intros _.
  apply completes_bind; [destruct (bool_decide (e = Some Keydown)); by exists tt|]. intros _.
  apply completes_menufocus. destruct (bool_decide (e = Some Keydown)); apply (has_data_eq s); done.
Qed.

Lemma after_keys k l i : i ∈ item_keys (after k l) -> i ∈ keys l.
Proof.
  intros H%item_keys_elem. revert H. induction l as [|e l IH]; [done|]. cbn [after].
  change (keys (e :: l)) with (key e :: keys l).
  destruct (key e =? k)%nat; intros H; apply elem_of_cons; right; [exact H|by apply IH].
Qed.

Lemma first_of_elem (l : list nat) : first_of l = [] \/ exists k, k ∈ l /\ first_of l = [k].
Proof. destruct l as [|k l]; [by left|]. right. exists k. split; [by left|done]. Qed.

Lemma next_target m :
  find_items m <> [] ->
  exists k, k ∈ find_items m /\ forall s : ac, ac_menu s = m -> next has_scroll None s = focus has_scroll None [k] s.
Proof.
  intros Hne. unfold next, move.
  assert (Hfirst : exists k, k ∈ find_items m /\ first_of (find_items m) = [k]).
  { destruct (first_of_elem (find_items m)) as [H|H]; [|exact H]. by destruct (find_items m). }
  set (nx := match active m with Some ks => first_of (nextAll m ks) | None => [] end).
  assert (Hnx : nx = [] \/ exists k, k ∈ find_items m /\ nx = [k]).
  { unfold nx. destruct (active m) as [ks|]; [|by left].
    destruct (first_of_elem (nextAll m ks)) as [H|(k & Hk & H)]; [by left|right]. exists k. split; [|done].
    unfold nextAll in Hk. destruct ks as [|a ks]; [by apply elem_of_nil in Hk|].
    destruct (bool_decide (a ∈ find_items m)); [|by apply elem_of_nil in Hk]. by eapply after_keys. }
  destruct Hfirst as (k & Hk & Hf). destruct Hnx as [Hn|(k' & Hk' & Hn)].
  - exists k. split; [done|]. intros s Hs. rewrite menu_step_eq. cbn [menu_of the_ac_client ac_client]. rewrite Hs.
    fold nx. rewrite Hn, Hf. done.
  - exists k'. split; [done|]. intros s Hs. rewrite menu_step_eq. cbn [menu_of the_ac_client ac_client]. rewrite Hs.
    fold nx. rewrite Hn. done.
Qed.

(** The state in which the suggestions have been rendered. *)
Definition rendered (items : list item) (s : ac) : ac :=
  foldl rendered_one (s <| ac_menu := (ac_menu s) <| entries := [] |> |> <| item_data := [] |>) items.

Lemma rendered_ok items s :
  (item_data (rendered items s)).*2 = items /\
  find_items (ac_menu (rendered items s)) = (item_data (rendered items s)).*1 /\
  forall k, k ∈ find_items (ac_menu (rendered items s)) -> has_data (rendered items s) k.
Proof.
  unfold rendered. destruct (rendered_content items (s <| ac_menu := (ac_menu s) <| entries := [] |> |> <| item_data := [] |>)) as [H1 H2].
  split_and!; [exact H1|by apply H2|]. apply rendered_data. by intros k ?%elem_of_nil.
Qed.

Lemma suggest_eq items s :
  suggest store page o has_scroll items s =
  (upd (fun s => s <| isNewMenu := true |>) ;;
   refresh ;;
   upd (fun s => s <| visible := true |>) ;;
   (if autoFocus o then next has_scroll None else mret tt) ;;
   upd (fun s => s <| outside := S (outside s) |>)) (rendered items s).
Proof.
  unfold suggest. unfold mbind at 1, eff_bind at 1. unfold upd at 1, modify at 1.
  unfold mbind at 1, eff_bind at 1. rewrite render_eq. done.
Qed.

Lemma completes_suggest items s : items <> [] -> completes (suggest store page o has_scroll items) s.
Proof.
  intros Hne. unfold completes. rewrite suggest_eq. destruct (rendered_ok items s) as (H2 & H1 & Hd).
  revert H1 H2 Hd. generalize (rendered items s) as s1. intros s1 H1 H2 Hd.
  match goal with |- exists a, fst (?m ?s) = Ok a => change (completes m s) end.
  apply completes_bind; [by exists tt|]. intros _. cbn [snd upd modify].
  set (x := s1 <| isNewMenu := true |>).
  pose proof (completes_menu_refresh x) as [r Hr].
  pose proof (keeps_menu_refresh store page o same_items (fun _ _ H => H) x) as Hv.
  destruct (refresh x) as [r' s2] eqn:Hx. cbn in Hr, Hv. subst r'.
  unfold completes. rewrite (eff_bind_ok _ _ _ _ _ Hx). apply view_items in Hv as [Hv1 Hv2]. cbn in Hv1, Hv2.
  match goal with |- exists a, fst (?m ?s) = Ok a => change (completes m s) end.
  apply completes_bind; [by exists tt|]. intros _. cbn [snd upd modify].
  apply completes_bind; [|intros _; by exists tt].
  destruct (autoFocus o); [|by exists tt].
  destruct (next_target (ac_menu s2)) as (k & Hk & Hnext).
  { rewrite Hv2, H1. destruct (item_data s1); [|done]. by rewrite <- H2 in Hne. }
  unfold completes. rewrite Hnext by done.
  apply completes_menu_focus. apply (has_data_eq s1); [done|]. apply Hd. by rewrite <- Hv2.
Qed.

Lemma completes_response c s : completes (response_shown store page o has_scroll c) s.
Proof.
  unfold response_shown. apply completes_bind.
  - unfold base_response. apply completes_get. apply completes_bind; [apply completes_trigger|]. intros _.
    apply completes_get. destruct (normalize <$> c) as [[|i l]|]; [apply completes_hide| |apply completes_hide].
    destruct (_ || _); [apply completes_hide|]. apply completes_bind; [by apply completes_suggest|]. intros _.
    apply completes_bind; [apply completes_trigger|]. intros _. by exists tt.
  - intros _. apply completes_get. destruct (_ || _); by exists tt.
Qed.

(** ** Requests and responses *)

(** The part of the state that counts requests. *)
Definition req (s : ac) :=
  (pending s, requestIndex s, loading s, waiting s, xhr s, responses (log s)).
Definition same_req (s s' : ac) : Prop := req s' = req s.
#[local] Instance same_req_preorder : PreOrder same_req.
Proof. split; unfold same_req; [done|]. intros ??? H1 H2. by rewrite H2. Qed.
Lemma view_req s s' : view s' = view s -> same_req s s'.
Proof. unfold view, same_req, req. intros [=]. congruence. Qed.

Lemma req_hide : keeps same_req (_close page).
Proof. apply keeps_hide; [exact _|exact view_req|done]. Qed.

Lemma req_rendered items s : same_req s (rendered items s).
Proof.
  assert (H : forall s1, same_req s1 (foldl rendered_one s1 items)).
  { induction items as [|i items IH]; intros s1; [reflexivity|]. cbn. etrans; [|apply IH]. reflexivity. }
  unfold rendered. etrans; [|apply H]. reflexivity.
Qed.

Lemma keeps_after_render (R : ac -> ac -> Prop) `{!PreOrder R} items s :
  (forall s s', view s' = view s -> R s s') -> (forall s, R s (s <| visible := true |>)) ->
  R (rendered items s) (snd (suggest store page o has_scroll items s)).
Proof.
  intros Hview Hshow. rewrite suggest_eq. apply (keeps_use R).
  apply (keeps_bind R); [by apply keeps_upd_view|]. intros _.
  apply (keeps_bind R); [by apply (keeps_menu_refresh store page o)|]. intros _.
  apply (keeps_bind R); [intros s'; apply Hshow|]. intros _.
  apply (keeps_bind R); [|intros _; by apply keeps_upd_view].
  destruct (autoFocus o); [by apply (keeps_menu_next store page o)|apply keeps_ret, _].
Qed.

Lemma req_suggest items : keeps same_req (suggest store page o has_scroll items).
Proof.
  intros s. etrans; [apply req_rendered|]. by apply keeps_after_render; [exact _|exact view_req|].
Qed.

(** What follows the event [response]. *)
Definition act_on (c : content) : eff ac unit :=
  s ← get;
  match c with
  | Some ((_ :: _) as items) =>
      if ac_disabled s || cancelSearch s then _close page
      else suggest store page o has_scroll items ;; trigger page EOpen ;; mret tt
  | _ => _close page
  end.
Definition responded (c : content) (s : ac) : ac :=
  snd (trigger page (EResponse (requestIndex s) (normalize <$> c)) s).

Lemma base_response_eq c s : base_response store page o has_scroll c s = act_on (normalize <$> c) (responded c s).
Proof.
  unfold base_response, responded. unfold mbind at 1, eff_bind at 1. cbn [get].
  unfold mbind at 1, eff_bind at 1. unfold trigger at 1 3. eff_cbn. destruct (page _ s). done.
Qed.

Lemma responded_req c s :
  req (responded c s) = (pending s, requestIndex s, loading s, waiting s, xhr s,
                         responses (log s) ++ [(requestIndex s, normalize <$> c)]).
Proof.
  unfold responded, trigger. eff_cbn. destruct (page _ s). unfold req, responses. cbn. by rewrite omap_app.
Qed.

Lemma req_act_on c : keeps same_req (act_on c).
Proof.
  unfold act_on. apply (keeps_bind same_req); [apply keeps_get, _|]. intros s.
  destruct c as [[|i l]|]; [apply req_hide| |apply req_hide]. destruct (_ || _); [apply req_hide|].
  apply (keeps_bind same_req); [apply req_suggest|]. intros _. apply (keeps_bind same_req); [|intros _; apply keeps_ret, _].
  apply keeps_ac_trigger; [exact view_req|done].
Qed.

(** A response is triggered once, for the newest request. *)
Lemma response_shown_req c s :
  req (snd (response_shown store page o has_scroll c s)) =
  (pending s, requestIndex s, loading s, waiting s, xhr s, responses (log s) ++ [(requestIndex s, normalize <$> c)]).
Proof.
  rewrite <- responded_req. unfold response_shown.
  unfold mbind at 1, eff_bind at 1. rewrite base_response_eq.
  pose proof (req_act_on (normalize <$> c) (responded c s)) as H. revert H.
  destruct (act_on _ _) as [[[]|er] s1]; cbn [snd]; intros H; [|exact H].
  etrans; [|exact H]. eff_cbn. by destruct (_ || _).
Qed.

(** The requests of a widget: [pending] counts those that are not answered, the
    class of the element says whether there are any, and the responses that were
    triggered belong to requests in the order these were made. *)
Record req_ok (s : ac) : Prop := {
  rq_pending : pending s = Z.of_nat (length (waiting s));
  rq_loading : loading s = negb (bool_decide (waiting s = []));
  rq_sorted : StronglySorted Z.lt (waiting s);
  rq_le : forall i, i ∈ waiting s -> i <= requestIndex s;
  rq_xhr : forall i, xhr s = Some i -> i ∈ waiting s;
  rq_responses : StronglySorted Z.lt (responses (log s)).*1;
  rq_answered : forall i, i ∈ (responses (log s)).*1 -> i <= requestIndex s /\ i ∉ waiting s;
}.

Lemma req_ok_same s s' : same_req s s' -> req_ok s -> req_ok s'.
Proof. unfold same_req, req. intros [= H1 H2 H3 H4 H5 H6] []. split; rewrite ?H1, ?H2, ?H3, ?H4, ?H5, ?H6; done. Qed.

Definition keeps_req (s s' : ac) : Prop := req_ok s -> req_ok s'.
#[local] Instance keeps_req_preorder : PreOrder keeps_req.
Proof. split; unfold keeps_req; repeat intro; auto. Qed.

(** The list of waiting requests without one of them. *)
Abbreviation without i l := (List.filter (fun j => negb (j =? i)) l).

Lemma without_elem i j (l : list Z) : j ∈ without i l <-> j ∈ l /\ j <> i.
Proof. rewrite !list_elem_of_In, List.filter_In, negb_true_iff, Z.eqb_neq. done. Qed.

Lemma without_sorted i (l : list Z) : StronglySorted Z.lt l -> StronglySorted Z.lt (without i l).
Proof.
  induction 1 as [|x l Hl IH Hx]; [constructor|]. cbn. destruct (negb (x =? i)); [|done]. constructor; [done|].
  apply Forall_forall. intros y [Hy _]%without_elem. by eapply Forall_forall in Hx.
Qed.

Lemma without_absent i (l : list Z) : i ∉ l -> without i l = l.
Proof.
  induction l as [|x l IH]; [done|]. intros [Hx Hl]%not_elem_of_cons. cbn.
  rewrite (proj2 (Z.eqb_neq x i)) by done. cbn. by rewrite IH.
Qed.

Lemma without_length i (l : list Z) :
  StronglySorted Z.lt l -> i ∈ l -> S (length (without i l)) = length l.
Proof.
  induction 1 as [|x l Hl IH Hx]; intros Hi; [by apply elem_of_nil in Hi|]. cbn.
  destruct (Z.eqb_spec x i) as [->|Hn]; cbn.
  - rewrite without_absent; [done|]. intros Hin. eapply Forall_forall in Hx; [|exact Hin]. lia.
  - f_equal. apply IH. by apply elem_of_cons in Hi as [->|?].
Qed.

Lemma sorted_snoc (l : list Z) i : StronglySorted Z.lt l -> (forall j, j ∈ l -> j < i) -> StronglySorted Z.lt (l ++ [i]).
Proof.
  induction 1 as [|x l Hl IH Hx]; intros H; [repeat constructor|]. cbn. constructor.
  - apply IH. intros j Hj. apply H. by right.
  - apply Forall_app. split; [done|]. constructor; [|done]. apply H. by left.
Qed.

(** The end of a response function. *)
Definition settled (s : ac) : ac :=
  let s' := s <| pending := pending s - 1 |> in if pending s - 1 =? 0 then s' <| loading := false |> else s'.
Lemma settle_eq s :
  (upd (fun s => s <| pending := pending s - 1 |>) ;;
   s ← get; if pending s =? 0 then upd (fun s => s <| loading := false |>) else mret tt) s = (Ok tt, settled s).
Proof. unfold settled. eff_cbn. by destruct (pending s - 1 =? 0). Qed.

(** What is left of a call of the response function once the response was shown
    or dropped. *)
Lemma response_req i c s (s' := snd (response store page o has_scroll i c s)) :
  requestIndex s' = requestIndex s /\ waiting s' = waiting s /\ xhr s' = xhr s /\ pending s' = pending s - 1 /\
  loading s' = (if pending s - 1 =? 0 then false else loading s) /\
  responses (log s') = responses (log s) ++ (if i =? requestIndex s then [(i, normalize <$> c)] else []).
Proof.
  subst s'. unfold response. rewrite eff_bind_get.
  assert (Hshown : exists s1, (if i =? requestIndex s then response_shown store page o has_scroll c else mret tt) s = (Ok tt, s1) /\
    req s1 = (pending s, requestIndex s, loading s, waiting s, xhr s,
              responses (log s) ++ (if i =? requestIndex s then [(i, normalize <$> c)] else []))).
  { destruct (Z.eqb_spec i (requestIndex s)) as [->|]; [|exists s; by rewrite app_nil_r].
    destruct (completes_response c s) as [[] Hr]. pose proof (response_shown_req c s) as Hq.
    destruct (response_shown _ _ _ _ c s) as [r s1]. cbn in Hr. subst r. by exists s1. }
  destruct Hshown as (s1 & Hr & Hq). rewrite (eff_bind_ok _ _ _ _ _ Hr). unfold req in Hq. simplify_eq.
  rewrite settle_eq. unfold settled. rewrite H.
  destruct (pending s - 1 =? 0); split_and!; cbn; congruence.
Qed.

Lemma answer_keeps i c : keeps keeps_req (answer store page o has_scroll i c).
Proof.
  intros s Hs. unfold answer. rewrite eff_bind_get. case_bool_decide as Hi; [|done].
  unfold mbind at 1, eff_bind at 1. cbn [upd modify].
  set (s1 := s <| waiting := _ |> <| xhr := _ |>).
  destruct (response_req i c s1) as (H1 & H2 & H3 & H4 & H5 & H6). cbn in H1, H2, H3, H4, H5, H6.
  destruct Hs as [Hp Hl Hso Hle Hx Hr Ha].
  pose proof (without_length i _ Hso Hi) as Hlen.
  split; rewrite ?H1, ?H2, ?H3, ?H4, ?H5, ?H6.
  - lia.
  - rewrite Hl, bool_decide_eq_false_2 by (intros Hn; rewrite Hn in Hi; by apply elem_of_nil in Hi).
    destruct (without i (waiting s)) eqn:Hw; cbn in Hlen.
    + rewrite (proj2 (Z.eqb_eq _ _)) by lia. done.
    + rewrite (proj2 (Z.eqb_neq _ _)) by lia. done.
  - by apply without_sorted.
  - intros j [Hj _]%without_elem. by apply Hle.
  - intros j. case_bool_decide as Hxi; [done|]. intros Hj. apply without_elem. split; [by apply Hx|]. congruence.
  - rewrite fmap_app. destruct (Z.eqb_spec i (requestIndex s)) as [->|]; cbn; [|by rewrite app_nil_r].
    apply sorted_snoc; [done|]. intros j Hj. destruct (Ha j Hj) as [Hj1 Hj2].
    assert (j <> requestIndex s) by congruence. lia.
  - intros j. rewrite fmap_app. intros [Hj|Hj]%elem_of_app.
    + destruct (Ha j Hj) as [Hj1 Hj2]. split; [done|]. by intros [? _]%without_elem.
    + destruct (Z.eqb_spec i (requestIndex s)) as [->|]; cbn in Hj; [|by apply elem_of_nil in Hj].
      apply list_elem_of_singleton in Hj as ->. split; [done|]. by intros [_ ?]%without_elem.
Qed.

(** A request that is not the one answered goes on waiting. *)
Lemma answer_waiting i j c s :
  i <> j -> j ∈ waiting s -> j ∈ waiting (snd (answer store page o has_scroll i c s)).
Proof.
  intros Hij Hj. unfold answer. rewrite eff_bind_get. case_bool_decide as Hi; [|done].
  unfold mbind at 1, eff_bind at 1. cbn [upd modify]. set (s1 := s <| waiting := _ |> <| xhr := _ |>).
  destruct (response_req i c s1) as (_ & H2 & _). rewrite H2. cbn. by apply without_elem.
Qed.

Lemma abort_waiting j s :
  req_ok s -> xhr s <> Some j -> j ∈ waiting s -> j ∈ waiting (snd (abort store page o has_scroll s)).
Proof.
  intros Hs Hx Hj. unfold abort. rewrite eff_bind_get. destruct (xhr s) as [i|]; [|done].
  apply answer_waiting; [congruence|done].
Qed.

(** The state in which the source is called. *)
Definition searched (s : ac) : ac :=
  s <| pending := pending s + 1 |> <| loading := true |> <| cancelSearch := false |>
    <| requestIndex := requestIndex s + 1 |> <| waiting := waiting s ++ [requestIndex s + 1] |>.
Lemma _search_eq v s :
  _search store page o upper has_scroll v s = call_source store page o upper has_scroll v (requestIndex s + 1) (searched s).
Proof. done. Qed.

Lemma searched_ok s : req_ok s -> req_ok (searched s).
Proof.
  intros [Hp Hl Hso Hle Hx Hr Ha]. split; cbn.
  - rewrite length_app. cbn. lia.
  - by rewrite bool_decide_eq_false_2 by (by destruct (waiting s)).
  - apply sorted_snoc; [done|]. intros j Hj. specialize (Hle j Hj). lia.
  - intros i [Hi|Hi]%elem_of_app; [specialize (Hle i Hi); lia|]. apply list_elem_of_singleton in Hi. lia.
  - intros i Hi. apply elem_of_app. left. by apply Hx.
  - done.
  - intros i Hi. destruct (Ha i Hi) as [H1 H2]. split; [lia|]. intros [?|Hi1]%elem_of_app; [done|].
    apply list_elem_of_singleton in Hi1. lia.
Qed.

Lemma search_keeps v : keeps keeps_req (_search store page o upper has_scroll v).
Proof.
  intros s Hs. rewrite _search_eq. pose proof (searched_ok s Hs) as H1.
  unfold call_source. rewrite eff_bind_get. destruct (the_source (searched s)) as [array| |now].
  - rewrite filter_items_ok. by apply answer_keeps.
  - pose proof (abort_waiting (requestIndex s + 1) (searched s) H1) as Hw.
    assert (H2 : req_ok (snd (abort store page o has_scroll (searched s)))).
    { unfold abort. rewrite eff_bind_get. destruct (xhr (searched s)); [by apply answer_keeps|done]. }
    unfold mbind, eff_bind. destruct (abort _ _ _ _ _) as [[[]|er] s2]; [|exact H2]. cbn [snd] in Hw, H2 |- *.
    destruct H2 as [Hp Hl Hso Hle Hx Hr Ha]. split; try done. cbn. intros i [= <-]. apply Hw.
    + intros He. apply (rq_xhr _ Hs) in He. apply (rq_le _ Hs) in He. lia.
    + cbn. apply elem_of_app. right. by left.
  - destruct (now v); [by apply answer_keeps|exact H1].
Qed.

Lemma created_ok text src : req_ok (create_ac text src).
Proof.
  split; [done|done|constructor|by intros i ?%elem_of_nil|done|constructor|].
  change ((responses (log (create_ac text src))).*1) with (@nil Z). by intros i ?%elem_of_nil.
Qed.

Lemma step_req i : keeps keeps_req (step i).
Proof.
  apply keeps_step; try (intros ? ? []; split; done); try (intros ? []; split; done).
  - exact _.
  - intros s s' H. exact (req_ok_same s s' (view_req _ _ H)).
  - intros. apply answer_keeps.
  - apply search_keeps.
Qed.

(** A relation that does not see how requests are counted is kept by an answer
    when it is kept by a response. *)
Section Counting.
Context (R : ac -> ac -> Prop) `{!PreOrder R} (Hview : forall s s', view s' = view s -> R s s').
Context (Hwaiting : forall w x s, R s (s <| waiting := w |> <| xhr := x |>)).
Context (Hpending : forall v s, R s (s <| pending := v |>)) (Hloading : forall s, R s (s <| loading := false |>)).
Context (Hbase : forall c, keeps R (base_response store page o has_scroll c)).

Lemma answer_of i c : keeps R (answer store page o has_scroll i c).
Proof.
  unfold answer. apply (keeps_bind R); [apply keeps_get, _|]. intros s. case_bool_decide; [|apply keeps_ret, _].
  apply (keeps_bind R); [intros s'; apply Hwaiting|]. intros _. unfold response.
  apply (keeps_bind R); [apply keeps_get, _|]. intros s'. apply (keeps_bind R).
  - destruct (i =? requestIndex s'); [|apply keeps_ret, _]. unfold response_shown.
    apply (keeps_bind R); [apply Hbase|]. intros _. apply (keeps_bind R); [apply keeps_get, _|]. intros s1.
    destruct (_ || _); [apply keeps_ret, _|]. by apply keeps_upd_view.
  - intros _. apply (keeps_bind R); [intros s1; apply Hpending|]. intros _.
    apply (keeps_bind R); [apply keeps_get, _|]. intros s1. destruct (_ =? 0); [|apply keeps_ret, _].
    intros s2. apply Hloading.
Qed.

Lemma abort_of : keeps R (abort store page o has_scroll).
Proof.
  unfold abort. apply (keeps_bind R); [apply keeps_get, _|]. intros s. destruct (xhr s); [apply answer_of|apply keeps_ret, _].
Qed.

Lemma call_source_of v i : keeps R (call_source store page o upper has_scroll v i).
Proof.
  unfold call_source. apply (keeps_bind R); [apply keeps_get, _|]. intros s. destruct (the_source s) as [array| |now].
  - apply (keeps_bind R); [apply keeps_lift, _|]. intros kept. apply answer_of.
  - apply (keeps_bind R); [apply abort_of|]. intros _ s'. apply (Hwaiting (waiting s') (Some i)).
  - destruct (now v); [apply answer_of|apply keeps_ret, _].
Qed.
End Counting.

(** ** Closing *)

(** A search can only be made visible again by a later search. *)
Definition hushed (s : ac) : Prop := cancelSearch s = true /\ visible s = false.
Definition calm (s s' : ac) : Prop :=
  requestIndex s <= requestIndex s' /\ (requestIndex s' = requestIndex s -> hushed s -> hushed s').
#[local] Instance calm_preorder : PreOrder calm.
Proof.
  split; [by intros s|]. intros s1 s2 s3 [H1 H2] [H3 H4]. split; [lia|]. intros He Hs.
  apply H4; [lia|]. apply H2; [lia|done].
Qed.

Lemma view_calm s s' : view s' = view s -> calm s s'.
Proof. unfold view, calm, hushed. intros [=]. split; [lia|]. intros _ []. split; congruence. Qed.

Lemma calm_hide : keeps calm (_close page).
Proof. apply keeps_hide; [exact _|exact view_calm|]. intros s. split; cbn; [lia|]. by intros _ []. Qed.

Lemma calm_act_on c : keeps calm (act_on c).
Proof.
  intros s. unfold act_on. rewrite eff_bind_get. destruct c as [[|i l]|]; [apply calm_hide| |apply calm_hide].
  destruct (ac_disabled s || cancelSearch s) eqn:Hc; [apply calm_hide|].
  split; [|intros _ [Hcs _]; apply orb_false_iff in Hc as [_ Hc]; congruence].
  pose proof (req_act_on (Some (i :: l)) s) as Hq. unfold act_on in Hq. rewrite eff_bind_get, Hc in Hq.
  unfold same_req, req in Hq. injection Hq as _ -> _ _ _ _. lia.
Qed.

Lemma calm_base c : keeps calm (base_response store page o has_scroll c).
Proof.
  intros s. rewrite base_response_eq. etrans; [|apply calm_act_on].
  unfold responded, trigger. eff_cbn. destruct (page _ s). split; cbn; [lia|done].
Qed.

Lemma calm_source v i : keeps calm (call_source store page o upper has_scroll v i).
Proof. apply call_source_of; try (intros; split; cbn; [lia|done]); [exact _|exact view_calm|exact calm_base]. Qed.
Lemma calm_answer i c : keeps calm (answer store page o has_scroll i c).
Proof. apply answer_of; try (intros; split; cbn; [lia|done]); [exact _|exact view_calm|exact calm_base]. Qed.

Lemma calm_search v : keeps calm (_search store page o upper has_scroll v).
Proof.
  intros s. rewrite _search_eq. destruct (calm_source v (requestIndex s + 1) (searched s)) as [H _].
  cbn in H. split; [lia|]. intros He. lia.
Qed.

Lemma step_calm i : keeps calm (step i).
Proof.
  apply keeps_step; try (intros; split; cbn; [lia|done]).
  - exact _.
  - intros s s' H. apply view_calm, H.
  - intros s. split; cbn; [lia|]. by intros _ [].
  - intros s. split; cbn; [lia|]. by intros _ [].
  - intros. apply calm_answer.
  - apply calm_search.
Qed.

(** ** What is shown *)

(** A visible menu has the items of the last response, in their order, one
    element for each. *)
Definition shown_ok (s : ac) : Prop :=
  visible s = true ->
  exists i items, last (responses (log s)) = Some (i, Some items) /\ items <> [] /\
    (item_data s).*2 = items /\ find_items (ac_menu s) = (item_data s).*1.
Definition keeps_shown (s s' : ac) : Prop := shown_ok s -> shown_ok s'.
#[local] Instance keeps_shown_preorder : PreOrder keeps_shown.
Proof. split; [intros s H; exact H|]. intros s1 s2 s3 H1 H2 H. exact (H2 (H1 H)). Qed.

Definition displayed (s : ac) := (responses (log s), item_data s, find_items (ac_menu s)).
Definition same_displayed (s s' : ac) : Prop := displayed s' = displayed s.
#[local] Instance same_displayed_preorder : PreOrder same_displayed.
Proof. split; unfold same_displayed; [done|]. intros ??? H1 H2. by rewrite H2. Qed.

Lemma view_shown s s' : view s' = view s -> keeps_shown s s'.
Proof.
  unfold view. intros [=] Hs Hv. destruct Hs as (i & items & ? & ? & ? & ?); [congruence|].
  exists i, items. split_and!; congruence.
Qed.

Lemma hidden_ok s : visible s = false -> shown_ok s.
Proof. unfold shown_ok. congruence. Qed.

(** [_close] hides the menu. *)
Definition stays_hidden (s s' : ac) : Prop := visible s = false -> visible s' = false.
#[local] Instance stays_hidden_preorder : PreOrder stays_hidden.
Proof. split; unfold stays_hidden; repeat intro; auto. Qed.
Lemma view_hidden s s' : view s' = view s -> stays_hidden s s'.
Proof. unfold view, stays_hidden. intros [=]. congruence. Qed.

Lemma hide_hides s : visible (snd (_close page s)) = false.
Proof.
  unfold _close. unfold mbind at 1, eff_bind at 1. cbn [upd modify]. rewrite eff_bind_get.
  destruct (visible (s <| outside := 0%nat |>)) eqn:Hv; [|exact Hv].
  unfold mbind at 1, eff_bind at 1. cbn [upd modify].
  match goal with |- visible (snd (?m ?x)) = false => apply (keeps_use stays_hidden m x); [|done] end.
  apply (keeps_bind stays_hidden); [apply keeps_menu_blur; [exact _|exact view_hidden]|]. intros _.
  apply (keeps_bind stays_hidden); [apply keeps_upd_view; [exact view_hidden|done]|]. intros _.
  apply (keeps_bind stays_hidden); [apply keeps_ac_trigger; [exact view_hidden|done]|]. intros ?. apply keeps_ret, _.
Qed.

Lemma act_on_shown c i s : last (responses (log s)) = Some (i, c) -> shown_ok (snd (act_on c s)).
Proof.
  intros Hlast. unfold act_on. rewrite eff_bind_get.
  destruct c as [[|x l]|]; [apply hidden_ok, hide_hides| |apply hidden_ok, hide_hides].
  destruct (ac_disabled s || cancelSearch s); [apply hidden_ok, hide_hides|]. intros _.
  set (items := x :: l) in *.
  assert (Hd : same_displayed (rendered items s)
                 (snd ((suggest store page o has_scroll items ;; trigger page EOpen ;; mret tt) s))).
  { assert (Hview : forall s s', view s' = view s -> same_displayed s s')
      by (intros s1 s2; unfold view, same_displayed, displayed; intros [=]; congruence).
    pose proof (keeps_after_render same_displayed items s Hview (fun _ => eq_refl)) as H.
    unfold mbind at 1, eff_bind at 1. destruct (suggest _ _ _ _ items s) as [[[]|er] s1]; [|exact H].
    etrans; [exact H|]. apply (keeps_use same_displayed).
    apply (keeps_bind same_displayed); [apply keeps_ac_trigger; [exact Hview|done]|]. intros ?. apply keeps_ret, _. }
  destruct (rendered_ok items s) as (H2 & H1 & _).
  pose proof (req_rendered items s) as Hr. unfold same_displayed, displayed in Hd. injection Hd as Ha Hb Hc.
  unfold same_req, req in Hr. injection Hr as _ _ _ _ _ Hr.
  exists i, items. rewrite Ha, Hb, Hc, Hr. done.
Qed.

Lemma shown_base c : keeps keeps_shown (base_response store page o has_scroll c).
Proof.
  intros s _. rewrite base_response_eq. apply (act_on_shown _ (requestIndex s)).
  pose proof (responded_req c s) as Hr. unfold req in Hr. injection Hr as _ _ _ _ _ ->. by rewrite last_snoc.
Qed.

Lemma shown_answer i c : keeps keeps_shown (answer store page o has_scroll i c).
Proof.
  apply answer_of; try (intros ? ? ? H; exact H); try (intros ? ? H; exact H); try (intros ? H; exact H);
    [exact _|exact view_shown|exact shown_base].
Qed.

Lemma shown_search v : keeps keeps_shown (_search store page o upper has_scroll v).
Proof.
  intros s Hs. rewrite _search_eq. apply (keeps_use keeps_shown); [|exact Hs].
  apply call_source_of; try (intros ? ? ? H; exact H); try (intros ? ? H; exact H); try (intros ? H; exact H);
    [exact _|exact view_shown|exact shown_base].
Qed.

Lemma step_shown i : keeps keeps_shown (step i).
Proof.
  apply keeps_step; try (intros ? ? H; exact H); try (intros ? H; exact H).
  - exact _.
  - intros s s' H. exact (view_shown s s' H).
  - intros s _. by apply hidden_ok.
  - intros. apply shown_answer.
  - apply shown_search.
Qed.

(** ** The typed text *)

(** What moving in a visible menu leaves alone. *)
Definition typed (s s' : ac) : Prop :=
  term s' = term s /\ visible s' = visible s /\ ac_disabled s' = ac_disabled s.
#[local] Instance typed_preorder : PreOrder typed.
Proof. split; unfold typed; [done|]. intros ??? (?&?&?) (?&?&?). split_and!; congruence. Qed.
Lemma view_typed s s' : view s' = view s -> typed s s'.
Proof. unfold view, typed. intros [=]. done. Qed.

Definition nav_key (code : Z) : Prop := code = 33 \/ code = 34 \/ code = 38 \/ code = 40.

Lemma typed_move d e s : visible s = true ->
  typed s (snd (_move store page o upper has_scroll page_down page_up d e s)).
Proof.
  intros Hv. unfold _move. rewrite eff_bind_get, Hv. cbn [negb]. destruct (_ || _).
  - apply (keeps_use typed). apply (keeps_bind typed); [|intros _; apply keeps_menu_blur; [exact _|exact view_typed]].
    destruct (isMultiLine o); [apply keeps_ret, _|apply keeps_ac_set_value; [exact _|exact view_typed]].
  - apply (keeps_use typed). destruct d.
    + by apply (keeps_menu_pages store page o has_scroll page_down page_up typed view_typed).
    + by apply (keeps_menu_pages store page o has_scroll page_down page_up typed view_typed).
    + by apply (keeps_menu_previous store page o has_scroll typed view_typed).
    + by apply (keeps_menu_next store page o has_scroll typed view_typed).
Qed.

Lemma typed_keyEvent d e s : visible s = true ->
  typed s (snd (keyEvent store page o upper has_scroll page_down page_up d e s)).
Proof.
  intros Hv. unfold keyEvent. rewrite eff_bind_get, Hv, orb_true_r.
  unfold mbind, eff_bind. pose proof (typed_move d e s Hv) as H. by destruct (_move _ _ _ _ _ _ _ d e s) as [[?|?] ?].
Qed.

(** The flags of [keydown] are not seen by [typed]. *)
Lemma typed_after (f : ac -> ac) {A} (m : eff ac A) s :
  view (f s) = view s -> typed (f s) (snd (m (f s))) -> typed s (snd ((upd f ;; m) s)).
Proof. intros Hf H. etrans; [apply view_typed, Hf|exact H]. Qed.

Lemma typed_ret {A B} (m : eff ac A) (b : B) s : typed s (snd (m s)) -> typed s (snd ((m ;; mret b) s)).
Proof. unfold mbind, eff_bind. by destruct (m s) as [[?|?] ?]. Qed.

Lemma typed_nav code b s :
  readOnly o = false -> nav_key code -> visible s = true -> typed s (snd (step (Keydown_ code b) s)).
Proof.
  intros Hro Hnav Hv. cbn [ac_step]. unfold guarded_, guarded. rewrite eff_bind_get.
  destruct (ac_disabled s); [done|]. apply typed_ret. unfold on_keydown. rewrite Hro.
  do 2 (apply typed_after; [done|]). rewrite eff_bind_get.
  destruct Hnav as [->|[->|[->| ->]]]; cbn [Z.eqb Pos.eqb]; (apply typed_after; [done|]);
    first [ apply typed_ret, typed_move; done | apply typed_keyEvent; done ].
Qed.

Lemma typed_navs keys s :
  readOnly o = false -> Forall (fun k => nav_key k.1) keys -> visible s = true ->
  typed s (run (map (fun k => Keydown_ k.1 k.2) keys) s).
Proof.
  intros Hro. revert s. induction keys as [|[k b] keys IH]; intros s; [done|]. intros [Hk Hks]%Forall_cons Hv.
  cbn. pose proof (typed_nav k b s Hro Hk Hv) as H1. etrans; [exact H1|]. apply IH; [done|].
  destruct H1 as (_ & H1 & _). congruence.
Qed.

(** Hiding the menu leaves the text alone, when the page's handler of [close]
    does. *)
Definition same_field (s s' : ac) : Prop := field s' = field s /\ term s' = term s.
#[local] Instance same_field_preorder : PreOrder same_field.
Proof. split; unfold same_field; [done|]. intros ??? (?&?) (?&?). split; congruence. Qed.

Lemma field_hide : (forall s, snd (page EClose s) = field s) -> keeps same_field (_close page).
Proof.
  intros Hpage. unfold _close. apply (keeps_bind same_field); [done|]. intros _.
  apply (keeps_bind same_field); [apply keeps_get, _|]. intros s. destruct (visible s); [|apply keeps_ret, _].
  apply (keeps_bind same_field); [done|]. intros _. apply (keeps_bind same_field).
  { apply (frame_blur (Client := menu_only) same_field); [done|]. intros. apply keeps_ret, _. }
  intros _. apply (keeps_bind same_field); [done|]. intros _.
  apply (keeps_bind same_field); [|intros ?; apply keeps_ret, _].
  intros s1. unfold trigger. eff_cbn. specialize (Hpage s1). destruct (page EClose s1). done.
Qed.

Lemma escape_step s t b :
  readOnly o = false -> isMultiLine o = false -> ac_disabled s = false -> visible s = true -> term s = Some t ->
  (forall s, snd (page EClose s) = field s) ->
  let s' := snd (step (Keydown_ 27 b) s) in field s' = store t /\ visible s' = false /\ term s' = Some t.
Proof.
  intros Hro Hml Hd Hv Ht Hpage.
  set (s1 := s <| suppressKeyPress := false |> <| suppressInput := false |> <| suppressKeyPressRepeat := false |>
               <| field := store t |> <| cancelSearch := true |> <| term := Some t |> <| visible := true |>).
  assert (H : snd (step (Keydown_ 27 b) s) = snd (_close page s1)).
  { cbn [ac_step]. unfold guarded_, guarded. rewrite eff_bind_get, Hd. unfold on_keydown. rewrite Hro.
    unfold suppress. eff_cbn. rewrite Hv, Hml, Ht. eff_cbn. unfold close. eff_cbn.
    match goal with |- ?l = _ => match l with context [_close page ?x] => change x with s1 end end.
    destruct (_close page s1) as [[?|?] ?]; done. }
  cbv zeta. rewrite H. destruct (field_hide Hpage s1) as [-> ->]. by rewrite hide_hides.
Qed.

(** ** The change event *)

(** While the element has the focus, and no timer is left to restore an older
    text, the text remembered is the one found when the focus came. *)
Definition no_reset (s : ac) : Prop := Forall (fun p => resets p.2 = false) (ac_timers s).
Definition editing (s : ac) : Prop := has_focus s = true /\ no_reset s.
Definition remembers (s s' : ac) : Prop :=
  editing s -> editing s' /\ previous s' = previous s /\ ac_disabled s' = ac_disabled s.
#[local] Instance remembers_preorder : PreOrder remembers.
Proof.
  split; [by intros s Hs|]. intros s1 s2 s3 H1 H2 Hs.
  destruct (H1 Hs) as (Ha & Hb & Hc). destruct (H2 Ha) as (Hd & He & Hf). split_and!; congruence || done.
Qed.
Lemma view_remembers s s' : view s' = view s -> remembers s s'.
Proof. unfold view, remembers, editing, no_reset. intros [=] []. split_and!; congruence. Qed.

Lemma remembers_hide : keeps remembers (_close page).
Proof. apply keeps_hide; [exact _|exact view_remembers|by intros s Hs]. Qed.

Lemma remembers_rendered items s : remembers s (rendered items s).
Proof.
  assert (H : forall l s1, remembers s1 (foldl rendered_one s1 l)).
  { intros l. induction l as [|i l IH]; intros s1; [reflexivity|]. cbn. etrans; [|apply IH]. by intros Hs1. }
  unfold rendered. etrans; [|apply H]. by intros Hs.
Qed.

Lemma remembers_base c : keeps remembers (base_response store page o has_scroll c).
Proof.
  intros s. rewrite base_response_eq. transitivity (responded c s).
  { unfold responded, trigger. eff_cbn. destruct (page _ s). by intros Hs. }
  apply (keeps_use remembers). unfold act_on. apply (keeps_bind remembers); [apply keeps_get, _|]. intros s2.
  destruct (normalize <$> c) as [[|x l]|]; [apply remembers_hide| |apply remembers_hide].
  destruct (_ || _); [apply remembers_hide|]. apply (keeps_bind remembers).
  - intros s3. transitivity (rendered (x :: l) s3); [apply remembers_rendered|].
    apply keeps_after_render; [exact _|exact view_remembers|by intros s4 Hs4].
  - intros _. apply (keeps_bind remembers); [apply keeps_ac_trigger; [exact view_remembers|done]|]. intros ?. apply keeps_ret, _.
Qed.

Lemma remembers_answer i c : keeps remembers (answer store page o has_scroll i c).
Proof. apply answer_of; try (by intros ? ? ? ?); try (by intros ? ? ?); try (by intros ? ?); [exact _|exact view_remembers|exact remembers_base]. Qed.

Lemma remembers_search v : keeps remembers (_search store page o upper has_scroll v).
Proof.
  intros s. rewrite _search_eq. transitivity (searched s); [by intros Hs|].
  apply (keeps_use remembers).
  apply call_source_of; try (by intros ? ? ? ?); try (by intros ? ? ?); try (by intros ? ?);
    [exact _|exact view_remembers|exact remembers_base].
Qed.

Lemma keeps_bind_at (R : ac -> ac -> Prop) `{!PreOrder R} {A B} (m : eff ac A) (f : A -> eff ac B) s :
  R s (snd (m s)) -> (forall a, keeps R (f a)) -> R s (snd ((m ≫= f) s)).
Proof. intros Hm Hf. unfold mbind, eff_bind. destruct (m s) as [[a|e] s']; [|exact Hm]. etrans; [exact Hm|apply Hf]. Qed.

Lemma remembers_delay j : resets j = false -> keeps remembers (delay j).
Proof. intros Hj s [Hf Ht]. split; [|done]. split; [done|]. apply Forall_app. by repeat constructor. Qed.

Lemma clear_no_reset id (l : list (nat * ac_job)) :
  Forall (fun p => resets p.2 = false) l -> Forall (fun p => resets p.2 = false) (clearTimeout id l).
Proof.
  rewrite !Forall_forall. intros H p Hp. apply H. apply list_elem_of_In. by apply list_elem_of_In, List.filter_In in Hp as [? _].
Qed.
Lemma remembers_clear id : keeps remembers (upd (fun s => s <| ac_timers := clearTimeout (id s) (ac_timers s) |>)).
Proof. intros s [Hf Ht]. split; [|done]. split; [done|]. by apply clear_no_reset. Qed.

Lemma remembers_close : keeps remembers (close page).
Proof. apply keeps_close; [exact _|exact view_remembers|by intros s Hs|by intros s Hs]. Qed.

Lemma remembers_select e items : keeps remembers (on_menuselect store page o e items).
Proof.
  apply keeps_guarded; [exact _|]. intros s. rewrite eff_bind_get. cbv zeta. apply (keeps_bind_at remembers).
  - destruct (has_focus s) eqn:Hf; [done|]. intros [Hf' _]. congruence.
  - intros _. apply (keeps_bind remembers); [apply keeps_ac_trigger; [exact view_remembers|done]|]. intros go.
    apply (keeps_bind remembers).
    + destruct go; [|apply keeps_ret, _]. apply (keeps_bind remembers); [apply keeps_item_value, _|].
      intros v. apply keeps_ac_set_value; [exact _|exact view_remembers].
    + intros _. apply (keeps_bind remembers); [by intros s1 Hs1|]. intros _.
      apply (keeps_bind remembers); [exact remembers_close|]. intros _. by intros s1 Hs1.
Qed.

Lemma remembers_fire id : keeps remembers (fire_ac store page o upper has_scroll id).
Proof.
  intros s. unfold fire_ac. rewrite eff_bind_get.
  destruct (list_find _ (ac_timers s)) as [[i [k j]]|] eqn:Hj; [|done]. intros Hs.
  assert (Hr : resets j = false).
  { destruct Hs as [_ Ht]. apply list_find_Some in Hj as (Hj & _).
    unfold no_reset in Ht. rewrite Forall_lookup in Ht. exact (Ht _ _ Hj). }
  revert Hs. apply (keeps_bind_at remembers); [apply (remembers_clear (fun _ => Some id))|]. intros _.
  destruct j; [| |discriminate Hr].
  - apply keeps_search_job; first [exact _|exact view_remembers|exact remembers_search|by intros ? ?|by intros ? ? ?].
  - intros s1 [Hf Ht]. cbn [run_ac_job]. eff_cbn. rewrite Hf. by repeat split.
Qed.

Lemma remembers_step i :
  match i with FocusIn | FocusOut | SetDisabled _ => False | _ => True end -> keeps remembers (step i).
Proof.
  apply keeps_step_inner; [exact _|exact view_remembers|by intros s Hs|by intros s Hs|by intros v s Hs|by intros v s Hs
    |exact remembers_answer|exact remembers_search|exact remembers_delay|exact remembers_clear|exact remembers_select
    |exact remembers_fire].
Qed.

(** The change events triggered, with their items. *)
Definition changes (l : list ac_event) : list (option item) :=
  omap (fun ev => match ev with EChange i => Some i | _ => None end) l.

#[global] Arguments changes : simpl never.
Lemma changes_snoc l ev :
  changes (l ++ [ev]) = changes l ++ match ev with EChange i => [i] | _ => [] end.
Proof. unfold changes. rewrite omap_app. by destruct ev. Qed.

Definition same_edit (s s' : ac) : Prop :=
  field s' = field s /\ previous s' = previous s /\ selectedItem s' = selectedItem s /\
  changes (log s') = changes (log s).
#[local] Instance same_edit_preorder : PreOrder same_edit.
Proof. split; unfold same_edit; [done|]. intros ??? (?&?&?&?) (?&?&?&?). split_and!; congruence. Qed.

Lemma edit_close : (forall s, snd (page EClose s) = field s) -> keeps same_edit (close page).
Proof.
  intros Hpage. unfold close, _close. apply (keeps_bind same_edit); [done|]. intros _.
  apply (keeps_bind same_edit); [done|]. intros _.
  apply (keeps_bind same_edit); [apply keeps_get, _|]. intros s. destruct (visible s); [|apply keeps_ret, _].
  apply (keeps_bind same_edit); [done|]. intros _. apply (keeps_bind same_edit).
  { apply (frame_blur (Client := menu_only) same_edit); [done|]. intros. apply keeps_ret, _. }
  intros _. apply (keeps_bind same_edit); [done|]. intros _.
  apply (keeps_bind same_edit); [|intros ?; apply keeps_ret, _].
  intros s1. unfold trigger. eff_cbn. specialize (Hpage s1). destruct (page EClose s1). split_and!; try done.
  cbn. rewrite changes_snoc. apply app_nil_r.
Qed.

(** [close] hides the menu and cancels the searches under way. *)
Lemma close_hushes s : hushed (snd (close page s)).
Proof.
  split.
  - unfold close. unfold mbind at 1, eff_bind at 1. cbn [upd modify].
    set (R := fun s s' : ac => cancelSearch s = true -> cancelSearch s' = true).
    assert (PreOrder R) by (split; unfold R; repeat intro; auto).
    apply (keeps_use R); [|done]. apply keeps_hide; [exact _| |by intros s1 Hs1].
    intros s1 s2. unfold view, R. intros [=]. congruence.
  - unfold close. unfold mbind at 1, eff_bind at 1. cbn [upd modify]. apply hide_hides.
Qed.
Lemma calm_close : keeps calm (close page).
Proof. apply keeps_close; [exact _|exact view_calm|..]; intros s; (split; cbn; [lia|]); by intros _ []. Qed.

Lemma completes_close s : completes (close page) s.
Proof. apply completes_bind; [by exists tt|]. intros _. apply completes_hide. Qed.

Lemma blur_changes s :
  ac_disabled s = false -> cancelBlur s = false -> (forall s, snd (page EClose s) = field s) ->
  changes (log (snd (step FocusOut s))) =
  changes (log s) ++ (if bool_decide (previous s = Some (field s)) then [] else [selectedItem s]).
Proof.
  intros Hd Hc Hpage. cbn [ac_step]. unfold mbind at 1, eff_bind at 1. cbn [upd modify].
  unfold guarded. rewrite eff_bind_get. set (s0 := s <| has_focus := false |>).
  change (ac_disabled s0) with (ac_disabled s). rewrite Hd. unfold on_blur. rewrite eff_bind_get.
  change (cancelBlur s0) with (cancelBlur s). rewrite Hc. unfold mbind at 1, eff_bind at 1. cbn [upd modify].
  set (s1 := s0 <| ac_timers := _ |>). destruct (completes_close s1) as [[] Hr].
  destruct (edit_close Hpage s1) as (H1 & H2 & H3 & H4).
  destruct (close page s1) as [r s2] eqn:Hcl. cbn in Hr, H1, H2, H3, H4. subst r.
  rewrite (eff_bind_ok _ _ _ _ _ Hcl). unfold change. rewrite eff_bind_get, H1, H2, H3, <- H4.
  case_bool_decide; [by rewrite app_nil_r|]. unfold trigger. eff_cbn. destruct (page _ s2). cbn.
  by rewrite changes_snoc.
Qed.
End Props.

(** ** The widget is a fair user of its menu *)

Definition keeps_menu (s s' : ac) : Prop := menu_ok (ac_menu s) -> menu_ok (ac_menu s').
#[local] Instance keeps_menu_preorder : PreOrder keeps_menu.
Proof. split; [intros s H; exact H|]. intros s1 s2 s3 H1 H2 H. exact (H2 (H1 H)). Qed.

#[local] Instance menu_only_fair : FairClient ac (MenuClient0 := menu_only).
Proof. split; [done|done| |]; intros e ks s H; exact H. Qed.

Lemma menu_blur_ok : keeps keeps_menu menu_blur_call.
Proof. exact (keeps_blur (Client := menu_only) None false). Qed.

Ltac fair_tac :=
  repeat match goal with
  | |- forall _, _ => intro
  | |- keeps _ (let _ := _ in _) => cbv zeta
  | |- keeps _ get => apply keeps_get, _
  | |- keeps _ (trigger ?p _) => let s := fresh in intros s; unfold trigger; eff_cbn; destruct (p _ s); exact (fun H => H)
  | |- keeps _ menu_blur_call => apply menu_blur_ok
  | |- keeps _ (guarded _) => unfold guarded
  | |- keeps _ (set_value _ _ _) => unfold set_value
  | |- keeps _ (item_value _) => unfold item_value
  | |- keeps _ (upd _) => intros ?; exact (fun H => H)
  | |- keeps _ (delay _) => intros ?; exact (fun H => H)
  | |- keeps _ (_ ≫= _) => apply (keeps_bind keeps_menu)
  | |- keeps _ (mret _) => apply keeps_ret, _
  | |- keeps _ (throw _) => apply keeps_throw, _
  | |- keeps _ (match ?x with _ => _ end) => destruct x
  end.

#[export] Instance ac_fair store page o : FairClient ac (MenuClient0 := ac_client store page o).
Proof.
  split; [done|done| |].
  - assert (H : forall e ks, keeps keeps_menu (on_menufocus store page o e ks)) by (unfold on_menufocus; fair_tac).
    intros e ks s Hs. exact (H e ks s Hs).
  - assert (H : forall e ks, keeps keeps_menu (on_menuselect store page o e ks))
      by (unfold on_menuselect, give_focus, on_focus, close, _close; fair_tac).
    intros e ks s Hs. exact (H e ks s Hs).
Qed.

(** ** The theorems *)

#[local] Existing Instances keeps_req_preorder keeps_shown_preorder calm_preorder remembers_preorder.

(** C14. However the field, the menu, the timers and the source behave, [pending]
    is the number of requests that have no answer, the class
    ui-autocomplete-loading is there exactly when there are any, and responses
    are triggered for requests in the order these were made, each once: an
    answer that comes after the answer to a later request changes nothing that
    is seen. *)
Theorem requests_accounted store page o upper has_scroll page_down page_up text src inputs
    (s := ac_run store page o upper has_scroll page_down page_up inputs (create_ac text src)) :
  pending s = Z.of_nat (length (waiting s)) /\
  (loading s = true <-> waiting s <> []) /\
  StronglySorted Z.lt (responses (log s)).*1 /\
  forall i, i ∈ (responses (log s)).*1 -> i <= requestIndex s /\ i ∉ waiting s.
Proof.
  assert (H : req_ok s).
  { refine (run_keeps store page o upper has_scroll page_down page_up keeps_req inputs (create_ac text src)
      (step_req _ _ _ _ _ _ _) _).
    exact (created_ok text src). }
  destruct H as [Hp Hl _ _ _ Hr Ha]. split_and!; [done| |done|done].
  rewrite Hl, negb_true_iff, bool_decide_eq_false. done.
Qed.

(** What a visible menu shows are the items of the last response, in their
    order, one element for each: no answer to an older request and no other
    event changes what is shown. *)
Theorem shows_last_response store page o upper has_scroll page_down page_up text src inputs
    (s := ac_run store page o upper has_scroll page_down page_up inputs (create_ac text src)) :
  visible s = true ->
  exists i items, last (responses (log s)) = Some (i, Some items) /\ items <> [] /\
    (item_data s).*2 = items /\ find_items (ac_menu s) = (item_data s).*1.
Proof.
  assert (H : shown_ok s); [|exact H].
  refine (run_keeps store page o upper has_scroll page_down page_up keeps_shown inputs (create_ac text src)
    (step_shown _ _ _ _ _ _ _) _).
  by intros ?.
Qed.

(** C15. Closing is final: from a state in which the suggestions were closed, no
    answer that is still to come, and no other event, shows the menu again until
    a new search is made. *)
Theorem close_is_final store page o upper has_scroll page_down page_up inputs s
    (s' := ac_run store page o upper has_scroll page_down page_up inputs (snd (close page s))) :
  requestIndex s <= requestIndex s' /\
  (requestIndex s' = requestIndex s -> visible s' = false /\ cancelSearch s' = true).
Proof.
  destruct (run_keeps store page o upper has_scroll page_down page_up calm inputs (snd (close page s)))
    as [H1 H2]; [exact (step_calm _ _ _ _ _ _ _)|]. destruct (calm_close page s) as [H3 _]. fold s' in H1, H2.
  split; [lia|]. intros He. destruct H2 as [? ?]; [lia|apply close_hushes|done].
Qed.

(** C16. The escape key gives back what was typed: from a visible menu of a
    single-line field, whatever the arrow and page keys did to the field, escape
    closes the menu and the field has the text of the last search again. *)
Theorem escape_restores store page o upper has_scroll page_down page_up keys b s t :
  readOnly o = false -> isMultiLine o = false -> ac_disabled s = false -> visible s = true -> term s = Some t ->
  Forall (fun k => nav_key k.1) keys -> (forall s, snd (page EClose s) = field s) ->
  let s' := ac_run store page o upper has_scroll page_down page_up
              (map (fun k => Keydown_ k.1 k.2) keys ++ [Keydown_ 27 b]) s in
  field s' = store t /\ visible s' = false /\ term s' = Some t.
Proof.
  intros Hro Hml Hd Hv Ht Hkeys Hpage. unfold ac_run. rewrite foldl_app. cbn [foldl].
  destruct (typed_navs store page o upper has_scroll page_down page_up keys s Hro Hkeys Hv) as (H1 & H2 & H3).
  unfold ac_run in H1, H2, H3. apply escape_step; congruence || done.
Qed.

(** The change event: when the focus leaves the field, it is triggered
    exactly if the text is not the one found when the focus came, whatever
    happened in between, with the item that was selected, if any.  No timer of an
    earlier click on the menu is pending, and the page leaves the text alone when
    the menu closes. *)
Theorem change_iff_changed store page o upper has_scroll page_down page_up inputs s0 :
  ac_disabled s0 = false -> no_reset s0 -> (forall s, snd (page EClose s) = field s) ->
  Forall (fun i => match i with FocusIn | FocusOut | SetDisabled _ => False | _ => True end) inputs ->
  let run := ac_run store page o upper has_scroll page_down page_up in
  let s1 := run (FocusIn :: inputs) s0 in
  cancelBlur s1 = false ->
  changes (log (run [FocusOut] s1)) =
  changes (log s1) ++ (if bool_decide (field s1 = field s0) then [] else [selectedItem s1]).
Proof.
  intros Hd Hn Hpage Hin run s1 Hc.
  set (s2 := snd (ac_step store page o upper has_scroll page_down page_up FocusIn s0)).
  assert (H2 : editing s2 /\ previous s2 = Some (field s0) /\ ac_disabled s2 = false).
  { unfold s2. cbn [ac_step]. unfold give_focus, on_focus, guarded. eff_cbn. rewrite Hd. by repeat split. }
  assert (H1 : remembers s2 s1).
  { unfold s1, run. cbn [ac_run foldl]. fold s2. clearbody s2. clear H2 s1 Hc. revert s2.
    induction inputs as [|i inputs IH]; intros s2; [reflexivity|]. apply Forall_cons in Hin as [Hi Hin]. cbn [foldl].
    etrans; [exact (remembers_step store page o upper has_scroll page_down page_up i Hi s2)|apply IH, Hin]. }
  destruct H2 as (He & Hp & Hd2). destruct (H1 He) as (_ & Hp1 & Hd1).
  unfold run. cbn [ac_run foldl]. rewrite blur_changes; [|congruence|done|done].
  rewrite Hp1, Hp. f_equal. repeat case_bool_decide; congruence || done.
Qed.
