(* ===== verification/AutocompleteDemo.v ===== *)
(** Concrete runs of the menu and of the suggestion field (Menu, Autocomplete),
    and the theorems at concrete inputs. *)
From Stdlib Require Import String Sorted.
From S2P Require Import Prelude JsString DateFormat Suggestions Menu MenuProps Autocomplete AutocompleteFrame AutocompleteProps.

(** ** A field with four languages *)

(** Upper case of ASCII letters. *)
Definition upper_ascii (c : Z) : Z := if (97 <=? c) && (c <=? 122) then c - 32 else c.
(** A page that lets everything happen. *)
Definition lenient (ev : ac_event) (s : ac) : bool * jstr := (true, field s).
Definition single_line : ac_options :=
  {| by_val := true; isMultiLine := false; readOnly := false; minLength := 1; autoFocus := false |}.
Definition languages : list item :=
  [Text (str "Java"); Text (str "JavaScript"); Text (str "C++"); Text (str "Ruby")].
Abbreviation demo_run :=
  (ac_run id lenient single_line upper_ascii (fun _ => false) (fun _ _ _ => true) (fun _ _ _ => true)).

(** The user types [a] and waits. *)
Abbreviation typed_a :=
  (demo_run [FocusIn; Edit (str "a"); Input_ false; Fire 0] (create_ac [] (ArraySource languages))).
Example typed_a_shows :
  visible typed_a = true /\ (text <$> entries (ac_menu typed_a)) = [str "Java"; str "JavaScript"].
Proof. vm_compute. done. Qed.

(** A plus sign is a plus sign. *)
Example plus_is_text : filter_items upper_ascii languages (str "c+") = Ok [Text (str "C++")].
Proof. vm_compute. done. Qed.

(** The arrow keys put the items in the field, and go round. *)
Example down_down :
  field (demo_run [Keydown_ 40 false; Keydown_ 40 false] typed_a) = str "JavaScript" /\
  field (demo_run [Keydown_ 40 false; Keydown_ 40 false; Keydown_ 40 false] typed_a) = str "a".
Proof. vm_compute. done. Qed.

(** The answer to an older request comes last and is dropped. *)
Definition slow : ac := create_ac [] (FunctionSource (fun _ => None)).
Definition two_requests : list ac_input :=
  [SearchCall (Some (str "a")); SearchCall (Some (str "b")); Answer 2 (Some [Text (str "b")]); Answer 1 (Some [Text (str "a")])].
Example late_answer :
  let s := demo_run two_requests slow in
  (text <$> entries (ac_menu s)) = [str "b"] /\ pending s = 0 /\ loading s = false.
Proof. vm_compute. done. Qed.

(** An address is asked once at a time. *)
Example abort_older :
  let s := demo_run [SearchCall (Some (str "a")); SearchCall (Some (str "b"))] (create_ac [] UrlSource) in
  waiting s = [2] /\ xhr s = Some 2 /\ pending s = 1.
Proof. vm_compute. done. Qed.

(** A letter typed again in a menu that lost its active item in between throws:
    the handler reads the next sibling of [null]. *)
Definition letters : menu :=
  empty_menu <| entries := refresh_entry <$> [{| key := 0; text := str "Java"; is_item := false; is_divider := false; is_disabled := false |}] |>.

(** ** A menu by itself *)

(** A user that does nothing. *)
#[export] Instance plain_client : MenuClient menu := {|
  menu_of m := m; set_menu m _ := m;
  menufocus _ _ := mret tt; menublur _ _ := mret tt; menuselect _ _ := mret tt |}.
#[export] Instance plain_quiet : QuietClient menu.
Proof. split; [done| |]; intros e ks s; by exists s. Qed.

Definition same_letter_again : list menu_input := [MKeydown 74; MLeave; MTimer 1 false].
Definition after_leave : menu :=
  foldl (fun s i => snd (on_input upper_ascii (fun _ => false) (fun _ _ _ => true) (fun _ _ _ => true) i s)) letters same_letter_again.
Example typeahead_throws :
  previousFilter after_leave = Some (str "J") /\ active after_leave = None /\
  fst (on_input upper_ascii (fun _ => false) (fun _ _ _ => true) (fun _ _ _ => true) (MKeydown 74) after_leave) = Throw TypeError.
Proof. vm_compute. done. Qed.

(** Three items with a divider after the first one. *)
Definition entry_at (k : nat) (t : string) : entry :=
  {| key := k; text := str t; is_item := false; is_divider := false; is_disabled := false |}.
Definition dishes : menu :=
  refresh_entries (empty_menu <| entries := [entry_at 0 "soup"; entry_at 1 "---"; entry_at 2 "fish"; entry_at 3 "cake"] |>).
Example divider_found : (is_divider <$> entries dishes) = [false; true; false; false].
Proof. done. Qed.

(** ** The theorems at concrete inputs *)

Lemma keys_cycle_witness :
  NoDup (find_items dishes) /\ no_outer_divider (entries dishes) /\
  (exists s', presses 5 (next (fun _ => false) (Some Keydown)) dishes = (Ok tt, s') /\ at_item 1 s') /\
  (exists s', presses 1 (next (fun _ => false) (Some Keydown)) dishes = (Ok tt, s') /\ at_item 0 s').
Proof.
  assert (Hd : NoDup (find_items dishes)) by (apply (bool_decide_unpack _); vm_compute; exact I).
  assert (Ho : no_outer_divider (entries dishes)).
  { split.
    - eexists _, _. split; [reflexivity|reflexivity].
    - exists (refresh_entry (entry_at 3 "cake")), (refresh_entry <$> [entry_at 0 "soup"; entry_at 1 "---"; entry_at 2 "fish"]).
      split; reflexivity. }
  destruct (keys_cycle (Client := plain_client) (fun _ => false) (Some Keydown) dishes Hd Ho) as [H _].
  split; [exact Hd|]. split; [exact Ho|]. split; [exact (H eq_refl 4%nat)|exact (H eq_refl 0%nat)].
Defined.

Definition mouse_inputs : list menu_input := [MEnter 1; MLeave; MTimer 1 false; MClick 0 false false].
Lemma highlight_is_active_witness :
  menu_ok (@menu_of ac (ac_client id lenient single_line) typed_a) /\
  menu_ok (@menu_of ac (ac_client id lenient single_line)
    (foldl (fun s i => snd (@on_input ac (ac_client id lenient single_line) upper_ascii (fun _ => false)
                              (fun _ _ _ => true) (fun _ _ _ => true) i s)) typed_a mouse_inputs)).
Proof.
  assert (H : menu_ok (@menu_of ac (ac_client id lenient single_line) typed_a)) by (vm_compute; reflexivity).
  split; [exact H|].
  exact (@highlight_is_active ac (ac_client id lenient single_line) (ac_fair id lenient single_line) upper_ascii
    (fun _ => false) (fun _ _ _ => true) (fun _ _ _ => true) mouse_inputs typed_a H).
Defined.

Lemma shows_last_response_witness :
  visible typed_a = true /\
  exists i items, last (responses (log typed_a)) = Some (i, Some items) /\ items <> [] /\
    (item_data typed_a).*2 = items /\ find_items (ac_menu typed_a) = (item_data typed_a).*1.
Proof.
  assert (H : visible typed_a = true) by (vm_compute; reflexivity).
  split; [exact H|].
  exact (shows_last_response id lenient single_line upper_ascii (fun _ => false) (fun _ _ _ => true) (fun _ _ _ => true) []
    (ArraySource languages) [FocusIn; Edit (str "a"); Input_ false; Fire 0] H).
Defined.

(** A field that waits for an answer and is closed. *)
Abbreviation closed_early := (demo_run [SearchCall (Some (str "a"))] slow).
Abbreviation late := (demo_run [Answer 1 (Some [Text (str "a")])] (snd (close lenient closed_early))).
Lemma close_is_final_witness : requestIndex late = requestIndex closed_early /\ visible late = false.
Proof.
  assert (H : requestIndex late = requestIndex closed_early) by (vm_compute; reflexivity).
  split; [exact H|].
  destruct (close_is_final id lenient single_line upper_ascii (fun _ => false) (fun _ _ _ => true) (fun _ _ _ => true)
    [Answer 1 (Some [Text (str "a")])] closed_early) as [_ Hc].
  exact (proj1 (Hc H)).
Defined.

Lemma escape_restores_witness :
  visible typed_a = true /\ field (demo_run [Keydown_ 40 false; Keydown_ 40 false; Keydown_ 27 false] typed_a) = str "a".
Proof.
  assert (H : visible typed_a = true) by (vm_compute; reflexivity).
  split; [exact H|].
  refine (proj1 (escape_restores id lenient single_line upper_ascii (fun _ => false) (fun _ _ _ => true) (fun _ _ _ => true)
    [(40, false); (40, false)] false typed_a (str "a") eq_refl eq_refl _ H _ _ (fun _ => eq_refl))).
  - vm_compute. reflexivity.
  - vm_compute. reflexivity.
  - repeat constructor; unfold nav_key; cbn; lia.
Defined.

Definition edits : list ac_input := [Edit (str "a"); Input_ false; Fire 0; Keydown_ 40 false; Keydown_ 13 false].
Lemma change_iff_changed_witness :
  let s1 := demo_run (FocusIn :: edits) (create_ac [] (ArraySource languages)) in
  cancelBlur s1 = false /\
  changes (log (demo_run [FocusOut] s1)) = changes (log s1) ++ (if bool_decide (field s1 = []) then [] else [selectedItem s1]) /\
  field s1 = str "Java".
Proof.
  cbv zeta. assert (H : cancelBlur (demo_run (FocusIn :: edits) (create_ac [] (ArraySource languages))) = false)
    by (vm_compute; reflexivity).
  split; [exact H|]. split; [|vm_compute; reflexivity].
  refine (change_iff_changed id lenient single_line upper_ascii (fun _ => false) (fun _ _ _ => true) (fun _ _ _ => true)
    edits (create_ac [] (ArraySource languages)) eq_refl _ (fun _ => eq_refl) _ H).
  - constructor.
  - repeat constructor.
Defined.
