(* ===== verification/Spinner.v ===== *)
(** [$.ui.spinner] (jquery-ui.js): a field whose number goes up and down by keys,
    buttons, the mouse wheel and methods, and keeps going while a key or a
    button is held.

    The value that is written is always adjusted: put on the grid of steps above
    the minimum, freed of the noise of binary arithmetic, and clamped. *)
From S2P Require Import Prelude JsNumber JsMath JsString.

(** ** State *)

(** [options.incremental] *)
Inductive increments := Accelerating | Constant | Custom (f : Z -> number).

(** What the widget triggers. *)
Inductive sp_event := EStart | ESpin (value : number) | EStop | EChange.

(** What a timer does: spin again, end a turn of the wheel, and the two checks
    that follow a press of the mouse on a button. *)
Inductive sp_job :=
  | Again (steps : number)
  | WheelEnd
  | CheckFocus (previous : jstr)
  | SetPrevious (previous : jstr).

Record spinner := {
  text : jstr;                       (* the value of the element *)
  focused : bool;                    (* the element is the active element *)
  previous : jstr;
  cancelBlur : bool;
  spinning : bool;
  counter : Z;                       (* 0 when undefined *)
  timer : option nat;
  mousewheelTimer : option nat;
  timers : list (nat * sp_job);
  next_timer : nat;
  max : option number;
  min : option number;
  step : option number;
  page : number;
  incremental : increments;
  sp_disabled : bool;
  aria_now : option number;          (* aria-valuenow, -min and -max *)
  aria_min : option number;
  aria_max : option number;
  log : list sp_event;               (* what was triggered *)
}.
#[export] Instance eta_spinner : Eta spinner := fun s => {|
  text := text s; focused := focused s; previous := previous s; cancelBlur := cancelBlur s;
  spinning := spinning s; counter := counter s; timer := timer s; mousewheelTimer := mousewheelTimer s;
  timers := timers s; next_timer := next_timer s; max := max s; min := min s; step := step s;
  page := page s; incremental := incremental s; sp_disabled := sp_disabled s; aria_now := aria_now s;
  aria_min := aria_min s; aria_max := aria_max s; log := log s |}.

Definition zero : number := S754_zero false.
Definition one : number := num_of_Z 1.
(** A number where a missing one counts as 0, and [n || 0], [n || 1]. *)
Definition or_zero (o : option number) : number := default zero o.
Definition is_falsy (n : number) : bool := is_nan n || num_eqb n zero.
Definition or_one (o : option number) : number :=
  match o with Some n => if is_falsy n then one else n | None => one end.

(** ** Numbers *)

(** [_increment( i )] *)
Definition increment (s : spinner) (i : Z) : number :=
  match incremental s with
  | Accelerating =>
      let n := num_of_Z i in
      num_floor (num_add (num_add (num_sub (num_div (num_mul (num_mul n n) n) (num_of_Z 50000))
                                           (num_div (num_mul n n) (num_of_Z 500)))
                                  (num_div (num_mul (num_of_Z 17) n) (num_of_Z 200)))
                         one)
  | Constant => one
  | Custom f => f i
  end.

(** [_precision]; a missing step has no [toString]. *)
Definition precision (s : spinner) : result Z :=
  match step s with
  | None => Throw TypeError
  | Some st => Ok (match min s with Some m => Z.max (decimals st) (decimals m) | None => decimals st end)
  end.

(** [value > max], [value < min] for an option that may be null. *)
Definition above_max (s : spinner) (v : number) : bool := match max s with Some m => num_ltb m v | None => false end.
Definition below_min (s : spinner) (v : number) : bool := match min s with Some m => num_ltb v m | None => false end.

(** The end of [_adjustValue] *)
Definition clamp (s : spinner) (v : number) : number :=
  if above_max s v then default v (max s) else if below_min s v then default v (min s) else v.

(** [_adjustValue] *)
Definition adjustValue (s : spinner) (value : number) : result number :=
  let base := or_zero (min s) in
  let aboveMin := num_sub value base in
  let aboveMin := num_mul (num_round (num_div aboveMin (or_zero (step s)))) (or_zero (step s)) in
  let value := num_add base aboveMin in
  p ← precision s;
  mret (clamp s (parse_fixed p value)).

Section Spinner.
(** The text of a number and the number of a text, as the language converts
    them; and whether the page lets an event go on. *)
Context (to_text : number -> jstr) (of_text : jstr -> number).
Context (allows : sp_event -> spinner -> bool).

Definition upd (f : spinner -> spinner) : eff spinner unit := modify f.

Definition trigger (e : sp_event) : eff spinner bool :=
  s ← get; upd (fun s => s <| log := log s ++ [e] |>) ;; mret (allows e s).

(** [this._delay( job )], with the identifier of the timer. *)
Definition delay (j : sp_job) : eff spinner nat :=
  s ← get;
  upd (fun s => s <| timers := timers s ++ [(next_timer s, j)] |> <| next_timer := S (next_timer s) |>) ;;
  mret (next_timer s).
Definition clear (id : option nat) (s : spinner) : spinner :=
  s <| timers := List.filter (fun p => negb (bool_decide (Some p.1 = id))) (timers s) |>.

(** [_parse] of a number, of a text, and [value()] *)
Definition parse_number (n : number) : option number := if is_nan n then None else Some n.
Definition parse_text (t : jstr) : option number :=
  match t with [] => None | _ => parse_number (of_text t) end.
Definition value (s : spinner) : option number := parse_text (text s).

(** [_refresh] *)
Definition refresh : eff spinner unit :=
  upd (fun s => s <| aria_min := min s |> <| aria_max := max s |> <| aria_now := value s |>).

(** [_value( value )] of a number and of a text; [allowAny] skips the
    adjustment. *)
Definition set_number (v : number) : eff spinner unit :=
  s ← get;
  v ← (match parse_number v with Some p => lift (adjustValue s p) | None => mret v end);
  upd (fun s => s <| text := to_text v |>) ;; refresh.
Definition set_text (t : jstr) (allowAny : bool) : eff spinner unit :=
  s ← get;
  t ← (match parse_text t with
       | Some p => v ← (if allowAny then mret p else lift (adjustValue s p)); mret (to_text v)
       | None => mret t
       end);
  upd (fun s => s <| text := t |>) ;; refresh.

(** [isValid] *)
Definition isValid (s : spinner) : result bool :=
  match value s with
  | None => mret false
  | Some v => w ← adjustValue s v; mret (num_eqb v w)
  end.

(** ** Spinning *)

(** [_start] *)
Definition start : eff spinner bool :=
  s ← get;
  go ← (if spinning s then mret true else trigger EStart);
  if negb go then mret false
  else
    upd (fun s => s <| counter := if counter s =? 0 then 1 else counter s |> <| spinning := true |>) ;;
    mret true.

(** [_stop] *)
Definition stop : eff spinner unit :=
  s ← get;
  if negb (spinning s) then mret tt
  else
    upd (fun s => clear (timer s) s) ;;
    upd (fun s => clear (mousewheelTimer s) s) ;;
    upd (fun s => s <| counter := 0 |> <| spinning := false |>) ;;
    trigger EStop ;; mret tt.

(** [_spin( step )] *)
Definition spin (st : number) : eff spinner unit :=
  s ← get;
  let v := match value s with Some v => if is_falsy v then zero else v | None => zero end in
  upd (fun s => s <| counter := if counter s =? 0 then 1 else counter s |>) ;;
  s ← get;
  v ← lift (adjustValue s (num_add v (num_mul st (increment s (counter s)))));
  go ← (if spinning s then trigger (ESpin v) else mret true);
  if (go : bool) then set_number v ;; upd (fun s => s <| counter := counter s + 1 |>) else mret tt.

(** [_repeat( i, steps )]; the time does not matter here. *)
Definition repeat_ (steps : number) : eff spinner unit :=
  upd (fun s => clear (timer s) s) ;;
  id ← delay (Again steps);
  upd (fun s => s <| timer := Some id |>) ;;
  s ← get;
  spin (num_mul steps (or_zero (step s))).

(** ** Methods *)

(** [spinnerModifer( fn )] *)
Definition modifier (fn : eff spinner unit) : eff spinner unit :=
  s ← get;
  fn ;; refresh ;;
  s' ← get;
  if bool_decide (text s = text s') then mret tt else trigger EChange ;; mret tt.

Definition _stepUp (steps : option number) : eff spinner unit :=
  go ← start;
  if (go : bool) then s ← get; spin (num_mul (or_one steps) (or_zero (step s))) ;; stop else mret tt.
Definition _stepDown (steps : option number) : eff spinner unit :=
  go ← start;
  if (go : bool) then s ← get; spin (num_mul (or_one steps) (num_opp (or_zero (step s)))) ;; stop else mret tt.
Definition stepUp (steps : option number) : eff spinner unit := modifier (_stepUp steps).
Definition stepDown (steps : option number) : eff spinner unit := modifier (_stepDown steps).
Definition pageUp (pages : option number) : eff spinner unit :=
  modifier (s ← get; _stepUp (Some (num_mul (or_one pages) (page s)))).
Definition pageDown (pages : option number) : eff spinner unit :=
  modifier (s ← get; _stepDown (Some (num_mul (or_one pages) (page s)))).
Definition value_number (v : number) : eff spinner unit := modifier (set_number v).
Definition value_text (t : jstr) : eff spinner unit := modifier (set_text t false).

(** [_setOption]: a text is parsed.  [culture] and [numberFormat] rewrite the
    field, without the library Globalize as the plain number. *)
Inductive sp_option :=
  | OMax (v : option number) | OMaxText (t : jstr)
  | OMin (v : option number) | OMinText (t : jstr)
  | OStep (v : option number) | OStepText (t : jstr)
  | OPage (v : number)
  | OIncremental (i : increments)
  | OFormat
  | ODisabled (v : bool).
Definition setOption (o : sp_option) : eff spinner unit :=
  match o with
  | OMax v => upd (fun s => s <| max := v |>)
  | OMaxText t => upd (fun s => s <| max := parse_text t |>)
  | OMin v => upd (fun s => s <| min := v |>)
  | OMinText t => upd (fun s => s <| min := parse_text t |>)
  | OStep v => upd (fun s => s <| step := v |>)
  | OStepText t => upd (fun s => s <| step := parse_text t |>)
  | OPage v => upd (fun s => s <| page := v |>)
  | OIncremental i => upd (fun s => s <| incremental := i |>)
  | OFormat => upd (fun s => s <| text := match value s with Some v => to_text v | None => [] end |>)
  | ODisabled v => upd (fun s => s <| sp_disabled := v |>)
  end.
Definition setOptions (os : list sp_option) : eff spinner unit := modifier (for_each setOption os).

(** [_create] on an element with a text; options given as texts have been
    parsed. *)
Definition create_spinner (t : jstr) (mn mx st : option number) (pg : number) (inc : increments) : spinner :=
  snd ((set_text t true ;; refresh) {|
    text := t; focused := false; previous := []; cancelBlur := false; spinning := false; counter := 0;
    timer := None; mousewheelTimer := None; timers := []; next_timer := 0; max := mx; min := mn; step := st;
    page := pg; incremental := inc; sp_disabled := false; aria_now := None; aria_min := None; aria_max := None;
    log := [] |}).

(** ** Events *)

(** A handler bound by [_on] does nothing while the widget is disabled. *)
Definition handler (h : eff spinner unit) : eff spinner unit :=
  s ← get; if sp_disabled s then mret tt else h.

(** [_keydown]; the result says whether the default action is prevented. *)
Definition keydown (code : Z) : eff spinner bool :=
  s ← get;
  if code =? 38 then repeat_ one ;; mret true
  else if code =? 40 then repeat_ (num_opp one) ;; mret true
  else if code =? 33 then repeat_ (page s) ;; mret true
  else if code =? 34 then repeat_ (num_opp (page s)) ;; mret true
  else mret false.
Definition on_keydown (code : Z) : eff spinner unit :=
  go ← start; if (go : bool) then keydown code ;; mret tt else mret tt.

Definition on_focus : eff spinner unit := upd (fun s => s <| previous := text s |>).
Definition give_focus : eff spinner unit := upd (fun s => s <| focused := true |>) ;; handler on_focus.
Definition on_blur : eff spinner unit :=
  s ← get;
  if cancelBlur s then upd (fun s => s <| cancelBlur := false |>)
  else
    stop ;; refresh ;;
    s ← get;
    if bool_decide (previous s = text s) then mret tt else trigger EChange ;; mret tt.

(** [mousewheel] *)
Definition on_wheel (delta : Z) : eff spinner unit :=
  if delta =? 0 then mret tt
  else
    s ← get;
    go ← (if spinning s then mret true else start);
    if negb go then mret tt
    else
      spin (num_mul (if 0 <? delta then one else num_opp one) (or_zero (step s))) ;;
      upd (fun s => clear (mousewheelTimer s) s) ;;
      id ← delay WheelEnd;
      upd (fun s => s <| mousewheelTimer := Some id |>).

(** [checkFocus] of a press on a button. *)
Definition checkFocus (prev : jstr) : eff spinner unit :=
  s ← get;
  if focused s then mret tt
  else
    give_focus ;;
    upd (fun s => s <| previous := prev |>) ;;
    delay (SetPrevious prev) ;; mret tt.

Definition direction (up : bool) : number := if up then one else num_opp one.
(** ["mousedown .ui-spinner-button"] *)
Definition on_button (up : bool) : eff spinner unit :=
  s ← get;
  let prev := if focused s then previous s else text s in
  checkFocus prev ;;
  upd (fun s => s <| cancelBlur := true |>) ;;
  delay (CheckFocus prev) ;;
  go ← start;
  if (go : bool) then repeat_ (direction up) else mret tt.
(** ["mouseenter .ui-spinner-button"]; [active] is the button's class
    ui-state-active. *)
Definition on_enter (up active : bool) : eff spinner unit :=
  if negb active then mret tt
  else go ← start; if (go : bool) then repeat_ (direction up) else mret tt.

Definition run_job (j : sp_job) : eff spinner unit :=
  match j with
  | Again steps => repeat_ steps
  | WheelEnd => s ← get; if spinning s then stop else mret tt
  | CheckFocus prev => upd (fun s => s <| cancelBlur := false |>) ;; checkFocus prev
  | SetPrevious prev => upd (fun s => s <| previous := prev |>)
  end.
Definition fire (id : nat) : eff spinner unit :=
  s ← get;
  match list_find (fun p => p.1 = id) (timers s) with
  | Some (_, (_, j)) => upd (clear (Some id)) ;; run_job j
  | None => mret tt
  end.

(** What can happen. *)
Inductive sp_input :=
  | Keydown (code : Z) | Keyup
  | Type_ (t : jstr)                      (* the user changes the text *)
  | FocusIn | FocusOut
  | Wheel (delta : Z)
  | ButtonDown (up : bool) | ButtonUp | ButtonEnter (up active : bool) | ButtonLeave
  | Fire (id : nat)
  | StepUp (steps : option number) | StepDown (steps : option number)
  | PageUp (pages : option number) | PageDown (pages : option number)
  | ValueNumber (v : number) | ValueText (t : jstr)
  | SetOptions (os : list sp_option).

Definition sp_step (i : sp_input) : eff spinner unit :=
  match i with
  | Keydown code => handler (on_keydown code)
  | Keyup | ButtonUp | ButtonLeave => handler stop
  | Type_ t => upd (fun s => s <| text := t |>)
  | FocusIn => give_focus
  | FocusOut => upd (fun s => s <| focused := false |>) ;; handler on_blur
  | Wheel delta => handler (on_wheel delta)
  | ButtonDown up => handler (on_button up)
  | ButtonEnter up active => handler (on_enter up active)
  | Fire id => fire id
  | StepUp n => stepUp n
  | StepDown n => stepDown n
  | PageUp n => pageUp n
  | PageDown n => pageDown n
  | ValueNumber v => value_number v
  | ValueText t => value_text t
  | SetOptions os => setOptions os
  end.
Definition sp_run (inputs : list sp_input) (s : spinner) : spinner := foldl (fun s i => snd (sp_step i s)) s inputs.
End Spinner.
