(* ===== verification/SpinnerProps.v ===== *)
(** Theorems about [$.ui.spinner] (Spinner): what it writes lies between the
    bounds, it spins only between a start and a stop and not after it, and on a
    grid of integers every step is exact. *)
From Stdlib Require Import String.
From S2P Require Import Prelude JsNumber JsMath JsString Spinner.

(** ** The bounds *)

Lemma num_ltb_irrefl x : num_ltb x x = false.
Proof.
  unfold num_ltb, SFltb. destruct x as [| [] | |[] m e]; try done; cbn; by rewrite Z.compare_refl, Pos.compare_refl.
Qed.

(** The two bounds, if there are two, are in order. *)
Definition ordered (s : spinner) : Prop :=
  match min s, max s with Some mn, Some mx => num_ltb mx mn = false | _, _ => True end.
Definition within (s : spinner) (v : number) : Prop := above_max s v = false /\ below_min s v = false.

Lemma clamp_within s v : ordered s -> within s (clamp s v).
Proof.
  unfold ordered, within, clamp, above_max, below_min. intros Ho.
  destruct (max s) as [mx|], (min s) as [mn|]; cbn.
  - destruct (num_ltb mx v) eqn:H1; cbn; [by rewrite num_ltb_irrefl|].
    destruct (num_ltb v mn) eqn:H2; cbn; [by rewrite num_ltb_irrefl|done].
  - destruct (num_ltb mx v) eqn:H1; cbn; [by rewrite num_ltb_irrefl|done].
  - destruct (num_ltb v mn) eqn:H2; cbn; [by rewrite num_ltb_irrefl|done].
  - done.
Qed.

Lemma adjusted_within s v w : ordered s -> adjustValue s v = Ok w -> within s w.
Proof.
  intros Ho. unfold adjustValue. destruct (precision s); [|done]. cbn. intros [= <-]. by apply clamp_within.
Qed.

Lemma nan_within s v : is_nan v = true -> within s v.
Proof.
  destruct v; try done. intros _. unfold within, above_max, below_min.
  split; [destruct (max s) as [[| | |]|]|destruct (min s) as [[| | |]|]]; done.
Qed.

Section Frame.
Context (to_text : number -> jstr) (of_text : jstr -> number) (allows : sp_event -> spinner -> bool).

Abbreviation step_of := (sp_step to_text of_text allows).

(** A relation of states kept by the pieces every operation is made of is kept
    by the operation. *)
Section Ops.
Context (R : spinner -> spinner -> Prop) `{Pre : !PreOrder R}.
Context (Hstart : keeps R (start allows)) (Hstop : keeps R (stop allows)).
Context (Hrepeat : forall steps s, spinning s = true -> R s (snd (repeat_ to_text of_text allows steps s))).
Context (Hspin : forall st, keeps R (spin to_text of_text allows st)).
Context (Hnumber : forall v, keeps R (set_number to_text of_text v)).
Context (Htext : forall t, keeps R (set_text to_text of_text t false)).
Context (Hrefresh : keeps R (refresh of_text)).
Context (Hchange : keeps R (trigger allows EChange)).
Context (Hdelay : forall j, (forall steps, j <> Again steps) -> keeps R (delay j)).
Context (Hclear : forall id : spinner -> option nat, keeps R (upd (fun s => clear (id s) s))).
Context (Hfocused : forall v s, R s (s <| focused := v |>)) (Hprevious : forall v s, R s (s <| previous := v |>)).
Context (Hcancel : forall v s, R s (s <| cancelBlur := v |>)).
Context (Hwheel : forall id s, R s (s <| mousewheelTimer := Some id |>)).

(** A computation whose result [true] says that the spinner spins. *)
Lemma start_spins s s' : start allows s = (Ok true, s') -> spinning s' = true.
Proof.
  unfold start. rewrite eff_bind_get. destruct (spinning s) eqn:Hs.
  - eff_cbn. by intros [= <-].
  - unfold trigger. eff_cbn. destruct (allows EStart s); cbn; by intros [= <-].
Qed.

Lemma keeps_started {A} (m : eff spinner A) (n : eff spinner A) :
  (forall s, spinning s = true -> R s (snd (m s))) -> keeps R n ->
  keeps R (go ← start allows; if (go : bool) then m else n).
Proof.
  intros Hm Hn s. pose proof (Hstart s) as H. unfold mbind, eff_bind.
  destruct (start allows s) as [[[]|e] s1] eqn:Hs; [| |exact H].
  - etrans; [exact H|]. apply Hm. by apply start_spins in Hs.
  - etrans; [exact H|apply Hn].
Qed.

Lemma keeps_sp_handler h : keeps R h -> keeps R (handler h).
Proof.
  intros Hh. unfold handler. apply (keeps_bind R); [apply keeps_get, _|]. intros s.
  destruct (sp_disabled s); [apply keeps_ret, _|exact Hh].
Qed.

Lemma keeps_modifier fn : keeps R fn -> keeps R (modifier of_text allows fn).
Proof.
  intros Hfn. unfold modifier. apply (keeps_bind R); [apply keeps_get, _|]. intros s.
  apply (keeps_bind R); [exact Hfn|]. intros _. apply (keeps_bind R); [exact Hrefresh|]. intros _.
  apply (keeps_bind R); [apply keeps_get, _|]. intros s'. destruct (bool_decide _); [apply keeps_ret, _|].
  apply (keeps_bind R); [exact Hchange|]. intros _. apply keeps_ret, _.
Qed.

Lemma keeps_stepping st : keeps R (go ← start allows; if (go : bool) then (s ← get; spin to_text of_text allows (st s)) ;; stop allows else mret tt).
Proof.
  apply keeps_started; [|apply keeps_ret, _]. intros s _. apply (keeps_use R).
  apply (keeps_bind R); [|intros _; exact Hstop]. apply (keeps_bind R); [apply keeps_get, _|]. intros s'. apply Hspin.
Qed.

Lemma keeps_step_up n : keeps R (_stepUp to_text of_text allows n).
Proof. exact (keeps_stepping (fun s => num_mul (or_one n) (or_zero (step s)))). Qed.
Lemma keeps_step_down n : keeps R (_stepDown to_text of_text allows n).
Proof. exact (keeps_stepping (fun s => num_mul (or_one n) (num_opp (or_zero (step s))))). Qed.

Lemma keeps_sp_keydown code : keeps R (on_keydown to_text of_text allows code).
Proof.
  apply keeps_started; [|apply keeps_ret, _]. intros s Hs. unfold keydown.
  assert (H : forall steps (b : bool), R s (snd ((repeat_ to_text of_text allows steps ;; mret b) s))).
  { intros steps b. pose proof (Hrepeat steps s Hs) as H. unfold mbind, eff_bind.
    by destruct (repeat_ _ _ _ steps s) as [[?|?] ?]. }
  assert (H' : forall m : eff spinner bool, R s (snd (m s)) -> R s (snd ((m ;; mret tt) s))).
  { intros m Hm. unfold mbind, eff_bind. by destruct (m s) as [[?|?] ?]. }
  apply H'. rewrite eff_bind_get. repeat case_match; first [apply H|reflexivity].
Qed.

Lemma keeps_sp_focus : keeps R give_focus.
Proof.
  apply (keeps_bind R); [intros s; apply Hfocused|]. intros _. apply keeps_sp_handler. intros s. apply (Hprevious (text s)).
Qed.

Lemma keeps_check prev : keeps R (checkFocus prev).
Proof.
  unfold checkFocus. apply (keeps_bind R); [apply keeps_get, _|]. intros s. destruct (focused s); [apply keeps_ret, _|].
  apply (keeps_bind R); [exact keeps_sp_focus|]. intros _. apply (keeps_bind R); [intros s'; apply Hprevious|]. intros _.
  apply (keeps_bind R); [by apply Hdelay|]. intros _. apply keeps_ret, _.
Qed.

Lemma keeps_sp_blur : keeps R (on_blur of_text allows).
Proof.
  unfold on_blur. apply (keeps_bind R); [apply keeps_get, _|]. intros s.
  destruct (cancelBlur s); [intros s'; apply Hcancel|].
  apply (keeps_bind R); [exact Hstop|]. intros _. apply (keeps_bind R); [exact Hrefresh|]. intros _.
  apply (keeps_bind R); [apply keeps_get, _|]. intros s'. destruct (bool_decide _); [apply keeps_ret, _|].
  apply (keeps_bind R); [exact Hchange|]. intros _. apply keeps_ret, _.
Qed.

Lemma keeps_wheel d : keeps R (on_wheel to_text of_text allows d).
Proof.
  unfold on_wheel. destruct (d =? 0); [apply keeps_ret, _|]. apply (keeps_bind R); [apply keeps_get, _|]. intros s.
  apply (keeps_bind R); [destruct (spinning s); [apply keeps_ret, _|exact Hstart]|]. intros go.
  destruct (negb go); [apply keeps_ret, _|].
  apply (keeps_bind R); [apply Hspin|]. intros _. apply (keeps_bind R); [apply Hclear|]. intros _.
  apply (keeps_bind R); [by apply Hdelay|]. intros id s'. apply Hwheel.
Qed.

Lemma keeps_button up : keeps R (on_button to_text of_text allows up).
Proof.
  unfold on_button. apply (keeps_bind R); [apply keeps_get, _|]. intros s. cbv zeta.
  apply (keeps_bind R); [apply keeps_check|]. intros _. apply (keeps_bind R); [intros s'; apply Hcancel|]. intros _.
  apply (keeps_bind R); [by apply Hdelay|]. intros _. apply keeps_started; [apply Hrepeat|apply keeps_ret, _].
Qed.

Lemma keeps_enter up a : keeps R (on_enter to_text of_text allows up a).
Proof.
  unfold on_enter. destruct (negb a); [apply keeps_ret, _|]. apply keeps_started; [apply Hrepeat|apply keeps_ret, _].
Qed.

Context (Hagain : forall id, keeps R (fire to_text of_text allows id)).

(** The steps that leave the options and do not type. *)
Definition plain (i : sp_input) : Prop := match i with Type_ _ | SetOptions _ => False | _ => True end.

Lemma keeps_sp_step i : plain i -> keeps R (step_of i).
Proof.
  intros Hi. destruct i as [code| |t| | |d|up| |up a| |id|n|n|n|n|v|t|os]; try done; cbn [sp_step].
  - apply keeps_sp_handler, keeps_sp_keydown.
  - by apply keeps_sp_handler.
  - apply keeps_sp_focus.
  - apply (keeps_bind R); [intros s; apply Hfocused|]. intros _. apply keeps_sp_handler, keeps_sp_blur.
  - apply keeps_sp_handler, keeps_wheel.
  - apply keeps_sp_handler, keeps_button.
  - by apply keeps_sp_handler.
  - apply keeps_sp_handler, keeps_enter.
  - by apply keeps_sp_handler.
  - apply Hagain.
  - apply keeps_modifier, keeps_step_up.
  - apply keeps_modifier, keeps_step_down.
  - apply keeps_modifier, (keeps_bind R); [apply keeps_get, _|]. intros s. apply keeps_step_up.
  - apply keeps_modifier, (keeps_bind R); [apply keeps_get, _|]. intros s. apply keeps_step_down.
  - apply keeps_modifier, Hnumber.
  - apply keeps_modifier, Htext.
Qed.
End Ops.
End Frame.

(** ** What is written lies between the bounds *)

Section Bounds.
Context (to_text : number -> jstr) (of_text : jstr -> number) (allows : sp_event -> spinner -> bool).

(** A text the spinner writes: that of a number between the bounds, unless it
    was asked to write one that is no number. *)
Definition written (s : spinner) (t : jstr) : Prop :=
  parse_text of_text t = None \/ exists v, t = to_text v /\ within s v.
Definition bounded (s s' : spinner) : Prop :=
  ordered s -> min s' = min s /\ max s' = max s /\ (text s' = text s \/ written s (text s')).

Lemma within_eq s s' v : min s' = min s -> max s' = max s -> within s' v -> within s v.
Proof. unfold within, above_max, below_min. by intros -> ->. Qed.

#[local] Instance bounded_preorder : PreOrder bounded.
Proof.
  split; [intros s _; by split_and!; [..|left]|]. intros s1 s2 s3 H1 H2 Ho.
  destruct (H1 Ho) as (Hmn & Hmx & Ht). assert (Ho2 : ordered s2) by (unfold ordered; by rewrite Hmn, Hmx).
  destruct (H2 Ho2) as (Hmn' & Hmx' & Ht'). split_and!; [congruence..|].
  destruct Ht' as [Ht'|[Hn|(v & Hv & Hw)]].
  - rewrite Ht'. exact Ht.
  - by right; left.
  - right. right. exists v. split; [done|]. by eapply within_eq.
Qed.

Lemma bounded_same s s' : min s' = min s -> max s' = max s -> text s' = text s -> bounded s s'.
Proof. intros H1 H2 H3 _. split_and!; [done..|by left]. Qed.

Lemma bounded_text s t : (ordered s -> written s t) -> bounded s (s <| text := t |>).
Proof. intros H Ho. split_and!; [done..|]. right. by apply H. Qed.

Ltac same := intros; apply bounded_same; reflexivity.
Ltac bd_step :=
  match goal with
  | |- forall _, _ => intro
  | |- keeps _ (let _ := _ in _) => cbv zeta
  | |- keeps _ get => apply keeps_get, _
  | |- keeps _ (trigger _ _) => unfold trigger
  | |- keeps _ (delay _) => unfold delay
  | |- keeps _ (refresh _) => unfold refresh
  | |- keeps _ (upd _) => intros ?s; apply bounded_same; reflexivity
  | |- keeps _ (_ ≫= _) => apply (keeps_bind bounded)
  | |- keeps _ (mret _) => apply keeps_ret, _
  | |- keeps _ (lift _) => apply keeps_lift, _
  | |- keeps _ (match ?x with _ => _ end) => destruct x
  end.
Ltac bd := repeat bd_step.

Lemma bounded_refresh : keeps bounded (refresh of_text).
Proof. bd. Qed.

Lemma bounded_write s t : (ordered s -> written s t) ->
  bounded s (snd ((upd (fun s => s <| text := t |>) ;; refresh of_text) s)).
Proof.
  intros H. change (bounded s (snd (refresh of_text (s <| text := t |>)))). transitivity (s <| text := t |>); [by apply bounded_text|apply bounded_refresh].
Qed.

Lemma bounded_number v : keeps bounded (set_number to_text of_text v).
Proof.
  intros s. unfold set_number. rewrite eff_bind_get.
  assert (H : forall w, (ordered s -> within s w) ->
    bounded s (snd ((upd (fun s => s <| text := to_text w |>) ;; refresh of_text) s))).
  { intros w Hw. apply bounded_write. intros Ho. right. exists w. split; [done|]. by apply Hw. }
  unfold parse_number. destruct (is_nan v) eqn:Hn.
  - unfold mbind at 1, eff_bind at 1. cbn [mret eff_ret]. apply H. intros _. by apply nan_within.
  - unfold mbind at 1, eff_bind at 1. unfold lift. destruct (adjustValue s v) as [w|e] eqn:Ha; [|reflexivity].
    apply H. intros Ho. by eapply adjusted_within.
Qed.

Lemma bounded_set_text t : keeps bounded (set_text to_text of_text t false).
Proof.
  intros s. unfold set_text. rewrite eff_bind_get.
  destruct (parse_text of_text t) as [p|] eqn:Hp.
  - unfold mbind at 1 2, eff_bind at 1 2. unfold lift. destruct (adjustValue s p) as [w|e] eqn:Ha; [|reflexivity].
    apply bounded_write. intros Ho. right. exists w. split; [done|]. by eapply adjusted_within.
  - unfold mbind at 1, eff_bind at 1. cbn [mret eff_ret]. apply bounded_write. by left.
Qed.

Lemma bounded_spin st : keeps bounded (spin to_text of_text allows st).
Proof.
  unfold spin. repeat (bd_step || apply bounded_number).
Qed.
Lemma bounded_start : keeps bounded (start allows).
Proof. unfold start. bd. Qed.
Lemma bounded_stop : keeps bounded (stop allows).
Proof. unfold stop. bd. Qed.
Lemma bounded_repeat steps : keeps bounded (repeat_ to_text of_text allows steps).
Proof. unfold repeat_. repeat (bd_step || apply bounded_spin). Qed.

Lemma bounded_check prev : keeps bounded (checkFocus prev).
Proof. unfold checkFocus, give_focus, handler, on_focus. bd. Qed.

Lemma bounded_fire id : keeps bounded (fire to_text of_text allows id).
Proof.
  unfold fire. apply (keeps_bind bounded); [apply keeps_get, _|]. intros s.
  destruct (list_find _ _) as [[? [? j]]|]; [|apply keeps_ret, _].
  apply (keeps_bind bounded); [bd|]. intros _. destruct j; cbn [run_job].
  - apply bounded_repeat.
  - repeat (bd_step || apply bounded_stop).
  - repeat (bd_step || apply bounded_check).
  - bd.
Qed.

Lemma bounded_step i : plain i -> keeps bounded (sp_step to_text of_text allows i).
Proof.
  apply keeps_sp_step; first
    [ exact _ | exact bounded_start | exact bounded_stop | exact bounded_spin | exact bounded_number
    | exact bounded_set_text | exact bounded_refresh | exact bounded_fire
    | intros steps s _; apply bounded_repeat | by intros; bd | same ].
Qed.
End Bounds.

(** ** Turns: a start, spins, a stop *)

Section Turns.
Context (to_text : number -> jstr) (of_text : jstr -> number) (allows : sp_event -> spinner -> bool).

(** Whether a turn may be open after an event, if the event may happen: a spin
    and a stop only after a start, with no stop in between. *)
Definition turn (opened : bool) (e : sp_event) : option bool :=
  match e with
  | EStart => Some true
  | ESpin _ => if opened then Some true else None
  | EStop => if opened then Some false else None
  | EChange => Some opened
  end.
Definition turns (l : list sp_event) : option bool := foldl (fun o e => o ≫= fun b => turn b e) (Some false) l.

Lemma turns_snoc l e : turns (l ++ [e]) = turns l ≫= fun b => turn b e.
Proof. unfold turns. by rewrite foldl_app. Qed.

(** The log is made of turns, one is open while the widget spins, and the only
    timer that spins again is the current one, while the widget spins. *)
Definition turn_ok (s : spinner) : Prop :=
  (exists b, turns (log s) = Some b /\ (spinning s = true -> b = true)) /\
  (forall id steps, (id, Again steps) ∈ timers s -> timer s = Some id /\ spinning s = true).

Definition turning (s s' : spinner) : Prop := turn_ok s -> turn_ok s'.
#[local] Instance turning_preorder : PreOrder turning.
Proof. split; [by intros s H|intros s1 s2 s3 H1 H2 H; by apply H2, H1]. Qed.

Lemma turn_same s s' :
  log s' = log s -> spinning s' = spinning s -> timer s' = timer s -> timers s' = timers s -> turning s s'.
Proof. intros H1 H2 H3 H4. unfold turning, turn_ok. by rewrite H1, H2, H3, H4. Qed.

Lemma elem_of_clear o s p : p ∈ timers (clear o s) <-> p ∈ timers s /\ Some p.1 <> o.
Proof.
  unfold clear. cbn. rewrite list_elem_of_In, filter_In, <- list_elem_of_In. cbn.
  by rewrite negb_true_iff, bool_decide_eq_false.
Qed.

Lemma turn_clear o : keeps turning (upd (clear o)).
Proof.
  intros s [Hl Ht]. split; [exact Hl|]. intros id steps Hin. 
  apply (elem_of_clear o s (id, Again steps)) in Hin as [Hin _]. exact (Ht _ _ Hin).
Qed.

Lemma turn_delay j : (forall steps, j <> Again steps) -> keeps turning (delay j).
Proof.
  intros Hj s [Hl Ht]. split; [exact Hl|]. intros id steps.
  change (timers _) with (timers s ++ [(next_timer s, j)]). rewrite elem_of_app, list_elem_of_singleton.
  intros [Hin|[= -> <-]]; [exact (Ht _ _ Hin)|]. by destruct (Hj steps).
Qed.

Lemma turn_trigger e s b :
  turns (log s) = Some b -> (spinning s = true -> b = true) -> turn_ok s ->
  (forall b', turn b e = Some b' -> spinning s = true -> b' = true) -> is_Some (turn b e) ->
  turn_ok (snd (trigger allows e s)).
Proof.
  intros Hb Hs [_ Ht] Hb' [b' Hturn]. split; [|exact Ht]. exists b'.
  change (turns (log s ++ [e]) = Some b' /\ (spinning s = true -> b' = true)). rewrite turns_snoc, Hb. eauto.
Qed.

Lemma turn_start : keeps turning (start allows).
Proof.
  intros s [(b & Hb & Hs) Ht]. unfold start. rewrite eff_bind_get. destruct (spinning s) eqn:Hsp; unfold trigger, upd; eff_cbn.
  - split; [by exists b|]. intros id steps Hin. split; [|done]. by eapply Ht.
  - assert (H : forall c, turn_ok (s <| log := log s ++ [EStart] |> <| counter := c |> <| spinning := true |>)).
    { intros c. split; [exists true; split; [|done]; cbn; by rewrite turns_snoc, Hb|].
      intros id steps Hin. by destruct (Ht _ _ Hin). }
    destruct (allows EStart s); cbn; [apply H|]. split; [|intros id steps Hin; by destruct (Ht _ _ Hin)].
    exists true. split; [|done]. cbn. by rewrite turns_snoc, Hb.
Qed.

(** Nothing spins again once the current timer is cleared. *)
Lemma clear_timer s id steps : turn_ok s -> (id, Again steps) ∉ timers (clear (timer s) s).
Proof. intros [_ Ht] [Hin Hne]%elem_of_clear. apply Ht in Hin as [Hin _]. by rewrite Hin in Hne. Qed.

Lemma turn_stop : keeps turning (stop allows).
Proof.
  intros s H. pose proof H as [(b & Hb & Hs) Ht]. unfold stop. rewrite eff_bind_get.
  destruct (spinning s) eqn:Hsp; [|exact H]. rewrite Hs in Hb by done. cbn [negb].
  unfold upd, trigger. rewrite !eff_bind_modify. eff_cbn. split.
  - exists false. cbn. by rewrite turns_snoc, Hb.
  - intros id steps Hin. exfalso. apply (clear_timer s id steps H).
    by apply (elem_of_clear (mousewheelTimer s) (clear (timer s) s) (id, Again steps)) in Hin as [Hin _].
Qed.

Ltac turn_step :=
  match goal with
  | |- forall _, _ => intro
  | |- keeps _ (let _ := _ in _) => cbv zeta
  | |- keeps _ get => apply keeps_get, _
  | |- keeps _ (delay _) => by apply turn_delay
  | |- keeps _ (refresh _) => unfold refresh
  | |- keeps _ (start _) => apply turn_start
  | |- keeps _ (stop _) => apply turn_stop
  | |- keeps _ (upd (fun s => clear (Some _) s)) => apply turn_clear
  | |- keeps _ (upd (clear _)) => apply turn_clear
  | |- keeps _ (upd _) => intros ?s; apply turn_same; reflexivity
  | |- keeps _ (_ ≫= _) => apply (keeps_bind turning)
  | |- keeps _ (mret _) => apply keeps_ret, _
  | |- keeps _ (lift _) => apply keeps_lift, _
  | |- keeps _ (match ?x with _ => _ end) => destruct x
  end.
Ltac turn_all := repeat turn_step.

Lemma turn_number v : keeps turning (set_number to_text of_text v).
Proof. unfold set_number. turn_all. Qed.
Lemma turn_text t allow : keeps turning (set_text to_text of_text t allow).
Proof. unfold set_text. turn_all. Qed.

Lemma turn_change : keeps turning (trigger allows EChange).
Proof.
  intros s H. pose proof H as [(b & Hb & Hs) Ht]. apply (turn_trigger _ _ b); try done. by intros ? [= <-].
Qed.

Lemma turn_spun v s : spinning s = true -> turning s (snd (trigger allows (ESpin v) s)).
Proof.
  intros Hsp H. pose proof H as [(b & Hb & Hs) Ht]. pose proof (Hs Hsp) as ->.
  apply (turn_trigger _ _ true); try done. by intros ? [= <-].
Qed.

Lemma turn_spin st : keeps turning (spin to_text of_text allows st).
Proof.
  unfold spin. apply (keeps_bind turning); [turn_all|]. intros s0. cbv zeta. apply (keeps_bind turning); [turn_all|].
  intros []. set (v := match value of_text s0 with Some v => _ | None => _ end). clearbody v. intros s.
  rewrite eff_bind_get. unfold mbind at 1, eff_bind at 1. unfold lift at 1.
  destruct (adjustValue s _) as [w|e]; [|reflexivity].
  assert (Hk : forall go : bool, keeps turning (if go then set_number to_text of_text w ;; upd (fun s => s <| counter := counter s + 1 |>) else mret tt)).
  { intros []; turn_all. apply turn_number. }
  destruct (spinning s) eqn:Hsp; [|apply (Hk true)].
  pose proof (turn_spun w s Hsp) as H. unfold mbind at 1, eff_bind at 1.
  destruct (trigger allows (ESpin w) s) as [[go|e] s1]; [|exact H]. etrans; [exact H|apply Hk].
Qed.

(** The state in which [repeat_] spins. *)
Definition armed (steps : number) (s : spinner) : spinner :=
  (clear (timer s) s) <| timers := timers (clear (timer s) s) ++ [(next_timer s, Again steps)] |>
    <| next_timer := S (next_timer s) |> <| timer := Some (next_timer s) |>.
Lemma repeat_armed steps s :
  repeat_ to_text of_text allows steps s
  = spin to_text of_text allows (num_mul steps (or_zero (step s))) (armed steps s).
Proof. reflexivity. Qed.

Lemma turn_repeat steps s : spinning s = true -> turning s (snd (repeat_ to_text of_text allows steps s)).
Proof.
  intros Hsp H. rewrite repeat_armed. apply (keeps_use turning); [apply turn_spin|].
  split; [exact (proj1 H)|]. intros id steps'.
  change (timers (armed _ _)) with (timers (clear (timer s) s) ++ [(next_timer s, Again steps)]).
  rewrite elem_of_app, list_elem_of_singleton. intros [Hin|[= -> <-]]; [|done].
  by destruct (clear_timer s id steps' H).
Qed.

Lemma turn_fire id : keeps turning (fire to_text of_text allows id).
Proof.
  intros s H. unfold fire. rewrite eff_bind_get.
  destruct (list_find _ _) as [[i [id' j]]|] eqn:Hf; [|exact H].
  apply list_find_Some in Hf as (Hin & _ & _). apply list_elem_of_lookup_2 in Hin.
  unfold upd. rewrite eff_bind_modify. pose proof (turn_clear (Some id) s H) as Hc.
  revert Hc. generalize (eq_refl (spinning s)). change (spinning s) with (spinning (snd (upd (clear (Some id)) s))) at 1.
  change (clear (Some id) s) with (snd (upd (clear (Some id)) s)).
  generalize (snd (upd (clear (Some id)) s)). intros s' Hsp Hc. destruct j; cbn [run_job].
  - apply turn_repeat; [|done]. rewrite Hsp. by apply (proj2 H) in Hin as [].
  - revert Hc. apply (keeps_use turning). turn_all.
  - revert Hc. apply (keeps_use turning). unfold checkFocus, give_focus, handler, on_focus. turn_all.
  - revert Hc. apply (keeps_use turning). turn_all.
Qed.

Lemma turn_option o : keeps turning (setOption to_text of_text o).
Proof. destruct o; cbn [setOption]; turn_all. Qed.

Lemma turn_step i : keeps turning (sp_step to_text of_text allows i).
Proof.
  assert (H : plain i -> keeps turning (sp_step to_text of_text allows i)).
  { apply keeps_sp_step; first
      [ exact _ | exact turn_start | exact turn_stop | exact turn_spin | exact turn_number | exact turn_change
      | refine (fun t => turn_text t false) | exact turn_repeat | exact turn_fire | exact turn_delay
      | by intros; turn_all | by intros; apply turn_same | by intros; intros s; apply turn_clear ]. }
  destruct i; try by apply H.
  - cbn [sp_step]. turn_all.
  - cbn [sp_step]. unfold setOptions. apply keeps_modifier; [exact _|turn_all|exact turn_change|].
    apply (keeps_for_each turning). intros o. apply turn_option.
Qed.

(** A widget that was created and then used in any way. *)
Definition reachable (s : spinner) : Prop :=
  exists t mn mx st pg inc inputs,
    s = sp_run to_text of_text allows inputs (create_spinner to_text of_text t mn mx st pg inc).

Lemma turn_create t mn mx st pg inc : turn_ok (create_spinner to_text of_text t mn mx st pg inc).
Proof.
  unfold create_spinner. apply (keeps_use turning).
  - apply (keeps_bind turning); [apply turn_text|intros []; turn_all].
  - split; [by exists false|]. cbn. by intros id steps ?%not_elem_of_nil.
Qed.

Lemma reachable_turns s : reachable s -> turn_ok s.
Proof.
  intros (t & mn & mx & st & pg & inc & inputs & ->). generalize (turn_create t mn mx st pg inc).
  generalize (create_spinner to_text of_text t mn mx st pg inc). induction inputs as [|i inputs IH]; intros s H; [done|].
  cbn. apply IH. by apply (turn_step i s).
Qed.

(** ** After a stop *)

(** What the timers do without a turn: nothing is spun or triggered. *)
Definition still (s s' : spinner) : Prop := spinning s' = spinning s /\ text s' = text s /\ log s' = log s.
#[local] Instance still_preorder : PreOrder still.
Proof. split; [by intros s|]. intros s1 s2 s3 (?&?&?) (?&?&?). split_and!; congruence. Qed.

Lemma fire_still id s : turn_ok s -> spinning s = false -> still s (snd (fire to_text of_text allows id s)).
Proof.
  intros H Hsp. unfold fire. rewrite eff_bind_get.
  destruct (list_find _ _) as [[i [id' j]]|] eqn:Hf; [|done].
  apply list_find_Some in Hf as (Hin & _ & _). apply list_elem_of_lookup_2 in Hin.
  unfold upd. rewrite eff_bind_modify. transitivity (clear (Some id) s); [done|].
  destruct j; cbn [run_job].
  - apply (proj2 H) in Hin as [_ Hs]. congruence.
  - rewrite eff_bind_get. change (spinning (clear _ s)) with (spinning s). by rewrite Hsp.
  - unfold checkFocus, give_focus, handler, on_focus. generalize (clear (Some id) s). intros s'.
    eff_cbn. destruct (focused s'); [done|]. by destruct (sp_disabled s').
  - done.
Qed.

Lemma fires_still ids s : turn_ok s -> spinning s = false -> still s (sp_run to_text of_text allows (map Fire ids) s).
Proof.
  revert s. induction ids as [|id ids IH]; intros s H Hsp; [done|]. cbn.
  pose proof (fire_still id s H Hsp) as Hst. etrans; [exact Hst|]. apply IH; [by apply turn_fire|].
  by rewrite (proj1 Hst).
Qed.

Lemma stop_stops s : spinning (snd (stop allows s)) = false /\ text (snd (stop allows s)) = text s.
Proof.
  unfold stop. rewrite eff_bind_get. destruct (spinning s) eqn:H; [|done]. by unfold trigger, upd; eff_cbn.
Qed.
End Turns.

(** ** Steps on a grid of integers *)

Lemma num_div_whole q y : 0 < y -> safe y -> safe q -> safe (q * y) ->
  num_div (num_of_Z (q * y)) (num_of_Z y) = num_of_Z q.
Proof.
  intros Hy Hsy Hsq Hsx. destruct (Z.le_gt_cases 0 q); [by apply num_div_exact|].
  replace (q * y) with (- (- q * y)) by lia. rewrite num_div_opp by (unfold safe in *; nia).
  rewrite num_div_exact by (unfold safe in *; lia). rewrite num_opp_Z by (unfold safe in *; lia). f_equal. lia.
Qed.

Lemma num_round_Z z : safe z -> num_round (num_of_Z z) = num_of_Z z.
Proof.
  intros Hs. destruct (Z.eq_dec z 0) as [->|Hz]; [done|].
  destruct (safe_repr z Hs Hz) as (M & E & HzE & Hb & _ & HE & HM). rewrite HzE. cbn [num_round].
  destruct (Z.leb_spec 0 E); [done|]. rewrite <- HzE. assert (0 < 2 ^ (- E)) by (apply Z.pow_pos_nonneg; lia).
  assert ((2 * cond_Zopp (z <? 0) (Zpos M) + 2 ^ (- E)) / (2 * 2 ^ (- E)) = z) as ->.
  { symmetry. apply Z.div_unique with (2 ^ (- E)); [lia|]. rewrite HM. destruct (Z.ltb_spec z 0); cbn [cond_Zopp]; nia. }
  unfold num_of_Z. by destruct z.
Qed.

(** The bounds and the step are integers. *)
Record integer_grid (s : spinner) (mn mx : option Z) (st : Z) : Prop := {
  grid_min : min s = num_of_Z <$> mn;
  grid_max : max s = num_of_Z <$> mx;
  grid_step : step s = Some (num_of_Z st);
  grid_pos : 0 < st;
  grid_range : st < 2 ^ 50 /\ Z.abs (default 0 mn) < 2 ^ 50 /\ Z.abs (default 0 mx) < 2 ^ 50;
}.
Definition clampZ (mn mx : option Z) (v : Z) : Z :=
  match mx with
  | Some m => if m <? v then m else match mn with Some m => Z.max m v | None => v end
  | None => match mn with Some m => Z.max m v | None => v end
  end.

Lemma adjust_on_grid s mn mx st v :
  integer_grid s mn mx st -> (st | v - default 0 mn) -> Z.abs v < 2 ^ 50 ->
  adjustValue s (num_of_Z v) = Ok (num_of_Z (clampZ mn mx v)).
Proof.
  intros [Hmn Hmx Hst Hpos (Hb1 & Hb2 & Hb3)] [q Hq] Hv.
  assert (Hbase : or_zero (min s) = num_of_Z (default 0 mn)) by (rewrite Hmn; by destruct mn).
  unfold adjustValue. rewrite Hbase, Hst. cbn [or_zero default]. unfold or_zero. cbn [default from_option id].
  assert (safe st /\ safe v /\ safe (default 0 mn) /\ safe (q * st)) as (?&?&?&?) by (unfold safe; lia).
  assert (safe q) by (unfold safe in *; nia).
  assert (q * st <> 0 \/ 0 <= q /\ 0 <= st) by nia.
  rewrite num_sub_Z by (done || rewrite Hq; done). rewrite Hq, num_div_whole, num_round_Z, num_mul_Z by done.
  rewrite num_add_Z by (unfold safe in *; lia). replace (default 0 mn + q * st) with v by lia.
  assert (precision s = Ok 0) as ->.
  { unfold precision. rewrite Hst, Hmn. destruct mn; cbn in *; by rewrite !decimals_Z. }
  cbn. rewrite parse_fixed_Z by (lia || done). unfold mret, result_ret. f_equal.
  unfold clamp, above_max, below_min, clampZ. rewrite Hmn, Hmx.
  destruct mx as [hi|], mn as [lo|]; cbn in *; try done.
  - rewrite num_ltb_Z by (unfold safe; lia). destruct (hi <? v); [done|]. rewrite num_ltb_Z by (unfold safe; lia).
    destruct (Z.ltb_spec v lo); cbn; f_equal; lia.
  - rewrite num_ltb_Z by (unfold safe; lia). by destruct (hi <? v).
  - rewrite num_ltb_Z by (unfold safe; lia). destruct (Z.ltb_spec v lo); cbn; f_equal; lia.
Qed.

Lemma clampZ_grid mn mx st v :
  0 < st -> (forall m, mx = Some m -> (st | m - default 0 mn)) -> (st | v - default 0 mn) ->
  (forall m m', mn = Some m -> mx = Some m' -> m <= m') ->
  (st | clampZ mn mx v - default 0 mn) /\ clampZ mn mx (clampZ mn mx v) = clampZ mn mx v.
Proof.
  intros Hst Hmx Hv Hle. unfold clampZ. destruct mx as [hi|], mn as [lo|]; cbn in *.
  - specialize (Hle _ _ eq_refl eq_refl). specialize (Hmx _ eq_refl).
    destruct (Z.ltb_spec hi v); [by rewrite Z.ltb_irrefl, Z.max_r by lia|].
    destruct (Z.ltb_spec hi (Z.max lo v)); [lia|]. split; [|lia].
    destruct (Z.max_spec lo v) as [[? ->]|[? ->]]; [done|]. rewrite Z.sub_diag. apply Z.divide_0_r.
  - specialize (Hmx _ eq_refl). destruct (Z.ltb_spec hi v); [by rewrite Z.ltb_irrefl|].
    split; [done|]. by destruct (Z.ltb_spec hi v); [lia|].
  - split; [|lia]. destruct (Z.max_spec lo v) as [[? ->]|[? ->]]; [done|]. rewrite Z.sub_diag. apply Z.divide_0_r.
  - done.
Qed.

Section Steps.
Context (to_text : number -> jstr) (of_text : jstr -> number) (allows : sp_event -> spinner -> bool).
Context (Hallows : forall e s, allows e s = true).

(** A turn of one spin by [k] steps, from a value on the grid. *)
Record on_grid (s : spinner) (mn mx : option Z) (st v : Z) : Prop := {
  og_grid : integer_grid s mn mx st;
  og_value : value of_text s = Some (num_of_Z v);
  og_divides : (st | v - default 0 mn);
  og_max : forall m, mx = Some m -> (st | m - default 0 mn);
  og_order : forall m m', mn = Some m -> mx = Some m' -> m <= m';
  og_plain : match incremental s with Custom _ => False | _ => True end;
  og_idle : spinning s = false /\ counter s = 0;
}.

Lemma first_increment s : match incremental s with Custom _ => False | _ => True end -> increment s 1 = one.
Proof. unfold increment. destruct (incremental s); [by vm_compute|done|done]. Qed.

Lemma start_idle s : spinning s = false -> counter s = 0 ->
  start allows s = (Ok true, s <| log := log s ++ [EStart] |> <| counter := 1 |> <| spinning := true |>).
Proof.
  intros H1 H2. unfold start. rewrite eff_bind_get, H1. unfold trigger, upd. eff_cbn. rewrite Hallows. cbn.
  by rewrite H2.
Qed.

Definition refreshed (s : spinner) : spinner :=
  s <| aria_min := min s |> <| aria_max := max s |> <| aria_now := value of_text s |>.

Lemma grid_same s s' mn mx st :
  integer_grid s mn mx st -> min s' = min s -> max s' = max s -> step s' = step s -> integer_grid s' mn mx st.
Proof. intros [] H1 H2 H3. by constructor; rewrite ?H1, ?H2, ?H3. Qed.

Lemma number_on_grid s mn mx st w :
  integer_grid s mn mx st -> (st | w - default 0 mn) -> clampZ mn mx w = w -> Z.abs w < 2 ^ 50 ->
  set_number to_text of_text (num_of_Z w) s = (Ok tt, refreshed (s <| text := to_text (num_of_Z w) |>)).
Proof.
  intros Hg Hd Hc Hw. unfold set_number. rewrite eff_bind_get. unfold parse_number.
  rewrite not_nan_Z by (unfold safe; lia). rewrite (adjust_on_grid s mn mx st) by done. rewrite Hc. reflexivity.
Qed.

Lemma clampZ_range s mn mx st v : integer_grid s mn mx st -> Z.abs v < 2 ^ 50 -> Z.abs (clampZ mn mx v) < 2 ^ 50.
Proof.
  intros [_ _ _ _ (_ & H1 & H2)] Hv. unfold clampZ. destruct mx, mn; cbn in *; try case_match; lia.
Qed.

Lemma spin_on_grid s mn mx st v k :
  integer_grid s mn mx st -> value of_text s = Some (num_of_Z v) -> (st | v - default 0 mn) ->
  (forall m, mx = Some m -> (st | m - default 0 mn)) -> (forall m m', mn = Some m -> mx = Some m' -> m <= m') ->
  match incremental s with Custom _ => False | _ => True end -> counter s = 1 -> spinning s = true ->
  k <> 0 -> Z.abs (k * st) < 2 ^ 49 -> Z.abs v < 2 ^ 49 ->
  let w := num_of_Z (clampZ mn mx (v + k * st)) in
  spin to_text of_text allows (num_of_Z (k * st)) s
  = (Ok tt, refreshed (s <| counter := 1 |> <| log := log s ++ [ESpin w] |> <| text := to_text w |>) <| counter := 2 |>).
Proof.
  intros Hg Hv Hd Hmx Hle Hinc Hc Hsp Hk Hks Hvr w. pose proof (grid_pos _ _ _ _ Hg).
  assert (Hd' : (st | v + k * st - default 0 mn)).
  { replace (v + k * st - default 0 mn) with (v - default 0 mn + k * st) by lia.
    apply Z.divide_add_r; [done|apply Z.divide_factor_r]. }
  assert (Hr : Z.abs (v + k * st) < 2 ^ 50) by lia.
  destruct (clampZ_grid mn mx st (v + k * st)) as [Hdw Hcw]; [done..|].
  pose proof (clampZ_range s mn mx st _ Hg Hr) as Hrw. fold w.
  unfold spin. rewrite eff_bind_get, Hv. unfold upd. rewrite eff_bind_modify, eff_bind_get, Hc. cbn [Z.eqb].
  set (s1 := s <| counter := 1 |>). change (increment s1 (counter s1)) with (increment s 1).
  rewrite first_increment by done.
  replace (if is_falsy (num_of_Z v) then zero else num_of_Z v) with (num_of_Z v).
  2:{ unfold is_falsy. rewrite not_nan_Z by (unfold safe; lia). change zero with (num_of_Z 0).
      rewrite num_eqb_Z by (unfold safe; lia). cbn. by destruct (Z.eqb_spec v 0) as [->|]. }
  change one with (num_of_Z 1).
  rewrite (num_mul_Z (k * st) 1) by (unfold safe; nia). rewrite num_add_Z, Z.mul_1_r by (unfold safe; lia).
  assert (Hg1 : integer_grid s1 mn mx st) by (by apply (grid_same s)).
  rewrite (adjust_on_grid s1 mn mx st) by done. fold w.
  change (spinning s1) with (spinning s). rewrite Hsp. unfold lift. unfold mbind at 1, eff_bind at 1.
  rewrite (eff_bind_ok _ _ _ true (s1 <| log := log s ++ [ESpin w] |>)).
  2:{ unfold trigger, upd. eff_cbn. by rewrite Hallows. }
  rewrite (eff_bind_ok _ _ _ tt (refreshed (s1 <| log := log s ++ [ESpin w] |> <| text := to_text w |>))); [reflexivity|].
  apply (number_on_grid _ mn mx st); [by apply (grid_same s)|done..].
Qed.

Lemma stop_spinning s : spinning s = true ->
  let s' := clear (mousewheelTimer s) (clear (timer s) s) in
  stop allows s = (Ok tt, s' <| counter := 0 |> <| spinning := false |> <| log := log s ++ [EStop] |>).
Proof. intros H. unfold stop. rewrite eff_bind_get, H. by unfold trigger, upd; eff_cbn. Qed.

(** What one turn of [k] steps from the value [v] leaves. *)
Definition stepped (mn mx : option Z) (st v k : Z) (s s' : spinner) : Prop :=
  let w := num_of_Z (clampZ mn mx (v + k * st)) in
  text s' = to_text w /\ spinning s' = false /\ counter s' = 0 /\
  min s' = min s /\ max s' = max s /\ step s' = step s /\ incremental s' = incremental s /\
  log s' = log s ++ [EStart; ESpin w; EStop] ++ (if bool_decide (text s = to_text w) then [] else [EChange]).

Lemma one_turn (by_ : spinner -> number) s mn mx st v k :
  on_grid s mn mx st v -> (forall s', step s' = step s -> by_ s' = num_of_Z (k * st)) ->
  k <> 0 -> Z.abs (k * st) < 2 ^ 49 -> Z.abs v < 2 ^ 49 ->
  stepped mn mx st v k s (snd (modifier of_text allows
    (go ← start allows; if (go : bool) then s ← get; spin to_text of_text allows (by_ s) ;; stop allows else mret tt) s)).
Proof.
  intros [Hg Hv Hd Hmx Hle Hinc [Hsp Hc]] Hby Hk Hks Hvr. unfold stepped. set (w := num_of_Z (clampZ _ _ _)).
  unfold modifier. rewrite eff_bind_get.
  set (s1 := s <| log := log s ++ [EStart] |> <| counter := 1 |> <| spinning := true |>).
  set (s2 := refreshed (s1 <| counter := 1 |> <| log := log s1 ++ [ESpin w] |> <| text := to_text w |>) <| counter := 2 |>).
  set (s3 := snd (stop allows s2)).
  assert (Hs3 : stop allows s2 = (Ok tt, s3)) by (unfold s3; by rewrite stop_spinning by done).
  assert (H3 : text s3 = to_text w /\ spinning s3 = false /\ counter s3 = 0 /\ min s3 = min s /\ max s3 = max s /\
    step s3 = step s /\ incremental s3 = incremental s /\ log s3 = log s ++ [EStart; ESpin w; EStop]).
  { unfold s3. rewrite stop_spinning by done. split_and!; try done. cbn. by rewrite <- !app_assoc. }
  clearbody s3. destruct H3 as (Ht & H1 & H2 & H3 & H4 & H5 & H6 & Hl).
  rewrite (eff_bind_ok _ _ _ tt s3).
  - rewrite (eff_bind_ok _ _ _ tt (refreshed s3)) by done.
    rewrite eff_bind_get. change (text (refreshed s3)) with (text s3). rewrite Ht.
    destruct (bool_decide (text s = to_text w)).
    + by split_and!.
    + split_and!; try done. unfold trigger, upd. eff_cbn. by rewrite Hl, <- app_assoc.
  - rewrite (eff_bind_ok _ _ _ true s1) by (by apply start_idle). rewrite eff_bind_get, Hby by done.
    rewrite (eff_bind_ok _ _ _ tt s2); [done|].
    apply (spin_on_grid s1 mn mx st v k); try done. by apply (grid_same s).
Qed.

(** C21. On a grid of integers, where nothing vetoes, [stepUp] and [stepDown]
    move the value by exactly the steps asked for, up to the bounds, write it,
    and report one turn: a start, the spin to the new value, a stop, and a change
    exactly if the text is another. *)
Theorem steps_exact s mn mx st v n :
  on_grid s mn mx st v -> n <> 0 -> Z.abs (n * st) < 2 ^ 49 -> Z.abs v < 2 ^ 49 ->
  stepped mn mx st v n s (snd (stepUp to_text of_text allows (Some (num_of_Z n)) s)) /\
  stepped mn mx st v (- n) s (snd (stepDown to_text of_text allows (Some (num_of_Z n)) s)).
Proof.
  intros Hg Hn Hns Hv. pose proof (og_grid _ _ _ _ _ Hg) as Hi. pose proof (grid_pos _ _ _ _ Hi) as Hst.
  pose proof (grid_range _ _ _ _ Hi) as (Hst' & _ & _). assert (safe n /\ safe st) as [Hsn Hss] by (unfold safe; nia).
  assert (Hor : or_one (Some (num_of_Z n)) = num_of_Z n).
  { unfold or_one, is_falsy. rewrite not_nan_Z by done. change zero with (num_of_Z 0). rewrite num_eqb_Z by done.
    by destruct (Z.eqb_spec n 0). }
  assert (safe (n * st) /\ n * st <> 0) as [Hsp Hne] by (unfold safe; nia).
  split; (eapply one_turn; [exact Hg| |nia..]); intros s' Hs';
    cbn beta; rewrite Hor, Hs', (grid_step _ _ _ _ Hi).
  - apply num_mul_Z; try done. by left.
  - change (or_zero (Some (num_of_Z st))) with (num_of_Z st). rewrite num_opp_Z by (done || lia).
    replace (- n * st) with (n * - st) by lia. apply num_mul_Z; unfold safe in *; lia.
Qed.
End Steps.

(** ** The field and its timers *)

#[local] Existing Instances bounded_preorder.

(** C22. Whatever keys, buttons, wheel, timers and methods do, the bounds stay
    what they are, and the field shows what it showed at first, or a text that
    is no number, or a number between the bounds. *)
Theorem fields_within_bounds to_text of_text allows inputs s :
  ordered s -> Forall plain inputs ->
  let s' := sp_run to_text of_text allows inputs s in
  min s' = min s /\ max s' = max s /\
  (text s' = text s \/ parse_text of_text (text s') = None \/ exists v, text s' = to_text v /\ within s v).
Proof.
  intros Ho Hp. cbv zeta. revert Ho. change (bounded to_text of_text s (sp_run to_text of_text allows inputs s)).
  revert s. induction Hp as [|i inputs Hi Hp IH]; intros s; [by apply bounded_same|].
  etrans; [by apply (bounded_step to_text of_text allows i)|apply IH].
Qed.

(** C23. However a spinner came to where it is, its log is made of turns, every
    spin and every stop following a start with no stop in between.  If the spinner
    is enabled at that moment, letting go of a key or a button ends the turn and
    leaves the text; from then on no timer that is still set spins, changes the
    text or triggers anything.  (In a disabled spinner the handlers that stop it
    do not run: [disabled_keeps_spinning].) *)
Theorem stop_is_final to_text of_text allows s i ids :
  reachable to_text of_text allows s -> sp_disabled s = false -> i ∈ [Keyup; ButtonUp; ButtonLeave] ->
  let s1 := snd (sp_step to_text of_text allows i s) in
  let s2 := sp_run to_text of_text allows (map Fire ids) s1 in
  is_Some (turns (log s1)) /\ (spinning s = true -> turns (log s1) = Some false) /\
  spinning s2 = false /\ text s2 = text s /\ log s2 = log s1.
Proof.
  intros Hr Hd Hi s1 s2. apply reachable_turns in Hr.
  assert (Hs1 : s1 = snd (stop allows s)).
  { unfold s1. rewrite !elem_of_cons, elem_of_nil in Hi.
    destruct Hi as [->|[->|[->|[]]]]; cbn [sp_step]; unfold handler; rewrite eff_bind_get; by rewrite Hd. }
  pose proof (turn_stop allows s Hr) as Hr1. destruct (stop_stops allows s) as [Hsp Ht]. rewrite <- Hs1 in *.
  destruct (fires_still to_text of_text allows ids s1 Hr1 Hsp) as (H1 & H2 & H3).
  fold s2 in H1, H2, H3. destruct Hr1 as [(b & Hb & _) _]. destruct Hr as [(b0 & Hb0 & Hs) _].
  split_and!; [by rewrite Hb| |congruence..]. intros H. specialize (Hs H) as ->.
  rewrite Hs1, stop_spinning by done. cbn. by rewrite turns_snoc, Hb0.
Qed.

(** ** Examples *)

Definition int_text (n : number) : jstr := int_to_string 10 (num_trunc n).
Definition int_value (t : jstr) : number :=
  match digits_value 10 0 t with Some z => num_of_Z z | None => S754_nan end.
Definition no_veto (_ : sp_event) (_ : spinner) : bool := true.
Abbreviation sample mx st t :=
  (create_spinner int_text int_value (str t) (Some (num_of_Z 0)) (Some (num_of_Z mx)) (Some (num_of_Z st))
     (num_of_Z 10) Accelerating).
Abbreviation used inputs s := (sp_run int_text int_value no_veto inputs s).

Lemma steps_exact_witness :
  stepped int_text (Some 0) (Some 12) 3 6 2 (sample 12 3 "6") (snd (stepUp int_text int_value no_veto (Some (num_of_Z 2)) (sample 12 3 "6"))) /\
  stepped int_text (Some 0) (Some 12) 3 6 (-2) (sample 12 3 "6") (snd (stepDown int_text int_value no_veto (Some (num_of_Z 2)) (sample 12 3 "6"))).
Proof.
  apply (steps_exact int_text int_value no_veto (fun _ _ => eq_refl)); try lia.
  constructor; try (by vm_compute).
  - exists 2. reflexivity.
  - intros m [= <-]. exists 4. reflexivity.
  - intros m m' [= <-] [= <-]. lia.
Defined.

Lemma fields_within_bounds_witness :
  let s := sample 10 3 "6" in
  let s' := used [Keydown 38; Fire 0; Fire 1; Keyup; Wheel (-1); StepUp None] s in
  text s' = text s \/ parse_text int_value (text s') = None \/ exists v, text s' = int_text v /\ within s v.
Proof.
  apply (fields_within_bounds int_text int_value no_veto [Keydown 38; Fire 0; Fire 1; Keyup; Wheel (-1); StepUp None] (sample 10 3 "6")).
  - by vm_compute.
  - repeat constructor.
Defined.

(** A key is held while the timer fires twice, and let go. *)
Lemma stop_is_final_witness :
  let s := used [FocusIn; Keydown 38; Fire 0; Fire 1] (sample 100 1 "5") in
  spinning s = true /\ text s = str "8" /\
  let s1 := snd (sp_step int_text int_value no_veto Keyup s) in
  let s2 := sp_run int_text int_value no_veto (map Fire [2%nat]) s1 in
  is_Some (turns (log s1)) /\ (spinning s = true -> turns (log s1) = Some false) /\
  spinning s2 = false /\ text s2 = text s /\ log s2 = log s1.
Proof.
  split; [by vm_compute|]. split; [by vm_compute|].
  apply (stop_is_final int_text int_value no_veto
    (used [FocusIn; Keydown 38; Fire 0; Fire 1] (sample 100 1 "5")) Keyup [2%nat]).
  - by repeat eexists.
  - by vm_compute.
  - apply list_elem_of_here.
Defined.

(** The maximum 10 is no multiple of the step: from 9 the event [spin] reports
    10, but the field gets 9 again, and 10 counts as invalid. *)
Example spin_reports_other :
  let s := used [StepUp None] (sample 10 3 "9") in
  log s = [EStart; ESpin (num_of_Z 10); EStop] /\ text s = str "9" /\
  isValid int_value (used [Type_ (str "10")] (sample 10 3 "9")) = Ok false.
Proof. by vm_compute. Qed.

(** A spinner that is disabled while a key is held never stops: letting the key
    go is not noticed, and each timer sets the next. *)
Example disabled_keeps_spinning :
  let s := used [FocusIn; Keydown 38; SetOptions [ODisabled true]; Keyup; Fire 0; FocusOut; Fire 1; Fire 2] (sample 100 1 "5") in
  spinning s = true /\ text s = str "9".
Proof. by vm_compute. Qed.
