(* ===== verification/Collections.v ===== *)
(** Collections of elements (jquery-3.2.0.js): the element at an index and the
    index of an element. *)
From S2P Require Import Prelude.

(** [.eq( i )]: a negative index counts from the end. *)
Definition eq_ (l : list nat) (i : Z) : option nat :=
  let j := if i <? 0 then i + Z.of_nat (length l) else i in
  if j <? 0 then None else l !! Z.to_nat j.

(** [.index( elem )] *)
Definition index_of (l : list nat) (t : nat) : Z :=
  match list_find (t =.) l with Some (i, _) => Z.of_nat i | None => -1 end.

Lemma index_of_spec l t : t ∈ l -> exists i, index_of l t = Z.of_nat i /\ l !! i = Some t.
Proof.
  intros Ht. unfold index_of. destruct (list_find (t =.) l) as [[i x]|] eqn:Hf.
  - apply list_find_Some in Hf as (Hi & -> & _). by exists i.
  - apply list_find_None in Hf. rewrite Forall_forall in Hf. by destruct (Hf t Ht).
Qed.
Lemma eq_index_of l t : t ∈ l -> eq_ l (index_of l t) = Some t.
Proof.
  intros Ht. destruct (index_of_spec l t Ht) as (i & -> & Hi). unfold eq_.
  destruct (Z.ltb_spec (Z.of_nat i) 0); [lia|]. destruct (Z.ltb_spec (Z.of_nat i) 0); [lia|]. by rewrite Nat2Z.id.
Qed.
Lemma eq_in l i t : eq_ l i = Some t -> t ∈ l.
Proof. unfold eq_. destruct (_ <? 0); [done|]. apply list_elem_of_lookup_2. Qed.
Lemma index_of_eq l i t : NoDup l -> 0 <= i -> eq_ l i = Some t -> index_of l t = i.
Proof.
  intros Hnd Hi He. destruct (index_of_spec l t (eq_in _ _ _ He)) as (j & -> & Hj).
  unfold eq_ in He. destruct (Z.ltb_spec i 0); [lia|]. destruct (Z.ltb_spec i 0); [lia|].
  pose proof (NoDup_lookup _ _ _ _ Hnd Hj He). lia.
Qed.

Lemma index_of_inj l x y : x ∈ l -> y ∈ l -> index_of l x = index_of l y -> x = y.
Proof.
  intros Hx Hy. destruct (index_of_spec l x Hx) as (i & -> & Hi). destruct (index_of_spec l y Hy) as (j & -> & Hj).
  intros H. assert (i = j) as -> by lia. congruence.
Qed.
