(* ===== verification/Tabs.v ===== *)
(** [$.ui.tabs] (jquery-ui.js): a list of tabs of which at most one is active and
    shows its panel.

    Clicks, keys, options and methods all end in [eventHandler], which refuses
    what is disabled, loading, running or vetoed.  A panel may be shown and hidden
    by an animation, and its content may come from a server. *)
From stdpp Require Import gmap sets.
From S2P Require Import Prelude JsString Collections.

(** ** State *)

(** [options.disabled] *)
Inductive disabled_tabs := DNone | DAll | DSome (indexes : list Z).

(** What is being changed: the tabs that are given to the callbacks. *)
Record change := { oldTab : option nat; newTab : option nat }.

(** What the widget triggers. *)
Inductive tab_event :=
  | EBeforeActivate (c : change) | EActivate (c : change)
  | EBeforeLoad (tab : nat) | ELoad (tab : nat).

(** What a timer does: activate the tab reached by a key, fill in a response, and
    what follows a response or a failure. *)
Inductive tab_job :=
  | Activating (index : Z)
  | Loaded (request tab : nat)
  | Failed (request tab : nat).

(** The animation that runs: of the panel that goes, or of the one that comes. *)
Inductive animation := Hiding (c : change) | Showing (c : change).

Record tabs_state := {
  children : list nat;               (* the items with a link in the list *)
  tabs : list nat;                   (* this.tabs *)
  active : option Z;                 (* options.active, None for false *)
  active_tab : option nat;           (* this.active *)
  collapsible : bool;
  disabled : disabled_tabs;
  hide : bool;                       (* options.hide and options.show *)
  show : bool;
  running : bool;
  anim : option animation;
  xhr : option nat;
  next_xhr : nat;
  requests : list (nat * nat);       (* not answered, with their tabs *)
  jobs : list (nat * tab_job);
  next_job : nat;
  activating : option nat;
  focus : option nat;                (* the tab that is the active element *)
  disabled_class : gset nat;         (* ui-state-disabled *)
  active_class : gset nat;           (* ui-tabs-active *)
  loading_class : gset nat;          (* ui-tabs-loading *)
  selected : gset nat;               (* aria-selected and aria-expanded are true *)
  expanded : gset nat;
  in_order : gset nat;               (* tabIndex is 0 *)
  shown : gset nat;                  (* panels that are displayed *)
  unhidden : gset nat;               (* aria-hidden is false *)
  hung : bool;                       (* a loop goes on for ever *)
  log : list tab_event;
}.
#[export] Instance eta_tabs : Eta tabs_state := fun s => {|
  children := children s; tabs := tabs s; active := active s; active_tab := active_tab s;
  collapsible := collapsible s; disabled := disabled s; hide := hide s; show := show s; running := running s;
  anim := anim s; xhr := xhr s; next_xhr := next_xhr s; requests := requests s; jobs := jobs s;
  next_job := next_job s; activating := activating s; focus := focus s; disabled_class := disabled_class s;
  active_class := active_class s; loading_class := loading_class s; selected := selected s;
  expanded := expanded s; in_order := in_order s; shown := shown s; unhidden := unhidden s; hung := hung s;
  log := log s |}.

(** ** Collections *)

(** [$.inArray( i, options.disabled )] finds the index; there is nothing to find
    in a boolean. *)
Definition in_disabled (i : Z) (d : disabled_tabs) : bool :=
  match d with DSome l => bool_decide (i ∈ l) | _ => false end.

(** [array.sort()] compares the texts. *)
Fixpoint text_leb (a b : jstr) : bool :=
  match a, b with
  | [], _ => true
  | _, [] => false
  | c :: a, d :: b => (c <? d) || ((c =? d) && text_leb a b)
  end.
Fixpoint insert_text (i : Z) (l : list Z) : list Z :=
  match l with
  | [] => [i]
  | j :: l => if text_leb (int_to_string 10 i) (int_to_string 10 j) then i :: j :: l else j :: insert_text i l
  end.
Definition sort_texts (l : list Z) : list Z := foldr insert_text [] l.

Definition put (on : bool) (t : nat) (c : gset nat) : gset nat := if on then {[t]} ∪ c else c ∖ {[t]}.
(** The same for the element of a collection that may be empty. *)
Definition put_tab (on : bool) (t : option nat) (c : gset nat) : gset nat :=
  match t with Some t => put on t c | None => c end.
Definition there {A} (o : option A) : bool := match o with Some _ => true | None => false end.
Definition put_all (on : bool) (ts : list nat) (c : gset nat) : gset nat :=
  if on then list_to_set ts ∪ c else c ∖ list_to_set ts.

(** [_isLocal( anchor )]: the link leads to a place of the page at [location].  A
    text that cannot be decoded is compared as it is. *)
Definition decoded (url : jstr) : jstr := match decodeURIComponent url with Ok v => v | Throw _ => url end.
Definition isLocal (href hash location : jstr) : bool :=
  (1 <? length hash)%nat && bool_decide (decoded (take_until 35 href) = decoded (take_until 35 location)).

Section Tabs.
(** The panel of a tab, the element whose id the tab controls; whether the link
    of a tab is local, as [isLocal] says of its address; and whether the page lets
    an event go on. *)
Context (panel : nat -> option nat) (is_local : nat -> bool) (allows : tab_event -> tabs_state -> bool).

Definition upd (f : tabs_state -> tabs_state) : eff tabs_state unit := modify f.
Definition trigger (e : tab_event) : eff tabs_state bool :=
  s ← get; upd (fun s => s <| log := log s ++ [e] |>) ;; mret (allows e s).
Definition delay (j : tab_job) : eff tabs_state nat :=
  s ← get;
  upd (fun s => s <| jobs := jobs s ++ [(next_job s, j)] |> <| next_job := S (next_job s) |>) ;;
  mret (next_job s).
Definition clear (id : option nat) (s : tabs_state) : tabs_state :=
  s <| jobs := List.filter (fun p => negb (bool_decide (Some p.1 = id))) (jobs s) |>.

(** [_getPanelForTab]; no panel belongs to an empty collection. *)
Definition getPanelForTab (t : option nat) : option nat := t ≫= panel.
(** [this.panels] *)
Definition panels (s : tabs_state) : list nat := omap panel (tabs s).

(** ** Finding tabs *)

(** [_findActive( index )] *)
Definition findActive (s : tabs_state) (i : option Z) : option nat := i ≫= eq_ (tabs s).

(** [_findNextTab]; the loop passes over every tab once before it repeats
    itself, and so it goes on for ever when it has not ended by then. *)
Definition constrain (n : nat) (index : Z) : Z :=
  let index := if Z.of_nat n - 1 <? index then 0 else index in
  if index <? 0 then Z.of_nat n - 1 else index.
Fixpoint find_loop (fuel n : nat) (d : disabled_tabs) (index : Z) (forward : bool) : option Z :=
  let index := constrain n index in
  if in_disabled index d then
    match fuel with
    | O => None
    | S fuel => find_loop fuel n d (if forward then index + 1 else index - 1) forward
    end
  else Some index.
Definition findNextTab (s : tabs_state) (index : Z) (forward : bool) : option Z :=
  find_loop (S (length (tabs s))) (length (tabs s)) (disabled s) index forward.

(** A computation that waits for a loop that never ends. *)
Definition await {A} (o : option A) : eff tabs_state A :=
  match o with
  | Some a => mret a
  | None => upd (fun s => s <| hung := true |>) ;; throw (UserError "script does not respond")
  end.

(** [_focusNextTab] *)
Definition focusNextTab (index : Z) (forward : bool) : eff tabs_state Z :=
  s ← get;
  i ← await (findNextTab s index forward);
  upd (fun s => match eq_ (tabs s) i with Some t => s <| focus := Some t |> | None => s end) ;;
  mret i.

(** ** Loading *)

(** [xhr.abort()]: a request without an answer fails. *)
Definition abort (id : nat) : eff tabs_state unit :=
  s ← get;
  match list_find (fun p => p.1 = id) (requests s) with
  | Some (_, (_, t)) =>
      upd (fun s => s <| requests := List.filter (fun p => negb (bool_decide (p.1 = id))) (requests s) |>) ;;
      delay (Failed id t) ;; mret tt
  | None => mret tt
  end.

(** [load( index )]; a request that [beforeLoad] cancels is kept in [xhr]. *)
Definition load (i : Z) : eff tabs_state unit :=
  s ← get;
  match eq_ (tabs s) i with
  | None => throw TypeError
  | Some t =>
      if is_local t then mret tt
      else
        go ← trigger (EBeforeLoad t);
        s ← get;
        upd (fun s => s <| xhr := Some (next_xhr s) |> <| next_xhr := S (next_xhr s) |>) ;;
        if (go : bool) then
          upd (fun s => s <| requests := requests s ++ [(next_xhr s - 1, t)%nat] |>
                          <| loading_class := put true t (loading_class s) |>)
        else mret tt
  end.

(** The function [complete] of [load]; ending the animations of an aborted
    request is an input of its own. *)
Definition load_complete (id t : nat) : eff tabs_state unit :=
  upd (fun s => s <| loading_class := put false t (loading_class s) |>) ;;
  upd (fun s => if bool_decide (xhr s = Some id) then s <| xhr := None |> else s).

(** An answer of the server. *)
Definition respond (id : nat) (ok : bool) : eff tabs_state unit :=
  s ← get;
  match list_find (fun p => p.1 = id) (requests s) with
  | Some (_, (_, t)) =>
      upd (fun s => s <| requests := List.filter (fun p => negb (bool_decide (p.1 = id))) (requests s) |>) ;;
      delay (if ok then Loaded id t else Failed id t) ;; mret tt
  | None => mret tt
  end.

(** ** Activating *)

(** [complete], [show] and the parts of [_toggle]. *)
Definition toggle_complete (c : change) : eff tabs_state unit :=
  upd (fun s => s <| running := false |> <| anim := None |>) ;;
  trigger (EActivate c) ;; mret tt.
Definition class_off (c : change) : eff tabs_state unit :=
  upd (fun s => s <| active_class := put_tab false (oldTab c) (active_class s) |>).
Definition toggle_show (c : change) : eff tabs_state unit :=
  let toShow := getPanelForTab (newTab c) in
  upd (fun s => s <| active_class := put_tab true (newTab c) (active_class s) |>) ;;
  s ← get;
  upd (fun s => s <| shown := put_tab true toShow (shown s) |>) ;;
  if there toShow && show s then upd (fun s => s <| anim := Some (Showing c) |>) else toggle_complete c.

(** The attributes that [_toggle] sets.  The filter of the tabs with the number
    0 as attribute finds none, because an attribute is a text. *)
Definition toggle_attributes (c : change) (s : tabs_state) : tabs_state :=
  let toShow := getPanelForTab (newTab c) in
  let toHide := getPanelForTab (oldTab c) in
  let order := if there toShow && there toHide then put_tab false (oldTab c) (in_order s) else in_order s in
  s <| unhidden := put_tab true toShow (put_tab false toHide (unhidden s)) |>
    <| selected := put_tab true (newTab c) (put_tab false (oldTab c) (selected s)) |>
    <| expanded := put_tab true (newTab c) (put_tab false (oldTab c) (expanded s)) |>
    <| in_order := put_tab true (newTab c) order |>.

(** [_toggle]; a panel that comes by an animation is displayed at once, and one
    that goes is displayed until its animation has ended. *)
Definition toggle (c : change) : eff tabs_state unit :=
  let toHide := getPanelForTab (oldTab c) in
  upd (fun s => s <| running := true |>) ;;
  s ← get;
  (if there toHide && hide s then upd (fun s => s <| anim := Some (Hiding c) |>)
   else class_off c ;; upd (fun s => s <| shown := put_tab false toHide (shown s) |>) ;; toggle_show c) ;;
  upd (toggle_attributes c).

(** An animation has ended. *)
Definition animation_end : eff tabs_state unit :=
  s ← get;
  match anim s with
  | None => mret tt
  | Some (Hiding c) =>
      upd (fun s => s <| shown := put_tab false (getPanelForTab (oldTab c)) (shown s) |>) ;;
      class_off c ;; toggle_show c
  | Some (Showing c) => toggle_complete c
  end.

(** [_eventHandler] on the link of a tab *)
Definition eventHandler (t : nat) : eff tabs_state unit :=
  s ← get;
  let clickedIsActive := bool_decide (active_tab s = Some t) in
  let collapsing := clickedIsActive && collapsible s in
  let c := {| oldTab := active_tab s; newTab := if collapsing then None else Some t |} in
  if bool_decide (t ∈ disabled_class s) || bool_decide (t ∈ loading_class s) || running s
     || (clickedIsActive && negb (collapsible s))
  then mret tt
  else
    go ← trigger (EBeforeActivate c);
    if negb go then mret tt
    else
      let i := index_of (tabs s) t in
      upd (fun s => s <| active := if collapsing then None else Some i |>
                      <| active_tab := if clickedIsActive then None else Some t |>) ;;
      match xhr s with Some id => abort id | None => mret tt end ;;
      match getPanelForTab (oldTab c), getPanelForTab (newTab c) with
      | None, None => throw (UserError "jQuery UI Tabs: Mismatching fragment identifier.")
      | _, None => mret tt
      | _, Some _ => load i
      end ;;
      toggle c.

(** [_activate( index )], [None] for false: an empty choice is a click on the
    active tab. *)
Definition activate (i : option Z) : eff tabs_state unit :=
  s ← get;
  let t := findActive s i in
  if bool_decide (t = active_tab s) then mret tt
  else match t with
       | Some t => eventHandler t
       | None => match active_tab s with Some t => eventHandler t | None => mret tt end
       end.

(** ** Options *)

(** [_setOptionDisabled( disabled )] *)
Definition normal_disabled (n : nat) (d : disabled_tabs) : disabled_tabs :=
  match d with
  | DSome l => if (length l =? 0)%nat then DNone else if (length l =? n)%nat then DAll else d
  | _ => d
  end.
Definition is_disabled (d : disabled_tabs) (i : nat) : bool :=
  match d with DAll => true | _ => in_disabled (Z.of_nat i) d end.
Definition setOptionDisabled (d : disabled_tabs) : eff tabs_state unit :=
  upd (fun s =>
    let d := normal_disabled (length (tabs s)) d in
    s <| disabled_class := fold_left (fun c '(i, t) => put (is_disabled d i) t c)
                             (zip (seq 0 (length (tabs s))) (tabs s)) (disabled_class s) |>
      <| disabled := d |>).

(** [enable( index )] and [disable( index )], [None] for no index *)
Definition enable (i : option Z) : eff tabs_state unit :=
  s ← get;
  match disabled s with
  | DNone => mret tt
  | d =>
      setOptionDisabled
        match i, d with
        | None, _ => DNone
        | Some i, DSome l => DSome (List.filter (fun n => negb (n =? i)) l)
        | Some i, _ => DSome (List.filter (fun n => negb (n =? i)) (map Z.of_nat (seq 0 (length (tabs s)))))
        end
  end.
Definition disable (i : option Z) : eff tabs_state unit :=
  s ← get;
  match disabled s with
  | DAll => mret tt
  | d =>
      match i with
      | None => setOptionDisabled DAll
      | Some i =>
          if in_disabled i d then mret tt
          else setOptionDisabled (match d with DSome l => DSome (sort_texts (i :: l)) | _ => DSome [i] end)
      end
  end.

(** [option( "active" )], [option( "collapsible" )] and [option( "disabled" )] *)
Definition set_active (i : option Z) : eff tabs_state unit := activate i.
Definition set_collapsible (v : bool) : eff tabs_state unit :=
  upd (fun s => s <| collapsible := v |>) ;;
  s ← get;
  if negb v && bool_decide (active s = None) then activate (Some 0) else mret tt.
Definition set_disabled (d : disabled_tabs) : eff tabs_state unit :=
  upd (fun s => s <| disabled := d |>) ;; setOptionDisabled d.

(** ** The list of tabs *)

(** [_processTabs]: the tabs leave the tab order. *)
Definition processTabs : eff tabs_state unit :=
  upd (fun s => s <| tabs := children s |> <| in_order := put_all false (children s) (in_order s) |>).

(** [_refresh] *)
Definition refresh_ : eff tabs_state unit :=
  s ← get; setOptionDisabled (disabled s) ;;
  upd (fun s =>
    let others := List.filter (fun t => negb (bool_decide (Some t = active_tab s))) (tabs s) in
    let hidden := List.filter (fun p => negb (bool_decide (Some p = getPanelForTab (active_tab s)))) (panels s) in
    s <| selected := put_all false others (selected s) |> <| expanded := put_all false others (expanded s) |>
      <| in_order := put_all false others (in_order s) |>
      <| shown := put_all false hidden (shown s) |> <| unhidden := put_all false hidden (unhidden s) |>) ;;
  upd (fun s =>
    match active_tab s with
    | None => match head (tabs s) with Some t => s <| in_order := put true t (in_order s) |> | None => s end
    | Some t =>
        let s := s <| selected := put true t (selected s) |> <| expanded := put true t (expanded s) |>
                   <| in_order := put true t (in_order s) |> <| active_class := put true t (active_class s) |> in
        match panel t with
        | Some p => s <| shown := put true p (shown s) |> <| unhidden := put true p (unhidden s) |>
        | None => s
        end
    end).

(** [refresh()] *)
Definition refresh : eff tabs_state unit :=
  upd (fun s => s <| disabled := DSome (map (index_of (children s))
                       (List.filter (fun t => bool_decide (t ∈ disabled_class s)) (children s))) |>) ;;
  processTabs ;;
  s ← get;
  match active s, tabs s, active_tab s with
  | None, _, _ | _, [], _ => upd (fun s => s <| active := None |> <| active_tab := None |>)
  | Some i, _, Some t =>
      if bool_decide (t ∈ children s) then upd (fun s => s <| active := Some (index_of (tabs s) t) |>)
      else if (length (tabs s) =? match disabled s with DSome l => length l | _ => 0 end)%nat
      then upd (fun s => s <| active := None |> <| active_tab := None |>)
      else j ← await (findNextTab s (Z.max 0 (i - 1)) false); activate (Some j)
  | Some _, _, None => upd (fun s => s <| active := Some (-1) |>)
  end ;;
  refresh_.

(** ** Creation *)

(** [options.active] as it is given: null, false or an index. *)
Inductive initial := INull | IFalse | IIndex (i : Z).

(** [_initialActive]; [located] is the tab that the fragment of the address
    names, and [marked] are the tabs with the class ui-tabs-active. *)
Definition initialActive (ts : list nat) (collapse : bool) (o : initial) (located : option nat) (marked : gset nat) : option Z :=
  let given :=
    match o with
    | IFalse => None
    | IIndex i => Some i
    | INull =>
        match located with
        | Some t => Some (index_of ts t)
        | None =>
            match List.filter (fun t => bool_decide (t ∈ marked)) ts, ts with
            | t :: _, _ => Some (index_of ts t)
            | [], [] => None
            | [], _ => Some 0
            end
        end
    end in
  let a :=
    match given with
    | Some i => match eq_ ts i with
                | Some t => Some (index_of ts t)
                | None => if collapse then None else Some 0
                end
    | None => None
    end in
  match a, ts with
  | None, _ :: _ => if collapse then None else Some 0
  | _, _ => a
  end.

(** [_create] on a page whose items [marked] and panels [displayed] are in the
    markup; [options.disabled] is no array. *)
Definition create (ts : list nat) (collapse h sh : bool) (o : initial) (all : bool) (located : option nat)
    (marked : gset nat) (displayed : gset nat) : eff tabs_state unit :=
  upd (fun _ => {|
    children := ts; tabs := []; active := None; active_tab := None; collapsible := collapse;
    disabled := if all then DAll else DNone; hide := h; show := sh; running := false; anim := None; xhr := None;
    next_xhr := 0; requests := []; jobs := []; next_job := 0; activating := None; focus := None;
    disabled_class := ∅; active_class := marked; loading_class := ∅; selected := ∅; expanded := ∅; in_order := ∅;
    shown := displayed; unhidden := ∅; hung := false; log := [] |}) ;;
  processTabs ;;
  upd (fun s =>
    let a := initialActive ts collapse o located marked in
    s <| active := a |> <| active_tab := match a, ts with Some i, _ :: _ => eq_ ts i | _, _ => None end |>) ;;
  refresh_ ;;
  s ← get;
  match active_tab s, active s with Some _, Some i => load i | _, _ => mret tt end.

(** ** Events *)

(** What the keys mean; [false + 1] is 1. *)
Record key_event := { code : Z; ctrl : bool; alt : bool; meta : bool }.

(** A handler bound by [_on] does nothing while the whole widget is disabled. *)
Definition handler (h : eff tabs_state unit) : eff tabs_state unit :=
  s ← get; match disabled s with DAll => mret tt | _ => h end.

(** [_handlePageNav] *)
Definition handlePageNav (e : key_event) : eff tabs_state bool :=
  s ← get;
  let a := default 0 (active s) in
  if alt e && (code e =? 33) then i ← focusNextTab (a - 1) false; activate (Some i) ;; mret true
  else if alt e && (code e =? 34) then i ← focusNextTab (a + 1) true; activate (Some i) ;; mret true
  else mret false.

(** The index a key goes to, and in which direction from there. *)
Definition key_target (n : nat) (c i : Z) : option (Z * bool) :=
  if (c =? 39) || (c =? 40) then Some (i + 1, true)
  else if (c =? 38) || (c =? 37) then Some (i - 1, false)
  else if c =? 35 then Some (Z.of_nat n - 1, true)
  else if c =? 36 then Some (0, true)
  else None.

Definition clear_activating : eff tabs_state unit := upd (fun s => clear (activating s) s).
Definition set_selected (on : bool) (t : option nat) : eff tabs_state unit :=
  upd (fun s => match t with Some t => s <| selected := put on t (selected s) |> | None => s end).

(** [_tabKeydown]; [t] is the tab that has the focus. *)
Definition tabKeydown (t : nat) (e : key_event) : eff tabs_state unit :=
  done_ ← handlePageNav e;
  if (done_ : bool) then mret tt
  else
    s ← get;
    let i := index_of (tabs s) t in
    if code e =? 32 then clear_activating ;; activate (Some i)
    else if code e =? 13 then
      clear_activating ;; activate (if bool_decide (active s = Some i) then None else Some i)
    else
      match key_target (length (tabs s)) (code e) i with
      | None => mret tt
      | Some (j, forward) =>
          clear_activating ;;
          j ← focusNextTab j forward;
          if ctrl e || meta e then mret tt
          else
            set_selected false (Some t) ;;
            s ← get; set_selected true (eq_ (tabs s) j) ;;
            id ← delay (Activating j);
            upd (fun s => s <| activating := Some id |>)
      end.

(** [_panelKeydown] *)
Definition panelKeydown (e : key_event) : eff tabs_state unit :=
  done_ ← handlePageNav e;
  if (done_ : bool) then mret tt
  else if ctrl e && (code e =? 38) then
    upd (fun s => match active_tab s with Some t => s <| focus := Some t |> | None => s end)
  else mret tt.

Definition run_job (j : tab_job) : eff tabs_state unit :=
  match j with
  | Activating i => set_active (Some i)
  | Loaded id t => trigger (ELoad t) ;; load_complete id t
  | Failed id t => load_complete id t
  end.
Definition fire (id : nat) : eff tabs_state unit :=
  s ← get;
  match list_find (fun p => p.1 = id) (jobs s) with
  | Some (_, (_, j)) => upd (clear (Some id)) ;; run_job j
  | None => mret tt
  end.

(** The page puts other items in the list; [marks] are those with the class
    ui-state-disabled. *)
Definition change_list (l : list nat) (marks : gset nat) : eff tabs_state unit :=
  upd (fun s => s <| children := l |>
                  <| disabled_class := disabled_class s ∪ (marks ∖ list_to_set (tabs s)) |>).

(** What can happen. *)
Inductive tab_input :=
  | Click (t : nat) | Focus (t : nat)
  | KeyTab (e : key_event) | KeyPanel (e : key_event)
  | SetActive (i : option Z) | SetCollapsible (v : bool) | SetDisabled (d : disabled_tabs)
  | Enable (i : option Z) | Disable (i : option Z)
  | ChangeList (l : list nat) (marks : gset nat) | Refresh
  | Load (i : Z) | Respond (request : nat) (ok : bool)
  | Fire (id : nat) | AnimationEnd.

Definition on_input (i : tab_input) : eff tabs_state unit :=
  s ← get;
  match i with
  | Click t => if bool_decide (t ∈ tabs s) then handler (eventHandler t) else mret tt
  | Focus t => upd (fun s => s <| focus := Some t |>)
  | KeyTab e =>
      match focus s with
      | Some t => if bool_decide (t ∈ tabs s /\ t ∉ disabled_class s) then handler (tabKeydown t e) else mret tt
      | None => mret tt
      end
  | KeyPanel e => handler (panelKeydown e)
  | SetActive i => set_active i
  | SetCollapsible v => set_collapsible v
  | SetDisabled d => set_disabled d
  | Enable i => enable i
  | Disable i => disable i
  | ChangeList l marks => change_list l marks
  | Refresh => refresh
  | Load i => load i
  | Respond id ok => respond id ok
  | Fire id => fire id
  | AnimationEnd => animation_end
  end.
(** Nothing happens any more once a loop does not end. *)
Definition tab_step (i : tab_input) : eff tabs_state unit :=
  s ← get; if hung s then mret tt else on_input i.
Definition tab_run (inputs : list tab_input) (s : tabs_state) : tabs_state :=
  foldl (fun s i => snd (tab_step i s)) s inputs.
End Tabs.
