(* ===== verification/TabsInv.v ===== *)
(** The invariant of [$.ui.tabs] (Tabs): what is drawn, announced and disabled
    agrees with the options in every state that can be reached, also while panels
    come and go by animations and while the list of tabs is read anew. *)
From Stdlib Require Import String.
From stdpp Require Import gmap sets.
From S2P Require Import Prelude JsString Collections Tabs.

(** ** Looking for the next tab *)

(** The index [k] tabs further on. *)
Definition ahead (n : nat) (index : Z) (forward : bool) (k : Z) : Z :=
  (if forward then index + k else index - k) mod Z.of_nat n.

Lemma constrain_range n index : (0 < n)%nat -> 0 <= constrain n index < Z.of_nat n.
Proof. intros Hn. unfold constrain. repeat case_match; lia. Qed.
Lemma constrain_id n index : 0 <= index < Z.of_nat n -> constrain n index = index.
Proof. intros H. unfold constrain. repeat case_match; lia. Qed.

Lemma constrain_step n index (forward : bool) : 0 <= index < Z.of_nat n ->
  constrain n (if forward then index + 1 else index - 1) = ahead n index forward 1.
Proof.
  intros H. unfold constrain, ahead. destruct forward.
  - destruct (Z.ltb_spec (Z.of_nat n - 1) (index + 1)); cbn.
    + replace (index + 1) with (Z.of_nat n) by lia. by rewrite Z.mod_same by lia.
    + destruct (Z.ltb_spec (index + 1) 0); [lia|]. by rewrite Z.mod_small by lia.
  - destruct (Z.ltb_spec (Z.of_nat n - 1) (index - 1)); [lia|]. destruct (Z.ltb_spec (index - 1) 0).
    + replace (index - 1) with (Z.of_nat n - 1 + (-1) * Z.of_nat n) by lia.
      by rewrite Z.mod_add, Z.mod_small by lia.
    + by rewrite Z.mod_small by lia.
Qed.

Lemma ahead_ahead n index forward j k : (0 < n)%nat ->
  ahead n (ahead n index forward j) forward k = ahead n index forward (j + k).
Proof.
  intros Hn. unfold ahead. destruct forward.
  - rewrite Zplus_mod_idemp_l. f_equal. lia.
  - rewrite Zminus_mod_idemp_l. f_equal. lia.
Qed.

Lemma find_loop_spec fuel n d index forward : (0 < n)%nat ->
  match find_loop fuel n d index forward with
  | Some i => exists k, 0 <= k <= Z.of_nat fuel /\ i = ahead n (constrain n index) forward k /\ in_disabled i d = false /\
      forall m, 0 <= m < k -> in_disabled (ahead n (constrain n index) forward m) d = true
  | None => forall m, 0 <= m <= Z.of_nat fuel -> in_disabled (ahead n (constrain n index) forward m) d = true
  end.
Proof.
  intros Hn. revert index. induction fuel as [|fuel IH]; intros index; cbn [find_loop];
    pose proof (constrain_range n index Hn) as Hr.
  - assert (H0 : forall m, m = 0 -> ahead n (constrain n index) forward m = constrain n index).
    { intros m ->. unfold ahead. destruct forward; rewrite ?Z.add_0_r, ?Z.sub_0_r; by rewrite Z.mod_small. }
    destruct (in_disabled (constrain n index) d) eqn:Hd.
    + intros m Hm. by rewrite H0 by lia.
    + exists 0. split_and!; [lia|lia|by rewrite H0|done|lia].
  - assert (H0 : ahead n (constrain n index) forward 0 = constrain n index).
    { unfold ahead. destruct forward; rewrite ?Z.add_0_r, ?Z.sub_0_r; by rewrite Z.mod_small. }
    destruct (in_disabled (constrain n index) d) eqn:Hd.
    + specialize (IH (if forward then constrain n index + 1 else constrain n index - 1)).
      rewrite constrain_step in IH by done.
      destruct (find_loop fuel n d _ forward) as [i|].
      * destruct IH as (k & Hk & -> & Hi & Hm). rewrite ahead_ahead in Hi |- * by done.
        exists (1 + k). split_and!; [lia|lia|done|done|]. intros m Hmk.
        destruct (Z.eq_dec m 0) as [->|]; [by rewrite H0|].
        specialize (Hm (m - 1) ltac:(lia)). rewrite ahead_ahead in Hm by done. by replace (1 + (m - 1)) with m in Hm by lia.
      * intros m Hm. destruct (Z.eq_dec m 0) as [->|]; [by rewrite H0|].
        specialize (IH (m - 1) ltac:(lia)). rewrite ahead_ahead in IH by done. by replace (1 + (m - 1)) with m in IH by lia.
    + exists 0. split_and!; [lia|lia|by rewrite H0|done|lia].
Qed.

(** Every index is reached within a round. *)
Lemma ahead_surj n index forward i : 0 <= index < Z.of_nat n -> 0 <= i < Z.of_nat n ->
  exists k, 0 <= k < Z.of_nat n /\ ahead n index forward k = i.
Proof.
  intros Hx Hi. unfold ahead. exists (if forward then (i - index) mod Z.of_nat n else (index - i) mod Z.of_nat n).
  split; [destruct forward; apply Z.mod_pos_bound; lia|]. destruct forward.
  - rewrite Zplus_mod_idemp_r. replace (index + (i - index)) with i by lia. by apply Z.mod_small.
  - rewrite Zminus_mod_idemp_r. replace (index - (index - i)) with i by lia. by apply Z.mod_small.
Qed.

(** The indexes are those of some of the tabs, and not of all. *)
Definition sound (n : nat) (d : disabled_tabs) : Prop :=
  match d with
  | DSome l => NoDup l /\ (forall i, i ∈ l -> 0 <= i < Z.of_nat n) /\ (0 < length l < n)%nat
  | _ => True
  end.

Lemma sound_free n l : NoDup l -> (forall i, i ∈ l -> 0 <= i < Z.of_nat n) -> (length l < n)%nat ->
  exists i, 0 <= i < Z.of_nat n /\ i ∉ l.
Proof.
  intros Hnd Hr Hlt. destruct (decide (Forall (.∈ l) (map Z.of_nat (seq 0 n)))) as [Hall|Hex].
  - rewrite Forall_forall in Hall. exfalso.
    assert (H : (length (map Z.of_nat (seq 0 n)) <= length l)%nat); [|rewrite length_map, length_seq in H; lia].
    apply submseteq_length, NoDup_submseteq; [|done].
    apply NoDup_fmap; [intros x y; lia|apply NoDup_seq].
  - apply not_Forall_Exists in Hex; [|apply _]. apply Exists_exists in Hex as (i & Hi & Hn).
    exists i. split; [|done]. apply list_elem_of_fmap in Hi as (k & -> & Hk%elem_of_seq). lia.
Qed.

Lemma find_next_free s index forward :
  (forall l, disabled s = DSome l -> NoDup l /\ (forall i, i ∈ l -> 0 <= i < Z.of_nat (length (tabs s))) /\
    (length l < length (tabs s))%nat) ->
  exists i, findNextTab s index forward = Some i.
Proof.
  intros Hs. unfold findNextTab. destruct (disabled s) as [| |l] eqn:Hd; [by eexists|by eexists|].
  destruct (Hs l eq_refl) as (Hnd & Hr & Hl).
  pose proof (find_loop_spec (S (length (tabs s))) (length (tabs s)) (DSome l) index forward ltac:(lia)) as H.
  destruct (find_loop _ _ _ _ _) as [i|]; [by eexists|exfalso].
  destruct (sound_free _ l Hnd Hr Hl) as (i & Hi & Hn).
  destruct (ahead_surj (length (tabs s)) (constrain (length (tabs s)) index) forward i) as (k & Hk & <-);
    [apply constrain_range; lia|done|].
  specialize (H k ltac:(lia)). cbn in H. by apply bool_decide_eq_true in H.
Qed.

Lemma find_next_range s index forward i :
  tabs s <> [] -> findNextTab s index forward = Some i -> 0 <= i < Z.of_nat (length (tabs s)).
Proof.
  intros Hne H. assert (0 < length (tabs s))%nat by (by destruct (tabs s); [|cbn; lia]).
  pose proof (find_loop_spec (S (length (tabs s))) (length (tabs s)) (disabled s) index forward ltac:(done)) as Hs.
  unfold findNextTab in H. rewrite H in Hs. destruct Hs as (k & _ & -> & _). unfold ahead. apply Z.mod_pos_bound. lia.
Qed.

(** ** What is drawn *)

Lemma elem_of_put on t x (c : gset nat) : x ∈ put on t c <-> (if on then x = t \/ x ∈ c else x <> t /\ x ∈ c).
Proof. unfold put. destruct on; set_solver. Qed.
Lemma elem_of_put_all on ts x (c : gset nat) : x ∈ put_all on ts c <-> (if on then x ∈ ts \/ x ∈ c else x ∉ ts /\ x ∈ c).
Proof. unfold put_all. destruct on; set_solver. Qed.

Lemma not_in_animation (a : option animation) : a = None \/ exists b, a = Some b.
Proof. destruct a; eauto. Qed.

(** The fields that say what is open, drawn and disabled. *)
Definition core (s : tabs_state) :=
  ((children s, tabs s, active s, active_tab s), (disabled s, disabled_class s, hung s),
   (running s, anim s), (active_class s, expanded s, shown s)).
Definition core_same (s s' : tabs_state) : Prop := core s' = core s.
#[export] Instance core_preorder : PreOrder core_same.
Proof. split; [done|]. intros s1 s2 s3 H1 H2. unfold core_same in *. congruence. Qed.

Definition changing (a : option animation) : option change :=
  match a with Some (Hiding c) | Some (Showing c) => Some c | None => None end.

Lemma core_tabs s s' : core_same s s' -> tabs s' = tabs s.
Proof. unfold core_same, core. by intros [= _ ?]. Qed.
Lemma core_active s s' : core_same s s' -> active_tab s' = active_tab s.
Proof. unfold core_same, core. by intros [= _ _ _ ?]. Qed.

Lemma core_class s s' : core_same s s' -> disabled_class s' = disabled_class s.
Proof. unfold core_same, core. by intros [= _ _ _ _ _ ?]. Qed.

(** A tab that has had nothing to do with the widget. *)
Definition untouched (s : tabs_state) (t : nat) : Prop :=
  t ∉ active_class s /\ t ∉ expanded s /\ active_tab s <> Some t /\
  forall c, changing (anim s) = Some c -> oldTab c <> Some t /\ newTab c <> Some t.

Section Tabs.
Context (panel : nat -> option nat) (is_local : nat -> bool) (allows : tab_event -> tabs_state -> bool).

(** Every tab has a panel of its own. *)
Definition page_ok : Prop :=
  (forall t, is_Some (panel t)) /\ (forall t t' p, panel t = Some p -> panel t' = Some p -> t = t').

(** A set of tabs (those of the active class, or of the shown panels) while
    there are animations. *)
Definition drawn (s : tabs_state) (has : nat -> Prop) : Prop :=
  forall t, t ∈ tabs s ->
    match anim s with
    | Some (Hiding c) => has t -> oldTab c = Some t \/ active_tab s = Some t
    | _ => has t <-> active_tab s = Some t
    end.
Definition panel_shown (s : tabs_state) (t : nat) : Prop := exists p, panel t = Some p /\ p ∈ shown s.

Record inv (s : tabs_state) : Prop := {
  inv_tabs : NoDup (tabs s);
  inv_children : NoDup (children s);
  inv_fresh : forall t, t ∈ children s -> t ∈ tabs s \/ untouched s t;
  inv_active : match active_tab s with
               | None => active s = None
               | Some t => exists i, active s = Some i /\ (t ∈ tabs s -> i = index_of (tabs s) t)
               end;
  inv_running : running s = bool_decide (is_Some (anim s));
  inv_class : drawn s (fun t => t ∈ active_class s);
  inv_shown : drawn s (panel_shown s);
  inv_expanded : forall t, t ∈ tabs s -> t ∈ expanded s <-> active_tab s = Some t;
  inv_change : forall c, changing (anim s) = Some c ->
    oldTab c <> newTab c /\
    (newTab c = active_tab s \/ (active_tab s = None /\ forall t, newTab c = Some t -> t ∉ tabs s));
  inv_sound : sound (length (tabs s)) (disabled s);
  inv_disabled : forall i t, tabs s !! i = Some t -> t ∈ disabled_class s <-> is_disabled (disabled s) i = true;
  inv_hung : hung s = false;
}.

Lemma inv_core s s' : core_same s s' -> inv s -> inv s'.
Proof.
  unfold core_same, core. intros [= H1 H2 H3 H4 H5 H6 H7 H8 H9 H10 H11 H12] [].
  assert (Hp : forall t, panel_shown s' t <-> panel_shown s t) by (intros t; unfold panel_shown; by rewrite H12).
  constructor; unfold drawn, untouched in *; rewrite ?H1, ?H2, ?H3, ?H4, ?H5, ?H6, ?H7, ?H8, ?H9, ?H10, ?H11; try done.
  intros t Ht. specialize (inv_shown0 t Ht). by destruct (anim s) as [[]|]; rewrite Hp.
Qed.

(** *** Pieces that leave the core as it is *)

Ltac same := intros ?s; reflexivity.
Ltac core_step :=
  match goal with
  | |- forall _, _ => intro
  | |- keeps _ (let _ := _ in _) => cbv zeta
  | |- keeps _ get => apply keeps_get, _
  | |- keeps _ (trigger _ _) => unfold trigger
  | |- keeps _ (delay _) => unfold delay
  | |- keeps _ (upd (fun s => match ?x with _ => _ end)) => intros ?s; unfold upd, modify; cbn [snd]; case_match; reflexivity
  | |- keeps _ (upd _) => same
  | |- keeps _ (_ ≫= _) => apply (keeps_bind core_same)
  | |- keeps _ (mret _) => apply keeps_ret, _
  | |- keeps _ (throw _) => intros ?s; reflexivity
  | |- keeps _ (match ?x with _ => _ end) => destruct x
  end.
Ltac core_all := repeat core_step.

Lemma tab_trigger_core e : keeps core_same (trigger allows e).
Proof. core_all. Qed.
Lemma abort_core id : keeps core_same (abort id).
Proof. unfold abort. core_all. Qed.
Lemma load_core i : keeps core_same (load is_local allows i).
Proof. unfold load. core_all. Qed.
Lemma respond_core id ok : keeps core_same (respond id ok).
Proof. unfold respond. core_all. Qed.
Lemma load_complete_core id t : keeps core_same (load_complete id t).
Proof. unfold load_complete. core_all. Qed.

(** *** Toggling *)

Lemma elem_of_put_tab on o x (c : gset nat) :
  x ∈ put_tab on o c <-> (if on then o = Some x \/ x ∈ c else o <> Some x /\ x ∈ c).
Proof. destruct o as [t|]; cbn [put_tab]; [rewrite elem_of_put|]; destruct on; naive_solver. Qed.

(** What [toggle_show] and [toggle] leave of the core. *)
Definition after_show (c : change) (s : tabs_state) : tabs_state :=
  let animated := there (newTab c ≫= panel) && show s in
  s <| active_class := put_tab true (newTab c) (put_tab false (oldTab c) (active_class s)) |>
    <| shown := put_tab true (newTab c ≫= panel) (put_tab false (oldTab c ≫= panel) (shown s)) |>
    <| running := animated |> <| anim := if animated then Some (Showing c) else None |>.
Definition after_toggle (c : change) (s : tabs_state) : tabs_state :=
  let s' := if there (oldTab c ≫= panel) && hide s
            then s <| running := true |> <| anim := Some (Hiding c) |> else after_show c s in
  s' <| expanded := put_tab true (newTab c) (put_tab false (oldTab c) (expanded s)) |>.

Lemma toggle_show_after c s : running s = true ->
  core_same (s <| active_class := put_tab true (newTab c) (active_class s) |>
               <| shown := put_tab true (newTab c ≫= panel) (shown s) |>
               <| running := there (newTab c ≫= panel) && show s |>
               <| anim := if there (newTab c ≫= panel) && show s then Some (Showing c) else None |>)
    (snd (toggle_show panel allows c s)).
Proof.
  intros Hr. unfold toggle_show, getPanelForTab, upd. rewrite eff_bind_modify, eff_bind_get, eff_bind_modify.
  cbn [show]. destruct (there (newTab c ≫= panel) && show s) eqn:He.
  - cbn. rewrite He. unfold core_same, core. cbn. by rewrite Hr.
  - cbn. rewrite He. reflexivity.
Qed.

Lemma show_after c s : running s = true -> anim s = Some (Hiding c) ->
  core_same (after_show c s) (snd (animation_end panel allows s)).
Proof.
  intros Hr Ha. unfold animation_end. rewrite eff_bind_get, Ha. unfold upd, class_off, upd.
  rewrite !eff_bind_modify. etrans; [|by apply toggle_show_after]. reflexivity.
Qed.

Lemma toggle_after c s : anim s = None -> core_same (after_toggle c s) (snd (toggle panel allows c s)).
Proof.
  intros Ha. unfold toggle, after_toggle, getPanelForTab, upd. rewrite eff_bind_modify, eff_bind_get.
  change (hide (s <| running := true |>)) with (hide s). destruct (there (oldTab c ≫= panel) && hide s) eqn:He.
  - reflexivity.
  - set (s1 := s <| running := true |>).
    assert (H : forall m : eff tabs_state unit, fst (m s1) = Ok tt ->
      snd ((m ;; modify (toggle_attributes panel c)) s1) = toggle_attributes panel c (snd (m s1))).
    { intros m Hm. unfold mbind, eff_bind. destruct (m s1) as [r s2]. cbn in Hm. by rewrite Hm. }
    rewrite H.
    + unfold class_off, upd. rewrite !eff_bind_modify.
      set (s2 := s1 <| active_class := _ |> <| shown := _ |>).
      pose proof (toggle_show_after c s2 eq_refl) as Hs. revert Hs. generalize (snd (toggle_show panel allows c s2)).
      intros s3. unfold core_same, core. cbn. intros [= -> -> -> -> -> -> -> -> -> -> -> ->]. reflexivity.
    + unfold class_off, toggle_show, toggle_complete, trigger, upd. rewrite !eff_bind_modify, eff_bind_get, !eff_bind_modify.
      match goal with |- context [if ?b then _ else _] => destruct b end; reflexivity.
Qed.

Context (Hpage : page_ok).

Lemma panel_there t : there (panel t) = true.
Proof. by destruct (proj1 Hpage t) as [p ->]. Qed.

(** The tabs whose panels are shown, when some are shown and hidden. *)
Lemma panel_shown_put on o t c :
  (exists p, panel t = Some p /\ p ∈ put_tab on (o ≫= panel) c)
  <-> (if on then o = Some t \/ (exists p, panel t = Some p /\ p ∈ c) else o <> Some t /\ exists p, panel t = Some p /\ p ∈ c).
Proof.
  destruct Hpage as [Hex Hinj].
  assert (H : forall p, panel t = Some p -> (o ≫= panel = Some p <-> o = Some t)).
  { intros p Hp. split; [|by intros ->]. destruct o as [t'|]; [|done]. cbn. intros Hp'. f_equal. by apply (Hinj t' t p). }
  setoid_rewrite elem_of_put_tab. destruct (Hex t) as [p0 Hp0]. specialize (H p0 Hp0). destruct on; naive_solver.
Qed.

Lemma idle_none s : inv s -> running s = false -> anim s = None.
Proof.
  intros Hi Hr. rewrite (inv_running s Hi) in Hr. destruct (anim s); [|done].
  by rewrite bool_decide_true in Hr by done.
Qed.

(** The state when another tab has been opened and nothing is drawn yet. *)
Definition opening (c : change) (s s1 : tabs_state) : Prop :=
  running s = false /\ oldTab c = active_tab s /\ oldTab c <> newTab c /\
  (forall t, newTab c = Some t -> t ∈ tabs s) /\
  core_same (s <| active := index_of (tabs s) <$> newTab c |> <| active_tab := newTab c |>) s1.

Lemma put_open o n t (c : gset nat) :
  (t ∈ c <-> o = Some t) -> t ∈ put_tab true n (put_tab false o c) <-> n = Some t.
Proof. rewrite !elem_of_put_tab. tauto. Qed.
Lemma put_open_panel o n t c :
  ((exists p, panel t = Some p /\ p ∈ c) <-> o = Some t) ->
  (exists p, panel t = Some p /\ p ∈ put_tab true (n ≫= panel) (put_tab false (o ≫= panel) c)) <-> n = Some t.
Proof. rewrite !panel_shown_put. tauto. Qed.
Lemma put_untouched o n t (c : gset nat) : t ∉ c -> n <> Some t -> t ∉ put_tab true n (put_tab false o c).
Proof. rewrite !elem_of_put_tab. tauto. Qed.

Lemma opened c s s1 : inv s -> opening c s s1 -> inv (snd (toggle panel allows c s1)).
Proof.
  intros Hi (Hr & Ho & Hne & Hn & Hc). pose proof (idle_none s Hi Hr) as Ha.
  unfold core_same, core in Hc. cbn in Hc. injection Hc as E1 E2 E3 E4 E5 E6 E7 E8 E9 E10 E11 E12.
  eapply inv_core; [apply toggle_after; by rewrite E9|].
  assert (Hcl : forall t, t ∈ tabs s -> t ∈ active_class s <-> oldTab c = Some t).
  { intros t Ht. pose proof (inv_class s Hi t Ht) as H. by rewrite Ha, <- Ho in H. }
  assert (Hsh : forall t, t ∈ tabs s -> panel_shown s t <-> oldTab c = Some t).
  { intros t Ht. pose proof (inv_shown s Hi t Ht) as H. by rewrite Ha, <- Ho in H. }
  assert (Hex : forall t, t ∈ tabs s -> t ∈ expanded s <-> oldTab c = Some t).
  { intros t Ht. rewrite Ho. by apply inv_expanded. }
  assert (Hfr : forall t, t ∈ children s -> t ∈ tabs s \/
    (t ∉ active_class s /\ t ∉ expanded s /\ oldTab c <> Some t /\ newTab c <> Some t)).
  { intros t Ht. destruct (decide (t ∈ tabs s)) as [|Hnt]; [by left|right].
    destruct (inv_fresh s Hi t Ht) as [|(H1 & H2 & H3 & _)]; [done|]. rewrite Ho. split_and!; try done.
    intros H. by apply Hnt, Hn. }
  destruct Hi. clear inv_fresh0 inv_class0 inv_shown0 inv_expanded0 inv_change0.
  unfold after_toggle, after_show.
  destruct (there (oldTab c ≫= panel) && hide s1); [|destruct (there (newTab c ≫= panel) && show s1)];
    (constructor; unfold drawn, panel_shown, untouched in *; cbn; rewrite ?E1, ?E2, ?E3, ?E4, ?E5, ?E6, ?E7, ?E10, ?E11, ?E12;
     try done;
     [ intros t Ht; destruct (Hfr t Ht) as [|(H1 & H2 & H3 & H4)]; [by left|right];
       split_and!; [done || exact (put_untouched _ _ _ _ H1 H4)|exact (put_untouched _ _ _ _ H2 H4)|done|by intros ? [= <-]]
     | destruct (newTab c); cbn; eauto | ..]).
  all: try (intros t Ht; by apply put_open, Hex).
  all: try (intros t Ht; by apply put_open, Hcl).
  all: try (intros t Ht; by apply put_open_panel, Hsh).
  all: try (intros ? [= <-]; split; [done|by left]).
  - intros t Ht ?%Hcl; [by left|done].
  - intros t Ht ?%Hsh; [by left|done].
Qed.

(** *** Opening a tab *)

Lemma bind_done {A B} (m : eff tabs_state A) (f : A -> eff tabs_state B) s a :
  fst (m s) = Ok a -> (m ≫= f) s = f a (snd (m s)).
Proof. unfold mbind, eff_bind. destruct (m s) as [r s']. by intros [= ->]. Qed.

Lemma abort_done id s : fst (abort id s) = Ok tt.
Proof. unfold abort. rewrite eff_bind_get. by destruct (list_find _ _) as [[? [? ?]]|]. Qed.
Lemma load_done i s : is_Some (eq_ (tabs s) i) -> fst (load is_local allows i s) = Ok tt.
Proof.
  intros [t Ht]. unfold load. rewrite eff_bind_get, Ht. destruct (is_local t); [done|].
  unfold trigger, upd. eff_cbn. by destruct (allows _ s).
Qed.

(** [eventHandler] leaves everything as it is, or opens what it is to open. *)
Lemma event_opens s t : t ∈ tabs s \/ active_tab s = Some t ->
  core_same s (snd (eventHandler panel is_local allows t s)) /\ fst (eventHandler panel is_local allows t s) = Ok tt \/
  (t ∉ disabled_class s /\ exists c s1, opening c s s1 /\ (newTab c = None \/ newTab c = Some t) /\
    eventHandler panel is_local allows t s = toggle panel allows c s1).
Proof.
  intros Ht. unfold eventHandler. rewrite eff_bind_get.
  set (clicked := bool_decide (active_tab s = Some t)). set (collapsing := clicked && collapsible s).
  set (c := {| oldTab := active_tab s; newTab := if collapsing then None else Some t |}).
  destruct (bool_decide (t ∈ disabled_class s)) eqn:Hd; [by left|]. apply bool_decide_eq_false in Hd.
  destruct (bool_decide (t ∈ loading_class s)); [by left|]. destruct (running s) eqn:Hr; [by left|].
  destruct (clicked && negb (collapsible s)) eqn:Hcc; [by left|]. cbn [orb].
  rewrite (bind_done _ _ _ (allows (EBeforeActivate c) s)) by done.
  destruct (allows _ s); [|by left]. right. split; [done|]. cbn [negb].
  set (s0 := snd (trigger allows (EBeforeActivate c) s)). unfold upd at 1. rewrite eff_bind_modify.
  set (s2 := s0 <| active := _ |> <| active_tab := _ |>).
  assert (Hne : oldTab c <> newTab c).
  { unfold c, collapsing, clicked in *. cbn. destruct (active_tab s) as [o|]; [|by case_bool_decide].
    case_bool_decide as Heq; [injection Heq as ->; by destruct (collapsible s)|]. done. }
  assert (Hn : forall x, newTab c = Some x -> x ∈ tabs s /\ x = t).
  { intros x. unfold c, collapsing, clicked in *. cbn. destruct (bool_decide _) eqn:Ha.
    - destruct (collapsible s); [done|]. done.
    - intros [= <-]. apply bool_decide_eq_false in Ha. destruct Ht; [done|done]. }
  assert (Hs2 : core_same (s <| active := index_of (tabs s) <$> newTab c |> <| active_tab := newTab c |>) s2).
  { unfold s2, s0, c, collapsing, clicked. unfold core_same, core. cbn.
    unfold clicked in Hcc. destruct (bool_decide _); destruct (collapsible s); done. }
  set (m := match xhr s with Some id => abort id | None => mret tt end).
  rewrite (bind_done m _ _ tt) by (unfold m; destruct (xhr s); [apply abort_done|done]).
  set (s3 := snd (m s2)).
  assert (Hs3 : core_same s2 s3) by (unfold s3, m; destruct (xhr s); [apply abort_core|done]).
  match goal with |- context [(?x ≫= _) s3] => set (l := x) end.
  assert (Hl : fst (l s3) = Ok tt /\ core_same s2 (snd (l s3))).
  { unfold l, getPanelForTab. destruct (newTab c) as [x|] eqn:Hx; cbn.
    - destruct (Hn x eq_refl) as [Hin ->]. destruct (proj1 Hpage t) as [p Hp]. rewrite Hp.
      assert (Ht3 : tabs s3 = tabs s). { by rewrite (core_tabs _ _ Hs3), (core_tabs _ _ Hs2). }
      assert (H : is_Some (eq_ (tabs s3) (index_of (tabs s) t))) by (by rewrite Ht3, eq_index_of).
      pose proof (load_core (index_of (tabs s) t) s3).
      destruct (active_tab s) as [o|]; cbn; [destruct (panel o)|]; (split; [by apply load_done|by etrans]).
    - destruct (oldTab c) as [o|] eqn:Ho; [|done]. destruct (proj1 Hpage o) as [p Hp]. cbn.
      unfold c in Ho. cbn in Ho. rewrite Ho. cbn. by rewrite Hp. }
  destruct Hl as [Hl1 Hl2]. rewrite (bind_done l _ _ tt) by done.
  exists c, (snd (l s3)). split_and!; [|destruct (newTab c) as [x|] eqn:Hx; [right|by left]|done].
  - unfold opening. split_and!; try done; [intros x Hx; by apply Hn|]. by etrans.
  - f_equal. by apply Hn.
Qed.

(** A step that keeps the invariant and the disabled tabs, and opens no
    disabled tab. *)
Definition good (s s' : tabs_state) : Prop :=
  inv s -> inv s' /\ disabled_class s' = disabled_class s /\
    (forall t, active_tab s' = Some t -> active_tab s = Some t \/ t ∉ disabled_class s).
#[local] Instance good_preorder : PreOrder good.
Proof.
  split; [intros s H; split_and!; auto|]. intros s1 s2 s3 H12 H23 Hi.
  destruct (H12 Hi) as (Hi2 & Hd2 & Ho2). destruct (H23 Hi2) as (Hi3 & Hd3 & Ho3).
  split_and!; [done|congruence|]. intros t [Ht|Ht]%Ho3; [by apply Ho2|right]. by rewrite <- Hd2.
Qed.

Lemma good_core s s' : core_same s s' -> good s s'.
Proof.
  intros Hc Hi. split; [by eapply inv_core|]. unfold core_same, core in Hc.
  injection Hc as _ _ _ H4 _ H6 _ _ _ _ _ _. split; [done|]. intros t. rewrite H4. by left.
Qed.
Lemma good_keeps {A} (m : eff tabs_state A) : keeps core_same m -> keeps good m.
Proof. intros H s. apply good_core, H. Qed.

Lemma opening_active c s s1 : anim s = None -> opening c s s1 ->
  active_tab (snd (toggle panel allows c s1)) = newTab c /\
  disabled_class (snd (toggle panel allows c s1)) = disabled_class s.
Proof.
  intros Hn (_ & _ & _ & _ & Hc).
  assert (Ha : anim s1 = None).
  { unfold core_same, core in Hc. cbn in Hc. by injection Hc as _ _ _ _ _ _ _ _ -> _ _ _. }
  pose proof (toggle_after c s1 Ha) as Hta. rewrite (core_active _ _ Hta), (core_class _ _ Hta).
  pose proof (core_active _ _ Hc) as E4. pose proof (core_class _ _ Hc) as E6. cbn in E4, E6.
  unfold after_toggle, after_show. by destruct (_ && hide s1).
Qed.

Lemma good_event s t : t ∈ tabs s \/ active_tab s = Some t -> good s (snd (eventHandler panel is_local allows t s)).
Proof.
  intros Ht Hi. destruct (event_opens s t Ht) as [[Hc _]|(Hd & c & s1 & Ho & Hn & ->)]; [by apply good_core|].
  split; [by apply (opened c s)|]. destruct (opening_active c s s1) as [-> ->]; [by apply idle_none, Ho|done|].
  split; [done|]. intros x. destruct Hn as [-> | ->]; [done|]. intros [= <-]. by right.
Qed.

Lemma toggle_done c s : fst (toggle panel allows c s) = Ok tt.
Proof.
  unfold toggle, class_off, toggle_show, toggle_complete, trigger, upd. rewrite eff_bind_modify, eff_bind_get.
  destruct (_ && _); [done|]. unfold mbind at 1, eff_bind at 1. rewrite !eff_bind_modify, eff_bind_get, eff_bind_modify.
  by destruct (_ && _).
Qed.
Lemma event_done t s : t ∈ tabs s \/ active_tab s = Some t -> fst (eventHandler panel is_local allows t s) = Ok tt.
Proof.
  intros Ht. destruct (event_opens s t Ht) as [[_ H]|(_ & c & s1 & _ & _ & ->)]; [done|apply toggle_done].
Qed.
Lemma activate_done i s : fst (activate panel is_local allows i s) = Ok tt.
Proof.
  unfold activate. rewrite eff_bind_get. destruct (bool_decide _); [done|].
  destruct (findActive s i) as [t|] eqn:Ht.
  - apply event_done. left. destruct i as [i|]; [|done]. by apply (eq_in _ i).
  - destruct (active_tab s) as [t|] eqn:Ha; [|done]. apply event_done. by right.
Qed.

Lemma good_activate i s : good s (snd (activate panel is_local allows i s)).
Proof.
  unfold activate. rewrite eff_bind_get. destruct (bool_decide _); [reflexivity|].
  destruct (findActive s i) as [t|] eqn:Ht.
  - apply good_event. left. destruct i as [i|]; [|done]. by apply (eq_in _ i).
  - destruct (active_tab s) as [t|] eqn:Ha; [|reflexivity]. apply good_event. by right.
Qed.

Lemma good_end : keeps good (animation_end panel allows).
Proof.
  intros s Hi. destruct (anim s) as [[c|c]|] eqn:Ha.
  - assert (Hr : running s = true) by (by rewrite (inv_running s Hi), Ha).
    destruct (inv_change s Hi c) as [Hne Hc]; [by rewrite Ha|].
    pose proof (show_after c s Hr Ha) as Hs.
    split; [|rewrite (core_active _ _ Hs), (core_class _ _ Hs); split; [done|by left]].
    eapply inv_core; [exact Hs|].
    assert (Hd : forall t (P : Prop), t ∈ tabs s -> (P -> oldTab c = Some t \/ active_tab s = Some t) ->
      (newTab c = Some t \/ (oldTab c <> Some t /\ P)) <-> active_tab s = Some t).
    { intros t P Ht HP. destruct Hc as [Hc|[Hc Hn]]; [rewrite Hc in *; naive_solver|].
      rewrite Hc in *. split; [intros [H|H]; [by destruct (Hn t)|naive_solver]|done]. }
    pose proof (inv_class s Hi) as Hcl. pose proof (inv_shown s Hi) as Hsh. unfold drawn in Hcl, Hsh. rewrite Ha in Hcl, Hsh.
    assert (Hfr : forall t, t ∈ children s -> t ∈ tabs s \/
      (t ∉ active_class s /\ t ∉ expanded s /\ active_tab s <> Some t /\ oldTab c <> Some t /\ newTab c <> Some t)).
    { intros t Ht. destruct (inv_fresh s Hi t Ht) as [|(H1 & H2 & H3 & H4)]; [by left|right].
      rewrite Ha in H4. by destruct (H4 c eq_refl). }
    unfold after_show. destruct Hi.
    destruct (there (newTab c ≫= panel) && show s);
      (constructor; unfold drawn, panel_shown, untouched; cbn; try done).
    all: try (intros ? [= <-]; done).
    all: try (intros t Ht; rewrite ?panel_shown_put, ?elem_of_put_tab; apply Hd; [done|by auto]).
    all: intros t Ht; destruct (Hfr t Ht) as [|(H1 & H2 & H3 & H4 & H5)]; [by left|right];
      (split_and!; try done; try exact (put_untouched _ _ _ _ H1 H5)); by intros ? [= <-].
  - assert (Hs : core_same (s <| running := false |> <| anim := None |>) (snd (animation_end panel allows s))).
    { unfold animation_end. by rewrite eff_bind_get, Ha. }
    split; [|rewrite (core_active _ _ Hs), (core_class _ _ Hs); split; [done|by left]].
    eapply inv_core; [exact Hs|]. destruct Hi. unfold drawn in *. rewrite Ha in *.
    constructor; unfold drawn; cbn; try done.
    intros t Ht. destruct (inv_fresh0 t Ht) as [|(H1 & H2 & H3 & H4)]; [by left|right]. by split_and!.
  - assert (Hs : core_same s (snd (animation_end panel allows s))); [|by apply good_core].
    unfold animation_end. by rewrite eff_bind_get, Ha.
Qed.

(** *** Disabling *)

Lemma disabled_fold d ts k c t :
  t ∈ fold_left (fun c '(i, t) => put (is_disabled d i) t c) (zip (seq k (length ts)) ts) c <->
  (t ∈ c /\ t ∉ ts) \/ (exists i, ts !! i = Some t /\ is_disabled d (k + i)%nat = true /\ forall j, (i < j)%nat -> ts !! j <> Some t).
Proof.
  revert k c. induction ts as [|t0 ts IH]; intros k c; cbn [length seq zip zip_with fold_left].
  - split; [intros H; left; split; [done|apply not_elem_of_nil]|]. by intros [[H _]|(i & H & _)].
  - rewrite IH, elem_of_put, not_elem_of_cons. split.
    + intros [[H Hn]|(i & Hi & Hd & Hl)].
      * destruct (is_disabled d k) eqn:Hk; [destruct H as [-> |H]|destruct H as [H1 H2]; by left].
        -- right. exists 0%nat. rewrite Nat.add_0_r. split_and!; [done..|]. intros [|j] Hj; [lia|]. cbn.
           intros Hj'. by apply Hn, (list_elem_of_lookup_2 _ j).
        -- destruct (decide (t = t0)) as [-> |]; [|by left].
           right. exists 0%nat. rewrite Nat.add_0_r. split_and!; [done..|]. intros [|j] Hj; [lia|]. cbn.
           intros Hj'. by apply Hn, (list_elem_of_lookup_2 _ j).
      * right. exists (S i). rewrite Nat.add_succ_r. split_and!; [done..|]. intros [|j] Hj; [lia|]. apply Hl. lia.
    + intros [(H & Hne & Hn)|([|i] & Hi & Hd & Hl)].
      * left. split; [|done]. destruct (is_disabled d k); [by right|done].
      * injection Hi as ->. rewrite Nat.add_0_r in Hd. rewrite Hd. left. split; [by left|].
        intros (j & Hj)%list_elem_of_lookup. by apply (Hl (S j)); [lia|].
      * right. exists i. rewrite Nat.add_succ_r in Hd. split_and!; [done..|]. intros j Hj. apply (Hl (S j)). lia.
Qed.

Lemma disabled_marks d ts c i t : NoDup ts -> ts !! i = Some t ->
  t ∈ fold_left (fun c '(i, t) => put (is_disabled d i) t c) (zip (seq 0 (length ts)) ts) c <-> is_disabled d i = true.
Proof.
  intros Hnd Hi. rewrite disabled_fold. split.
  - intros [[_ H]|(j & Hj & Hd & _)]; [by destruct H; apply (list_elem_of_lookup_2 _ i)|].
    by rewrite (NoDup_lookup _ _ _ _ Hnd Hi Hj).
  - intros Hd. right. exists i. split_and!; [done..|]. intros j Hj Hj'. pose proof (NoDup_lookup _ _ _ _ Hnd Hi Hj'). lia.
Qed.

(** Indexes of tabs, before they are put into their normal form. *)
Definition given (n : nat) (d : disabled_tabs) : Prop :=
  match d with DSome l => NoDup l /\ (forall i, i ∈ l -> 0 <= i < Z.of_nat n) | _ => True end.

Lemma given_length n l : NoDup l -> (forall i, i ∈ l -> 0 <= i < Z.of_nat n) -> (length l <= n)%nat.
Proof.
  intros Hnd Hr. replace n with (length (map Z.of_nat (seq 0 n))) by (by rewrite length_map, length_seq).
  apply submseteq_length, NoDup_submseteq; [done|]. intros i Hi%Hr. apply list_elem_of_fmap.
  exists (Z.to_nat i). split; [lia|]. apply elem_of_seq. lia.
Qed.
Lemma normal_sound n d : given n d -> sound n (normal_disabled n d).
Proof.
  destruct d as [| |l]; cbn; try done. intros [Hnd Hr]. destruct (Nat.eqb_spec (length l) 0); [done|].
  destruct (Nat.eqb_spec (length l) n); [done|]. pose proof (given_length n l Hnd Hr). cbn. split_and!; try done; lia.
Qed.

Lemma inv_set_disabled d s : inv s -> given (length (tabs s)) d -> inv (snd (setOptionDisabled d s)).
Proof.
  intros [] Hd. unfold setOptionDisabled. constructor; cbn; try done.
  - by apply normal_sound.
  - intros i t Ht. by apply disabled_marks.
Qed.

Lemma insert_text_perm i l : insert_text i l ≡ₚ i :: l.
Proof.
  induction l as [|j l IH]; cbn; [done|]. destruct (text_leb _ _); [done|]. rewrite IH. apply Permutation_swap.
Qed.
Lemma sort_texts_perm l : sort_texts l ≡ₚ l.
Proof. induction l as [|i l IH]; cbn; [done|]. by rewrite insert_text_perm, IH. Qed.

Lemma elem_of_list_filter (f : Z -> bool) l i : i ∈ List.filter f l <-> i ∈ l /\ f i = true.
Proof. by rewrite list_elem_of_In, filter_In, <- list_elem_of_In. Qed.
Lemma filter_nodup {A} (f : A -> bool) l : NoDup l -> NoDup (List.filter f l).
Proof.
  induction 1 as [|x l Hx Hnd IH]; cbn; [constructor|]. destruct (f x); [|done]. constructor; [|done].
  rewrite list_elem_of_In, filter_In, <- list_elem_of_In. by intros [? _].
Qed.
Lemma given_filter n f l : given n (DSome l) -> given n (DSome (List.filter f l)).
Proof.
  intros [Hnd Hr]. split; [by apply filter_nodup|]. intros i [Hi _]%elem_of_list_filter. by apply Hr.
Qed.
Lemma given_indexes n : given n (DSome (map Z.of_nat (seq 0 n))).
Proof.
  split; [apply NoDup_fmap; [intros x y; lia|apply NoDup_seq]|].
  intros i Hi. apply list_elem_of_fmap in Hi as (k & -> & Hk%elem_of_seq). lia.
Qed.
Lemma sound_given n d : sound n d -> given n d.
Proof. destruct d; cbn; naive_solver. Qed.

Lemma enable_given i s : inv s -> inv (snd (enable i s)) /\ active_tab (snd (enable i s)) = active_tab s.
Proof.
  intros Hi. pose proof (sound_given _ _ (inv_sound s Hi)) as Hg. unfold enable. rewrite eff_bind_get.
  destruct (disabled s) as [| |l]; [done|split; [|done]; apply inv_set_disabled..]; try done.
  - destruct i; [|done]. apply given_filter, given_indexes.
  - destruct i; [|done]. by apply given_filter.
Qed.

Definition in_range (n : nat) (i : option Z) : Prop := match i with Some i => 0 <= i < Z.of_nat n | None => True end.
Lemma disable_given i s : inv s -> in_range (length (tabs s)) i ->
  inv (snd (disable i s)) /\ active_tab (snd (disable i s)) = active_tab s.
Proof.
  intros Hi Hr. pose proof (sound_given _ _ (inv_sound s Hi)) as Hg. unfold disable. rewrite eff_bind_get.
  destruct (disabled s) as [| |l]; [|done|]; destruct i as [i|]; try (split; [by apply inv_set_disabled|done]).
  - cbn [in_disabled]. split; [|done]. apply inv_set_disabled; [done|]. split; [apply NoDup_singleton|].
    by intros j ->%list_elem_of_singleton.
  - destruct (in_disabled i (DSome l)) eqn:Hin; [done|]. split; [|done]. apply inv_set_disabled; [done|].
    cbn in Hin. apply bool_decide_eq_false in Hin. destruct Hg as [Hnd Hrl]. split.
    + rewrite sort_texts_perm. by constructor.
    + intros j. rewrite sort_texts_perm, elem_of_cons. intros [-> |Hj]; [done|by apply Hrl].
Qed.

(** *** Drawing the list anew *)

(** What is needed of a list of tabs that has been read and not yet drawn. *)
Record listed (s : tabs_state) : Prop := {
  ls_tabs : NoDup (tabs s);
  ls_children : children s = tabs s;
  ls_active : match active_tab s with
              | None => active s = None
              | Some t => exists i, active s = Some i /\ (t ∈ tabs s -> i = index_of (tabs s) t)
              end;
  ls_running : running s = bool_decide (is_Some (anim s));
  ls_class : forall t, t ∈ tabs s -> t ∈ active_class s ->
    active_tab s = Some t \/ exists c, anim s = Some (Hiding c) /\ oldTab c = Some t;
  ls_change : forall c, changing (anim s) = Some c ->
    oldTab c <> newTab c /\
    (newTab c = active_tab s \/ (active_tab s = None /\ forall t, newTab c = Some t -> t ∉ tabs s));
  ls_given : given (length (tabs s)) (disabled s);
  ls_hung : hung s = false;
}.

Lemma listed_core s s' : core_same s s' -> listed s -> listed s'.
Proof.
  unfold core_same, core. intros [= H1 H2 H3 H4 H5 H6 H7 H8 H9 H10 H11 H12] [].
  constructor; rewrite ?H1, ?H2, ?H3, ?H4, ?H5, ?H6, ?H7, ?H8, ?H9, ?H10, ?H11; done.
Qed.

Definition others (s : tabs_state) : list nat :=
  List.filter (fun t => negb (bool_decide (Some t = active_tab s))) (tabs s).
Definition hidden (s : tabs_state) : list nat :=
  List.filter (fun p => negb (bool_decide (Some p = getPanelForTab panel (active_tab s)))) (panels panel s).

Lemma refresh_core s : core_same
  ((snd (setOptionDisabled (disabled s) s))
     <| expanded := put_tab true (active_tab s) (put_all false (others s) (expanded s)) |>
     <| shown := put_tab true (active_tab s ≫= panel) (put_all false (hidden s) (shown s)) |>
     <| active_class := put_tab true (active_tab s) (active_class s) |>)
  (snd (refresh_ panel s)).
Proof.
  unfold refresh_, setOptionDisabled, upd. rewrite eff_bind_get, !eff_bind_modify. unfold core_same, core. cbn.
  destruct (active_tab s) as [t|] eqn:Ha; cbn.
  - unfold others, hidden, getPanelForTab. rewrite Ha. destruct (proj1 Hpage t) as [p Hp]. cbn. rewrite Hp. reflexivity.
  - unfold others, hidden, getPanelForTab. rewrite Ha. destruct (head (tabs s)); reflexivity.
Qed.

Lemma elem_of_others s t : t ∈ others s <-> t ∈ tabs s /\ active_tab s <> Some t.
Proof.
  unfold others. rewrite list_elem_of_In, filter_In, <- list_elem_of_In, negb_true_iff, bool_decide_eq_false. naive_solver.
Qed.
Lemma elem_of_hidden s t p : t ∈ tabs s -> panel t = Some p -> p ∈ hidden s <-> active_tab s <> Some t.
Proof.
  intros Ht Hp. unfold hidden. rewrite list_elem_of_In, filter_In, <- list_elem_of_In, negb_true_iff, bool_decide_eq_false.
  assert (H : getPanelForTab panel (active_tab s) = Some p <-> active_tab s = Some t).
  { unfold getPanelForTab. destruct (active_tab s) as [t'|]; cbn; [|done]. split; [|by intros [= ->]].
    intros Hp'. f_equal. by apply (proj2 Hpage t' t p). }
  assert (Hin : p ∈ panels panel s) by (apply list_elem_of_omap; by exists t).
  naive_solver.
Qed.

Lemma refresh_draws s : listed s -> inv (snd (refresh_ panel s)) /\ active_tab (snd (refresh_ panel s)) = active_tab s.
Proof.
  intros Hl. pose proof (refresh_core s) as Hc. split; [|by rewrite (core_active _ _ Hc)].
  eapply inv_core; [exact Hc|].
  assert (Hcl : forall t, t ∈ tabs s -> t ∈ put_tab true (active_tab s) (active_class s) ->
    active_tab s = Some t \/ exists c, anim s = Some (Hiding c) /\ oldTab c = Some t).
  { intros t Ht. rewrite elem_of_put_tab. intros [H|H]; [by left|by apply (ls_class s Hl)]. }
  assert (Hsh : forall t, t ∈ tabs s ->
    (exists p, panel t = Some p /\ p ∈ put_tab true (active_tab s ≫= panel) (put_all false (hidden s) (shown s)))
    <-> active_tab s = Some t).
  { intros t Ht. rewrite (panel_shown_put true). split; [|by left]. intros [H|(p & Hp & Hin)]; [done|].
    rewrite elem_of_put_all in Hin. destruct Hin as [Hn _]. rewrite (elem_of_hidden s t) in Hn by done.
    destruct (decide (active_tab s = Some t)); [done|]. by destruct Hn. }
  assert (Hex : forall t, t ∈ tabs s ->
    t ∈ put_tab true (active_tab s) (put_all false (others s) (expanded s)) <-> active_tab s = Some t).
  { intros t Ht. rewrite elem_of_put_tab, elem_of_put_all, elem_of_others. split; [|by left].
    intros [H|[Hn _]]; [done|]. destruct (decide (active_tab s = Some t)); [done|]. by destruct Hn. }
  destruct Hl. constructor; unfold drawn, panel_shown; cbn; try done.
  - by rewrite ls_children0.
  - intros t Ht. left. by rewrite <- ls_children0.
  - intros t Ht. specialize (Hcl t Ht). destruct (anim s) as [[c|c]|].
    + intros [H|(c' & [= <-] & H)]%Hcl; [by right|by left].
    + split; [intros [H|(c' & ? & H)]%Hcl; [done|done]|]. intros ->. rewrite elem_of_put_tab. by left.
    + split; [intros [H|(c' & ? & H)]%Hcl; [done|done]|]. intros ->. rewrite elem_of_put_tab. by left.
  - intros t Ht. specialize (Hsh t Ht). destruct (anim s) as [[c|c]|]; try done. rewrite Hsh. by right.
  - by apply normal_sound.
  - intros i t Ht. by apply disabled_marks.
Qed.

Lemma listed_idle s : listed s -> running s = false -> anim s = None.
Proof.
  intros Hi Hr. rewrite (ls_running s Hi) in Hr. destruct (anim s); [|done].
  by rewrite bool_decide_true in Hr by done.
Qed.

Lemma opened_listed c s s1 : listed s -> opening c s s1 -> listed (snd (toggle panel allows c s1)).
Proof.
  intros Hl (Hr & Ho & Hne & Hn & Hc). pose proof (listed_idle s Hl Hr) as Ha.
  unfold core_same, core in Hc. cbn in Hc. injection Hc as E1 E2 E3 E4 E5 E6 E7 E8 E9 E10 E11 E12.
  eapply listed_core; [apply toggle_after; by rewrite E9|].
  assert (Hcl : forall t, t ∈ tabs s -> t ∈ active_class s -> oldTab c = Some t).
  { intros t Ht Hin. destruct (ls_class s Hl t Ht Hin) as [H|(c' & H & _)]; [by rewrite Ho|by rewrite Ha in H]. }
  assert (Hcl2 : forall t, t ∈ tabs s -> t ∈ put_tab true (newTab c) (put_tab false (oldTab c) (active_class s)) ->
    newTab c = Some t).
  { intros t Ht. rewrite !elem_of_put_tab. intros [H|[H Hin]]; [done|]. by destruct H; apply Hcl. }
  destruct Hl. unfold after_toggle, after_show.
  destruct (there (oldTab c ≫= panel) && hide s1); [|destruct (there (newTab c ≫= panel) && show s1)];
    (constructor; cbn; rewrite ?E1, ?E2, ?E3, ?E4, ?E5, ?E7, ?E10; try done; [destruct (newTab c); cbn; eauto|..]).
  all: try (intros ? [= <-]; split; [done|by left]).
  - intros t Ht Hin. right. exists c. split; [done|by apply Hcl].
  - intros t Ht Hin. left. by apply Hcl2.
  - intros t Ht Hin. left. by apply Hcl2.
Qed.

Lemma listed_activate i s : listed s ->
  listed (snd (activate panel is_local allows i s)) /\
  (forall t, active_tab (snd (activate panel is_local allows i s)) = Some t -> active_tab s = Some t \/ t ∉ disabled_class s).
Proof.
  intros Hl.
  assert (He : forall t, t ∈ tabs s \/ active_tab s = Some t ->
    listed (snd (eventHandler panel is_local allows t s)) /\
    (forall x, active_tab (snd (eventHandler panel is_local allows t s)) = Some x ->
      active_tab s = Some x \/ x ∉ disabled_class s)).
  { intros t Ht. destruct (event_opens s t Ht) as [[Hc _]|(Hd & c & s1 & Ho & Hn & ->)].
    - split; [by eapply listed_core|]. rewrite (core_active _ _ Hc). by left.
    - split; [by apply (opened_listed c s)|].
      destruct (opening_active c s s1) as [-> _]; [by apply listed_idle, Ho|done|].
      intros x. destruct Hn as [-> | ->]; [done|]. intros [= <-]. by right. }
  unfold activate. rewrite eff_bind_get. destruct (bool_decide _); [split; [done|by left]|].
  destruct (findActive s i) as [t|] eqn:Ht.
  - apply He. left. destruct i as [i|]; [|done]. by apply (eq_in _ i).
  - destruct (active_tab s) as [t|] eqn:Ha; [|split; [done|intros x Hx; cbn in Hx; congruence]]. rewrite <- Ha in He |- *. apply He. by right.
Qed.

(** The tabs that are read from the list, as [refresh] does at first. *)
Definition read (s : tabs_state) : tabs_state :=
  s <| disabled := DSome (map (index_of (children s)) (List.filter (fun t => bool_decide (t ∈ disabled_class s)) (children s))) |>
    <| tabs := children s |> <| in_order := put_all false (children s) (in_order s) |>.

Lemma read_given l (f : nat -> bool) : NoDup l -> given (length l) (DSome (map (index_of l) (List.filter f l))).
Proof.
  intros Hnd. assert (Hin : forall t, t ∈ List.filter f l -> t ∈ l).
  { intros t. rewrite list_elem_of_In, filter_In, <- list_elem_of_In. by intros [? _]. }
  split.
  - assert (Hf : NoDup (List.filter f l)) by (by apply filter_nodup). revert Hin Hf.
    generalize (List.filter f l) as k. induction k as [|x k IH]; cbn; [constructor|].
    intros Hin [Hx Hk]%NoDup_cons. constructor.
    + intros Hi. apply list_elem_of_fmap in Hi as (y & Hy & Hyk).
      apply index_of_inj in Hy; [by subst|apply Hin; by left|apply Hin; by right].
    + apply IH; [intros t Ht; apply Hin; by right|done].
  - intros i Hi. apply list_elem_of_fmap in Hi as (t & -> & Ht%Hin).
    destruct (index_of_spec l t Ht) as (j & -> & Hj). apply lookup_lt_Some in Hj. lia.
Qed.

(** What [refresh] does between reading the list and drawing it. *)
Lemma listed_with s a t : inv s ->
  match t with
  | None => a = None /\ (forall x, active_tab s = Some x -> x ∉ children s)
  | Some t => active_tab s = Some t /\ exists i, a = Some i /\ (t ∈ children s -> i = index_of (children s) t)
  end ->
  listed ((read s) <| active := a |> <| active_tab := t |>).
Proof.
  intros Hi Ht.
  assert (Hsame : forall x, x ∈ children s -> active_tab s = Some x -> t = Some x).
  { intros x Hx Ha. destruct t as [t|]; [by destruct Ht as [<- _]|]. by destruct (proj2 Ht x Ha). }
  assert (Hfr := inv_fresh s Hi). pose proof (inv_class s Hi) as Hcl. unfold drawn in Hcl.
  pose proof (inv_change s Hi) as Hch. destruct Hi. constructor; cbn; try done.
  - destruct t as [t|]; [by apply Ht|by apply Ht].
  - intros x Hx Hin. destruct (Hfr x Hx) as [Hold|(H & _)]; [|done]. specialize (Hcl x Hold).
    destruct (anim s) as [[c|c]|].
    + destruct (Hcl Hin) as [H|H]; [right; by exists c|left; by apply Hsame].
    + left. apply Hsame; [done|]. by apply Hcl.
    + left. apply Hsame; [done|]. by apply Hcl.
  - intros c Hc. destruct (Hch c Hc) as [Hne Hcc]. split; [done|].
    assert (Hnew : active_tab s = None -> forall x, newTab c = Some x -> x ∉ children s).
    { intros Hn x Hx Hin. destruct Hcc as [H|[_ H]]; [congruence|].
      destruct (Hfr x Hin) as [Hold|(_ & _ & _ & Hu)]; [by apply (H x)|]. by apply (Hu c Hc). }
    destruct t as [t|]; [left; destruct Hcc as [H|[H _]]; destruct Ht as [Ht _]; congruence|].
    right. split; [done|]. intros x Hx. destruct (active_tab s) as [y|] eqn:Ha; [|by apply Hnew].
    destruct Hcc as [H|[H _]]; [|done]. rewrite H in Hx. injection Hx as <-. by apply Ht.
  - by apply read_given.
Qed.

Lemma draws_then s1 s o (m : eff tabs_state unit) :
  fst (m s1) = Ok tt -> listed (snd (m s1)) ->
  (forall t, active_tab (snd (m s1)) = Some t -> o = Some t \/ t ∉ disabled_class s) ->
  inv (snd ((m ;; refresh_ panel) s1)) /\
  (forall t, active_tab (snd ((m ;; refresh_ panel) s1)) = Some t -> o = Some t \/ t ∉ disabled_class s).
Proof.
  intros Hok Hl Ho. rewrite (bind_done m _ _ tt) by done. destruct (refresh_draws _ Hl) as [Hi ->]. done.
Qed.

Lemma refresh_inv s : inv s ->
  inv (snd (refresh panel is_local allows s)) /\
  (forall t, active_tab (snd (refresh panel is_local allows s)) = Some t -> active_tab s = Some t \/ t ∉ disabled_class s).
Proof.
  intros Hi. unfold refresh, processTabs, upd. rewrite !eff_bind_modify, eff_bind_get.
  match goal with |- context [(?m ≫= _) ?x] => change x with (read s) end.
  assert (Hnone : forall m : eff tabs_state unit, (forall x, active_tab s = Some x -> x ∉ children s) ->
    m (read s) = (Ok tt, (read s) <| active := None |> <| active_tab := None |>) ->
    inv (snd ((m ;; refresh_ panel) (read s))) /\
    (forall t, active_tab (snd ((m ;; refresh_ panel) (read s))) = Some t -> active_tab s = Some t \/ t ∉ disabled_class s)).
  { intros m Hx Hm. apply draws_then; rewrite Hm; [done|by apply listed_with|done]. }
  change (active (read s)) with (active s). change (tabs (read s)) with (children s).
  change (active_tab (read s)) with (active_tab s). change (children (read s)) with (children s).
  pose proof (inv_active s Hi) as Ha.
  destruct (active s) as [i|] eqn:Hai.
  2:{ apply Hnone; [|done]. intros x Hx. rewrite Hx in Ha. by destruct Ha as (? & ? & _). }
  destruct (children s) as [|x0 xs] eqn:Hch; [apply Hnone; [|done]; intros; apply not_elem_of_nil|]. rewrite <- Hch in *.
  destruct (active_tab s) as [t|] eqn:Hat; [|done].
  assert (Hl : forall a, (t ∈ children s -> a = index_of (children s) t) ->
    listed ((read s) <| active := Some a |> <| active_tab := Some t |>)).
  { intros a Hin. apply listed_with; [done|]. split; [done|]. by exists a. }
  destruct (bool_decide (t ∈ children s)) eqn:Hin.
  - apply draws_then; [done| |intros y Hy; left; cbn in Hy; congruence].
    eapply listed_core; [|apply (Hl _ ltac:(done))]. unfold core_same, core. cbn. by rewrite Hat.
  - apply bool_decide_eq_false in Hin.
    destruct (length (children s) =? _)%nat eqn:Hlen; [apply Hnone; [intros x [= <-]; done|done]|].
    apply Nat.eqb_neq in Hlen. pose proof (inv_children s Hi) as Hnd.
    set (d := read s). assert (Hld : listed d).
    { eapply listed_core; [|apply (Hl i ltac:(done))]. unfold core_same, core. cbn. by rewrite Hat, Hai. }
    destruct (find_next_free d (0 `max` (i - 1)) false) as [j Hj].
    { intros l Hd. pose proof (ls_given d Hld) as Hg. rewrite Hd in Hg. destruct Hg as [Hg1 Hg2].
      split_and!; try done. pose proof (given_length _ _ Hg1 Hg2) as Hle. change (tabs d) with (children s) in *.
      unfold d in Hd. rewrite Hd in Hlen. lia. }
    rewrite Hj. pose proof (listed_activate (Some j) d Hld) as [Hl2 Ho2].
    apply draws_then; [apply activate_done|done|]. intros y Hy. destruct (Ho2 y Hy) as [H|H]; [left|by right].
    change (active_tab d) with (active_tab s) in H. congruence.
Qed.

(** *** Everything that can happen *)

Lemma good_focus i forward : keeps good (focusNextTab i forward).
Proof.
  intros s Hi. unfold focusNextTab. rewrite eff_bind_get.
  destruct (find_next_free s i forward) as [j ->].
  { intros l Hd. pose proof (inv_sound s Hi) as Hs. rewrite Hd in Hs. destruct Hs as (? & ? & ?). split_and!; [done..|lia]. }
  apply (good_core s); [|done]. unfold await, upd, core_same, core. eff_cbn. by destruct (eq_ (tabs s) j).
Qed.

Ltac good_step :=
  match goal with
  | |- forall _, _ => intro
  | |- keeps _ (let _ := _ in _) => cbv zeta
  | |- keeps _ get => apply keeps_get, _
  | |- keeps _ (focusNextTab _ _) => apply good_focus
  | |- keeps _ (activate _ _ _ _) => intros ?s; apply good_activate
  | |- keeps _ (delay _) => apply good_keeps; unfold delay; core_all
  | |- keeps _ (trigger _ _) => apply good_keeps, tab_trigger_core
  | |- keeps _ (load_complete _ _) => apply good_keeps, load_complete_core
  | |- keeps _ (upd (fun s => match ?x with _ => _ end)) => apply good_keeps; core_all
  | |- keeps _ (upd _) => apply good_keeps; core_all
  | |- keeps _ (_ ≫= _) => apply (keeps_bind good)
  | |- keeps _ (mret _) => apply keeps_ret, _
  | |- keeps _ (match ?x with _ => _ end) => destruct x
  end.
Ltac good_all := repeat good_step.

Lemma good_nav e : keeps good (handlePageNav panel is_local allows e).
Proof. unfold handlePageNav. good_all. Qed.
Lemma good_tab_key t e : keeps good (tabKeydown panel is_local allows t e).
Proof. unfold tabKeydown, clear_activating, set_selected. repeat (good_step || apply good_nav). Qed.
Lemma good_panel_key e : keeps good (panelKeydown panel is_local allows e).
Proof. unfold panelKeydown. repeat (good_step || apply good_nav). Qed.
Lemma good_handler h : keeps good h -> keeps good (handler h).
Proof. intros Hh. unfold handler. good_all; exact Hh. Qed.
Lemma good_fire id : keeps good (fire panel is_local allows id).
Proof. unfold fire, run_job, set_active. good_all. Qed.
Lemma good_collapsible v : keeps good (set_collapsible panel is_local allows v).
Proof. unfold set_collapsible. good_all. Qed.

(** What the page may ask for: to disable tabs there are, each once, and to put
    tabs into the list that are new to the widget. *)
Definition legal (s : tabs_state) (i : tab_input) : Prop :=
  match i with
  | SetDisabled d => given (length (tabs s)) d
  | Disable i => in_range (length (tabs s)) i
  | ChangeList l _ => NoDup l /\ forall t, t ∈ l -> t ∈ tabs s \/ untouched s t
  | _ => True
  end.

Abbreviation after i s := (snd (tab_step panel is_local allows i s)).
Lemma step_good s i : inv s -> legal s i ->
  inv (after i s) /\ (forall t, active_tab (after i s) = Some t -> active_tab s = Some t \/ t ∉ disabled_class s).
Proof.
  intros Hi Hl. unfold tab_step. rewrite eff_bind_get, (inv_hung s Hi). unfold on_input. rewrite eff_bind_get.
  assert (Hg : forall m : eff tabs_state unit, good s (snd (m s)) -> inv (snd (m s)) /\
    (forall t, active_tab (snd (m s)) = Some t -> active_tab s = Some t \/ t ∉ disabled_class s)).
  { intros m Hm. destruct (Hm Hi) as (? & _ & ?). done. }
  assert (Hsame : forall m : eff tabs_state unit, inv (snd (m s)) /\ active_tab (snd (m s)) = active_tab s -> inv (snd (m s)) /\
    (forall t, active_tab (snd (m s)) = Some t -> active_tab s = Some t \/ t ∉ disabled_class s)).
  { intros m [? Hm]. split; [done|]. rewrite Hm. by left. }
  destruct i as [t|t|e|e|i|v|d|i|i|l marks| |i|id ok|id| ].
  - destruct (bool_decide (t ∈ tabs s)) eqn:Ht; [|split; [done|by left]]. apply bool_decide_eq_true in Ht.
    apply Hg. unfold handler. rewrite eff_bind_get. destruct (disabled s); try reflexivity; apply good_event; by left.
  - by apply Hg, good_core.
  - destruct (focus s) as [t|]; [|split; [done|by left]].
    destruct (bool_decide _); [|split; [done|by left]]. apply Hg, good_handler, good_tab_key.
  - apply Hg, good_handler, good_panel_key.
  - apply Hg, good_activate.
  - apply Hg, good_collapsible.
  - apply Hsame. split; [|done]. by apply (inv_set_disabled d s).
  - by apply Hsame, enable_given.
  - by apply Hsame, disable_given.
  - apply Hsame. split; [|done]. destruct Hl as [Hnd Hl]. destruct Hi.
    constructor; cbn; try done. intros i t Ht. rewrite <- (inv_disabled0 i t Ht), elem_of_union, elem_of_difference, elem_of_list_to_set.
    split; [|by left]. intros [H|[_ H]]; [done|]. by destruct H; apply (list_elem_of_lookup_2 _ i).
  - by apply refresh_inv.
  - apply Hg, good_core, load_core.
  - apply Hg, good_core, respond_core.
  - apply Hg, good_fire.
  - apply Hg, good_end.
Qed.

(** *** Creation *)

Lemma initial_exists ts collapse o located marked : NoDup ts -> ts <> [] ->
  match initialActive ts collapse o located marked with
  | None => True
  | Some i => exists t, eq_ ts i = Some t /\ i = index_of ts t
  end.
Proof.
  intros Hnd Hne. assert (H0 : exists t, eq_ ts 0 = Some t /\ 0 = index_of ts t).
  { destruct ts as [|t ts]; [done|]. exists t. split; [done|]. symmetry. by apply index_of_eq. }
  unfold initialActive. set (g := match o with INull => _ | IFalse => _ | IIndex _ => _ end). clearbody g.
  destruct ts as [|t ts]; [done|]. set (l := t :: ts) in *.
  destruct g as [i|]; [|by destruct collapse].
  destruct (eq_ l i) as [x|] eqn:Hx; [|by destruct collapse].
  exists x. split; [|done]. apply eq_index_of. by apply (eq_in _ i).
Qed.

(** At most the tab that becomes active has the class of active tabs. *)
Definition well_marked ts collapse o located (marked : gset nat) : Prop :=
  forall t, t ∈ ts -> t ∈ marked -> initialActive ts collapse o located marked = Some (index_of ts t).

Lemma create_inv ts collapse h sh o all located marked displayed s0 :
  NoDup ts -> ts <> [] -> well_marked ts collapse o located marked ->
  inv (snd (create panel is_local allows ts collapse h sh o all located marked displayed s0)).
Proof.
  intros Hnd Hne Hm. unfold create, processTabs, upd. rewrite !eff_bind_modify.
  pose proof (initial_exists ts collapse o located marked Hnd Hne) as Hx.
  match goal with |- context [(refresh_ panel ≫= ?f) ?s] => set (k := f); set (s1 := s) end.
  assert (Hl : listed s1).
  { unfold s1. destruct (initialActive ts collapse o located marked) as [i|] eqn:Hi.
    - destruct Hx as (t & Ht & ->). destruct ts as [|t0 ts]; [done|]. rewrite Ht.
      constructor; cbn; try done; [by eexists| |by destruct all].
      intros x Hin Hmk. left. pose proof (Hm x Hin Hmk) as Hmx. rewrite Hi in Hmx. injection Hmx as Hmx.
      f_equal. apply index_of_inj in Hmx; [done|by apply (eq_in _ _ _ Ht)|done].
    - constructor; cbn; try done; [|by destruct all].
      intros x Hin Hmk. specialize (Hm x Hin Hmk). congruence. }
  destruct (refresh_draws s1 Hl) as [Hi _].
  assert (Hok : fst (refresh_ panel s1) = Ok tt) by reflexivity.
  rewrite (bind_done _ _ _ tt) by done. unfold k. rewrite eff_bind_get.
  destruct (active_tab _); [|done]. destruct (active _) as [i|]; [|done]. eapply inv_core; [apply load_core|done].
Qed.
End Tabs.

(** A widget that was created on at least one tab and then used. *)
Inductive reachable panel is_local allows : tabs_state -> Prop :=
  | R_create ts collapse h sh o all located marked displayed s0 :
      NoDup ts -> ts <> [] -> well_marked ts collapse o located marked ->
      reachable panel is_local allows (snd (create panel is_local allows ts collapse h sh o all located marked displayed s0))
  | R_step s i :
      reachable panel is_local allows s -> legal s i ->
      reachable panel is_local allows (snd (tab_step panel is_local allows i s)).

Lemma reachable_inv panel is_local allows s : page_ok panel -> reachable panel is_local allows s -> inv panel s.
Proof.
  intros Hp. induction 1 as [ts collapse h sh o all located marked displayed s0 ? ? ?|s i _ IH Hl].
  - by apply create_inv.
  - by apply step_good.
Qed.
