(* ===== verification/TabsProps.v ===== *)
(** Theorems about [$.ui.tabs] (Tabs): the loop over disabled tabs, and one
    panel that is shown, that of the active tab, however tabs are opened, closed,
    disabled, added and removed. *)
From Stdlib Require Import String.
From stdpp Require Import gmap sets.
From S2P Require Import Prelude JsString Collections Tabs TabsInv.

(** ** Theorems *)

(** C11. However tabs are clicked, reached by keys, opened by the program, disabled,
    added, removed and loaded, with or without animations: no loop hangs, the
    option [active] is the index of the active tab, and between animations the
    active tab, and no other, is marked as active, announced as expanded, and
    shows its panel. *)
Theorem one_panel panel is_local allows s :
  page_ok panel -> reachable panel is_local allows s ->
  hung s = false /\
  match active_tab s with
  | None => active s = None
  | Some t => t ∈ tabs s -> active s = Some (index_of (tabs s) t)
  end /\
  (running s = false -> forall t, t ∈ tabs s ->
    (t ∈ active_class s <-> active_tab s = Some t) /\
    (t ∈ expanded s <-> active_tab s = Some t) /\
    (panel_shown panel s t <-> active_tab s = Some t)).
Proof.
  intros Hp Hr. apply (reachable_inv _ _ _ _ Hp) in Hr. split_and!; [apply Hr| |].
  - pose proof (inv_active _ _ Hr) as Ha. destruct (active_tab s) as [t|]; [|done].
    destruct Ha as (i & -> & Hi). intros Ht. by rewrite Hi.
  - intros Hrun t Ht. pose proof (inv_class _ _ Hr t Ht) as H1. pose proof (inv_shown _ _ Hr t Ht) as H2.
    rewrite (idle_none _ s Hr Hrun) in H1, H2. split_and!; [done|by apply (inv_expanded _ _ Hr)|done].
Qed.

(** C12. Nothing that happens opens a tab that is disabled: a tab that has become
    the active one had no class that disables it, and the option [disabled] did
    not name it. *)
Theorem disabled_not_opened panel is_local allows s i t :
  page_ok panel -> reachable panel is_local allows s -> legal s i ->
  let s' := snd (tab_step panel is_local allows i s) in
  active_tab s' = Some t -> active_tab s <> Some t ->
  t ∉ disabled_class s /\ forall k, tabs s !! k = Some t -> is_disabled (disabled s) k = false.
Proof.
  intros Hp Hr Hl s' Ht Hne. apply (reachable_inv _ _ _ _ Hp) in Hr.
  destruct (step_good panel is_local allows Hp s i Hr Hl) as [_ Ho]. destruct (Ho t Ht) as [|Hd]; [done|].
  split; [done|]. intros k Hk. apply not_true_is_false. by rewrite <- (inv_disabled _ _ Hr k t Hk).
Qed.

(** C13. [_findNextTab] gives the first tab, going round in the given direction
    from the given one, that is not disabled: everything before it is.  It does
    not end only if all tabs are disabled one by one, which does not happen in a
    widget that is used as it should. *)
Theorem next_tab s index forward : tabs s <> [] ->
  let n := length (tabs s) in
  let at_ := ahead n (constrain n index) forward in
  match findNextTab s index forward with
  | Some i => exists k, 0 <= k < Z.of_nat n /\ i = at_ k /\ in_disabled i (disabled s) = false /\
      forall m, 0 <= m < k -> in_disabled (at_ m) (disabled s) = true
  | None => forall i, 0 <= i < Z.of_nat n -> in_disabled i (disabled s) = true
  end /\
  forall panel is_local allows, page_ok panel -> reachable panel is_local allows s -> is_Some (findNextTab s index forward).
Proof.
  intros Hne n at_. assert (Hn : (0 < n)%nat) by (unfold n; by destruct (tabs s); [|cbn; lia]).
  pose proof (constrain_range n index Hn) as Hc. split.
  - pose proof (find_loop_spec (S n) n (disabled s) index forward Hn) as H. unfold findNextTab. fold n at_ in H |- *.
    destruct (find_loop (S n) n (disabled s) index forward) as [i|].
    + destruct H as (k & Hk & Hi & Hd & Hm). exists k. split_and!; try done; [lia|].
      destruct (Z.lt_ge_cases k (Z.of_nat n)) as [|Hge]; [done|exfalso].
      destruct (ahead_surj n (constrain n index) forward i Hc) as (k' & Hk' & He).
      { rewrite Hi. unfold at_, ahead. apply Z.mod_pos_bound. lia. }
      specialize (Hm k' ltac:(lia)). unfold at_ in Hm. rewrite He in Hm. congruence.
    + intros i Hi. destruct (ahead_surj n (constrain n index) forward i Hc Hi) as (k & Hk & <-). apply H. lia.
  - intros panel is_local allows Hp Hr. apply (reachable_inv _ _ _ _ Hp) in Hr.
    destruct (find_next_free s index forward) as [i ->]; [|done].
    intros l Hd. pose proof (inv_sound _ _ Hr) as Hs. rewrite Hd in Hs. destruct Hs as (? & ? & ?). split_and!; [done..|lia].
Qed.

(** ** Examples *)

Definition own_panel (t : nat) : option nat := Some (100 + t)%nat.
Definition all_local (_ : nat) : bool := isLocal (str "http://h/%61#tab") (str "#tab") (str "http://h/a").
Definition never_refuses (_ : tab_event) (_ : tabs_state) : bool := true.
Lemma own_panel_ok : page_ok own_panel.
Proof. split; [by eexists|]. intros t t' p [= <-] [=]. lia. Qed.

Definition blank : tabs_state := {|
  children := []; tabs := []; active := None; active_tab := None; collapsible := false; disabled := DNone;
  hide := false; show := false; running := false; anim := None; xhr := None; next_xhr := 0; requests := [];
  jobs := []; next_job := 0; activating := None; focus := None; disabled_class := ∅; active_class := ∅;
  loading_class := ∅; selected := ∅; expanded := ∅; in_order := ∅; shown := ∅; unhidden := ∅; hung := false; log := [] |}.
Abbreviation made collapse animated :=
  (snd (create own_panel all_local never_refuses [1; 2; 3]%nat collapse animated animated INull false None ∅ ∅ blank)).
Abbreviation then_ i s := (snd (tab_step own_panel all_local never_refuses i s)).
Abbreviation used inputs s := (tab_run own_panel all_local never_refuses inputs s).
Definition key (c : Z) : key_event := {| code := c; ctrl := false; alt := false; meta := false |}.

(** The active tab is removed while another one is added. *)
Abbreviation refreshed := (then_ Refresh (then_ (ChangeList [1; 3; 4]%nat ∅) (then_ (Click 2) (made false false)))).
Lemma refreshed_reachable : reachable own_panel all_local never_refuses refreshed.
Proof.
  apply R_step; [|exact I]. apply R_step.
  - apply R_step; [|exact I]. apply R_create; [by apply (bool_decide_unpack _); vm_compute|done|].
    intros t _ Ht. by apply not_elem_of_empty in Ht.
  - split; [by apply (bool_decide_unpack _); vm_compute|]. intros t Ht.
    rewrite !elem_of_cons in Ht. destruct Ht as [-> |[-> |[-> |Ht]]]; [left; by apply (bool_decide_unpack _); vm_compute..| |].
    + right. split_and!; try (apply (bool_decide_unpack _); by vm_compute). done.
    + by apply not_elem_of_nil in Ht.
Qed.

Lemma one_panel_witness : exists s,
  active_tab s = Some 1%nat /\ running s = false /\
  hung s = false /\
  match active_tab s with
  | None => active s = None
  | Some t => t ∈ tabs s -> active s = Some (index_of (tabs s) t)
  end /\
  (running s = false -> forall t, t ∈ tabs s ->
    (t ∈ active_class s <-> active_tab s = Some t) /\
    (t ∈ expanded s <-> active_tab s = Some t) /\
    (panel_shown own_panel s t <-> active_tab s = Some t)).
Proof.
  exists refreshed. split; [by vm_compute|]. split; [by vm_compute|].
  apply (one_panel own_panel all_local never_refuses); [exact own_panel_ok|exact refreshed_reachable].
Defined.

Lemma disabled_not_opened_witness : exists s,
  active_tab s = Some 1%nat /\ active_tab (then_ (Click 3) s) = Some 3%nat /\
  3%nat ∉ disabled_class s /\ forall k, tabs s !! k = Some 3%nat -> is_disabled (disabled s) k = false.
Proof.
  exists refreshed. split; [by vm_compute|]. split; [by vm_compute|].
  apply (disabled_not_opened own_panel all_local never_refuses refreshed (Click 3));
    [exact own_panel_ok|exact refreshed_reachable|exact I|by vm_compute|by vm_compute].
Defined.

Lemma next_tab_witness : exists s, tabs s = [1; 3; 4]%nat /\
  (match findNextTab s 3 true with
   | Some i => exists k, 0 <= k < Z.of_nat (length (tabs s)) /\ i = ahead (length (tabs s)) (constrain (length (tabs s)) 3) true k /\
       in_disabled i (disabled s) = false /\
       forall m, 0 <= m < k -> in_disabled (ahead (length (tabs s)) (constrain (length (tabs s)) 3) true m) (disabled s) = true
   | None => forall i, 0 <= i < Z.of_nat (length (tabs s)) -> in_disabled i (disabled s) = true
   end /\
   forall panel is_local allows, page_ok panel -> reachable panel is_local allows s -> is_Some (findNextTab s 3 true)).
Proof.
  exists refreshed. split; [by vm_compute|]. apply next_tab. by vm_compute.
Defined.

(** [disabled] names both of two tabs and one that does not exist: an arrow key
    starts a loop that does not end. *)
Example disabled_hangs :
  let s := snd (create own_panel all_local never_refuses [1; 2]%nat false false false INull false None ∅ ∅ blank) in
  hung (used [SetActive (Some 1); Focus 1; SetDisabled (DSome [0; 1; 7]); KeyPanel {| code := 34; ctrl := false; alt := true; meta := false |}] s) = true.
Proof. by vm_compute. Qed.

(** A tab is closed and another one opened: both are in the tab order. *)
Example two_in_order :
  let s := used [Click 1; Click 2] (made true false) in
  active_tab s = Some 2%nat /\ elements (in_order s) = [2; 1]%nat.
Proof. by vm_compute. Qed.

(** From the collapsed state the page key for the next tab skips the first. *)
Example page_down_skips :
  active_tab (used [Click 1; KeyPanel {| code := 34; ctrl := false; alt := true; meta := false |}] (made true false)) = Some 2%nat.
Proof. by vm_compute. Qed.

(** The page refuses to open a tab reached by an arrow: it stays announced as
    selected, and the active tab is not. *)
Example refused_stays_selected :
  let refuse (e : tab_event) (_ : tabs_state) := match e with EBeforeActivate _ => false | _ => true end in
  let s := tab_run own_panel all_local refuse [Focus 1; KeyTab (key 39); Fire 0] (made false false) in
  active_tab s = Some 1%nat /\ elements (selected s) = [2]%nat.
Proof. by vm_compute. Qed.

(** The key to the last tab goes to the first when the last is disabled. *)
Example end_goes_to_first :
  focus (used [Click 2; Focus 2; Disable (Some 2); KeyTab (key 35)] (made false false)) = Some 1%nat.
Proof. by vm_compute. Qed.
