(* ===== verification/Selectmenu.v ===== *)
(** [$.ui.selectmenu] (jquery-ui.js): a button and a menu (Menu) in the place of
    an element select, whose selected option the button shows.

    The widget is told by its menu which item is active and which is chosen.
    While the menu is closed, the active item is chosen at once. *)
From Stdlib Require Import String.
From S2P Require Import Prelude JsString Collections Suggestions Menu.

(** ** State *)

(** An option of the element, with its group; and what [_parseOption] makes of it. *)
Record soption := { o_label : jstr; o_disabled : bool; o_group : jstr; o_group_disabled : bool }.
Record sitem := { i_index : Z; i_label : jstr; i_group : jstr; i_group_disabled : bool; i_disabled : bool }.

(** What the widget triggers, with the index of the item. *)
Inductive select_event := SFocus (i : Z) | SSelect (i : Z) | SChange (i : Z) | SOpen | SClose.

Record selectmenu := {
  native : list soption;             (* the element *)
  selectedIndex : Z;
  element_disabled : bool;
  rendered : bool;
  items : list sitem;
  item_data : list (nat * sitem);    (* data "ui-selectmenu-item" of the elements *)
  menuItems : list nat;
  sm_menu : menu;
  next_key : nat;
  focusIndex : option Z;
  isOpen : bool;
  button_text : jstr;                (* empty for a blank *)
  sm_disabled : bool;                (* options.disabled *)
  fresh_button : bool;               (* the first focusin is still to come *)
  log : list select_event;
}.
#[export] Instance eta_selectmenu : Eta selectmenu := fun s => {|
  native := native s; selectedIndex := selectedIndex s; element_disabled := element_disabled s;
  rendered := rendered s; items := items s; item_data := item_data s; menuItems := menuItems s;
  sm_menu := sm_menu s; next_key := next_key s; focusIndex := focusIndex s; isOpen := isOpen s;
  button_text := button_text s; sm_disabled := sm_disabled s; fresh_button := fresh_button s; log := log s |}.

(** [_parseOption] and [_parseOptions] *)
Definition parseOption (o : soption) (i : Z) : sitem := {|
  i_index := i; i_label := o_label o; i_group := o_group o; i_group_disabled := o_group_disabled o;
  i_disabled := o_group_disabled o || o_disabled o |}.
Definition parseOptions (os : list soption) : list sitem :=
  imap (fun i o => parseOption o (Z.of_nat i)) os.

(** The option of an index of the element, which does not count from the end. *)
Definition option_at (os : list soption) (i : Z) : option soption := if i <? 0 then None else os !! Z.to_nat i.

Section Selectmenu.
Context (upper : Z -> Z) (has_scroll : menu -> bool) (page_down page_up : menu -> nat -> nat -> bool).

Definition upd (f : selectmenu -> selectmenu) : eff selectmenu unit := modify f.
Definition trigger (e : select_event) : eff selectmenu unit := upd (fun s => s <| log := log s ++ [e] |>).

(** [_getSelectedItem], and what the collection's first element stands for. *)
Definition getSelectedItem (s : selectmenu) : list nat := option_list (eq_ (menuItems s) (selectedIndex s)).
Definition data_of (s : selectmenu) (ks : list nat) : option sitem :=
  match ks with
  | k :: _ => list_find (fun p => p.1 = k) (item_data s) ≫= fun p => Some (p.2.2)
  | [] => None
  end.
(** The item itself, when its properties are read. *)
Definition the_item (i : option sitem) : eff selectmenu sitem :=
  match i with Some i => mret i | None => throw TypeError end.

(** ** Choosing *)

(** [close] *)
Definition close : eff selectmenu unit :=
  s ← get;
  if isOpen s then upd (fun s => s <| isOpen := false |>) ;; trigger SClose else mret tt.

(** [_select( item )] *)
Definition select_item (i : option sitem) : eff selectmenu unit :=
  s ← get;
  let oldIndex := selectedIndex s in
  i ← the_item i;
  upd (fun s => s <| selectedIndex := i_index i |> <| button_text := i_label i |>) ;;
  trigger (SSelect (i_index i)) ;;
  (if i_index i =? oldIndex then mret tt else trigger (SChange (i_index i))) ;;
  close.

(** The handlers of [menufocus] and [menuselect]. *)
Definition on_menufocus (ks : list nat) : eff selectmenu unit :=
  s ← get;
  i ← the_item (data_of s ks);
  (match focusIndex s with
   | Some f =>
       if i_index i =? f then mret tt
       else trigger (SFocus (i_index i)) ;; if isOpen s then mret tt else select_item (Some i)
   | None => mret tt
   end) ;;
  upd (fun s => s <| focusIndex := Some (i_index i) |>).
Definition on_menuselect (ks : list nat) : eff selectmenu unit := s ← get; select_item (data_of s ks).

#[local] Instance select_client : MenuClient selectmenu := {|
  menu_of := sm_menu; set_menu m s := s <| sm_menu := m |>;
  menufocus _ := on_menufocus; menublur _ _ := mret tt; menuselect _ := on_menuselect |}.

(** ** The menu *)

(** [_renderMenu]: an element for each item, and one before the first item of a
    group. *)
Definition append_entry (label : jstr) (divider off : bool) : eff selectmenu nat :=
  s ← get;
  upd (fun s =>
    s <| sm_menu := (sm_menu s) <| entries := entries (sm_menu s) ++
           [{| key := next_key s; text := label; is_item := false; is_divider := divider; is_disabled := off |}] |> |>
      <| next_key := S (next_key s) |>) ;;
  mret (next_key s).
Fixpoint renderMenu (currentOptgroup : jstr) (l : list sitem) : eff selectmenu unit :=
  match l with
  | [] => mret tt
  | i :: l =>
      (if bool_decide (i_group i = currentOptgroup) then mret tt
       else append_entry (i_group i) true (i_group_disabled i) ;; mret tt) ;;
      k ← append_entry (i_label i) false (i_disabled i);
      upd (fun s => s <| item_data := item_data s ++ [(k, i)] |>) ;;
      renderMenu (i_group i) l
  end.

(** [refresh] of the menu, whose [_isDivider] is always false. *)
Definition refresh_option (e : entry) : entry := if is_item e || is_divider e then e else e <| is_item := true |>.
Definition menu_refresh : eff selectmenu unit :=
  upd_menu (fun m => m <| entries := refresh_option <$> entries m |>) ;;
  m ← the_menu;
  match active m with
  | None => mret tt
  | Some ks => if existsb (fun k => bool_decide (k ∈ find_items m)) ks then mret tt else blur None false
  end.

(** [_setOption( "disabled" )] with [_setOptionDisabled] *)
Definition set_disabled (v : bool) : eff selectmenu unit :=
  upd (fun s => s <| sm_disabled := v |>) ;;
  upd_menu (setOptionDisabled v) ;;
  upd (fun s => s <| element_disabled := v |>) ;;
  if v then close else mret tt.

(** [_refreshMenu] *)
Definition refreshMenu : eff selectmenu unit :=
  upd (fun s => s <| sm_menu := (sm_menu s) <| entries := [] |> |> <| item_data := [] |>) ;;
  upd (fun s => s <| items := parseOptions (native s) |>) ;;
  s ← get;
  renderMenu [] (items s) ;;
  menu_refresh ;;
  upd (fun s => s <| menuItems := (item_data s).*1 |> <| rendered := true |>) ;;
  s ← get;
  match native s with
  | [] => mret tt
  | _ =>
      focus has_scroll None (getSelectedItem s) ;;
      s ← get;
      the_item (data_of s (getSelectedItem s)) ;;
      set_disabled (element_disabled s)
  end.

(** [refresh] *)
Definition refresh_select : eff selectmenu unit :=
  refreshMenu ;;
  upd (fun s => s <| button_text := match data_of s (getSelectedItem s) with Some i => i_label i | None => [] end |>).

(** [open] *)
Definition open : eff selectmenu unit :=
  s ← get;
  if sm_disabled s then mret tt
  else
    (if rendered s then
       upd_menu (fun m => m <| highlighted := [] |>) ;; s ← get; focus has_scroll None (getSelectedItem s)
     else refreshMenu) ;;
    s ← get;
    match menuItems s with
    | [] => mret tt
    | _ => upd (fun s => s <| isOpen := true |>) ;; trigger SOpen
    end.
Definition toggle : eff selectmenu unit := s ← get; if isOpen s then close else open.

(** ** Keys *)

(** [_move( direction )]; in a closed menu only over what is not disabled. *)
Inductive direction := First | Last | Prev | Next.
Definition siblings (keep : entry -> bool) (backwards : bool) (m : menu) (k : nat) : list nat :=
  if bool_decide (k ∈ find_items m) then
    if backwards then rev (keys (List.filter keep (before k (entries m))))
    else keys (List.filter keep (after k (entries m)))
  else [].
Definition move_target (d : direction) (s : selectmenu) : list nat :=
  let item := if isOpen s then focusIndex s ≫= eq_ (menuItems s) else eq_ (menuItems s) (selectedIndex s) in
  let keep e := is_item e && (isOpen s || negb (is_disabled e)) in
  match item with
  | None => []
  | Some k =>
      match d with
      | First => last_of (siblings keep true (sm_menu s) k)
      | Last => last_of (siblings keep false (sm_menu s) k)
      | Prev => first_of (siblings keep true (sm_menu s) k)
      | Next => first_of (siblings keep false (sm_menu s) k)
      end
  end.
Definition move_ (d : direction) : eff selectmenu unit :=
  s ← get;
  let next := move_target d s in
  if bool_decide (next = []) then mret tt else focus has_scroll (Some Keydown) next.

(** [_selectFocusedItem] *)
Definition selectFocusedItem : eff selectmenu unit :=
  s ← get;
  let item := option_list (focusIndex s ≫= eq_ (menuItems s)) in
  if existsb (fun k => match entry_of (sm_menu s) k with Some e => is_disabled e | None => false end) item
  then mret tt else select_item (data_of s item).

(** The keys of the button; other keys are passed on to the menu. *)
Definition is_own_key (code : Z) : bool :=
  existsb (fun c => code =? c) [9; 27; 13; 38; 40; 32; 37; 39; 36; 33; 35; 34].
Definition button_key (code : Z) (alt : bool) : eff selectmenu unit :=
  s ← get;
  if (code =? 9) || (code =? 27) then close
  else if code =? 13 then (if isOpen s then selectFocusedItem else mret tt)
  else if code =? 38 then (if alt then toggle else move_ Prev)
  else if code =? 40 then (if alt then toggle else move_ Next)
  else if code =? 32 then (if isOpen s then selectFocusedItem else toggle)
  else if code =? 37 then move_ Prev
  else if code =? 39 then move_ Next
  else if (code =? 36) || (code =? 33) then move_ First
  else if (code =? 35) || (code =? 34) then move_ Last
  else on_input upper has_scroll page_down page_up (MKeydown code).

(** ** Events *)

(** A handler bound by [_on] does nothing while the widget is disabled. *)
Definition handler_ (h : eff selectmenu unit) : eff selectmenu unit :=
  s ← get; if sm_disabled s then mret tt else h.

(** The first [focusin] of the button. *)
Definition on_focusin : eff selectmenu unit :=
  s ← get;
  if fresh_button s then
    upd (fun s => s <| fresh_button := false |>) ;; if rendered s then mret tt else refreshMenu
  else mret tt.

(** [_create], and [_createWidget] when the element is disabled. *)
Definition create_select (os : list soption) (selected : Z) (off : bool) : selectmenu := {|
  native := os; selectedIndex := selected; element_disabled := off; rendered := false; items := [];
  item_data := []; menuItems := []; sm_menu := setOptionDisabled off empty_menu; next_key := 0; focusIndex := None; isOpen := false;
  button_text := match option_at os selected with Some o => o_label o | None => [] end;
  sm_disabled := off; fresh_button := true; log := [] |}.

(** The page changes the element, and calls [refresh] as it is to do then. *)
Definition page_change (os : list soption) (selected : Z) (off : bool) : eff selectmenu unit :=
  upd (fun s => s <| native := os |> <| selectedIndex := selected |> <| element_disabled := off |>) ;; refresh_select.

(** What the menu's events do: it is not closed by leaving it with the mouse or
    by clicks elsewhere. *)
Definition on_menu (i : menu_input) : eff selectmenu unit :=
  match i with
  | MLeave | MRefresh | MDisabled _ => mret tt
  | MDocumentClick _ => on_input upper has_scroll page_down page_up (MDocumentClick false)
  | i => on_input upper has_scroll page_down page_up i
  end.

(** What can happen. *)
Inductive select_input :=
  | ButtonFocus | ButtonClick | ButtonKey (code : Z) (alt : bool)
  | DocumentMouse (outside : bool)
  | MenuInput (i : menu_input)
  | CallOpen | CallClose | CallRefresh | SetDisabled (v : bool)
  | PageChange (os : list soption) (selected : Z) (off : bool).
Definition select_step (i : select_input) : eff selectmenu unit :=
  match i with
  | ButtonFocus => on_focusin
  | ButtonClick => handler_ toggle
  | ButtonKey code alt => handler_ (button_key code alt)
  | DocumentMouse outside => handler_ (if outside then close else mret tt)
  | MenuInput i => on_menu i
  | CallOpen => open
  | CallClose => close
  | CallRefresh => refresh_select
  | SetDisabled v => set_disabled v
  | PageChange os selected off => page_change os selected off
  end.
Definition select_run (l : list select_input) (s : selectmenu) : selectmenu :=
  foldl (fun s i => snd (select_step i s)) s l.
End Selectmenu.
