(* ===== verification/SelectmenuProps.v ===== *)
(** Theorems about [$.ui.selectmenu] (Selectmenu): the button shows the selected
    option, every change is announced, and the keys do not select what is
    disabled. *)
From Stdlib Require Import String.
From S2P Require Import Prelude JsString Collections Suggestions Menu MenuProps Selectmenu.

Section Selectmenu.
Context (upper : Z -> Z) (has_scroll : menu -> bool) (page_down page_up : menu -> nat -> nat -> bool).
#[local] Existing Instance select_client.

(** ** What the menu itself changes *)

(** Only the menu differs, and not in its elements and in what is disabled. *)
Definition menu_only_moved (s s' : selectmenu) : Prop :=
  s' = s <| sm_menu := sm_menu s' |> /\ marks (sm_menu s') = marks (sm_menu s).
#[local] Instance menu_only_moved_preorder : PreOrder menu_only_moved.
Proof.
  split; [intros []; by split|]. intros s1 s2 s3 [H1 M1] [H2 M2]. split; [|congruence]. rewrite H2, H1. done.
Qed.

Lemma moved_set m s : marks m = marks (menu_of s) -> menu_only_moved s (set_menu m s).
Proof. intros H. by split. Qed.

Lemma moved_blur e f : keeps menu_only_moved (blur e f).
Proof. apply frame_blur; [exact _|exact moved_set|]. intros. apply keeps_ret, _. Qed.

Lemma blur_ok e f s : fst (blur e f s) = Ok tt.
Proof. unfold blur, upd_menu, the_menu. destruct f; eff_cbn; by destruct (active _). Qed.

(** [focus] tells the widget of its item after it has moved in the menu. *)
Lemma focus_tells e item s : exists s1, menu_only_moved s s1 /\
  (snd (focus has_scroll e item s) = s1 /\ fst (focus has_scroll e item s) <> Ok tt /\ item = [] \/
   focus has_scroll e item s = on_menufocus item s1).
Proof.
  unfold focus. pose proof (moved_blur e (bool_decide (e = Some Focus)) s) as Hb.
  pose proof (blur_ok e (bool_decide (e = Some Focus)) s) as Hok.
  set (s0 := snd (blur e (bool_decide (e = Some Focus)) s)).
  rewrite (eff_bind_ok (blur _ _) _ s tt s0) by (unfold s0; destruct (blur _ _ s); cbn in Hok; by subst).
  change (menu_only_moved s s0) in Hb. clearbody s0. clear Hok.
  destruct (has_scroll (sm_menu s0) && bool_decide (item = [])) eqn:Hs.
  - exists s0. split; [done|]. left.
    rewrite (eff_bind_throw (scrollIntoView _ _) _ s0 TypeError s0).
    + split_and!; try done. by apply andb_prop in Hs as [_ Hi%bool_decide_eq_true].
    + unfold scrollIntoView, the_menu. eff_cbn. by rewrite Hs.
  - rewrite (eff_bind_ok (scrollIntoView _ _) _ s0 tt s0) by (unfold scrollIntoView, the_menu; eff_cbn; by rewrite Hs).
    unfold upd_menu. rewrite eff_bind_modify.
    set (s1 := set_menu _ _). exists (if bool_decide (e = Some Keydown) then s1 else set_menu (delay_timer CloseSubmenus (menu_of s1)) s1).
    assert (H1 : menu_only_moved s0 s1) by (split; reflexivity).
    split; [etrans; [exact Hb|]; destruct (bool_decide (e = _)); [done|etrans; [exact H1|split; reflexivity]]|]. right.
    by destruct (bool_decide (e = Some Keydown)).
Qed.

(** ** What every operation keeps *)

(** A relation that does not see the menu's own state, kept by the pieces the
    operations are made of. *)
Section Pieces.
Context (R : selectmenu -> selectmenu -> Prop) `{Pre : !PreOrder R}.
Context (Hmoved : forall s s', menu_only_moved s s' -> R s s').
Context (Hselect : forall ks s, R s (snd (select_item (data_of s ks) s))).
Context (Hclose : keeps R close).
Context (Hevent : forall i s, R s (s <| log := log s ++ [SFocus i] |>)).
Context (Hindex : forall i s, R s (s <| focusIndex := i |>)).
Context (Hopened : forall s, R s (s <| isOpen := true |> <| log := log s ++ [SOpen] |>)).
Context (Hoptions : forall v w s, R s (s <| sm_disabled := v |> <| element_disabled := w |>)).

Lemma keeps_menufocus_ ks : keeps R (on_menufocus ks).
Proof.
  intros s. unfold on_menufocus. rewrite eff_bind_get.
  destruct (data_of s ks) as [i|] eqn:Hi; [|reflexivity]. cbn [the_item].
  rewrite (eff_bind_ok (mret i) _ s i s) by done.
  assert (H : forall m : eff selectmenu unit, R s (snd (m s)) ->
    R s (snd ((m ;; upd (fun s => s <| focusIndex := Some (i_index i) |>)) s))).
  { intros m Hm. unfold mbind, eff_bind. destruct (m s) as [[?|?] s']; [|exact Hm]. etrans; [exact Hm|apply Hindex]. }
  apply H. destruct (focusIndex s) as [f|]; [|reflexivity]. destruct (i_index i =? f); [reflexivity|].
  unfold trigger, upd. rewrite eff_bind_modify. etrans; [apply (Hevent (i_index i))|].
  destruct (isOpen s); [reflexivity|].
  set (s1 := s <| log := log s ++ [SFocus (i_index i)] |>). change (Some i) with (Some i). rewrite <- Hi.
  change (data_of s ks) with (data_of s1 ks). apply Hselect.
Qed.

Lemma keeps_menuselect_ ks : keeps R (on_menuselect ks).
Proof. intros s. apply Hselect. Qed.
Lemma keeps_blur_ e ks : keeps R (menublur e ks).
Proof. apply keeps_ret, _. Qed.
Lemma set_moved m s : marks m = marks (menu_of s) -> R s (set_menu m s).
Proof. intros H. by apply Hmoved, moved_set. Qed.

Lemma keeps_focus_ e item : keeps R (focus has_scroll e item).
Proof. apply frame_focus; [exact _|exact set_moved|intros ?; apply keeps_menufocus_|exact keeps_blur_]. Qed.
Lemma keeps_input_ i : keeps R (on_input upper has_scroll page_down page_up i).
Proof.
  apply frame_input; [exact _|exact set_moved|intros ?; apply keeps_menufocus_|exact keeps_blur_|intros ?; apply keeps_menuselect_].
Qed.

Lemma keeps_disabled_ v : keeps R (set_disabled v).
Proof.
  intros s. unfold set_disabled, upd, upd_menu. rewrite !eff_bind_modify.
  set (s1 := _ <| element_disabled := v |>).
  assert (H : R s s1).
  { unfold s1. etrans; [apply (Hoptions v v)|]. apply Hmoved. split; reflexivity. }
  destruct v; [|exact H]. etrans; [exact H|apply Hclose].
Qed.

Context (Hrefresh : keeps R (refreshMenu has_scroll)) (Hselect_refresh : keeps R (refresh_select has_scroll)).
Context (Hfresh : forall s, R s (s <| fresh_button := false |>)).

Ltac piece :=
  match goal with
  | |- forall _, _ => intro
  | |- keeps _ (let _ := _ in _) => cbv zeta
  | |- keeps _ get => apply keeps_get, _
  | |- keeps _ close => exact Hclose
  | |- keeps _ (focus _ _ _) => apply keeps_focus_
  | |- keeps _ (refreshMenu _) => exact Hrefresh
  | |- keeps _ (on_input _ _ _ _ _) => apply keeps_input_
  | |- keeps _ (upd_menu _) => intros ?s; apply set_moved; reflexivity
  | |- keeps _ (_ ≫= _) => apply (keeps_bind R)
  | |- keeps _ (mret _) => apply keeps_ret, _
  | |- keeps _ (match ?x with _ => _ end) => destruct x
  end.

Lemma keeps_open_ : keeps R (open has_scroll).
Proof.
  unfold open. apply (keeps_bind R); [apply keeps_get, _|]. intros s. destruct (sm_disabled s); [apply keeps_ret, _|].
  apply (keeps_bind R); [repeat piece|]. intros _. apply (keeps_bind R); [apply keeps_get, _|]. intros s'.
  destruct (menuItems s'); [apply keeps_ret, _|]. intros s1. apply Hopened.
Qed.
Lemma keeps_toggle_ : keeps R (toggle has_scroll).
Proof. unfold toggle. repeat (piece || apply keeps_open_). Qed.
Lemma keeps_move_ d : keeps R (move_ has_scroll d).
Proof. unfold move_. repeat piece. Qed.
Lemma keeps_focused_ : keeps R selectFocusedItem.
Proof.
  intros s. unfold selectFocusedItem. rewrite eff_bind_get. cbv zeta. destruct (existsb _ _); [reflexivity|apply Hselect].
Qed.
Lemma keeps_key_ code alt : keeps R (button_key upper has_scroll page_down page_up code alt).
Proof.
  unfold button_key. repeat (piece || apply keeps_toggle_ || apply keeps_move_ || apply keeps_focused_).
Qed.
Lemma keeps_on_menu_ i : keeps R (on_menu upper has_scroll page_down page_up i).
Proof. destruct i; cbn [on_menu]; repeat piece. Qed.

Lemma keeps_select_step i : (forall os sel off, i <> PageChange os sel off) ->
  keeps R (select_step upper has_scroll page_down page_up i).
Proof.
  intros Hi. destruct i as [| |code alt|outside|i| | | |v|os sel off]; cbn [select_step].
  - unfold on_focusin. apply (keeps_bind R); [apply keeps_get, _|]. intros s. destruct (fresh_button s); [|apply keeps_ret, _].
    apply (keeps_bind R); [intros s'; apply Hfresh|]. intros _. repeat piece.
  - unfold handler_. repeat (piece || apply keeps_toggle_).
  - unfold handler_. repeat (piece || apply keeps_key_).
  - unfold handler_. repeat piece.
  - apply keeps_on_menu_.
  - apply keeps_open_.
  - apply Hclose.
  - apply Hselect_refresh.
  - apply keeps_disabled_.
  - by destruct (Hi os sel off).
Qed.
End Pieces.

(** ** Changes are announced *)

(** Reading the log with the selected index, and the index chosen but not yet
    announced as a change. *)
Definition tell_step (o : option (Z * option Z)) (e : select_event) : option (Z * option Z) :=
  '(cur, chosen) ← o;
  match e, chosen with
  | SSelect i, None => Some (cur, if i =? cur then None else Some i)
  | SChange i, Some j => if i =? j then Some (i, None) else None
  | SSelect _, Some _ | SChange _, None => None
  | _, None => Some (cur, None)
  | _, Some _ => None
  end.
Definition tell (cur : Z) (d : list select_event) : option (Z * option Z) := foldl tell_step (Some (cur, None)) d.

Definition told (s s' : selectmenu) : Prop :=
  exists d, log s' = log s ++ d /\ tell (selectedIndex s) d = Some (selectedIndex s', None).
#[local] Instance told_preorder : PreOrder told.
Proof.
  split; [intros s; exists []; by rewrite app_nil_r|]. intros s1 s2 s3 (d1 & L1 & T1) (d2 & L2 & T2).
  exists (d1 ++ d2). split; [by rewrite L2, L1, app_assoc|]. unfold tell in *. by rewrite foldl_app, T1.
Qed.

Lemma told_same s s' : log s' = log s -> selectedIndex s' = selectedIndex s -> told s s'.
Proof. intros Hl Hs. exists []. by rewrite app_nil_r, Hs. Qed.
Lemma told_moved s s' : menu_only_moved s s' -> told s s'.
Proof. intros [-> _]. by apply told_same. Qed.

Lemma told_close : keeps told close.
Proof.
  intros s. unfold close, trigger, upd. rewrite eff_bind_get. destruct (isOpen s); [|reflexivity].
  rewrite eff_bind_modify. by exists [SClose].
Qed.

Lemma told_select ks s : told s (snd (select_item (data_of s ks) s)).
Proof.
  unfold select_item. rewrite eff_bind_get. destruct (data_of s ks) as [i|]; [|reflexivity]. cbn [the_item].
  rewrite (eff_bind_ok (mret i) _ s i s) by done. unfold trigger, upd. rewrite !eff_bind_modify.
  set (s1 := _ <| log := _ |>).
  destruct (i_index i =? selectedIndex s) eqn:He.
  - etrans; [|apply told_close]. exists [SSelect (i_index i)]. split; [done|]. cbn. rewrite He.
    apply Z.eqb_eq in He. by rewrite He.
  - rewrite eff_bind_modify. etrans; [|apply told_close]. exists [SSelect (i_index i); SChange (i_index i)].
    split; [cbn; by rewrite <- app_assoc|]. cbn. rewrite He. cbn. by rewrite Z.eqb_refl.
Qed.

Lemma told_render cur l : keeps told (renderMenu cur l).
Proof.
  revert cur. induction l as [|i l IH]; intros cur; cbn [renderMenu]; [apply keeps_ret, _|].
  assert (Ha : forall t d o, keeps told (append_entry t d o)) by (intros t d o s; by apply told_same).
  apply (keeps_bind told).
  { destruct (bool_decide _); [apply keeps_ret, _|]. apply (keeps_bind told); [apply Ha|]. intros _. apply keeps_ret, _. }
  intros _. apply (keeps_bind told); [apply Ha|]. intros k. apply (keeps_bind told); [intros s; by apply told_same|]. intros _. apply IH.
Qed.

Lemma moved_menu_refresh s : menu_only_moved (s <| sm_menu := (sm_menu s) <| entries := refresh_option <$> entries (sm_menu s) |> |>)
  (snd (menu_refresh s)) /\ fst (menu_refresh s) = Ok tt.
Proof.
  unfold menu_refresh, upd_menu. rewrite eff_bind_modify. unfold the_menu. 
  set (s1 := set_menu _ _). change (menu_only_moved s1 (snd (((get ≫= fun s => mret (menu_of s)) ≫= fun m : menu => match active m with
    | None => mret tt
    | Some ks => if existsb (fun k => bool_decide (k ∈ find_items m)) ks then mret tt else blur None false end) s1)) /\ 
    fst (((get ≫= fun s => mret (menu_of s)) ≫= fun m : menu => match active m with
    | None => mret tt
    | Some ks => if existsb (fun k => bool_decide (k ∈ find_items m)) ks then mret tt else blur None false end) s1) = Ok tt).
  rewrite (eff_bind_ok _ _ s1 (menu_of s1) s1) by done.
  destruct (active (menu_of s1)) as [ks|]; [|by split]. destruct (existsb _ _); [by split|].
  split; [apply moved_blur|apply blur_ok].
Qed.

Lemma told_focus e item : keeps told (focus has_scroll e item).
Proof.
  apply keeps_focus_; try exact _; try exact told_moved; try exact told_select.
  - intros i s. by exists [SFocus i].
  - intros i s. by apply told_same.
Qed.
Lemma told_set_disabled v : keeps told (set_disabled v).
Proof.
  apply keeps_disabled_; [exact _|exact told_moved|exact told_close|]. intros v' w s. by apply told_same.
Qed.

Lemma told_refreshMenu : keeps told (refreshMenu has_scroll).
Proof.
  assert (Hu : forall f, (forall s, log (f s) = log s /\ selectedIndex (f s) = selectedIndex s) -> keeps told (upd f)).
  { intros f Hf s. apply told_same; apply Hf. }
  unfold refreshMenu. apply (keeps_bind told); [by apply Hu|]. intros _. apply (keeps_bind told); [by apply Hu|]. intros _.
  apply (keeps_bind told); [apply keeps_get, _|]. intros s. apply (keeps_bind told); [apply told_render|]. intros _.
  apply (keeps_bind told).
  { intros s1. etrans; [|apply told_moved, moved_menu_refresh]. by apply told_same. }
  intros _. apply (keeps_bind told); [by apply Hu|]. intros _. apply (keeps_bind told); [apply keeps_get, _|]. intros s1.
  destruct (native s1); [apply keeps_ret, _|]. apply (keeps_bind told); [apply told_focus|]. intros _.
  apply (keeps_bind told); [apply keeps_get, _|]. intros s2. apply (keeps_bind told).
  { destruct (data_of _ _); [apply keeps_ret, _|apply keeps_throw, _]. }
  intros _. apply told_set_disabled.
Qed.
Lemma told_refresh_select : keeps told (refresh_select has_scroll).
Proof.
  unfold refresh_select. apply (keeps_bind told); [apply told_refreshMenu|]. intros _ s. by apply told_same.
Qed.

Lemma told_step i : (forall os sel off, i <> PageChange os sel off) ->
  keeps told (select_step upper has_scroll page_down page_up i).
Proof.
  apply keeps_select_step; try exact _; try exact told_moved; try exact told_select; try exact told_close;
    try exact told_refreshMenu; try exact told_refresh_select.
  - intros j s. by exists [SFocus j].
  - intros j s. by apply told_same.
  - intros s. by exists [SOpen].
  - intros v w s. by apply told_same.
  - intros s. by apply told_same.
Qed.

(** ** The button shows the selected option *)

Definition label_at (os : list soption) (i : Z) : jstr := match option_at os i with Some o => o_label o | None => [] end.

(** The elements of the menu stand for the options. *)
Record built (s : selectmenu) : Prop := {
  b_items : (item_data s).*2 = parseOptions (native s);
  b_keys : (item_data s).*1 = menuItems s;
  b_marks : forall k i, (k, i) ∈ item_data s -> (k, i_disabled i) ∈ marks (sm_menu s);
  b_nodup : NoDup ((marks (sm_menu s)).*1);
  b_distinct : NoDup (item_data s).*1;
}.
Definition in_range (s : selectmenu) : Prop :=
  native s = [] \/ 0 <= selectedIndex s < Z.of_nat (length (native s)).
Record shows (s : selectmenu) : Prop := {
  sh_built : rendered s = true -> built s;
  sh_unbuilt : rendered s = false -> item_data s = [];
  sh_button : button_text s = label_at (native s) (selectedIndex s);
  sh_range : in_range s;
}.

Definition with_entries (es : list entry) (ds : list (nat * sitem)) (nk : nat) (s : selectmenu) : selectmenu :=
  s <| sm_menu := (sm_menu s) <| entries := entries (sm_menu s) ++ es |> |> <| item_data := item_data s ++ ds |> <| next_key := nk |>.

Lemma with_entries_app es ds n es' ds' n' s :
  with_entries es' ds' n' (with_entries es ds n s) = with_entries (es ++ es') (ds ++ ds') n' s.
Proof. unfold with_entries. cbn. by rewrite !app_assoc. Qed.

Lemma append_with label d off s : append_entry label d off s =
  (Ok (next_key s), with_entries [{| key := next_key s; text := label; is_item := false; is_divider := d; is_disabled := off |}] []
                      (S (next_key s)) s).
Proof. unfold append_entry, upd. rewrite eff_bind_get, eff_bind_modify. unfold with_entries. by rewrite app_nil_r. Qed.

Definition keys_from (n m : nat) (es : list entry) : Prop :=
  (n <= m)%nat /\ NoDup (keys es) /\ forall k, k ∈ keys es -> (n <= k < m)%nat.
Lemma keys_from_app n m p es es' : keys_from n m es -> keys_from m p es' -> keys_from n p (es ++ es').
Proof.
  intros (H1 & N1 & K1) (H2 & N2 & K2). unfold keys_from, keys in *. rewrite fmap_app. split_and!; [lia| |].
  - apply NoDup_app. split_and!; try done. intros k Hk Hk'. specialize (K1 k Hk). specialize (K2 k Hk'). lia.
  - intros k [Hk|Hk]%elem_of_app; [specialize (K1 k Hk)|specialize (K2 k Hk)]; lia.
Qed.
Lemma keys_from_one n l d off :
  keys_from n (S n) [{| key := n; text := l; is_item := false; is_divider := d; is_disabled := off |}].
Proof.
  split_and!; [lia|apply NoDup_singleton|]. intros k Hk. apply list_elem_of_singleton in Hk. cbn in Hk. lia.
Qed.

Lemma render_spec cur l s : exists es ds nk,
  renderMenu cur l s = (Ok tt, with_entries es ds nk s) /\ ds.*2 = l /\ keys_from (next_key s) nk es /\
  (NoDup ds.*1 /\ forall k, k ∈ ds.*1 -> (next_key s <= k)%nat) /\ forall k i, (k, i) ∈ ds -> (k, i_disabled i) ∈ (fun e => (key e, is_disabled e)) <$> es.
Proof.
  revert cur s. induction l as [|i l IH]; intros cur s; cbn [renderMenu].
  - exists [], [], (next_key s). split_and!; [|done| |constructor|by intros ? ?%not_elem_of_nil|by intros ? ? ?%not_elem_of_nil].
    + unfold with_entries. rewrite !app_nil_r. by destruct s as [? ? ? ? ? ? ? [] ? ? ? ? ? ? ?].
    + split_and!; [lia|constructor|by intros ? ?%not_elem_of_nil].
  - set (m := if bool_decide (i_group i = cur) then _ else _).
    assert (Hm : exists es nk, m s = (Ok tt, with_entries es [] nk s) /\ keys_from (next_key s) nk es).
    { unfold m. destruct (bool_decide _).
      - exists [], (next_key s). split; [|split_and!; [lia|constructor|by intros ? ?%not_elem_of_nil]].
        unfold with_entries. rewrite !app_nil_r. by destruct s as [? ? ? ? ? ? ? [] ? ? ? ? ? ? ?].
      - eexists _, _. unfold mbind, eff_bind. rewrite append_with. split; [done|apply keys_from_one]. }
    destruct Hm as (es0 & nk0 & Hm & Hk0). rewrite (eff_bind_ok m _ s tt _ Hm).
    set (s1 := with_entries es0 [] nk0 s). rewrite (eff_bind_ok _ _ _ _ _ (append_with _ _ _ s1)).
    unfold upd. rewrite eff_bind_modify. cbn [next_key].
    set (e := {| key := next_key s1; text := i_label i; is_item := false; is_divider := false; is_disabled := i_disabled i |}).
    set (s2 := _ <| item_data := _ |>).
    assert (Hs2 : s2 = with_entries (es0 ++ [e]) [(nk0, i)] (S nk0) s).
    { unfold s2, s1, with_entries. cbn. by rewrite !app_nil_r, <- app_assoc. }
    destruct (IH (i_group i) s2) as (es & ds & nk & -> & Hd & Hk & [Hnd Hge] & Hmk).
    exists ((es0 ++ [e]) ++ es), ((nk0, i) :: ds), nk. rewrite Hs2, with_entries_app. split_and!.
    + done.
    + cbn. by rewrite Hd.
    + apply (keys_from_app _ (S nk0)); [|by rewrite Hs2 in Hk]. apply (keys_from_app _ nk0); [done|apply keys_from_one].
    + cbn. constructor; [|done]. intros H%Hge. rewrite Hs2 in H. cbn in H. lia.
    + destruct Hk0 as [Hle _]. intros k [-> |H%Hge]%elem_of_cons; [done|]. rewrite Hs2 in H. cbn in H. lia.
    + intros k j [[= -> ->]|H]%elem_of_cons; rewrite !fmap_app, !elem_of_app; [|right; by apply Hmk].
      left. right. apply list_elem_of_singleton. done.
Qed.

(** *** What the data of an element says *)

Lemma data_of_elem s ks i : data_of s ks = Some i -> exists k rest, ks = k :: rest /\ (k, i) ∈ item_data s.
Proof.
  destruct ks as [|k rest]; [done|]. cbn. destruct (list_find _ _) as [[n [k' i']]|] eqn:Hf; [|done]. cbn. intros [= ->].
  apply list_find_Some in Hf as (Hl & Hk & _). cbn in Hk. subst k'. exists k, rest. split; [done|].
  by apply (list_elem_of_lookup_2 _ n).
Qed.
Lemma elem_data_of s k i rest : NoDup (item_data s).*1 -> (k, i) ∈ item_data s -> data_of s (k :: rest) = Some i.
Proof.
  intros Hnd Hin. cbn. destruct (list_find _ _) as [[n [k' i']]|] eqn:Hf.
  - apply list_find_Some in Hf as (Hl & Hk & _). cbn in Hk |- *. subst k'. f_equal.
    apply list_elem_of_lookup in Hin as [m Hm].
    assert (Hn1 : (item_data s).*1 !! n = Some k) by (by rewrite list_lookup_fmap, Hl).
    assert (Hm1 : (item_data s).*1 !! m = Some k) by (by rewrite list_lookup_fmap, Hm).
    pose proof (NoDup_lookup _ _ _ _ Hnd Hn1 Hm1) as ->. congruence.
  - apply list_find_None in Hf. rewrite Forall_forall in Hf. by destruct (Hf _ Hin).
Qed.

Lemma parsed_lookup os i : i ∈ parseOptions os -> exists o, option_at os (i_index i) = Some o /\ i = parseOption o (i_index i) /\
  0 <= i_index i < Z.of_nat (length os).
Proof.
  intros (n & Hn)%list_elem_of_lookup. unfold parseOptions in Hn. rewrite list_lookup_imap in Hn.
  destruct (os !! n) as [o|] eqn:Ho; [|done]. injection Hn as <-. exists o. cbn. unfold option_at.
  destruct (Z.ltb_spec (Z.of_nat n) 0); [lia|]. rewrite Nat2Z.id. apply lookup_lt_Some in Ho as Hlt. split_and!; [done|done|lia|lia].
Qed.
Lemma built_item s k i : built s -> (k, i) ∈ item_data s -> i ∈ parseOptions (native s).
Proof. intros Hb Hin. rewrite <- (b_items s Hb). apply list_elem_of_fmap. by exists (k, i). Qed.

Lemma built_selected s : built s -> 0 <= selectedIndex s < Z.of_nat (length (native s)) ->
  exists k o, getSelectedItem s = [k] /\ option_at (native s) (selectedIndex s) = Some o /\
    (k, parseOption o (selectedIndex s)) ∈ item_data s.
Proof.
  intros Hb Hr. destruct (lookup_lt_is_Some_2 (native s) (Z.to_nat (selectedIndex s))) as [o Ho]; [lia|].
  assert (Hp : (item_data s).*2 !! Z.to_nat (selectedIndex s) = Some (parseOption o (selectedIndex s))).
  { rewrite (b_items s Hb). unfold parseOptions. rewrite list_lookup_imap, Ho. cbn. by rewrite Z2Nat.id by lia. }
  rewrite list_lookup_fmap in Hp. destruct (item_data s !! _) as [[k i]|] eqn:Hd; [|done]. cbn in Hp. injection Hp as ->.
  exists k, o. split_and!; [| |by apply (list_elem_of_lookup_2 _ (Z.to_nat (selectedIndex s)))].
  - unfold getSelectedItem, eq_. rewrite <- (b_keys s Hb).
    destruct (Z.ltb_spec (selectedIndex s) 0); [lia|]. destruct (Z.ltb_spec (selectedIndex s) 0); [lia|].
    by rewrite list_lookup_fmap, Hd.
  - unfold option_at. destruct (Z.ltb_spec (selectedIndex s) 0); [lia|done].
Qed.

(** *** A menu that has been rendered *)

Definition button_ok (s : selectmenu) : Prop := button_text s = label_at (native s) (selectedIndex s).
Definition drawn (s : selectmenu) : Prop := rendered s = true /\ built s /\ in_range s.
Definition kept (s s' : selectmenu) : Prop :=
  drawn s -> drawn s' /\ native s' = native s /\ (button_ok s -> button_ok s').
#[local] Instance kept_preorder : PreOrder kept.
Proof.
  split; [by intros s H|]. intros s1 s2 s3 H12 H23 H. destruct (H12 H) as (D2 & N2 & B2).
  destruct (H23 D2) as (D3 & N3 & B3). split_and!; [done|congruence|auto].
Qed.

(** The fields that matter, but for the menu's own state. *)
Definition frame_fields (s : selectmenu) :=
  (rendered s, native s, selectedIndex s, button_text s, item_data s, menuItems s, marks (sm_menu s)).
Lemma kept_same s s' : frame_fields s' = frame_fields s -> kept s s'.
Proof.
  unfold frame_fields. intros [= H1 H2 H3 H4 H5 H6 H7] (Hr & [] & Hi). unfold drawn, in_range, button_ok in *.
  rewrite H1, H2, H3, H4. split_and!; try done. constructor; rewrite ?H2, ?H5, ?H6, ?H7; done.
Qed.
Lemma kept_moved s s' : menu_only_moved s s' -> kept s s'.
Proof. intros [H Hm]. apply kept_same. unfold frame_fields. rewrite Hm. rewrite H. done. Qed.

Lemma close_fields s : frame_fields (snd (close s)) = frame_fields s /\ fst (close s) = Ok tt.
Proof. unfold close, trigger, upd. rewrite eff_bind_get. by destruct (isOpen s). Qed.

(** Choosing an item of the menu selects its option and shows its label. *)
Lemma select_fields i s : fst (select_item (Some i) s) = Ok tt /\
  frame_fields (snd (select_item (Some i) s)) = frame_fields (s <| selectedIndex := i_index i |> <| button_text := i_label i |>).
Proof.
  unfold select_item. rewrite eff_bind_get. cbn [the_item]. rewrite (eff_bind_ok (mret i) _ s i s) by done.
  unfold trigger, upd. rewrite !eff_bind_modify. set (s1 := _ <| log := _ |>).
  assert (H : forall s2, frame_fields s2 = frame_fields s1 -> fst (close s2) = Ok tt /\ frame_fields (snd (close s2)) = frame_fields s1).
  { intros s2 H2. destruct (close_fields s2) as [H ?]. split; [done|]. by rewrite H. }
  destruct (i_index i =? selectedIndex s); [by apply H|]. rewrite eff_bind_modify. by apply H.
Qed.

Lemma kept_select ks s : kept s (snd (select_item (data_of s ks) s)).
Proof.
  destruct (data_of s ks) as [i|] eqn:Hd; [|unfold select_item; by rewrite eff_bind_get].
  destruct (select_fields i s) as [_ Hf]. etrans; [|by apply kept_same].
  intros (Hr & Hb & Hi). apply data_of_elem in Hd as (k & rest & -> & Hin).
  destruct (parsed_lookup _ _ (built_item s k i Hb Hin)) as (o & Ho & Hio & Hrange).
  split_and!; [split_and!; [done|by destruct Hb|by right]|done|]. intros _. unfold button_ok, label_at. cbn.
  rewrite Ho, Hio. done.
Qed.

Lemma kept_focus e item : keeps kept (focus has_scroll e item).
Proof.
  apply keeps_focus_; try exact _; try exact kept_moved; try exact kept_select; intros i s; by apply kept_same.
Qed.

Lemma set_disabled_fields v s : fst (set_disabled v s) = Ok tt /\ frame_fields (snd (set_disabled v s)) = frame_fields s.
Proof.
  unfold set_disabled, upd, upd_menu. rewrite !eff_bind_modify. destruct v; [|by split].
  set (s1 := _ <| element_disabled := _ |>). destruct (close_fields s1) as [H ?]. split; [done|]. rewrite H. done.
Qed.

(** Focusing the selected item completes and leaves it selected. *)
Lemma focus_selected s : drawn s -> native s <> [] ->
  fst (focus has_scroll None (getSelectedItem s) s) = Ok tt /\
  selectedIndex (snd (focus has_scroll None (getSelectedItem s) s)) = selectedIndex s.
Proof.
  intros (Hr & Hb & [Hn|Hi]) Hne; [done|]. destruct (built_selected s Hb Hi) as (k & o & Hg & Ho & Hin). rewrite Hg.
  destruct (focus_tells None [k] s) as (s1 & [Hs1 Hm] & [(_ & _ & ?)|Hf]); [done|]. rewrite Hf.
  unfold on_menufocus. rewrite eff_bind_get.
  assert (Hd : data_of s1 [k] = Some (parseOption o (selectedIndex s))).
  { rewrite Hs1. apply (elem_data_of s k _ []); [apply Hb|done]. }
  rewrite Hd. cbn [the_item]. rewrite (eff_bind_ok (mret _) _ s1 (parseOption o (selectedIndex s)) s1) by done.
  assert (Hsel : selectedIndex s1 = selectedIndex s) by (by rewrite Hs1).
  assert (Hx : forall m : eff selectmenu unit, fst (m s1) = Ok tt /\ selectedIndex (snd (m s1)) = selectedIndex s ->
    fst ((m ;; upd (fun s0 => s0 <| focusIndex := Some (i_index (parseOption o (selectedIndex s))) |>)) s1) = Ok tt /\
    selectedIndex (snd ((m ;; upd (fun s0 => s0 <| focusIndex := Some (i_index (parseOption o (selectedIndex s))) |>)) s1)) = selectedIndex s).
  { intros m [Hm1 Hm2]. unfold mbind, eff_bind. destruct (m s1) as [r s2]. cbn in Hm1, Hm2. by subst r. }
  apply Hx. destruct (focusIndex s1) as [f|]; [|done]. destruct (_ =? f); [done|].
  unfold trigger, upd. rewrite eff_bind_modify. destruct (isOpen s1); [done|].
  set (s2 := s1 <| log := _ |>). destruct (select_fields (parseOption o (selectedIndex s)) s2) as [Hok Hf2]. split; [done|].
  unfold frame_fields in Hf2. injection Hf2 as _ _ Hs _ _ _ _. exact Hs.
Qed.

Lemma refreshMenu_draws s : in_range s ->
  fst (refreshMenu has_scroll s) = Ok tt /\ drawn (snd (refreshMenu has_scroll s)) /\
  native (snd (refreshMenu has_scroll s)) = native s /\
  (button_ok s -> button_ok (snd (refreshMenu has_scroll s))) /\
  selectedIndex (snd (refreshMenu has_scroll s)) = selectedIndex s.
Proof.
  intros Hi. unfold refreshMenu, upd. rewrite !eff_bind_modify, eff_bind_get.
  set (s1 := _ <| items := _ |>). change (items s1) with (parseOptions (native s)).
  destruct (render_spec [] (parseOptions (native s)) s1) as (es & ds & nk & Hren & Hds & Hk & [Hnd _] & Hmk).
  rewrite (eff_bind_ok _ _ _ _ _ Hren). set (s2 := with_entries es ds nk s1).
  destruct (moved_menu_refresh s2) as [[Hm1 Hm2] Hok]. set (s3 := snd (menu_refresh s2)) in *.
  rewrite (eff_bind_ok menu_refresh _ s2 tt s3) by (unfold s3; destruct (menu_refresh s2); cbn in Hok; by subst).
  rewrite eff_bind_modify, eff_bind_get. set (s4 := s3 <| menuItems := _ |> <| rendered := true |>).
  assert (Hmarks : marks (sm_menu s4) = (fun e => (key e, is_disabled e)) <$> es).
  { change (marks (sm_menu s3) = (fun e => (key e, is_disabled e)) <$> es). rewrite Hm2. unfold marks. cbn.
    rewrite <- list_fmap_compose. apply list_fmap_ext. intros _ e _. cbn. unfold refresh_option. by destruct (_ || _). }
  assert (Hf : native s4 = native s /\ selectedIndex s4 = selectedIndex s /\ button_text s4 = button_text s /\
    item_data s4 = ds /\ menuItems s4 = ds.*1).
  { unfold s4. cbn. rewrite Hm1. done. }
  destruct Hf as (F1 & F2 & F3 & F4 & F5).
  assert (Hd4 : drawn s4).
  { split_and!; [done| |unfold in_range; by rewrite F1, F2]. constructor; rewrite ?F1, ?F4, ?F5, ?Hmarks; try done.
    rewrite <- list_fmap_compose. destruct Hk as (_ & Hnk & _). exact Hnk. }
  assert (Hb4 : button_ok s -> button_ok s4) by (unfold button_ok; by rewrite F1, F2, F3).
  clearbody s4. rewrite <- F1, <- F2. destruct (native s4) as [|o os] eqn:Hn; [by split_and!|].
  assert (Hne : native s4 <> []) by (by rewrite Hn). rewrite <- Hn. clear Hn.
  destruct (focus_selected s4 Hd4 Hne) as [Hfo Hfs]. set (s5 := snd (focus has_scroll None (getSelectedItem s4) s4)).
  rewrite (eff_bind_ok (focus _ _ _) _ s4 tt s5) by (unfold s5; destruct (focus _ _ _ _); cbn in Hfo; by subst).
  destruct (kept_focus None (getSelectedItem s4) s4 Hd4) as (Hd5 & N5 & B5). fold s5 in Hd5, N5, B5, Hfs. clearbody s5.
  rewrite eff_bind_get.
  destruct Hd5 as (Hr5 & Hb5 & [Hi5|Hi5]); [by rewrite N5 in Hi5|].
  destruct (built_selected s5 Hb5 Hi5) as (k & o' & Hg & Ho & Hin). rewrite Hg, (elem_data_of s5 k _ [] (b_distinct s5 Hb5) Hin).
  cbn [the_item]. rewrite (eff_bind_ok (mret _) _ s5 (parseOption o' (selectedIndex s5)) s5) by done.
  destruct (set_disabled_fields (element_disabled s5) s5) as [Hok6 Hf6]. split; [exact Hok6|].
  destruct (kept_same s5 _ Hf6) as (Hd6 & N6 & B6); [by split_and!; [done..|right]|].
  unfold frame_fields in Hf6. injection Hf6 as _ _ Hs6 _ _ _ _. split_and!; [done|congruence|auto|congruence].
Qed.

(** *** Everything that can happen *)

Definition showing (s s' : selectmenu) : Prop := shows s -> shows s' /\ native s' = native s.
#[local] Instance showing_preorder : PreOrder showing.
Proof.
  split; [by intros s H|]. intros s1 s2 s3 H12 H23 H. destruct (H12 H) as [S2 N2]. destruct (H23 S2) as [S3 N3].
  split; [done|congruence].
Qed.

Lemma drawn_shows s : drawn s -> button_ok s -> shows s.
Proof. intros (Hr & Hb & Hi) Ho. constructor; try done. intros H. congruence. Qed.
Lemma showing_same s s' : frame_fields s' = frame_fields s -> showing s s'.
Proof.
  unfold frame_fields. intros [= H1 H2 H3 H4 H5 H6 H7] []. split; [|done].
  constructor; unfold in_range; rewrite ?H1, ?H2, ?H3, ?H4, ?H5; try done.
  intros Hr. destruct (sh_built0 Hr). constructor; rewrite ?H2, ?H5, ?H6, ?H7; done.
Qed.
Lemma showing_moved s s' : menu_only_moved s s' -> showing s s'.
Proof. intros [H Hm]. apply showing_same. unfold frame_fields. rewrite Hm. rewrite H. done. Qed.
Lemma showing_kept s s' : kept s s' -> (rendered s = false -> showing s s') -> showing s s'.
Proof.
  intros Hk Hu Hs. destruct (rendered s) eqn:Hr; [|by apply Hu]. destruct Hs as [Hb _ Ho Hi].
  destruct (Hk (conj Hr (conj (Hb Hr) Hi))) as (Hd & Hn & Ho'). split; [apply drawn_shows; auto|done].
Qed.

Lemma showing_select ks s : showing s (snd (select_item (data_of s ks) s)).
Proof.
  apply showing_kept; [apply kept_select|]. intros Hr Hs.
  assert (Hd : data_of s ks = None) by (destruct ks; [done|]; cbn; by rewrite (sh_unbuilt s Hs Hr)).
  rewrite Hd. unfold select_item. by rewrite eff_bind_get.
Qed.
Lemma showing_close : keeps showing close.
Proof. intros s. apply showing_same, close_fields. Qed.

Lemma showing_refreshMenu : keeps showing (refreshMenu has_scroll).
Proof.
  intros s [_ _ Ho Hi]. destruct (refreshMenu_draws s Hi) as (_ & Hd & Hn & Hb & _). split; [apply drawn_shows; auto|done].
Qed.
Lemma refresh_shows s : in_range s ->
  shows (snd (refresh_select has_scroll s)) /\ native (snd (refresh_select has_scroll s)) = native s.
Proof.
  intros Hi. destruct (refreshMenu_draws s Hi) as (Hok & (Hr & Hb & Hir) & Hn & _). unfold refresh_select.
  set (s1 := snd (refreshMenu has_scroll s)) in *.
  rewrite (eff_bind_ok (refreshMenu _) _ s tt s1) by (unfold s1; destruct (refreshMenu _ s); cbn in Hok; by subst).
  clearbody s1. split; [|exact Hn]. apply drawn_shows; [split_and!; [done|by destruct Hb|done]|]. unfold button_ok. cbn.
  destruct Hir as [He|Hir].
  - assert (Hd : item_data s1 = []).
    { pose proof (b_items s1 Hb) as H. rewrite He in H. by destruct (item_data s1). }
    unfold label_at. rewrite He. unfold option_at. destruct (getSelectedItem s1) as [|k ks]; cbn; [|rewrite Hd; cbn];
      destruct (_ <? 0); by rewrite ?lookup_nil.
  - destruct (built_selected s1 Hb Hir) as (k & o & -> & Ho & Hin).
    unfold label_at. by rewrite Ho, (elem_data_of s1 k _ [] (b_distinct s1 Hb) Hin).
Qed.

(** The element the page may make: with a selected option, if it has any. *)
Definition proper (os : list soption) (selected : Z) : Prop := os = [] \/ 0 <= selected < Z.of_nat (length os).
Definition legal (i : select_input) : Prop :=
  match i with PageChange os selected _ => proper os selected | _ => True end.

Lemma shows_step s i : shows s -> legal i -> shows (snd (select_step upper has_scroll page_down page_up i s)).
Proof.
  intros Hs Hl.
  assert (Hk : (forall os sel off, i <> PageChange os sel off) ->
    keeps showing (select_step upper has_scroll page_down page_up i)).
  { apply keeps_select_step; try exact _; try exact showing_moved; try exact showing_select;
      try exact showing_close; try exact showing_refreshMenu; try (intros; by apply showing_same).
    intros s' Hs'. apply refresh_shows, Hs'. }
  destruct i; try (by apply Hk). cbn [select_step]. unfold page_change, upd. rewrite eff_bind_modify. by apply refresh_shows.
Qed.

(** A widget that was created on a proper element and then used. *)
Inductive select_reachable : selectmenu -> Prop :=
  | SR_create os selected off : proper os selected -> select_reachable (create_select os selected off)
  | SR_step s i : select_reachable s -> legal i -> select_reachable (snd (select_step upper has_scroll page_down page_up i s)).

Lemma reachable_shows s : select_reachable s -> shows s.
Proof.
  induction 1 as [os selected off Hp|s i _ IH Hl]; [by constructor|by apply shows_step].
Qed.

(** ** The keys and what is disabled *)

Definition enabled_at (os : list soption) (i : Z) : Prop :=
  exists o, option_at os i = Some o /\ o_disabled o = false /\ o_group_disabled o = false.
(** The selection stays, or goes to an option that is not disabled. *)
Definition careful (s s' : selectmenu) : Prop :=
  shows s -> selectedIndex s' = selectedIndex s \/ enabled_at (native s) (selectedIndex s').

Lemma careful_same s s' : selectedIndex s' = selectedIndex s -> careful s s'.
Proof. intros H _. by left. Qed.
Lemma careful_fields s s' : frame_fields s' = frame_fields s -> careful s s'.
Proof. unfold frame_fields. intros [= _ _ H _ _ _ _]. by apply careful_same. Qed.

Lemma careful_select k i s : (k, i) ∈ item_data s -> (shows s -> (k, true) ∉ marks (sm_menu s)) ->
  careful s (snd (select_item (Some i) s)).
Proof.
  intros Hin Hm Hs. right. destruct (select_fields i s) as [_ Hf]. unfold frame_fields in Hf.
  injection Hf as _ _ Hsel _ _ _ _. rewrite Hsel.
  destruct (rendered s) eqn:Hr; [|by rewrite (sh_unbuilt s Hs Hr) in Hin; apply not_elem_of_nil in Hin].
  pose proof (sh_built s Hs Hr) as Hb. destruct (parsed_lookup _ _ (built_item s k i Hb Hin)) as (o & Ho & Hio & _).
  exists o. split; [done|]. pose proof (b_marks s Hb k i Hin) as Hd. specialize (Hm Hs).
  assert (Hdis : i_disabled i = false) by (by destruct (i_disabled i)).
  rewrite Hio in Hdis. cbn in Hdis. by apply orb_false_iff in Hdis as [-> ->].
Qed.

Lemma careful_menufocus ks s :
  isOpen s = true \/ (rendered s = true -> forall k, head ks = Some k -> (k, true) ∉ marks (sm_menu s)) ->
  careful s (snd (on_menufocus ks s)).
Proof.
  intros Hc Hs. unfold on_menufocus. rewrite eff_bind_get. destruct (data_of s ks) as [i|] eqn:Hd; [|by left].
  cbn [the_item]. rewrite (eff_bind_ok (mret i) _ s i s) by done.
  assert (H : forall m : eff selectmenu unit,
    selectedIndex (snd (m s)) = selectedIndex s \/ enabled_at (native s) (selectedIndex (snd (m s))) ->
    let s' := snd ((m ;; upd (fun s => s <| focusIndex := Some (i_index i) |>)) s) in
    selectedIndex s' = selectedIndex s \/ enabled_at (native s) (selectedIndex s')).
  { intros m Hm. unfold mbind, eff_bind. by destruct (m s) as [[?|?] s2]. }
  apply H. destruct (focusIndex s) as [f|]; [|by left]. destruct (i_index i =? f); [by left|].
  unfold trigger, upd. rewrite eff_bind_modify. destruct (isOpen s); [by left|]. destruct Hc as [|Hc]; [done|].
  apply data_of_elem in Hd as (k & rest & -> & Hin).
  set (s1 := s <| log := _ |>). apply (careful_select k i s1); [done| |].
  - intros _. apply Hc; [|done]. destruct (rendered s) eqn:Hr; [done|].
    rewrite (sh_unbuilt s Hs Hr) in Hin. by apply not_elem_of_nil in Hin.
  - apply (showing_same s); [done|exact Hs].
Qed.

Lemma careful_focus e ks s :
  isOpen s = true \/ (rendered s = true -> forall k, head ks = Some k -> (k, true) ∉ marks (sm_menu s)) ->
  careful s (snd (focus has_scroll e ks s)).
Proof.
  intros Hc Hs. destruct (focus_tells e ks s) as (s1 & Hmv & Hf). destruct (showing_moved s s1 Hmv Hs) as [Hs1 Hn].
  destruct Hmv as [H1 Hm].
  assert (Hsel : selectedIndex s1 = selectedIndex s) by (by rewrite H1).
  assert (Hop : isOpen s1 = isOpen s) by (by rewrite H1).
  assert (Hr1 : rendered s1 = rendered s) by (by rewrite H1).
  destruct Hf as [(-> & _ & _)| ->]; [by left|]. rewrite <- Hsel, <- Hn. apply careful_menufocus; [|done].
  destruct Hc as [Hc|Hc]; [left; congruence|right]. intros Hr k Hk. rewrite Hm. apply Hc; [congruence|done].
Qed.

Lemma marks_elem m k b : (k, b) ∈ marks m <-> exists e, e ∈ entries m /\ key e = k /\ is_disabled e = b.
Proof.
  unfold marks. rewrite list_elem_of_fmap. split.
  - intros (e & [= -> ->] & He). by exists e.
  - intros (e & He & <- & <-). by exists e.
Qed.
Lemma marks_unique m k b b' : NoDup (marks m).*1 -> (k, b) ∈ marks m -> (k, b') ∈ marks m -> b = b'.
Proof.
  intros Hnd (i & Hi)%list_elem_of_lookup (j & Hj)%list_elem_of_lookup.
  assert (i = j) as ->; [|congruence]. apply (NoDup_lookup _ _ _ k Hnd); by rewrite list_lookup_fmap, ?Hi, ?Hj.
Qed.

Lemma before_elem k l e : e ∈ before k l -> e ∈ l.
Proof.
  induction l as [|x l IH]; cbn; [done|]. destruct (_ =? _)%nat; [by intros ?%not_elem_of_nil|].
  rewrite !elem_of_cons. intros [->|H]; [by left|right; by apply IH].
Qed.
Lemma after_elem k l e : e ∈ after k l -> e ∈ l.
Proof.
  induction l as [|x l IH]; cbn; [done|]. destruct (_ =? _)%nat; rewrite elem_of_cons; [by right|]. intros H. right. by apply IH.
Qed.
Lemma siblings_elem keep d m k x : x ∈ siblings keep d m k -> exists e, e ∈ entries m /\ key e = x /\ keep e = true.
Proof.
  unfold siblings. destruct (bool_decide _); [|by intros ?%not_elem_of_nil].
  assert (H : forall l, (forall e, e ∈ l -> e ∈ entries m) -> x ∈ keys (List.filter keep l) -> exists e, e ∈ entries m /\ key e = x /\ keep e = true).
  { intros l Hl (e & -> & He)%list_elem_of_fmap. rewrite list_elem_of_In, filter_In, <- list_elem_of_In in He.
    destruct He as [He Hk]. exists e. by split_and!; [apply Hl| |]. }
  destruct d; [rewrite list_elem_of_In, <- in_rev, <- list_elem_of_In|]; apply H; intros e; [apply before_elem|apply after_elem].
Qed.
Lemma target_elem d s x : x ∈ move_target d s ->
  exists e, e ∈ entries (sm_menu s) /\ key e = x /\ (isOpen s = true \/ is_disabled e = false).
Proof.
  unfold move_target. set (keep := fun e => is_item e && (isOpen s || negb (is_disabled e))).
  assert (H : forall (l : list nat) b m k, (forall y, y ∈ l -> y ∈ siblings keep b m k) -> m = sm_menu s -> x ∈ l ->
    exists e, e ∈ entries (sm_menu s) /\ key e = x /\ (isOpen s = true \/ is_disabled e = false)).
  { intros l b m k Hl -> Hx. destruct (siblings_elem _ _ _ _ _ (Hl x Hx)) as (e & He & Hk & Hkp). exists e.
    split_and!; [done..|]. unfold keep in Hkp. apply andb_prop in Hkp as [_ Hkp]. apply orb_prop in Hkp as [|Hd]; [by left|right].
    by apply negb_true_iff. }
  assert (Hf : forall l y, y ∈ first_of l -> y ∈ l).
  { intros [|z l] y; unfold first_of; cbn; [done|]. intros Hy%list_elem_of_singleton. subst. by left. }
  assert (Hla : forall l y, y ∈ last_of l -> y ∈ l).
  { intros l y. unfold last_of. destruct (last l) as [z|] eqn:Hz; [|by intros ?%not_elem_of_nil].
    intros ->%list_elem_of_singleton. apply last_Some in Hz as [l' ->]. apply elem_of_app. right. by left. }
  destruct (if isOpen s then _ else _) as [k|]; [|by intros ?%not_elem_of_nil].
  destruct d; (eapply H; [first [exact (Hla _)|exact (Hf _)]|done]).
Qed.

Lemma careful_move d : keeps careful (move_ has_scroll d).
Proof.
  intros s Hs. unfold move_. rewrite eff_bind_get. cbv zeta. destruct (bool_decide _); [by left|]. apply careful_focus; [|done].
  destruct (isOpen s) eqn:Hop; [by left|right]. intros Hr k Hk Hin.
  assert (Hx : k ∈ move_target d s) by (destruct (move_target d s); [done|]; injection Hk as ->; by left).
  destruct (target_elem d s k Hx) as (e & He & Hke & [Hd|Hd]); [congruence|].
  pose proof (sh_built s Hs Hr) as Hb. assert (He' : (k, false) ∈ marks (sm_menu s)) by (apply marks_elem; by exists e).
  by pose proof (marks_unique _ _ _ _ (b_nodup s Hb) Hin He').
Qed.

Lemma careful_close : keeps careful close.
Proof. intros s. apply careful_fields, close_fields. Qed.

(** Focusing the selected item leaves it selected, whether the menu is there or not. *)
Lemma focus_selected_same s : shows s -> selectedIndex (snd (focus has_scroll None (getSelectedItem s) s)) = selectedIndex s.
Proof.
  intros Hs. destruct (rendered s) eqn:Hr.
  - pose proof (sh_built s Hs Hr) as Hb. pose proof (sh_range s Hs) as Hi. destruct (native s) as [|o os] eqn:Hn.
    + assert (Hd : item_data s = []) by (pose proof (b_items s Hb) as H; rewrite Hn in H; by destruct (item_data s)).
      assert (Hg : getSelectedItem s = []).
      { unfold getSelectedItem. rewrite <- (b_keys s Hb), Hd. unfold eq_. cbn. by repeat case_match. }
      rewrite Hg. destruct (focus_tells None [] s) as (s1 & [H1 _] & [(-> & _ & _)|Hf]); [by rewrite H1|].
      rewrite Hf. unfold on_menufocus. rewrite eff_bind_get. cbn. by rewrite H1.
    + apply focus_selected; [by split_and!|congruence].
  - destruct (focus_tells None (getSelectedItem s) s) as (s1 & [H1 _] & [(-> & _ & _)|Hf]); [by rewrite H1|].
    assert (Hd : data_of s1 (getSelectedItem s) = None).
    { rewrite H1. destruct (getSelectedItem s); [done|]. cbn. by rewrite (sh_unbuilt s Hs Hr). }
    rewrite Hf. unfold on_menufocus. rewrite eff_bind_get, Hd. cbn. by rewrite H1.
Qed.

Lemma careful_open : keeps careful (open has_scroll).
Proof.
  intros s Hs. left. unfold open. rewrite eff_bind_get. destruct (sm_disabled s); [done|].
  set (m := if rendered s then _ else _).
  assert (Hm : selectedIndex (snd (m s)) = selectedIndex s).
  { unfold m. destruct (rendered s) eqn:Hr.
    - unfold upd_menu. rewrite eff_bind_modify, eff_bind_get. set (s1 := set_menu _ s).
      change (selectedIndex s) with (selectedIndex s1). apply focus_selected_same.
      apply (showing_moved s s1); [split; reflexivity|done].
    - by apply refreshMenu_draws, sh_range. }
  unfold mbind at 1, eff_bind at 1. destruct (m s) as [[?|?] s1]; [|exact Hm]. rewrite eff_bind_get.
  destruct (menuItems s1); [exact Hm|]. unfold trigger, upd. by rewrite eff_bind_modify.
Qed.

Lemma careful_focused : keeps careful selectFocusedItem.
Proof.
  intros s Hs. unfold selectFocusedItem. rewrite eff_bind_get. cbv zeta.
  set (item := option_list _). destruct (existsb _ item) eqn:He; [by left|].
  destruct (data_of s item) as [i|] eqn:Hd; [|unfold select_item; rewrite eff_bind_get; by left].
  apply data_of_elem in Hd as (k & rest & Hk & Hin). apply (careful_select k i s Hin); [|done]. intros _ Hdis.
  destruct (rendered s) eqn:Hr; [|by rewrite (sh_unbuilt s Hs Hr) in Hin; apply not_elem_of_nil in Hin].
  pose proof (sh_built s Hs Hr) as Hb. rewrite Hk in He. cbn in He. apply orb_false_iff in He as [He _].
  unfold entry_of in He. apply marks_elem in Hdis as Hx. destruct Hx as (e & Hine & Hke & Hde).
  destruct (list_find (fun e => key e = k) (entries (sm_menu s))) as [[n e']|] eqn:Hf.
  - apply list_find_Some in Hf as (Hl & Hke' & _). cbn in He.
    assert (Hm' : (k, false) ∈ marks (sm_menu s)).
    { apply marks_elem. exists e'. split_and!; [by apply (list_elem_of_lookup_2 _ n)|done|done]. }
    by pose proof (marks_unique _ _ _ _ (b_nodup s Hb) Hdis Hm').
  - apply list_find_None in Hf. rewrite Forall_forall in Hf. by destruct (Hf e Hine).
Qed.

(** The inputs that choose by the button: its keys but those that are passed on
    to the menu, clicks, and the methods. *)
Definition by_button (i : select_input) : Prop :=
  match i with
  | ButtonKey code _ => is_own_key code = true
  | MenuInput _ | PageChange _ _ _ => False
  | _ => True
  end.

Lemma careful_step i : by_button i -> keeps careful (select_step upper has_scroll page_down page_up i).
Proof.
  assert (Ht : keeps careful (toggle has_scroll)).
  { intros s. unfold toggle. rewrite eff_bind_get. destruct (isOpen s); [apply careful_close|apply careful_open]. }
  assert (Hh : forall h, keeps careful h -> keeps careful (handler_ h)).
  { intros h H s. unfold handler_. rewrite eff_bind_get. destruct (sm_disabled s); [by apply careful_same|apply H]. }
  intros Hi. destruct i as [| |code alt|outside|i| | | |v|os sel off]; try done; cbn [select_step].
  - intros s Hs. left. unfold on_focusin. rewrite eff_bind_get. destruct (fresh_button s); [|done].
    unfold upd. rewrite eff_bind_modify. destruct (rendered s); [done|].
    set (s1 := s <| fresh_button := false |>). by destruct (refreshMenu_draws s1 (sh_range s Hs)) as (_ & _ & _ & _ & ->).
  - by apply Hh.
  - apply Hh. intros s. unfold button_key. rewrite eff_bind_get. cbn in Hi. unfold is_own_key in Hi. cbn in Hi.
    repeat match goal with |- careful _ (snd ((if ?b then _ else _) _)) => destruct b eqn:? end;
      try apply careful_close; try apply careful_focused; try apply careful_move; try apply Ht; try (by apply careful_same).
    exfalso. repeat match goal with H : orb _ _ = false |- _ => apply orb_false_iff in H as [? ?] end.
    repeat match goal with H : (code =? _) = false |- _ => rewrite H in Hi end. done.
  - apply Hh. destruct outside; [apply careful_close|]. intros s. by apply careful_same.
  - apply careful_open.
  - apply careful_close.
  - intros s Hs. left. unfold refresh_select. pose proof (refreshMenu_draws s (sh_range s Hs)) as (Hok & _ & _ & _ & Hsel).
    unfold mbind, eff_bind. destruct (refreshMenu has_scroll s) as [r s1]. cbn in Hok, Hsel. by subst r.
  - intros s. apply careful_fields, set_disabled_fields.
Qed.
(** ** Theorems *)

(** C18. The button shows the label of the selected option, however the widget was
    used, as long as the page calls [refresh] when it has changed the element;
    and the items of a drawn menu are the options, disabled alike. *)
Theorem button_shows_selection s : select_reachable s ->
  button_text s = label_at (native s) (selectedIndex s) /\
  (native s = [] \/ 0 <= selectedIndex s < Z.of_nat (length (native s))) /\
  (rendered s = true -> (item_data s).*2 = parseOptions (native s) /\ (item_data s).*1 = menuItems s /\
    forall k i, (k, i) ∈ item_data s -> exists e, e ∈ entries (sm_menu s) /\ key e = k /\ is_disabled e = i_disabled i).
Proof.
  intros H%reachable_shows. split_and!; [by apply sh_button|by apply sh_range|]. intros Hr.
  pose proof (sh_built s H Hr) as Hb. split_and!; [by apply b_items|by apply b_keys|].
  intros k i Hin. by apply marks_elem, b_marks.
Qed.

(** C19. Whatever the user and the page do, save changing the element: the events
    tell of every change of the selection. An event select that names another
    option than the selected one is followed at once by the event change that
    names the same, no other event change occurs, and the last one names the
    option that is then selected. *)
Theorem changes_told l s : Forall (fun i => forall os sel off, i <> PageChange os sel off) l ->
  exists d, log (select_run upper has_scroll page_down page_up l s) = log s ++ d /\
    tell (selectedIndex s) d = Some (selectedIndex (select_run upper has_scroll page_down page_up l s), None).
Proof.
  intros H. change (told s (select_run upper has_scroll page_down page_up l s)).
  revert s. induction H as [|i l Hi _ IH]; intros s; [reflexivity|]. etrans; [apply (told_step i Hi s)|apply IH].
Qed.

(** C20. The keys the button handles itself (the arrow, page, home and end keys,
    enter, space, tab and escape), clicks on the button or elsewhere, focusing it,
    and the methods open, close, refresh and the option disabled leave the
    selection as it is or move it to an option that is not disabled, neither
    itself nor with its group.  Keys that the button passes on to the menu are not
    among them: see [letter_selects_disabled]. *)
Theorem keys_skip_disabled s i : select_reachable s -> by_button i ->
  let s' := snd (select_step upper has_scroll page_down page_up i s) in
  selectedIndex s' = selectedIndex s \/ enabled_at (native s) (selectedIndex s').
Proof. intros Hs%reachable_shows Hi. by apply (careful_step i Hi). Qed.
End Selectmenu.

(** ** Examples *)

Definition ascii_upper (c : Z) : Z := if (97 <=? c) && (c <=? 122) then c - 32 else c.
Definition option_ (l : string) (off : bool) : soption :=
  {| o_label := str l; o_disabled := off; o_group := []; o_group_disabled := false |}.
Definition grouped (l g : string) (off : bool) : soption :=
  {| o_label := str l; o_disabled := false; o_group := str g; o_group_disabled := off |}.
Definition speeds : list soption :=
  [option_ "slow" false; option_ "paused" true; option_ "fast" false; grouped "Warp" "fiction" true; grouped "Max" "real" false].
Abbreviation sel_run := (select_run ascii_upper (fun _ => false) (fun _ _ _ => true) (fun _ _ _ => true)).
Abbreviation sel_step i s := (snd (select_step ascii_upper (fun _ => false) (fun _ _ _ => true) (fun _ _ _ => true) i s)).
Abbreviation fresh_select := (create_select speeds 0 false).
Abbreviation sel_reachable := (select_reachable ascii_upper (fun _ => false) (fun _ _ _ => true) (fun _ _ _ => true)).

Lemma run_reachable l s : Forall legal l -> sel_reachable s -> sel_reachable (sel_run l s).
Proof. intros H. revert s. induction H as [|i l Hi _ IH]; intros s Hs; [done|]. apply IH. by apply SR_step. Qed.
Lemma fresh_reachable : sel_reachable fresh_select.
Proof. apply SR_create. right. by vm_compute. Qed.

Lemma button_shows_selection_witness : exists s, selectedIndex s = 4 /\ rendered s = true /\
  button_text s = label_at (native s) (selectedIndex s) /\
  (native s = [] \/ 0 <= selectedIndex s < Z.of_nat (length (native s))) /\
  (rendered s = true -> (item_data s).*2 = parseOptions (native s) /\ (item_data s).*1 = menuItems s /\
    forall k i, (k, i) ∈ item_data s -> exists e, e ∈ entries (sm_menu s) /\ key e = k /\ is_disabled e = i_disabled i).
Proof.
  exists (sel_run [ButtonFocus; ButtonKey 40 false; ButtonKey 40 false] fresh_select).
  split; [by vm_compute|]. split; [by vm_compute|].
  apply (button_shows_selection ascii_upper (fun _ => false) (fun _ _ _ => true) (fun _ _ _ => true)).
  apply run_reachable; [by repeat constructor|exact fresh_reachable].
Defined.

Lemma changes_told_witness : exists l, selectedIndex (sel_run l fresh_select) = 2 /\
  exists d, log (sel_run l fresh_select) = log fresh_select ++ d /\
    tell (selectedIndex fresh_select) d = Some (selectedIndex (sel_run l fresh_select), None).
Proof.
  exists [ButtonFocus; ButtonClick; ButtonKey 40 false; ButtonKey 40 false; ButtonKey 13 false].
  split; [by vm_compute|]. apply changes_told. by repeat constructor.
Defined.

Lemma keys_skip_disabled_witness : exists s, selectedIndex s = 0 /\
  let s' := sel_step (ButtonKey 40 false) s in
  selectedIndex s' = 2 /\ (selectedIndex s' = selectedIndex s \/ enabled_at (native s) (selectedIndex s')).
Proof.
  exists (sel_run [ButtonFocus] fresh_select). split; [by vm_compute|]. cbv zeta. split; [by vm_compute|].
  apply (keys_skip_disabled ascii_upper (fun _ => false) (fun _ _ _ => true) (fun _ _ _ => true)); [|done].
  apply run_reachable; [by repeat constructor|exact fresh_reachable].
Defined.

(** The end key goes to the last option that is not disabled. *)
Example end_key :
  button_text (sel_run [ButtonFocus; ButtonKey 35 false] fresh_select) = str "Max".
Proof. by vm_compute. Qed.

(** A letter typed in the closed menu selects an option that is disabled. *)
Example letter_selects_disabled :
  selectedIndex (sel_run [ButtonFocus; ButtonKey 80 false] fresh_select) = 1.
Proof. by vm_compute. Qed.

(** The open menu is moved in and closed: the down key does nothing any more. *)
Example down_is_stuck :
  let s := sel_run [ButtonFocus; ButtonClick; ButtonKey 40 false; ButtonKey 40 false; ButtonKey 27 false] fresh_select in
  selectedIndex s = 0 /\ selectedIndex (sel_run [ButtonKey 40 false; ButtonKey 40 false] s) = 0.
Proof. by vm_compute. Qed.

(** Opening it again announces that the selected option is selected. *)
Example reopening_selects :
  let s := sel_run [ButtonFocus; ButtonClick; ButtonKey 40 false; ButtonKey 27 false; ButtonClick] fresh_select in
  log s = [SOpen; SFocus 1; SClose; SFocus 0; SSelect 0; SOpen].
Proof. by vm_compute. Qed.

(** An element without options: opening it for the second time throws. *)
Example empty_opens_once :
  let s := sel_run [CallOpen] (create_select [] (-1) false) in
  fst (open (fun _ => false) s) = Throw TypeError.
Proof. by vm_compute. Qed.

(** With nothing selected, opening the menu selects its last option. *)
Example none_selected_reopened :
  let s := sel_run [ButtonFocus; ButtonClick; ButtonKey 36 false; ButtonKey 27 false; ButtonClick] (create_select speeds (-1) false) in
  selectedIndex s = 4.
Proof. by vm_compute. Qed.
